(* ===== verification/_CoqProject ===== *)
-Q . S2P
Prelude.v
PyDict.v
Sha256.v
Segmenter.v
Policy.v
Allocator.v
TokenAllocator.v
MambaAllocator.v
Engine.v
ReqPool.v
ReqPoolFacts.v
PICache.v
Scenario.v
PICacheFacts.v
PICacheMatch.v
NextRound.v
PICacheEvict.v
CacheCommon.v
PICacheReg.v
PICacheRelease.v
PicAlloc.v
PicAllocFacts.v
Scatter.v
ScatterFacts.v
ScatterProtocol.v
Admission.v
InvariantChecker.v
Paged.v
PagedFacts.v
PagedAlloc.v
RadixKey.v
RadixTree.v
RadixShape.v
RadixSplit.v
RadixOps.v
RadixInsert.v
RadixLock.v
RadixEvict.v
RadixReq.v
RadixReqFacts.v
RadixCache.v
ConvTails.v
ConvTailsFacts.v
GdnMeta.v
GdnMetaFacts.v
GdnForward.v
GdnFacts.v
GdnRecompute.v
GdnRecomputeFacts.v
KVBuffer.v
FlashPrefill.v
FullAttn.v
RopeKV.v
RopeKVFacts.v
CrossSegment.v
RopeForward.v
RopePlanFacts.v
RopeForwardFacts.v
RopeAllocFacts.v
ForwardBatch.v
ForwardBatchFacts.v
PlanFacts.v
PrefillAdder.v
PrefillAdderFacts.v
PrefillChain.v
ServerArgs.v
GdnAdditionFacts.v
KdaForward.v
KdaFacts.v
LightningPlan.v
LightningForward.v
LightningFacts.v
LightningReFacts.v
SegLaTensor.v
