(* ===== verification/Prelude.v ===== *)
(** * HYPIC: a verification library for position-independent caching

    HYPIC extends the SGLang serving engine with position-independent
    caching (PIC) for hybrid models: a prompt is split into segments, the
    state of every segment (its KV slots in the full-attention layers, one
    Mamba slot in the linear-attention layers) is cached under the hash of
    its tokens alone, and a later prompt reuses it wherever the segment
    occurs.  The files below model that code, under
    src/python/sglang/srt/, and prove what it promises.

    ** The parts and their files

    - Language: [Prelude] (sequences with Python indexing, stable sort, the
      state-and-exception monad [M] and the pure [outcome], weakest
      preconditions, the hint databases [hyx] and [pyx]), [PyDict]
      (insertion-ordered dictionaries), [Sha256].
    - Segmentation: [Segmenter] (pic/segmenter.py), [Policy] (pic/policy.py).
    - Allocators: [Allocator] is the interface (a class with its laws) that
      the caches are proved against; [TokenAllocator], [MambaAllocator]
      (mem_cache/allocator/) are its instances; [Paged], [PagedFacts],
      [PagedAlloc] are the page-granular allocator and its Triton kernels.
    - Engine: [Engine] is the state that the PIC cache, the request pools
      and the requests share; [ReqPool], [ReqPoolFacts]
      (mem_cache/memory_pool.py).
    - PIC cache: [PICache] has every operation of pic/picache.py;
      [PICacheFacts], [PICacheMatch], [PICacheEvict], [PICacheReg] and
      [PICacheRelease] are its lemmas by operation; [Scenario] is a small
      engine on which the witnesses run.
    - Around a prefill: [NextRound] (Req.init_next_round_input in
      managers/schedule_batch.py), [CacheCommon] (mem_cache/common.py),
      [PicAlloc], [PicAllocFacts], [RopeAllocFacts] (pic/pic_alloc.py),
      [ForwardBatch], [ForwardBatchFacts] (the PIC fields of
      ForwardBatch.init_new, model_executor/forward_batch_info.py).
    - Building a batch: [PrefillAdder], [PrefillAdderFacts] (the adder of
      managers/schedule_policy.py and the admission loop of
      managers/scheduler.py), [PlanFacts] (what planning leaves for the
      allocation), [PrefillChain] (queue, plan, admission, allocation and
      metadata composed), [ServerArgs] (the PIC checks of server_args.py).
    - Transfer plane: [Scatter] (pic/scatter_xfer.py and the scheduler hooks
      that call it), [ScatterFacts], [ScatterProtocol]; [Admission]
      (managers/scheduler.py), [InvariantChecker].
    - Radix cache, the prefix cache of the other mode: [RadixKey] to
      [RadixCache] (mem_cache/radix_cache.py, evict_policy.py, utils.py).
    - Linear-attention layers: [ConvTails], [ConvTailsFacts]
      (pic/conv_tails.py), [GdnMeta], [GdnMetaFacts], [GdnForward],
      [GdnFacts] (transition), [GdnAdditionFacts] (addition),
      [GdnRecompute], [GdnRecomputeFacts] (recompute)
      (layers/attention/linear/gdn_backend.py); [KdaForward], [KdaFacts]
      (kda_backend.py, over the interfaces of the GDN layers);
      [LightningPlan], [LightningForward], [LightningFacts],
      [LightningReFacts] (lightning_backend.py, the SegLA layers: plan,
      forward paths and dispatch, the modes without and with
      recomputation), [SegLaTensor] (their states as tensors, with the
      rotation of the key axis and the decay).
    - Full-attention layers (layers/attention/hybrid_linear_attn_backend.py):
      [KVBuffer] (a layer's key and value rows), [FlashPrefill] (the
      contract of the attention kernel), [FullAttn] (the modes without
      re-rotation), [RopeKV], [RopeKVFacts] (rotation, phases A and B),
      [RopeForward], [RopePlanFacts], [RopeForwardFacts] (the rows of the
      batch, the plan of phase C, the whole layer), [CrossSegment] (the
      variant for Bailing's models).

    A definition has the name of the function it translates, with a prefix
    where two classes share one ([rx_] for the radix cache, [token_],
    [mamba_], [paged_], [pool_]).  A procedure that mutates state is a
    function in [M S], which keeps the writes made before an exception.

    ** What the theorems show

    - No slot is lost or handed out twice: [ScatterFacts.transfer_conserves]
      over arbitrary sequences of scheduler events, [PICacheReg] and
      [PICacheRelease] for registration and release, [PICacheEvict] and
      [CacheCommon] for eviction on demand, [RadixCache] for both request
      hooks of the radix tree, [PagedAlloc] for pages.
    - A prefill computes the right thing: the plan covers the prompt
      ([NextRound]), every miss token gets a slot that its row maps
      ([PicAllocFacts]; [RopeAllocFacts] in the re-rotation modes, from
      which [ForwardBatchFacts] derives the well-formed metadata and
      unshared slots that the layers' theorems start from), the convolution
      of a miss segment sees the inputs before it ([ConvTailsFacts]), and in
      transition mode the composed linear-attention state is that of the
      plain recurrence over the whole prompt ([GdnFacts], a refinement of
      the token-by-token recurrence); [GdnAdditionFacts] says what addition
      mode computes instead.  The SegLA layers refine their recurrence too,
      in the transition modes without recomputation ([LightningFacts]) and
      with it ([LightningReFacts]): cached states are rotated to their
      place, and a segment is cached as if it began at position 0.
      In the full-attention layers every computed token attends to exactly
      the positions up to its own: [FullAttn] without re-rotation, and
      [RopeForwardFacts] with it, where the keys of reused segments are
      shown to be those the model computes at their new positions
      ([RopeKVFacts] for any commutative ring whose cos/sin table satisfies
      the addition formulas).
    - The parts compose: what the admission loop takes from the waiting
      queue is planned, fits the KV cache up to the tokens its last request
      locks ([PrefillAdderFacts.admitted_batch_allocates]), is allocated, and
      gives the layers well-formed metadata
      ([PrefillChain.scheduled_batch_typed]).
    - Optimised code equals its reference: the extend and decode kernels
      ([PagedFacts], [PagedAlloc]), the galloping key comparison
      ([RadixKey]), the two branches of the segment hash ([Segmenter]),
      group allocation ([MambaAllocator]).
    - The radix tree refines a set of cached prefixes: [RadixCache] states
      match, insert and evict on that abstraction.
    - Protocol: a notification decodes to the segment it was composed for, a
      landed segment is filed, parked combines are released or expired
      exactly, write pins are paired ([ScatterProtocol]).
    - Defects of the code are theorems too: a second registration frees
      slots of the index, a failed push keeps its pin, a short one-segment
      prompt leaks ([PICacheRelease], [ScatterProtocol]), the recompute
      mode counts a cached segment's sink twice ([GdnRecomputeFacts]), the
      cross-segment variant is not causal for sinks ([CrossSegment]), the
      adder admits batches that cannot be allocated, because it counts the
      segments a request reuses as evictable and, in the re-rotation modes,
      counts a computed token once ([PrefillAdderFacts]), its list of
      estimates does not stay sorted, addition mode caches states that
      depend on what preceded the segment ([GdnAdditionFacts]), and the
      transition layer of the KDA backend always raises ([KdaFacts]).

    ** Bounds, fuel and abstraction

    Slots, lengths and tensor entries are integers in [Z]; widths matter and
    are kept where the code casts (the token ids of a segment hash are
    bytes of 32-bit integers, the FNV hash wraps at 64 bits).  Loops whose
    recursion is not structural carry fuel: two more than the binary
    logarithm of the shorter key in [RadixKey.match_bisect] and
    [match_gallop] (each round halves or doubles the window), the key's
    length or the number of nodes in the loops of [RadixTree] (each round
    consumes a page or visits another node), the number of queries in
    [RopeForward.emit_runs] (each run takes one).  The theorems show that
    [OutOfFuel] is not raised.

    Code outside the repository is an argument: the tokenizer, the clock,
    the transfer agent and HTTP posts, and the device kernels
    [causal_conv1d_fn], [_fla_fwd_h], [_fla_fwd_o], whose contract is the
    class [DeltaKernelSpec] (each row advances by its tokens' affine steps,
    as the comments of gdn_backend.py state); [GdnFacts.Mat2] is an
    instance.  FlashInfer's batched prefill is the class
    [FlashPrefill.CausalPrefill], with a reference kernel as instance;
    [seg_la_fwd] has the contract [LightningFacts.SegLaSpec], with a
    reference kernel in [SegLaTensor.Quarter].  The laws of SegLA states
    ([SegAlgLaws]) are proved for tensors over any commutative ring whose
    decay is multiplicative and whose cos/sin table is on the unit circle;
    tensors are functions of their indices, compared extensionally.
    States and keys are taken in exact arithmetic where the device has
    floating point, and the new-token ratio of the prefill adder is a
    rational.

    ** Not modelled

    Floating-point numerics, attention kernels and model code; HTTP servers,
    loaders, argument parsing apart from the PIC checks, and process
    management; logging, metrics and dumps; KV events and the host tier of
    the radix cache; of the schedulers, the running batch, overlap,
    preemption, LoRA, the cache-aware orderings of the queue and the budgets
    of sliding-window and diffusion models; the SWA and DSV4 pools. *)

From stdpp Require Export prelude sorting.
From Stdlib Require Export ZArith Lia.

#[global] Open Scope Z_scope.

(** ** Python sequences

    Python's [len], slices and indexing over [Z] indices.  [pyidx n i]
    is the clamped position that the slice bound [i] denotes in a
    sequence of length [n] (negative bounds count from the end). *)

Declare Scope py_scope.
Delimit Scope py_scope with py.

Definition len {A} (l : list A) : Z := Z.of_nat (length l).

Definition pyidx (n i : Z) : Z :=
  if i <? 0 then Z.max 0 (i + n) else Z.min i n.

Definition pyslice {A} (l : list A) (s e : Z) : list A :=
  let s' := pyidx (len l) s in
  let e' := pyidx (len l) e in
  take (Z.to_nat (e' - s')) (drop (Z.to_nat s') l).

(** [l[:e]] and [l[s:]]. *)
Definition slice_to {A} (l : list A) (e : Z) : list A :=
  take (Z.to_nat (pyidx (len l) e)) l.
Definition slice_from {A} (l : list A) (s : Z) : list A :=
  drop (Z.to_nat (pyidx (len l) s)) l.

(** [l[i]] for an integer index, [None] where Python raises IndexError. *)
Definition pyget {A} (l : list A) (i : Z) : option A :=
  let j := if i <? 0 then i + len l else i in
  if (0 <=? j) && (j <? len l) then l !! Z.to_nat j else None.

(** [range(s, e)]. *)
Definition pyrange (s e : Z) : list Z := seqZ s (e - s).

Definition zsum (l : list Z) : Z := foldr Z.add 0 l.

(** Element-wise casts of a tensor to a machine width. *)
Definition wrap_signed (w z : Z) : Z := (z + 2 ^ (w - 1)) mod 2 ^ w - 2 ^ (w - 1).
Definition to_int32 (z : Z) : Z := wrap_signed 32 z.

(** [enumerate]. *)
Definition enumerate {A} (l : list A) : list (Z * A) :=
  zip (seqZ 0 (len l)) l.

(** [l[-1]] as used under a non-emptiness guard. *)
Definition pylast {A} (l : list A) : option A := last l.

(** ** [list.sort(key=...)]

    Python's sort is stable; [sort_by le l] inserts each element, from
    the right, before the first element it does not exceed, which keeps
    equal keys in their original order. *)

Section sort.
Context {A : Type} (le : A -> A -> bool).

Fixpoint sort_insert (x : A) (l : list A) : list A :=
  match l with
  | [] => [x]
  | y :: l' => if le x y then x :: y :: l' else y :: sort_insert x l'
  end.

Definition sort_by (l : list A) : list A := foldr sort_insert [] l.

End sort.

Definition sort_key {A} (key : A -> Z) : list A -> list A :=
  sort_by (fun x y => key x <=? key y).

Definition sort_Z : list Z -> list Z := sort_key id.

(** ** Exceptions and state

    A Python procedure over a state [S] returns a value or raises, and
    its writes before the raise stay: [M S A] is state passing outside
    the sum.  [OutOfFuel] is no Python exception: it marks a loop whose
    fuel ran out, and the theorems show it is not raised. *)

Inductive exn :=
  | RuntimeError | AssertionError | KeyError | IndexError | ValueError
  | OverflowError | TypeError | NameError | TimeoutError | NotImplementedError | OutOfFuel.

#[global] Instance exn_eq_dec : EqDecision exn.
Proof. solve_decision. Defined.

Inductive outcome (A : Type) :=
  | Ret (a : A)
  | Raise (e : exn).
Arguments Ret {A} a.
Arguments Raise {A} e.

(** Sequencing of pure computations that may raise, a comprehension and
    a loop over them, and a lookup that raises. *)
Definition obind {A B} (o : outcome A) (f : A -> outcome B) : outcome B :=
  match o with Ret a => f a | Raise e => Raise e end.
Fixpoint omapM {A B} (f : A -> outcome B) (l : list A) : outcome (list B) :=
  match l with
  | [] => Ret []
  | x :: l' => obind (f x) (fun y => obind (omapM f l') (fun ys => Ret (y :: ys)))
  end.
Fixpoint ofold {A B} (body : B -> A -> outcome B) (acc : B) (l : list A) : outcome B :=
  match l with
  | [] => Ret acc
  | x :: l' => obind (body acc x) (fun acc' => ofold body acc' l')
  end.
Definition or_raise {A} (e : exn) (o : option A) : outcome A :=
  match o with Some a => Ret a | None => Raise e end.

Definition M (S A : Type) : Type := S -> outcome A * S.

#[global] Instance M_ret S : MRet (M S) := fun A a s => (Ret a, s).
#[global] Instance M_bind S : MBind (M S) := fun A B f m s =>
  match m s with
  | (Ret a, s') => f a s'
  | (Raise e, s') => (Raise e, s')
  end.

Definition raise {S A} (e : exn) : M S A := fun s => (Raise e, s).
Definition get {S} : M S S := fun s => (Ret s, s).
Definition gets {S A} (f : S -> A) : M S A := fun s => (Ret (f s), s).
Definition modify {S} (f : S -> S) : M S unit := fun s => (Ret tt, f s).
(** Run a pure operation that returns a value and a new state. *)
Definition lift {S A} (f : S -> A * S) : M S A :=
  fun s => let '(a, s') := f s in (Ret a, s').
Definition assert_ {S} (b : bool) : M S unit :=
  if b then mret tt else raise AssertionError.
Definition of_option {S A} (e : exn) (o : option A) : M S A :=
  match o with Some a => mret a | None => raise e end.
(** Run a pure function that may raise. *)
Definition of_outcome {S A} (o : outcome A) : M S A := fun s => (o, s).
(** [try: m except Exception as e: h e]. *)
Definition try_except {S A} (m : M S A) (h : exn -> M S A) : M S A := fun s =>
  match m s with
  | (Ret a, s') => (Ret a, s')
  | (Raise e, s') => h e s'
  end.
(** [for x in l: acc = body acc x]. *)
Fixpoint mfold {S A B} (body : B -> A -> M S B) (acc : B) (l : list A) : M S B :=
  match l with
  | [] => mret acc
  | x :: l' => acc' ← body acc x; mfold body acc' l'
  end.
Definition mfor {S A} (l : list A) (body : A -> M S unit) : M S unit :=
  mfold (fun _ x => body x) tt l.
(** Run a computation on a component of the state. *)
Definition zoom {S T A} (get_ : S -> T) (set_ : T -> S -> S) (m : M T A) : M S A :=
  fun s => let '(o, t) := m (get_ s) in (o, set_ t s).

(** Weakest preconditions: [Q] on return, [E] on an exception. *)
Definition wp {S A} (m : M S A) (Q : A -> S -> Prop) (E : exn -> S -> Prop)
    (s : S) : Prop :=
  match m s with
  | (Ret a, s') => Q a s'
  | (Raise e, s') => E e s'
  end.

(** ** Automation

    [pyx] rewrites lengths and slices, [hyx] holds the permutation
    facts that the conservation proofs resolve by. *)

Create HintDb hyx.
Create Rewrite HintDb pyx.

Ltac case_if :=
  match goal with
  | |- context [if ?b then _ else _] => destruct b eqn:?
  | H : context [if ?b then _ else _] |- _ => destruct b eqn:?
  end.

(** Turn boolean comparisons on [Z] and [bool_decide]s into propositions. *)
Ltac breflect :=
  repeat match goal with
  | H : _ && _ = true |- _ => apply andb_true_iff in H as [? ?]
  | H : _ || _ = false |- _ => apply orb_false_iff in H as [? ?]
  | H : negb _ = true |- _ => apply negb_true_iff in H
  | H : negb _ = false |- _ => apply negb_false_iff in H
  | H : (_ <? _) = true |- _ => apply Z.ltb_lt in H
  | H : (_ <? _) = false |- _ => apply Z.ltb_ge in H
  | H : (_ <=? _) = true |- _ => apply Z.leb_le in H
  | H : (_ <=? _) = false |- _ => apply Z.leb_gt in H
  | H : (_ =? _) = true |- _ => apply Z.eqb_eq in H
  | H : (_ =? _) = false |- _ => apply Z.eqb_neq in H
  | H : bool_decide _ = true |- _ => apply bool_decide_eq_true_1 in H
  | H : bool_decide _ = false |- _ => apply bool_decide_eq_false_1 in H
  end.

(** Permutations of concatenations: count occurrences. *)
Ltac perm_solve := solve_Permutation.

(** ** Pure computations that may raise *)

Lemma omapM_Ret {A B} (f : A -> outcome B) (g : A -> B) l :
  (forall x, x ∈ l -> f x = Ret (g x)) -> omapM f l = Ret (g <$> l).
Proof.
  induction l as [|x l IH]; intros H; cbn [omapM]; [done|].
  rewrite (H x) by left. cbn. rewrite IH by (intros; apply H; by right). done.
Qed.

Lemma omapM_inv {A B} (f : A -> outcome B) l ys :
  omapM f l = Ret ys -> Forall2 (fun x y => f x = Ret y) l ys.
Proof.
  revert ys. induction l as [|x l IH]; cbn [omapM]; intros ys; [by intros [= <-]|].
  destruct (f x) eqn:E; [cbn|done]. destruct (omapM f l) eqn:E'; [cbn|done].
  intros [= <-]. constructor; auto.
Qed.

(** ** Lengths and slices *)

Lemma len_nonneg {A} (l : list A) : 0 <= len l.
Proof. unfold len; lia. Qed.

Lemma len_nil {A} : len (@nil A) = 0.
Proof. done. Qed.

Lemma len_cons {A} (x : A) l : len (x :: l) = 1 + len l.
Proof. unfold len; cbn [length]; lia. Qed.

Lemma len_app {A} (l k : list A) : len (l ++ k) = len l + len k.
Proof. unfold len; rewrite length_app; lia. Qed.

Lemma len_map {A B} (f : A -> B) l : len (f <$> l) = len l.
Proof. unfold len; by rewrite length_fmap. Qed.

Lemma len_perm {A} (l k : list A) : l ≡ₚ k -> len l = len k.
Proof. intros H. unfold len. by rewrite H. Qed.

Lemma len_seqZ s n : len (seqZ s n) = Z.max 0 n.
Proof. unfold len. rewrite length_seqZ. lia. Qed.

Lemma len_pyrange s e : len (pyrange s e) = Z.max 0 (e - s).
Proof. apply len_seqZ. Qed.

Lemma pyidx_bounds n i : 0 <= n -> 0 <= pyidx n i <= n.
Proof. intros. unfold pyidx. case_if; breflect; lia. Qed.

Lemma slice_to_from {A} (l : list A) i : slice_to l i ++ slice_from l i = l.
Proof. apply take_drop. Qed.

Lemma len_slice_to {A} (l : list A) e : 0 <= e <= len l -> len (slice_to l e) = e.
Proof.
  intros H. unfold slice_to, len, pyidx in *. rewrite length_take.
  case_if; breflect; lia.
Qed.

Lemma pyslice_in_range {A} (l : list A) s e :
  0 <= s -> s <= e -> e <= len l ->
  pyslice l s e = take (Z.to_nat (e - s)) (drop (Z.to_nat s) l).
Proof.
  intros. unfold pyslice, pyidx.
  assert ((s <? 0) = false) as -> by (apply Z.ltb_ge; lia).
  assert ((e <? 0) = false) as -> by (apply Z.ltb_ge; lia).
  by rewrite !Z.min_l by lia.
Qed.

Lemma len_pyslice {A} (l : list A) s e :
  0 <= s -> s <= e -> e <= len l -> len (pyslice l s e) = e - s.
Proof.
  intros. rewrite pyslice_in_range by done. unfold len in *.
  rewrite length_take, length_drop. lia.
Qed.

Lemma pyslice_all {A} (l : list A) : pyslice l 0 (len l) = l.
Proof.
  pose proof (len_nonneg l).
  rewrite pyslice_in_range by lia. rewrite drop_0.
  apply take_ge. unfold len; lia.
Qed.

(** Adjacent slices concatenate. *)
Lemma pyslice_app {A} (l : list A) a b c :
  0 <= a -> a <= b -> b <= c -> c <= len l ->
  pyslice l a b ++ pyslice l b c = pyslice l a c.
Proof.
  intros. rewrite !pyslice_in_range by lia.
  replace (Z.to_nat b) with (Z.to_nat a + Z.to_nat (b - a))%nat by lia.
  rewrite <- drop_drop.
  replace (Z.to_nat (c - a)) with (Z.to_nat (b - a) + Z.to_nat (c - b))%nat by lia.
  by rewrite take_take_drop.
Qed.

Lemma zsum_cons x l : zsum (x :: l) = x + zsum l.
Proof. done. Qed.

Lemma zsum_perm l k : l ≡ₚ k -> zsum l = zsum k.
Proof. induction 1; rewrite ?zsum_cons; lia. Qed.

Lemma zsum_app l k : zsum (l ++ k) = zsum l + zsum k.
Proof. induction l as [|x l IH]; cbn; [done|]. unfold zsum in *. lia. Qed.

Lemma zsum_ext_in {A} (f g : A -> Z) l :
  (forall x, x ∈ l -> f x = g x) -> zsum (f <$> l) = zsum (g <$> l).
Proof.
  induction l as [|x l IH]; intros Hl; [done|]. rewrite !fmap_cons, !zsum_cons.
  rewrite Hl by left. rewrite IH by (intros; apply Hl; by right). done.
Qed.

(** Changing one summand. *)
Lemma zsum_update {A} `{EqDecision A} (f g : A -> Z) l a :
  NoDup l -> a ∈ l -> (forall x, x ∈ l -> x <> a -> f x = g x) ->
  zsum (f <$> l) = zsum (g <$> l) + (f a - g a).
Proof.
  intros Hd Ha Hx. induction Hd as [|y l Hy Hd IH]; [by apply not_elem_of_nil in Ha|].
  rewrite !fmap_cons, !zsum_cons. apply elem_of_cons in Ha as [->|Ha].
  - rewrite (zsum_ext_in f g l); [lia|]. intros x Hin. apply Hx; [by right|]. by intros ->.
  - rewrite IH by (done || (intros; apply Hx; [by right|done])).
    rewrite (Hx y); [lia|left|by intros ->].
Qed.

Lemma to_int32_small z : 0 <= z < 2 ^ 31 -> to_int32 z = z.
Proof. intros. unfold to_int32, wrap_signed. rewrite Z.mod_small; lia. Qed.

Lemma len_concat {A} (ls : list (list A)) : len (concat ls) = zsum (len <$> ls).
Proof. induction ls as [|l ls IH]; cbn; [done|]. rewrite len_app, IH. done. Qed.

#[export] Hint Rewrite @len_nil @len_cons @len_app @len_map len_seqZ len_pyrange
  @len_concat : pyx.

(** ** Sorting *)

Section sort_facts.
Context {A : Type} (le : A -> A -> bool).

Lemma sort_insert_perm x l : sort_insert le x l ≡ₚ x :: l.
Proof.
  induction l as [|y l IH]; cbn; [done|]. case_if; [done|].
  rewrite IH. apply Permutation_swap.
Qed.

Lemma sort_by_perm l : sort_by le l ≡ₚ l.
Proof.
  induction l as [|x l IH]; cbn; [done|].
  fold (sort_by le l). by rewrite sort_insert_perm, IH.
Qed.

Context (le_trans : forall x y z, le x y -> le y z -> le x z).
Context (le_total : forall x y, le x y \/ le y x).

Lemma sort_insert_sorted x l :
  StronglySorted (fun a b => le a b) l ->
  StronglySorted (fun a b => le a b) (sort_insert le x l).
Proof.
  induction 1 as [|y l Hs IH Hy]; cbn; [by repeat constructor|].
  destruct (le x y) eqn:E.
  - constructor; [by constructor|].
    constructor; [by rewrite E|].
    eapply Forall_impl; [exact Hy|]. intros z Hz; cbn in *.
    eapply le_trans; [|exact Hz]. by rewrite E.
  - constructor; [done|]. rewrite sort_insert_perm.
    constructor; [|done]. destruct (le_total x y) as [H|H]; [|done].
    by rewrite E in H.
Qed.

Lemma sort_by_sorted l : StronglySorted (fun a b => le a b) (sort_by le l).
Proof. induction l; cbn; [constructor|]. by apply sort_insert_sorted. Qed.

End sort_facts.

Lemma sort_key_perm {A} (key : A -> Z) l : sort_key key l ≡ₚ l.
Proof. apply sort_by_perm. Qed.

Lemma sort_key_sorted {A} (key : A -> Z) l :
  StronglySorted (fun a b => key a <= key b) (sort_key key l).
Proof.
  assert (StronglySorted (fun a b => Is_true (key a <=? key b)) (sort_key key l)) as H.
  { apply sort_by_sorted; [|intros x y; rewrite !Is_true_true, !Z.leb_le; lia].
    intros x y z H1 H2. apply Is_true_true_1 in H1, H2.
    apply Is_true_true_2. apply Z.leb_le. lia. }
  induction H as [|x k _ IH H]; constructor; [done|].
  eapply Forall_impl; [exact H|]. intros y Hy. cbn in Hy.
  apply Is_true_true_1 in Hy. lia.
Qed.

Lemma sort_insert_filter_eq {A} (key : A -> Z) k x l :
  filter (fun y => key y = k) (sort_insert (fun x y => key x <=? key y) x l) =
  filter (fun y => key y = k) (x :: l).
Proof.
  induction l as [|y l IH]; [done|]. cbn [sort_insert].
  destruct (key x <=? key y) eqn:E; [done|]. breflect.
  rewrite (filter_cons _ y), IH, !(filter_cons _ x), (filter_cons _ y).
  repeat case_decide; try done; lia.
Qed.

(** Stability: elements with equal keys keep their relative order. *)
Lemma sort_key_stable {A} (key : A -> Z) k l :
  filter (fun y => key y = k) (sort_key key l) = filter (fun y => key y = k) l.
Proof.
  unfold sort_key, sort_by. induction l as [|x l IH]; [done|]. cbn [foldr].
  rewrite sort_insert_filter_eq, !filter_cons, IH. done.
Qed.

Lemma pyget_elem {A} (l : list A) i x : pyget l i = Some x -> x ∈ l.
Proof.
  unfold pyget. repeat case_if; try done; intros Hl; by eapply list_elem_of_lookup_2.
Qed.

(** [enumerate] from an offset. *)
Definition enum_from {A} (k : Z) (l : list A) : list (Z * A) := zip (seqZ k (len l)) l.

Lemma enum_from_cons {A} k (x : A) l : enum_from k (x :: l) = (k, x) :: enum_from (k + 1) l.
Proof.
  unfold enum_from. rewrite len_cons, seqZ_cons by (pose proof (len_nonneg l); lia).
  cbn [zip zip_with]. unfold Z.succ. by replace (Z.pred (1 + len l)) with (len l) by lia.
Qed.

Lemma enum_from_app {A} k (l l' : list A) :
  enum_from k (l ++ l') = enum_from k l ++ enum_from (k + len l) l'.
Proof.
  revert k. induction l as [|x l IH]; intros k.
  - rewrite len_nil. by replace (k + 0) with k by lia.
  - cbn [app]. rewrite !enum_from_cons, IH, len_cons. cbn [app].
    by replace (k + (1 + len l)) with (k + 1 + len l) by lia.
Qed.

Lemma len_slice_from {A} (l : list A) i : 0 <= i <= len l -> len (slice_from l i) = len l - i.
Proof.
  intros Hi. pose proof (slice_to_from l i) as Hl. apply (f_equal len) in Hl.
  rewrite len_app, len_slice_to in Hl by done. lia.
Qed.

(** A sorted list is determined by its elements. *)
Lemma sort_Z_unique l k : StronglySorted Z.lt k -> l ≡ₚ k -> sort_Z l = k.
Proof.
  intros Hk Hp. apply (StronglySorted_unique Z.le).
  - apply (sort_key_sorted id).
  - clear Hp. induction Hk as [|x k _ IH Hx]; constructor; [done|].
    eapply Forall_impl; [exact Hx|]. cbn. lia.
  - unfold sort_Z. by rewrite sort_key_perm.
Qed.

Lemma pyrange_sorted s e : StronglySorted Z.lt (pyrange s e).
Proof.
  unfold pyrange. remember (Z.to_nat (e - s)) as n eqn:Hn. revert s Hn.
  induction n as [|n IH]; intros s Hn.
  - rewrite seqZ_nil by lia. constructor.
  - rewrite seqZ_cons by lia.
    replace (Z.pred (e - s)) with (e - Z.succ s) by lia. constructor; [apply IH; lia|].
    apply Forall_forall. intros x Hx. apply elem_of_seqZ in Hx. lia.
Qed.

Lemma pyrange_empty s e : e <= s -> pyrange s e = [].
Proof. intros. unfold pyrange. apply seqZ_nil. lia. Qed.

Lemma elem_of_pyrange x s e : x ∈ pyrange s e <-> s <= x < e.
Proof. unfold pyrange. rewrite elem_of_seqZ. lia. Qed.

Lemma sorted_app l k :
  StronglySorted Z.lt l -> StronglySorted Z.lt k ->
  (forall x y, x ∈ l -> y ∈ k -> x < y) -> StronglySorted Z.lt (l ++ k).
Proof.
  induction 1 as [|x l Hl IH Hx]; intros Hk Hlk; cbn; [done|].
  constructor.
  - apply IH; [done|]. intros; apply Hlk; [by right|done].
  - apply Forall_app. split; [done|]. apply Forall_forall. intros y Hy.
    apply Hlk; [left|done].
Qed.

(** ** Filters *)

Lemma filter_all {A} (P : A -> Prop) `{!forall x, Decision (P x)} (l : list A) :
  (forall x, x ∈ l -> P x) -> filter P l = l.
Proof.
  induction l as [|x l IH]; [done|]. intros Hall.
  rewrite filter_cons_True by (apply Hall; left). f_equal. apply IH.
  intros; apply Hall; by right.
Qed.

Lemma Forall2_impl_in {A B} (P Q : A -> B -> Prop) l k :
  Forall2 P l k -> (forall x y, x ∈ l -> P x y -> Q x y) -> Forall2 Q l k.
Proof.
  induction 1 as [|x y l k Hxy _ IH]; intros Hi; constructor.
  - apply Hi; [left|done].
  - apply IH. intros; apply Hi; [by right|done].
Qed.

Lemma filter_comm {A} (P Q : A -> Prop) `{!forall x, Decision (P x)}
    `{!forall x, Decision (Q x)} (l : list A) :
  filter P (filter Q l) = filter Q (filter P l).
Proof. rewrite !list_filter_filter. apply list_filter_iff. tauto. Qed.

Lemma filter_none {A} (P : A -> Prop) `{!forall x, Decision (P x)} (l : list A) :
  (forall x, x ∈ l -> ~ P x) -> filter P l = [].
Proof.
  induction l as [|x l IH]; [done|]. intros Hall.
  rewrite filter_cons_False by (apply Hall; left). apply IH. intros; apply Hall; by right.
Qed.

Lemma filter_ext_in {A} (P Q : A -> Prop) `{!forall x, Decision (P x)}
    `{!forall x, Decision (Q x)} (l : list A) :
  (forall x, x ∈ l -> P x <-> Q x) -> filter P l = filter Q l.
Proof.
  induction l as [|x l IH]; [done|]. intros Hall. rewrite !filter_cons.
  rewrite (decide_ext (P x) (Q x)) by (apply Hall; left).
  rewrite IH by (intros; apply Hall; by right). done.
Qed.

(** ** Weakest-precondition rules *)

Lemma wp_ret {S A} (a : A) Q E (s : S) : Q a s -> wp (mret a) Q E s.
Proof. done. Qed.

Lemma wp_bind {S A B} (m : M S A) (f : A -> M S B) Q E s :
  wp m (fun a => wp (f a) Q E) E s -> wp (mbind f m) Q E s.
Proof. unfold wp, mbind, M_bind. by destruct (m s) as [[]]. Qed.

Lemma wp_mono {S A} (m : M S A) (Q Q' : A -> S -> Prop) (E E' : exn -> S -> Prop) s :
  wp m Q E s -> (forall a s', Q a s' -> Q' a s') ->
  (forall e s', E e s' -> E' e s') -> wp m Q' E' s.
Proof. unfold wp. destruct (m s) as [[]]; auto. Qed.

Lemma wp_get {S} Q E (s : S) : Q s s -> wp get Q E s.
Proof. done. Qed.
Lemma wp_gets {S A} (f : S -> A) Q E s : Q (f s) s -> wp (gets f) Q E s.
Proof. done. Qed.
Lemma wp_modify {S} (f : S -> S) Q E s : Q tt (f s) -> wp (modify f) Q E s.
Proof. done. Qed.
Lemma wp_raise {S A} e (Q : A -> S -> Prop) E s : E e s -> wp (raise e) Q E s.
Proof. done. Qed.
Lemma wp_lift {S A} (f : S -> A * S) Q E s :
  Q (f s).1 (f s).2 -> wp (lift f) Q E s.
Proof. unfold wp, lift. by destruct (f s). Qed.
Lemma wp_assert {S} b (Q : unit -> S -> Prop) E s :
  (b = true -> Q tt s) -> (b = false -> E AssertionError s) -> wp (assert_ b) Q E s.
Proof. destruct b; cbn; auto. Qed.
Lemma wp_of_option {S A} e (o : option A) (Q : A -> S -> Prop) E s :
  (forall a, o = Some a -> Q a s) -> (o = None -> E e s) -> wp (of_option e o) Q E s.
Proof. destruct o; cbn; auto. Qed.
Lemma wp_try {S A} (m : M S A) h Q E s :
  wp m Q (fun e => wp (h e) Q E) s -> wp (try_except m h) Q E s.
Proof. unfold wp, try_except. by destruct (m s) as [[]]. Qed.

(** Loop rule: [I] holds of the processed prefix, the accumulator and
    the state. *)
Lemma wp_mfold {S A B} (body : B -> A -> M S B) (I : list A -> B -> S -> Prop)
    Q E acc l s :
  I [] acc s ->
  (forall done_ x rest acc s, l = done_ ++ x :: rest -> I done_ acc s ->
     wp (body acc x) (fun acc' => I (done_ ++ [x]) acc') E s) ->
  (forall acc s, I l acc s -> Q acc s) ->
  wp (mfold body acc l) Q E s.
Proof.
  intros H0 Hstep HQ.
  enough (forall done_ rest acc s, l = done_ ++ rest -> I done_ acc s ->
    wp (mfold body acc rest) Q E s) by (eapply (H []); eauto).
  clear acc s H0. intros done_ rest. revert done_.
  induction rest as [|x rest IH]; intros done_ acc s Hl HI; cbn.
  - rewrite app_nil_r in Hl. subst done_. by apply wp_ret, HQ.
  - apply wp_bind. eapply wp_mono; [eapply Hstep; eauto| |auto].
    intros acc' s' HI'. eapply IH; [|exact HI'].
    rewrite Hl. by rewrite <- app_assoc.
Qed.

(** A loop whose body only computes. *)
Lemma mfold_pure {S A B} (body : B -> A -> M S B) (f : B -> A -> B) l acc s :
  (forall acc x, x ∈ l -> body acc x s = (Ret (f acc x), s)) ->
  mfold body acc l s = (Ret (foldl f acc l), s).
Proof.
  revert acc. induction l as [|x l IH]; intros acc Hb; [done|].
  cbn [mfold foldl]. unfold mbind, M_bind. rewrite Hb by left.
  apply IH. intros; apply Hb; by right.
Qed.

Lemma concat_split {A B} (f a b : A -> list B) l :
  (forall x, x ∈ l -> f x ≡ₚ a x ++ b x) ->
  concat (f <$> l) ≡ₚ concat (a <$> l) ++ concat (b <$> l).
Proof.
  induction l as [|x l IH]; intros Hx; [done|]. rewrite !fmap_cons. cbn [concat].
  rewrite (Hx x) by left. rewrite IH by (intros; apply Hx; by right). solve_Permutation.
Qed.

Lemma omap_concat {A B C} (f : A -> option B) (p : B -> list C) l :
  concat (p <$> omap f l) = concat ((fun x => match f x with Some b => p b | None => [] end) <$> l).
Proof.
  induction l as [|x l IH]; [done|]. csimpl. rewrite <- IH. by destruct (f x).
Qed.

Lemma concat_perm {A} (l k : list (list A)) : l ≡ₚ k -> concat l ≡ₚ concat k.
Proof. induction 1; cbn; [done|by f_equiv|solve_Permutation|by etrans]. Qed.

Lemma concat_singletons {A B} (f : A -> B) l : concat ((fun x => [f x]) <$> l) = f <$> l.
Proof. induction l as [|x l IH]; [done|]. csimpl. by rewrite IH. Qed.

Lemma concat_filter {A B} (P : A -> Prop) `{!forall x, Decision (P x)} (f : A -> list B) l :
  concat (f <$> filter P l) = concat ((fun x => if decide (P x) then f x else []) <$> l).
Proof.
  induction l as [|x l IH]; [done|]. rewrite filter_cons, !fmap_cons. cbn [concat].
  case_decide; [|done]. rewrite fmap_cons. cbn [concat]. by rewrite IH.
Qed.

Lemma wp_elim {S A} (m : M S A) Q E s a s' :
  wp m Q E s -> m s = (Ret a, s') -> Q a s'.
Proof. unfold wp. intros H Hm. by rewrite Hm in H. Qed.

(** Running a sequence whose first part is known. *)
Lemma bind_run {S A B} (m : M S A) (f : A -> M S B) s a s' :
  m s = (Ret a, s') -> mbind f m s = f a s'.
Proof. intros Hm. unfold mbind, M_bind. by rewrite Hm. Qed.

Lemma bind_modify {S B} (g : S -> S) (f : unit -> M S B) s : mbind f (modify g) s = f tt (g s).
Proof. done. Qed.

Lemma concat_filter_nil {A B} (P : A -> Prop) `{!forall x, Decision (P x)} (f : A -> list B) l :
  (forall x, x ∈ l -> ~ P x -> f x = []) -> concat (f <$> filter P l) = concat (f <$> l).
Proof.
  induction l as [|x l IH]; intros Hf; [done|]. rewrite filter_cons, fmap_cons. cbn [concat].
  rewrite <- IH by (intros; apply Hf; [by right|done]).
  case_decide; [done|]. rewrite (Hf x); [done|left|done].
Qed.

Lemma omapM_concat {A B C} (f : B -> outcome C) (g : A -> list B) (h : A -> list C) l :
  (forall x, x ∈ l -> omapM f (g x) = Ret (h x)) -> omapM f (concat (g <$> l)) = Ret (concat (h <$> l)).
Proof.
  assert (Happ : forall a b (ya yb : list C), omapM f a = Ret ya -> omapM f b = Ret yb -> omapM f (a ++ b) = Ret (ya ++ yb)).
  { induction a as [|x a IHa]; intros b ya yb Ea Eb; cbn in *; [by injection Ea as <-|].
    destruct (f x); [cbn in *|done]. destruct (omapM f a) eqn:E; [cbn in *|done].
    injection Ea as <-. by rewrite (IHa b _ yb eq_refl Eb). }
  induction l as [|x l IH]; intros H; [done|]. rewrite !fmap_cons. cbn [concat].
  apply Happ; [apply H; left|apply IH; intros; apply H; by right].
Qed.

Lemma length_concat_eq {A B C} (f : A -> list B) (g : A -> list C) l :
  (forall x, x ∈ l -> length (f x) = length (g x)) ->
  length (concat (f <$> l)) = length (concat (g <$> l)).
Proof.
  induction l as [|x l IH]; intros H; [done|]. rewrite !fmap_cons. cbn [concat].
  rewrite !length_app, H by left. f_equal. apply IH. intros; apply H; by right.
Qed.

Lemma zip_concat {A B C} (f : A -> list B) (g : A -> list C) l :
  (forall x, x ∈ l -> length (f x) = length (g x)) ->
  zip (concat (f <$> l)) (concat (g <$> l)) = concat ((fun x => zip (f x) (g x)) <$> l).
Proof.
  induction l as [|x l IH]; intros H; [done|]. rewrite !fmap_cons. cbn [concat].
  rewrite zip_with_app by (apply H; left). f_equal. apply IH. intros; apply H; by right.
Qed.

Lemma zip_concat_fst {A B C} (f : A -> list B) (g : A -> list C) l :
  (forall x, x ∈ l -> length (g x) = length (f x)) ->
  (concat ((fun x => zip (f x) (g x)) <$> l)).*1 = concat (f <$> l).
Proof.
  intros Hg. induction l as [|x l IH]; [done|]. rewrite !fmap_cons. cbn [concat].
  rewrite fmap_app, fst_zip by (rewrite (Hg x); [done|left]). f_equal. apply IH. intros; apply Hg; by right.
Qed.

Lemma pyrange_app a b c : a <= b <= c -> pyrange a c = pyrange a b ++ pyrange b c.
Proof.
  intros. unfold pyrange. replace (c - a) with ((b - a) + (c - b)) by lia.
  rewrite seqZ_app by lia. by replace (a + (b - a)) with b by lia.
Qed.

Lemma pyrange_snoc a b : a <= b -> pyrange a (b + 1) = pyrange a b ++ [b].
Proof.
  intros. rewrite (pyrange_app a b (b + 1)) by lia. f_equal. unfold pyrange. by rewrite seqZ_cons, seqZ_nil by lia.
Qed.

Lemma pyget_middle {A} (pre post : list A) x : pyget (pre ++ x :: post) (len pre) = Some x.
Proof.
  unfold pyget. pose proof (len_nonneg pre). pose proof (len_nonneg post).
  destruct (Z.ltb_spec (len pre) 0); [lia|]. rewrite andb_true_intro by (rewrite len_app, len_cons; lia).
  rewrite lookup_app_r by (unfold len; lia).
  by replace (Z.to_nat (len pre) - length pre)%nat with 0%nat by (unfold len; lia).
Qed.

Lemma take_pyrange s e n : 0 <= n <= e - s -> take (Z.to_nat n) (pyrange s e) = pyrange s (s + n).
Proof.
  intros H. rewrite (pyrange_app s (s + n) e) by lia. apply take_app_length'.
  pose proof (len_pyrange s (s + n)). unfold len in *. lia.
Qed.

(** Sorting by a key that determines the elements. *)
Lemma sort_key_unique {A} (key : A -> Z) l k :
  StronglySorted (fun x y => key x < key y) k -> l ≡ₚ k -> sort_key key l = k.
Proof.
  intros Hk Hp.
  assert (Hs : StronglySorted (fun x y => key x <= key y) (sort_key key l)) by apply sort_key_sorted.
  assert (Hp' : sort_key key l ≡ₚ k) by (by rewrite sort_key_perm).
  revert Hs Hp'. generalize (sort_key key l) as l'. clear l Hp.
  induction Hk as [|x k Hk IH Hx]; intros l' Hs Hp; [by apply Permutation_nil_r in Hp|].
  destruct Hs as [|y l' Hs Hy]; [by apply Permutation_nil_l in Hp|].
  assert (y = x) as ->; [|f_equal; apply IH; [done|by apply Permutation_cons_inv in Hp]].
  assert (Hyk : y ∈ x :: k) by (rewrite <- Hp; left). assert (Hxl : x ∈ y :: l') by (rewrite Hp; left).
  apply elem_of_cons in Hyk as [->|Hyk]; [done|]. apply elem_of_cons in Hxl as [->|Hxl]; [done|].
  rewrite Forall_forall in Hx, Hy. specialize (Hx _ Hyk). specialize (Hy _ Hxl). lia.
Qed.

Lemma ofold_app {A B} (f : B -> A -> outcome B) acc l k :
  ofold f acc (l ++ k) = obind (ofold f acc l) (fun acc' => ofold f acc' k).
Proof. revert acc. induction l as [|x l IH]; intros acc; cbn; [done|]. destruct (f acc x); cbn; [apply IH|done]. Qed.

Lemma sorted_prefix {A} (R : A -> A -> Prop) l k : StronglySorted R (l ++ k) -> StronglySorted R l.
Proof.
  induction l as [|x l IH]; [constructor|]. cbn. intros [Hs HF]%StronglySorted_inv. constructor; [by apply IH|].
  by apply Forall_app in HF as [].
Qed.

Lemma sorted_last_fresh {A} (R : A -> A -> Prop) l x : (~ R x x) -> StronglySorted R (l ++ [x]) -> x ∉ l.
Proof.
  intros Hirr. induction l as [|y l IH]; [by intros _ ?%not_elem_of_nil|]. cbn. intros [Hs HF]%StronglySorted_inv.
  intros [->|Hin]%elem_of_cons; [|by apply IH]. apply Forall_app in HF as [_ HF]. by apply Forall_inv in HF.
Qed.

Lemma offset_pyrange s e : (fun ofs => s + ofs) <$> pyrange 0 (e - s) = pyrange s e.
Proof. unfold pyrange. rewrite Z.sub_0_r, fmap_add_seqZ. by rewrite Z.add_0_r. Qed.

Lemma fmap_concat_ext {A B C D} (f : A -> D) (f' : B -> D) (g : C -> list A) (g' : C -> list B) l :
  (forall x, x ∈ l -> f <$> g x = f' <$> g' x) -> f <$> concat (g <$> l) = f' <$> concat (g' <$> l).
Proof.
  induction l as [|x l IH]; intros H; [done|]. rewrite !fmap_cons. cbn [concat].
  rewrite !fmap_app, H by left. f_equal. apply IH. intros; apply H; by right.
Qed.

Lemma fmap_concat_fmap {A B C} (f : B -> C) (g : A -> list B) l :
  f <$> concat (g <$> l) = concat ((fun x => f <$> g x) <$> l).
Proof. induction l as [|x l IH]; [done|]. rewrite !fmap_cons. cbn [concat]. by rewrite fmap_app, IH. Qed.
