(* ===== verification/PyDict.v ===== *)
(** * Insertion-ordered dictionaries

    Python's [dict] as an association list in insertion order: a new key
    is appended, an existing key is updated in place, [pop]/[del] removes
    the binding.  [dict.items()], [.keys()] and [.values()] iterate in list
    order, which the cache's eviction order and the scatter queues depend
    on.  [dict_wf] (no duplicate key) is preserved by every operation. *)

From S2P Require Import Prelude.

Section dict.
Context {K : Type} `{EqDecision K} {V : Type}.
Implicit Types (d : list (K * V)) (k : K) (v : V).

Fixpoint dict_get k d : option V :=
  match d with
  | [] => None
  | (k', v) :: d' => if decide (k' = k) then Some v else dict_get k d'
  end.

Fixpoint dict_set k v d : list (K * V) :=
  match d with
  | [] => [(k, v)]
  | (k', v') :: d' =>
      if decide (k' = k) then (k', v) :: d' else (k', v') :: dict_set k v d'
  end.

Fixpoint dict_pop k d : list (K * V) :=
  match d with
  | [] => []
  | (k', v') :: d' => if decide (k' = k) then d' else (k', v') :: dict_pop k d'
  end.

Definition dict_mem k d : bool := bool_decide (is_Some (dict_get k d)).

Definition dict_wf d : Prop := NoDup d.*1.

Lemma dict_get_set_eq k v d : dict_get k (dict_set k v d) = Some v.
Proof.
  induction d as [|[k' v'] d IH]; cbn; [by rewrite decide_True|].
  destruct (decide (k' = k)); cbn; by repeat case_decide.
Qed.

Lemma dict_get_set_ne k k' v d :
  k <> k' -> dict_get k' (dict_set k v d) = dict_get k' d.
Proof.
  intros Hne. induction d as [|[j w] d IH]; cbn.
  - by rewrite decide_False.
  - destruct (decide (j = k)) as [->|]; cbn; repeat case_decide; congruence.
Qed.

Lemma dict_get_elem k v d : dict_get k d = Some v -> (k, v) ∈ d.
Proof.
  induction d as [|[k' v'] d IH]; cbn; [done|].
  case_decide; intros; simplify_eq; [left|right; auto].
Qed.

Lemma dict_get_None k d : dict_get k d = None <-> k ∉ d.*1.
Proof.
  induction d as [|[k' v'] d IH]; cbn; [split; [intros _; apply not_elem_of_nil|done]|].
  rewrite not_elem_of_cons. case_decide as Hk.
  - split; [done|]. by intros [? _].
  - rewrite IH. split; [intros; split; congruence|by intros [_ ?]].
Qed.

Lemma dict_elem_get k v d : dict_wf d -> (k, v) ∈ d -> dict_get k d = Some v.
Proof.
  unfold dict_wf. induction d as [|[k' v'] d IH]; [by intros _ ?%not_elem_of_nil|].
  cbn. rewrite NoDup_cons. intros [Hn Hd] [[= -> ->]|Hin]%elem_of_cons.
  - by rewrite decide_True.
  - rewrite decide_False; [auto|]. intros ->. apply Hn.
    apply list_elem_of_fmap. by exists (k, v).
Qed.

Lemma dict_mem_true k d : dict_mem k d = true <-> exists v, dict_get k d = Some v.
Proof. unfold dict_mem. by rewrite bool_decide_eq_true. Qed.

Lemma dict_mem_false k d : dict_mem k d = false <-> dict_get k d = None.
Proof. unfold dict_mem. by rewrite bool_decide_eq_false, eq_None_not_Some. Qed.

Lemma dict_set_fresh k v d : dict_get k d = None -> dict_set k v d = d ++ [(k, v)].
Proof.
  induction d as [|[k' v'] d IH]; cbn; [done|].
  case_decide; [done|]. intros Hk. by rewrite IH.
Qed.

Lemma dict_set_keys k v d :
  (dict_set k v d).*1 = if dict_mem k d then d.*1 else d.*1 ++ [k].
Proof.
  unfold dict_mem. induction d as [|[k' v'] d IH]; cbn; [done|].
  case_decide; cbn; [done|]. rewrite IH. by case_bool_decide.
Qed.

Lemma dict_set_wf k v d : dict_wf d -> dict_wf (dict_set k v d).
Proof.
  unfold dict_wf. rewrite dict_set_keys.
  destruct (dict_mem k d) eqn:E; [done|].
  apply dict_mem_false, dict_get_None in E. intros Hd.
  apply NoDup_app. split; [done|]. split; [|apply NoDup_singleton].
  intros x Hx ->%list_elem_of_singleton. done.
Qed.

Lemma dict_pop_perm k v d : dict_get k d = Some v -> d ≡ₚ (k, v) :: dict_pop k d.
Proof.
  induction d as [|[k' v'] d IH]; cbn; [done|].
  case_decide; intros; simplify_eq; [done|].
  rewrite Permutation_swap. by rewrite <- IH.
Qed.

Lemma dict_pop_absent k d : dict_get k d = None -> dict_pop k d = d.
Proof.
  induction d as [|[k' v'] d IH]; cbn; [done|]. case_decide; [done|].
  intros Hk. by rewrite IH.
Qed.

Lemma dict_pop_wf k d : dict_wf d -> dict_wf (dict_pop k d).
Proof.
  unfold dict_wf. intros Hd. destruct (dict_get k d) as [v|] eqn:E.
  - apply dict_pop_perm in E. rewrite E in Hd. cbn in Hd. by apply NoDup_cons in Hd as [].
  - by rewrite dict_pop_absent.
Qed.

Lemma dict_get_pop_eq k d : dict_wf d -> dict_get k (dict_pop k d) = None.
Proof.
  intros Hd. apply dict_get_None. destruct (dict_get k d) as [v|] eqn:E.
  - unfold dict_wf in Hd. apply dict_pop_perm in E.
    rewrite E in Hd. cbn in Hd. by apply NoDup_cons in Hd as [].
  - rewrite dict_pop_absent by done. by apply dict_get_None.
Qed.

Lemma dict_get_pop_ne k k' d : k <> k' -> dict_get k' (dict_pop k d) = dict_get k' d.
Proof.
  intros Hne. induction d as [|[j w] d IH]; cbn; [done|].
  case_decide; cbn; repeat case_decide; congruence.
Qed.

Lemma dict_pop_set_fresh k v d : dict_get k d = None -> dict_pop k (dict_set k v d) = d.
Proof.
  induction d as [|[j w] d IH]; cbn.
  - intros _. by rewrite decide_True by done.
  - case_decide; [done|]. intros Hg. cbn. rewrite decide_False by done. f_equal. auto.
Qed.

Lemma dict_pop_elem k v d k' : (k, v) ∈ dict_pop k' d -> (k, v) ∈ d.
Proof.
  destruct (dict_get k' d) as [w|] eqn:E.
  - intros Hin. rewrite (dict_pop_perm _ _ _ E). by right.
  - by rewrite dict_pop_absent.
Qed.

Lemma dict_set_replace k v v0 d :
  dict_get k d = Some v0 -> dict_set k v d ≡ₚ (k, v) :: dict_pop k d.
Proof.
  induction d as [|[k' v'] d IH]; cbn; [done|].
  case_decide; intros Hget; simplify_eq; [done|].
  rewrite IH by done. apply Permutation_swap.
Qed.

Lemma dict_set_elem k v d k' v' :
  dict_wf d -> (k', v') ∈ dict_set k v d ->
  (k' = k /\ v' = v) \/ (k' <> k /\ (k', v') ∈ d).
Proof.
  intros Hd Hin. apply dict_elem_get in Hin; [|by apply dict_set_wf].
  destruct (decide (k' = k)) as [->|Hne].
  - rewrite dict_get_set_eq in Hin. left. by simplify_eq.
  - rewrite dict_get_set_ne in Hin by done. right. split; [done|].
    by apply dict_get_elem.
Qed.

End dict.

#[export] Hint Resolve dict_set_wf dict_pop_wf : hyx.

(** Building a dictionary from pairs with distinct keys keeps the pairs. *)
Lemma dict_of_pairs {K V} `{EqDecision K} (l d : list (K * V)) :
  NoDup (d.*1 ++ l.*1) -> foldl (fun d p => dict_set p.1 p.2 d) d l = d ++ l.
Proof.
  revert d. induction l as [|[k v] l IH]; intros d Hn; cbn [foldl]; [by rewrite app_nil_r|].
  rewrite fmap_cons in Hn. cbn [fst snd] in *. rewrite dict_set_fresh.
  - rewrite IH; [by rewrite <- app_assoc|].
    rewrite fmap_app, <- app_assoc. done.
  - apply dict_get_None. intros Hin. apply NoDup_app in Hn as (_ & Hd & _).
    apply (Hd k Hin). left.
Qed.

(** A lookup as a selection of the items. *)
Lemma dict_get_select {K V B} `{EqDecision K} (o : option K) (f : V -> list B) (d : list (K * V)) :
  dict_wf d ->
  concat (f <$> option_list (o ≫= fun k => dict_get k d)) =
  concat ((fun x => if decide (o = Some x.1) then f x.2 else []) <$> d).
Proof.
  intros Hd. destruct o as [k|]; cbn [mbind option_bind]; cycle 1.
  { change (option_list (@None V)) with (@nil V). induction d as [|x d IH]; [done|].
    rewrite fmap_cons. cbn [concat]. rewrite decide_False by done. apply IH.
    unfold dict_wf in *. rewrite fmap_cons in Hd. by apply NoDup_cons in Hd as []. }
  unfold dict_wf in Hd. induction d as [|[k' v] d IH]; [done|].
  rewrite !fmap_cons in *. apply NoDup_cons in Hd as [Hk Hd]. cbn [dict_get concat fst snd] in *.
  destruct (decide (k' = k)) as [->|Hne].
  - rewrite decide_True by done. change (option_list (Some v)) with [v].
    rewrite list_fmap_singleton. cbn [concat]. f_equal. clear IH.
    induction d as [|[k1 v1] d IH]; [done|]. rewrite !fmap_cons in *. cbn [concat fst] in *.
    apply not_elem_of_cons in Hk as [Hk1 Hk2]. apply NoDup_cons in Hd as [_ Hd].
    rewrite decide_False by congruence. by apply IH.
  - rewrite decide_False by congruence. by apply IH.
Qed.
