(* ===== verification/Sha256.v ===== *)
(** * SHA-256

    [hashlib.sha256(data).digest()] over byte lists: the Standard Library
    function the segment hash is built on, written out so that hashes of
    concrete segments evaluate. *)

From S2P Require Import Prelude.

Definition w32 (z : Z) : Z := z mod 2 ^ 32.
Definition add32 (x y : Z) : Z := w32 (x + y).
Definition rotr (n x : Z) : Z :=
  Z.lor (Z.shiftr x n) (w32 (Z.shiftl x (32 - n))).

Definition sha_ch (e f g : Z) : Z := Z.lxor (Z.land e f) (Z.land (Z.lxor e (2 ^ 32 - 1)) g).
Definition sha_maj (a b c : Z) : Z :=
  Z.lxor (Z.lxor (Z.land a b) (Z.land a c)) (Z.land b c).
Definition big_sigma0 (x : Z) : Z := Z.lxor (Z.lxor (rotr 2 x) (rotr 13 x)) (rotr 22 x).
Definition big_sigma1 (x : Z) : Z := Z.lxor (Z.lxor (rotr 6 x) (rotr 11 x)) (rotr 25 x).
Definition small_sigma0 (x : Z) : Z :=
  Z.lxor (Z.lxor (rotr 7 x) (rotr 18 x)) (Z.shiftr x 3).
Definition small_sigma1 (x : Z) : Z :=
  Z.lxor (Z.lxor (rotr 17 x) (rotr 19 x)) (Z.shiftr x 10).

(** The constants of the standard: the first 32 fractional bits of the cube
    and square roots of the first primes. *)

(** The largest [r] below [2 ^ bits] with [f r <= n]. *)
Fixpoint root_bits (f : Z -> Z) (bits : nat) (r n : Z) : Z :=
  match bits with
  | O => r
  | S b =>
      let r' := r + 2 ^ Z.of_nat b in
      root_bits f b (if f r' <=? n then r' else r) n
  end.

Definition is_prime (n : Z) : bool :=
  forallb (fun d => negb (n mod d =? 0)) (pyrange 2 n).
Definition primes (k : nat) : list Z := take k (filter is_prime (pyrange 2 312)).

Definition cube_root_bits (p : Z) : Z := w32 (root_bits (fun r => r * r * r) 40 0 (p * 2 ^ 96)).
Definition square_root_bits (p : Z) : Z := w32 (root_bits (fun r => r * r) 40 0 (p * 2 ^ 64)).

Definition sha_k : list Z := Eval vm_compute in cube_root_bits <$> primes 64.
Definition sha_init : list Z := Eval vm_compute in square_root_bits <$> primes 8.

(** Big-endian words. *)
Definition be_bytes (n : nat) (z : Z) : list Z :=
  (fun i => Z.shiftr z (8 * (Z.of_nat n - 1 - i)) mod 256) <$> seqZ 0 (Z.of_nat n).

Definition sha_pad (data : list Z) : list Z :=
  data ++ [128] ++ replicate (Z.to_nat ((55 - len data) mod 64)) 0
       ++ be_bytes 8 (8 * len data).

Fixpoint be_words (bs : list Z) : list Z :=
  match bs with
  | a :: b :: c :: d :: bs' =>
      (Z.shiftl a 24 + Z.shiftl b 16 + Z.shiftl c 8 + d) :: be_words bs'
  | _ => []
  end.

(** The message schedule, newest word first. *)
Fixpoint sha_expand (n : nat) (ws : list Z) : list Z :=
  match n with
  | O => ws
  | S n' =>
      let w := add32 (add32 (small_sigma1 (nth 1 ws 0)) (nth 6 ws 0))
                     (add32 (small_sigma0 (nth 14 ws 0)) (nth 15 ws 0)) in
      sha_expand n' (w :: ws)
  end.

Definition sha_round (h : list Z) (kw : Z * Z) : list Z :=
  match h with
  | [a; b; c; d; e; f; g; h0] =>
      let t1 := add32 (add32 (add32 h0 (big_sigma1 e)) (sha_ch e f g))
                      (add32 kw.1 kw.2) in
      let t2 := add32 (big_sigma0 a) (sha_maj a b c) in
      [add32 t1 t2; a; b; c; add32 d t1; e; f; g]
  | _ => h
  end.

Definition sha_block (h : list Z) (block : list Z) : list Z :=
  let ws := reverse (sha_expand 48 (reverse block)) in
  zip_with add32 h (foldl sha_round h (zip sha_k ws)).

Fixpoint sha_blocks (n : nat) (h ws : list Z) : list Z :=
  match n with
  | O => h
  | S n' => sha_blocks n' (sha_block h (take 16 ws)) (drop 16 ws)
  end.

Definition sha256 (data : list Z) : list Z :=
  let ws := be_words (sha_pad data) in
  concat (be_bytes 4 <$> sha_blocks (Z.to_nat (len ws / 16)) sha_init ws).

(** FIPS 180-4 test vectors: the empty message, "abc", and a two-block
    message. *)
Example sha256_empty :
  sha256 [] = concat (be_bytes 4 <$>
    [0xe3b0c442; 0x98fc1c14; 0x9afbf4c8; 0x996fb924;
     0x27ae41e4; 0x649b934c; 0xa495991b; 0x7852b855]).
Proof. vm_compute. reflexivity. Qed.

Example sha256_abc :
  sha256 [97; 98; 99] = concat (be_bytes 4 <$>
    [0xba7816bf; 0x8f01cfea; 0x414140de; 0x5dae2223;
     0xb00361a3; 0x96177a9c; 0xb410ff61; 0xf20015ad]).
Proof. vm_compute. reflexivity. Qed.

Example sha256_two_blocks :
  sha256 (replicate 64 97) = concat (be_bytes 4 <$>
    [0xffe054fe; 0x7ae0cb6d; 0xc65c3af9; 0xb61d5209;
     0xf439851d; 0xb43d0ba5; 0x997337df; 0x154668eb]).
Proof. vm_compute. reflexivity. Qed.
