(* ===== verification/Segmenter.v ===== *)
(** * Prompt segmentation and segment hashes (srt/pic/segmenter.py)

    [split_and_tokenize] splits a prompt on the separator, tokenizes each
    part and records the half-open token range of every non-empty part;
    [segment_hash] is the cache key of a token range.  A Python [str] is
    the list of its code points; the tokenizer is a parameter. *)

From S2P Require Import Prelude Sha256.

(** [str.split(sep)] for a non-empty separator: leftmost, non-overlapping
    occurrences.  [skip] counts the separator characters still to drop. *)
Fixpoint str_split_go (sep : list Z) (skip : nat) (cur s : list Z) : list (list Z) :=
  match s with
  | [] => [reverse cur]
  | c :: s' =>
      match skip with
      | S k => str_split_go sep k cur s'
      | O =>
          if decide (sep `prefix_of` s)
          then reverse cur :: str_split_go sep (length sep - 1) [] s'
          else str_split_go sep 0 (c :: cur) s'
      end
  end.

(** An empty separator raises [ValueError]. *)
Definition str_split (s sep : list Z) : outcome (list (list Z)) :=
  match sep with
  | [] => Raise ValueError
  | _ => Ret (str_split_go sep 0 [] s)
  end.

Section segmenter.
(** [tokenizer.encode(part, add_special_tokens=False)]. *)
Variable encode : list Z -> list Z.

(** The loop body over the parts: empty encodings are skipped. *)
Definition tokenize_step (acc : list Z * list (Z * Z)) (part : list Z)
    : list Z * list (Z * Z) :=
  let '(ids, offsets) := acc in
  let seg_ids := encode part in
  match seg_ids with
  | [] => (ids, offsets)
  | _ =>
      let start := len ids in
      let ids' := ids ++ seg_ids in
      (ids', offsets ++ [(start, len ids')])
  end.

Definition split_and_tokenize (text separator : list Z)
    : outcome (list Z * list (Z * Z)) :=
  match str_split text separator with
  | Raise e => Raise e
  | Ret parts => Ret (foldl tokenize_step ([], []) parts)
  end.

End segmenter.

(** int32 little-endian bytes of one token id. *)
Definition le32 (z : Z) : list Z :=
  let u := z mod 2 ^ 32 in
  [u mod 256; Z.shiftr u 8 mod 256; Z.shiftr u 16 mod 256; Z.shiftr u 24 mod 256].

(** The tensor branch of [segment_hash]: [token_ids.to(torch.int32)] wraps,
    then the first 16 bytes of the digest. *)
Definition segment_hash (token_ids : list Z) : list Z :=
  take 16 (sha256 (concat ((fun t => le32 (to_int32 t)) <$> token_ids))).

(** The sequence branch: [array.array("i", ...)] raises [OverflowError] on
    a value outside int32. *)
Definition in_int32 (z : Z) : bool := (- 2 ^ 31 <=? z) && (z <? 2 ^ 31).
Definition segment_hash_seq (token_ids : list Z) : outcome (list Z) :=
  if forallb in_int32 token_ids
  then Ret (take 16 (sha256 (concat (le32 <$> token_ids))))
  else Raise OverflowError.

(** [str.join]. *)
Fixpoint str_join (sep : list Z) (parts : list (list Z)) : list Z :=
  match parts with
  | [] => []
  | [p] => p
  | p :: ps => p ++ sep ++ str_join sep ps
  end.

(** Consecutive ranges [[a,b) [b,c) ...] that start at [lo] and end at [hi]. *)
Fixpoint tiles (lo hi : Z) (segs : list (Z * Z)) : Prop :=
  match segs with
  | [] => lo = hi
  | (s, e) :: segs' => s = lo /\ s < e /\ tiles e hi segs'
  end.

Arguments segment_hash : simpl never.
#[global] Opaque segment_hash.

Lemma str_split_go_nonempty sep skip cur s : str_split_go sep skip cur s <> [].
Proof.
  revert skip cur. induction s as [|c s IH]; intros skip cur; cbn; [done|].
  destruct skip; [case_decide; [done|auto]|auto].
Qed.

Lemma str_join_cons sep p ps : ps <> [] -> str_join sep (p :: ps) = p ++ sep ++ str_join sep ps.
Proof. by destruct ps. Qed.

Lemma str_split_go_join sep skip cur s :
  sep <> [] -> (skip <= length s)%nat ->
  str_join sep (str_split_go sep skip cur s) = reverse cur ++ drop skip s.
Proof.
  intros Hsep. revert skip cur. induction s as [|c s IH]; intros skip cur Hk; cbn in *.
  - by rewrite drop_nil, app_nil_r.
  - destruct skip as [|k]; [|rewrite IH by lia; done].
    case_decide as Hp.
    + destruct Hp as [rest Hrest]. destruct sep as [|x sep]; [done|].
      cbn in Hrest. simplify_eq. rewrite str_join_cons by apply str_split_go_nonempty.
      rewrite IH by (cbn; rewrite length_app; lia).
      rewrite reverse_nil. cbn [length app]. rewrite Nat.sub_succ, Nat.sub_0_r, drop_app_length.
      by rewrite drop_0.
    + rewrite IH by lia. rewrite reverse_cons, drop_0. by rewrite <- app_assoc.
Qed.

Lemma tiles_snoc lo mid hi segs :
  tiles lo mid segs -> mid < hi -> tiles lo hi (segs ++ [(mid, hi)]).
Proof.
  revert lo. induction segs as [|[s e] segs IH]; cbn; intros lo.
  - intros -> ?. auto.
  - intros (-> & ? & ?) ?. auto.
Qed.

Lemma tiles_le lo hi segs : tiles lo hi segs -> lo <= hi.
Proof.
  revert lo. induction segs as [|[s e] segs IH]; cbn; intros lo.
  - lia.
  - intros (-> & ? & ?%IH). lia.
Qed.

Lemma tiles_elem lo hi segs s e :
  tiles lo hi segs -> (s, e) ∈ segs -> lo <= s /\ s < e /\ e <= hi.
Proof.
  revert lo. induction segs as [|[s' e'] segs IH]; cbn; intros lo.
  - by intros _ ?%not_elem_of_nil.
  - intros (-> & ? & Ht) [[= -> ->]|Hin]%elem_of_cons.
    + apply tiles_le in Ht. lia.
    + destruct (IH _ Ht Hin). lia.
Qed.

Section segmenter_facts.
Context (encode : list Z -> list Z).

Lemma tokenize_fold_spec parts ids offs :
  tiles 0 (len ids) offs ->
  let '(ids', offs') := foldl (tokenize_step encode) (ids, offs) parts in
  tiles 0 (len ids') offs' /\
  ids' = ids ++ concat (encode <$> parts) /\
  exists new, offs' = offs ++ new /\
    (fun '(s, e) => pyslice ids' s e) <$> new =
    filter (fun l => l <> []) (encode <$> parts).
Proof.
  revert ids offs. induction parts as [|p parts IH]; intros ids offs Ht.
  { cbn. rewrite app_nil_r. split; [done|]. split; [done|]. exists [].
    by rewrite app_nil_r. }
  rewrite fmap_cons. cbn [foldl concat].
  unfold tokenize_step at 2. destruct (encode p) as [|t ts] eqn:E.
  - rewrite filter_cons_False by auto. by apply IH.
  - set (ids1 := ids ++ t :: ts).
    assert (len ids < len ids1) as Hlt.
    { unfold ids1. rewrite len_app, len_cons. pose proof (len_nonneg ts). lia. }
    specialize (IH ids1 (offs ++ [(len ids, len ids1)]) (tiles_snoc _ _ _ _ Ht Hlt)).
    destruct (foldl _ _ _) as [ids' offs']. destruct IH as (Ht' & Hids & new & -> & Hnew).
    split; [done|]. split; [unfold ids1 in Hids; by rewrite Hids, <- app_assoc|].
    exists ((len ids, len ids1) :: new). split; [by rewrite <- app_assoc|].
    rewrite filter_cons_True, fmap_cons by done. rewrite <- Hnew. f_equal.
    pose proof (len_nonneg ids). pose proof (len_nonneg (concat (encode <$> parts))).
    rewrite Hids. rewrite pyslice_in_range by (rewrite ?len_app in *; lia).
    unfold ids1 in *. rewrite <- app_assoc, drop_app_length' by (unfold len; lia).
    rewrite take_app_length'; [done|]. rewrite len_app in *. unfold len. lia.
Qed.

(** C21. Segmentation is exact: on a non-empty separator the parts join back
    to the prompt, and [split_and_tokenize] returns the concatenated
    encodings together with ranges that tile [[0, len ids)] in order and
    select exactly the non-empty encodings, one per range. *)
Theorem split_and_tokenize_correct text sep ids offs :
  sep <> [] -> split_and_tokenize encode text sep = Ret (ids, offs) ->
  exists parts, str_split text sep = Ret parts /\ str_join sep parts = text /\
    ids = concat (encode <$> parts) /\ tiles 0 (len ids) offs /\
    (fun '(s, e) => pyslice ids s e) <$> offs =
      filter (fun l => l <> []) (encode <$> parts).
Proof.
  intros Hsep H. unfold split_and_tokenize in H.
  destruct (str_split text sep) as [parts|] eqn:Es; [|done].
  exists parts. split; [done|].
  assert (parts = str_split_go sep 0 [] text) as Hparts.
  { unfold str_split in Es. by destruct sep; simplify_eq. }
  split; [subst parts; by rewrite str_split_go_join by (done || lia)|].
  pose proof (tokenize_fold_spec parts [] [] eq_refl) as Hf.
  injection H as H. rewrite H in Hf.
  destruct Hf as (? & ? & new & ? & ?). by subst offs.
Qed.

End segmenter_facts.

(** C22. The two branches of [segment_hash] agree on int32 token ids: the
    scheduler's list-keyed hash finds the entry that the cache inserted
    under its tensor-keyed hash, and only out-of-range ids raise. *)
Theorem segment_hash_agree token_ids :
  if forallb in_int32 token_ids
  then segment_hash_seq token_ids = Ret (segment_hash token_ids)
  else segment_hash_seq token_ids = Raise OverflowError.
Proof.
  unfold segment_hash_seq. destruct (forallb in_int32 token_ids) eqn:E; [|done].
  f_equal. with_strategy transparent [segment_hash] (unfold segment_hash).
  do 3 f_equal. apply list_fmap_ext. intros i t Ht.
  assert (in_int32 t = true) as Hb.
  { apply forallb_forall with (x := t) in E; [done|].
    apply list_elem_of_In, list_elem_of_lookup. eauto. }
  unfold in_int32 in Hb. breflect. f_equal. unfold to_int32, wrap_signed.
  rewrite Z.mod_small; lia.
Qed.

(** Two prompts' worth of separators: a leading separator and an empty
    part produce no range. *)
Lemma split_and_tokenize_correct_witness :
  exists parts, str_split [0; 5; 6; 0; 0; 7] [0] = Ret parts /\
    str_join [0] parts = [0; 5; 6; 0; 0; 7] /\
    [5; 6; 7] = concat ((fun x => x) <$> parts) /\
    tiles 0 (len [5; 6; 7]) [(0, 2); (2, 3)] /\
    (fun '(s, e) => pyslice [5; 6; 7] s e) <$> [(0, 2); (2, 3)] =
      filter (fun l => l <> []) ((fun x : list Z => x) <$> parts).
Proof.
  apply (split_and_tokenize_correct (fun x => x)); [done|].
  vm_compute. reflexivity.
Defined.
