(* ===== verification/Policy.v ===== *)
(** * PIC policies and the seam width (srt/pic/policy.py, srt/pic/__init__.py)

    The mode table, and [resolve_seam_sink_tokens], which turns the
    PIC_SEAM_SINK knob into a token count.  The knob is a Python float:
    binary64 arithmetic is [SpecFloat]'s, so the product in the ratio
    branch rounds the way the interpreter's does. *)

From Stdlib Require Import SpecFloat.
From stdpp Require Import strings.
From S2P Require Import Prelude PyDict.

Inductive PICCompose := ADDITION | TRANSITION.

#[global] Instance PICCompose_eq_dec : EqDecision PICCompose.
Proof. solve_decision. Defined.

Record PICPolicy := mkPolicy {
  compose : PICCompose;
  rope : bool;
  recompute : bool;
}.

#[global] Instance PICPolicy_eq_dec : EqDecision PICPolicy.
Proof. solve_decision. Defined.

Definition POLICIES : list (string * PICPolicy) :=
  [("addition"%string, mkPolicy ADDITION false false);
   ("transition"%string, mkPolicy TRANSITION false false);
   ("transition_rope"%string, mkPolicy TRANSITION true false);
   ("transition_rope_recompute"%string, mkPolicy TRANSITION true true)].

Definition resolve_policy (pic_mode : string) : outcome PICPolicy :=
  match dict_get pic_mode POLICIES with
  | Some p => Ret p
  | None => Raise KeyError
  end.

(** ** Python floats *)

Definition float_of_int (z : Z) : outcome spec_float :=
  match binary_normalize 53 1024 z 0 false with
  | S754_infinity _ => Raise OverflowError
  | f => Ret f
  end.

Definition float_mul (x y : spec_float) : spec_float := SFmul 53 1024 x y.

(** [math.ceil]. *)
Definition math_ceil (f : spec_float) : outcome Z :=
  match f with
  | S754_zero _ => Ret 0
  | S754_infinity _ => Raise OverflowError
  | S754_nan => Raise ValueError
  | S754_finite s m e =>
      let v := if s then Z.neg m else Z.pos m in
      Ret (if 0 <=? e then v * 2 ^ e else - ((- v) / 2 ^ (- e)))
  end.

(** [int(x)]: truncation towards zero. *)
Definition py_int (f : spec_float) : outcome Z :=
  match f with
  | S754_zero _ => Ret 0
  | S754_infinity _ => Raise OverflowError
  | S754_nan => Raise ValueError
  | S754_finite s m e =>
      let v := if s then Z.neg m else Z.pos m in
      Ret (if 0 <=? e then v * 2 ^ e else Z.quot v (2 ^ (- e)))
  end.

Definition float0 : spec_float := S754_zero false.
Definition float1 : spec_float := S754_finite false 4503599627370496 (-52).

(** The default of the PIC_SEAM_SINK knob, [float("8")]. *)
Definition SEAM_SINK_DEFAULT : spec_float := S754_finite false 4503599627370496 (-49).

Definition resolve_seam_sink_tokens (sink_spec : spec_float) (max_tokens : Z) : outcome Z :=
  if SFleb sink_spec float0 || (max_tokens <=? 0) then Ret 0
  else if SFleb sink_spec float1 then
    match float_of_int max_tokens with
    | Raise e => Raise e
    | Ret f =>
        match math_ceil (float_mul f sink_spec) with
        | Ret c => Ret (Z.min max_tokens c)
        | Raise e => Raise e
        end
    end
  else
    match py_int sink_spec with
    | Ret t => Ret (Z.min max_tokens t)
    | Raise e => Raise e
    end.

(** Not a negative number, infinity or NaN included. *)
Definition sf_nonneg (f : spec_float) : bool :=
  match f with
  | S754_finite s _ _ | S754_infinity s => negb s
  | S754_zero _ | S754_nan => true
  end.

Lemma binary_round_aux_nonneg m e l :
  sf_nonneg (binary_round_aux 53 1024 false m e l) = true.
Proof.
  unfold binary_round_aux. destruct (shr_fexp 53 1024 m e l) as [mrs e'].
  destruct (shr_fexp 53 1024 _ _ _) as [mrs'' e''].
  destruct (shr_m mrs''); [done| |done]. by destruct (_ <=? _).
Qed.

Lemma float_of_int_nonneg z f : 0 <= z -> float_of_int z = Ret f -> sf_nonneg f = true.
Proof.
  intros Hz. unfold float_of_int. intros H.
  assert (sf_nonneg (binary_normalize 53 1024 z 0 false) = true) as Hn.
  { destruct z; [done| |lia]. cbn [binary_normalize]. unfold binary_round.
    destruct (shl_align _ _ _). apply binary_round_aux_nonneg. }
  destruct (binary_normalize 53 1024 z 0 false); congruence.
Qed.

Lemma float_mul_nonneg x y :
  sf_nonneg x = true -> sf_nonneg y = true -> sf_nonneg (float_mul x y) = true.
Proof.
  destruct x as [[]|[]| |[] mx ex], y as [[]|[]| |[] my ey]; try done.
  intros _ _. unfold float_mul, SFmul. cbn [xorb]. apply binary_round_aux_nonneg.
Qed.

Lemma math_ceil_nonneg f z : sf_nonneg f = true -> math_ceil f = Ret z -> 0 <= z.
Proof.
  destruct f as [| | |[] m e]; cbn; try done; intros _ [= <-]; [done|].
  case_if; breflect.
  - apply Z.mul_nonneg_nonneg; [lia|]. apply Z.pow_nonneg; lia.
  - assert (- Z.pos m / 2 ^ (- e) <= 0); [|lia].
    apply Z.div_le_upper_bound; [apply Z.pow_pos_nonneg|]; lia.
Qed.

Lemma sf_not_le0 f : SFleb f float0 = false -> sf_nonneg f = true.
Proof. by destruct f as [| [] | |[] ? ?]. Qed.

Lemma py_int_nonneg f z : sf_nonneg f = true -> py_int f = Ret z -> 0 <= z.
Proof.
  destruct f as [| | |[] m e]; cbn [sf_nonneg py_int negb]; try done; intros _ [= <-]; [done|].
  case_if; breflect.
  - apply Z.mul_nonneg_nonneg; [lia|]. apply Z.pow_nonneg; lia.
  - apply Z.quot_pos; [lia|]. apply Z.pow_pos_nonneg; lia.
Qed.

Lemma seam_sink_range sink max_tokens k :
  resolve_seam_sink_tokens sink max_tokens = Ret k -> 0 <= k <= Z.max 0 max_tokens.
Proof.
  unfold resolve_seam_sink_tokens.
  destruct (SFleb sink float0) eqn:E0; cbn [orb]; [intros [= <-]; lia|].
  destruct (Z.leb_spec max_tokens 0); [intros [= <-]; lia|].
  apply sf_not_le0 in E0. destruct (SFleb sink float1).
  - destruct (float_of_int max_tokens) as [f|] eqn:Ef; [|done].
    apply float_of_int_nonneg in Ef; [|lia].
    destruct (math_ceil _) as [c|] eqn:Ec; [|done]. intros [= <-].
    apply math_ceil_nonneg in Ec; [lia|]. by apply float_mul_nonneg.
  - destruct (py_int sink) as [t|] eqn:Et; [|done]. intros [= <-].
    apply py_int_nonneg in Et; [lia|done].
Qed.

(** The seam never exceeds the segment: whatever the knob (negative,
    ratio, count, infinite), a resolved seam width lies between 0 and the
    available tokens. *)
Theorem resolve_seam_sink_bounds sink max_tokens k :
  resolve_seam_sink_tokens sink max_tokens = Ret k -> 0 <= k <= Z.max 0 max_tokens.
Proof. apply seam_sink_range. Qed.

Lemma resolve_seam_sink_bounds_witness :
  (* a ratio of 0.3 over 10 tokens rounds up to 3 recomputed tokens *)
  resolve_seam_sink_tokens (S754_finite false 5404319552844595 (-54)) 10 = Ret 3 /\
  0 <= 3 <= Z.max 0 10.
Proof.
  split; [vm_compute; reflexivity|].
  apply (resolve_seam_sink_bounds (S754_finite false 5404319552844595 (-54)) 10).
  vm_compute. reflexivity.
Defined.

(** With the default knob the seam is [min 8 max_tokens]. *)
Lemma resolve_seam_sink_default n :
  resolve_seam_sink_tokens SEAM_SINK_DEFAULT n = Ret (Z.max 0 (Z.min n 8)).
Proof.
  unfold resolve_seam_sink_tokens.
  replace (SFleb SEAM_SINK_DEFAULT float0) with false by (vm_compute; reflexivity).
  replace (SFleb SEAM_SINK_DEFAULT float1) with false by (vm_compute; reflexivity).
  replace (py_int SEAM_SINK_DEFAULT) with (@Ret Z 8) by (vm_compute; reflexivity).
  cbn [orb]. case_if; breflect; f_equal; lia.
Qed.

(** The mode table: a name resolves exactly when it is one of the four
    published modes (otherwise KeyError), recomputing the seam implies
    re-rotation, and re-rotation implies the transition operator. *)
Theorem resolve_policy_spec mode :
  match resolve_policy mode with
  | Ret p => mode ∈ POLICIES.*1 /\ (recompute p = true -> rope p = true) /\
             (rope p = true -> compose p = TRANSITION)
  | Raise e => e = KeyError /\ mode ∉ POLICIES.*1
  end.
Proof.
  unfold resolve_policy. destruct (dict_get mode POLICIES) as [p|] eqn:E.
  - apply dict_get_elem in E. split; [apply list_elem_of_fmap; by exists (mode, p)|].
    unfold POLICIES in E. set_unfold in E. naive_solver.
  - split; [done|]. by apply dict_get_None.
Qed.
