(* ===== verification/Allocator.v ===== *)
(** * The slot-allocator interface

    What the caches and the request pool rely on of a slot allocator
    ([BaseTokenToKVPoolAllocator], [MambaSlotAllocator]): [alloc] hands out
    slots that leave the free pool, [free] returns them, nothing appears or
    disappears.  [pool_slots] is the multiset of slots the allocator owns,
    whichever of its internal lists holds them; [alloc_ready] is the state
    in which an allocation within [available_size] succeeds. *)

From S2P Require Import Prelude.

Class AllocatorOps (A : Type) := {
  alloc : Z -> A -> option (list Z) * A;
  free : list Z -> A -> A;
  available_size : A -> Z;
  pool_slots : A -> list Z;
  alloc_ready : A -> Prop;
}.

Class Allocator (A : Type) `{AllocatorOps A} := {
  alloc_success n a x a' :
    0 <= n -> alloc n a = (Some x, a') ->
    len x = n /\ pool_slots a ≡ₚ x ++ pool_slots a' ;
  alloc_failure n a a' :
    alloc n a = (None, a') -> pool_slots a' ≡ₚ pool_slots a;
  free_conserves x a : pool_slots (free x a) ≡ₚ x ++ pool_slots a;
  alloc_enough n a :
    alloc_ready a -> 0 <= n <= available_size a ->
    exists x a', alloc n a = (Some x, a');
  free_available x a :
    alloc_ready a -> available_size (free x a) = len x + available_size a;
  free_ready x a : alloc_ready a -> alloc_ready (free x a);
  alloc_ready_preserved n a o a' :
    alloc_ready a -> alloc n a = (o, a') -> alloc_ready a';
  available_bound a : 0 <= available_size a <= len (pool_slots a);
  ready_slots a : alloc_ready a -> available_size a = len (pool_slots a);
}.

Section facts.
Context `{Allocator A}.

(** Allocating a sum of sizes: what the pool had is what it has plus what
    was handed out, on success and on failure alike. *)
Lemma alloc_conserves n a o a' :
  0 <= n -> alloc n a = (o, a') -> pool_slots a ≡ₚ default [] o ++ pool_slots a'.
Proof.
  intros Hn Ha. destruct o as [x|]; cbn.
  - by eapply alloc_success in Ha as [_ ?].
  - by apply alloc_failure in Ha as ->.
Qed.

Lemma alloc_len n a x a' : 0 <= n -> alloc n a = (Some x, a') -> len x = n.
Proof. intros Hn Ha. by eapply alloc_success in Ha as [? _]. Qed.

(** More than what is available is never handed out. *)
Lemma alloc_exhausted n a x a' :
  0 <= n -> alloc_ready a -> available_size a < n -> alloc n a <> (Some x, a').
Proof.
  intros Hn Hr Hlt Ha. rewrite ready_slots in Hlt by done.
  eapply alloc_success in Ha as [Hl Hp]; [|done].
  apply len_perm in Hp. rewrite len_app in Hp. pose proof (len_nonneg (pool_slots a')). lia.
Qed.

End facts.
