(* ===== verification/TokenAllocator.v ===== *)
(** * The token-granularity KV allocator

    [BaseTokenToKVPoolAllocator] and [TokenToKVPoolAllocator] at page size 1
    (srt/mem_cache/allocator/base.py, token.py): a free list handed out from
    the front, an optional lazily merged release list ([need_sort]), and the
    free-group window in which frees are batched. *)

From S2P Require Import Prelude Allocator.

Record TokenToKVPoolAllocator := mkTokenAlloc {
  size : Z;
  need_sort : bool;
  free_pages : list Z;
  release_pages : list Z;
  is_not_in_free_group : bool;
  free_group : list (list Z);
}.

Definition set_pages (fp rp : list Z) (a : TokenToKVPoolAllocator) :=
  mkTokenAlloc (size a) (need_sort a) fp rp (is_not_in_free_group a) (free_group a).

Definition clear (a : TokenToKVPoolAllocator) : TokenToKVPoolAllocator :=
  mkTokenAlloc (size a) (need_sort a) (pyrange 1 (size a + 1)) [] true [].

(** [__init__]: the base class stores the parameters, [clear] fills the list. *)
Definition token_alloc_init (size : Z) (need_sort : bool) : TokenToKVPoolAllocator :=
  clear (mkTokenAlloc size need_sort [] [] true []).

Definition token_available_size (a : TokenToKVPoolAllocator) : Z :=
  len (free_pages a) + len (release_pages a).

Definition merge_and_sort_free (a : TokenToKVPoolAllocator) : TokenToKVPoolAllocator :=
  if 0 <? len (release_pages a)
  then set_pages (sort_Z (free_pages a ++ release_pages a)) [] a
  else a.

Definition token_alloc (need_size : Z) (a : TokenToKVPoolAllocator)
    : option (list Z) * TokenToKVPoolAllocator :=
  let a := if need_sort a && (len (free_pages a) <? need_size)
           then merge_and_sort_free a else a in
  if len (free_pages a) <? need_size then (None, a)
  else (Some (slice_to (free_pages a) need_size),
        set_pages (slice_from (free_pages a) need_size) (release_pages a) a).

Definition token_free (free_index : list Z) (a : TokenToKVPoolAllocator)
    : TokenToKVPoolAllocator :=
  if len free_index =? 0 then a
  else if is_not_in_free_group a then
    if need_sort a
    then set_pages (free_pages a) (release_pages a ++ free_index) a
    else set_pages (free_pages a ++ free_index) (release_pages a) a
  else mkTokenAlloc (size a) (need_sort a) (free_pages a) (release_pages a) false
         (free_group a ++ [free_index]).

Definition free_group_begin (a : TokenToKVPoolAllocator) : TokenToKVPoolAllocator :=
  mkTokenAlloc (size a) (need_sort a) (free_pages a) (release_pages a) false [].

(** The list is left in [free_group] after the batched free, exactly as in
    the source: only [free_group_begin] and [clear] reset it. *)
Definition free_group_end (a : TokenToKVPoolAllocator) : TokenToKVPoolAllocator :=
  let a' := mkTokenAlloc (size a) (need_sort a) (free_pages a) (release_pages a)
              true (free_group a) in
  match free_group a with
  | [] => a'
  | g => token_free (concat g) a'
  end.

Definition backup_state (a : TokenToKVPoolAllocator) : list Z * list Z :=
  (free_pages a, release_pages a).
Definition restore_state (st : list Z * list Z) (a : TokenToKVPoolAllocator) :=
  set_pages st.1 st.2 a.

(** Slots the allocator owns: its two lists, and inside a group window the
    frees that wait for [free_group_end]. *)
Definition token_pool_slots (a : TokenToKVPoolAllocator) : list Z :=
  free_pages a ++ release_pages a ++
  (if is_not_in_free_group a then [] else concat (free_group a)).

(** Outside a group window, with no release list unless it is merged on
    demand. *)
Definition token_alloc_ready (a : TokenToKVPoolAllocator) : Prop :=
  is_not_in_free_group a = true /\ (need_sort a = false -> release_pages a = []).

#[global] Instance token_allocator_ops : AllocatorOps TokenToKVPoolAllocator := {
  alloc := token_alloc;
  free := token_free;
  available_size := token_available_size;
  pool_slots := token_pool_slots;
  alloc_ready := token_alloc_ready;
}.

Lemma merge_and_sort_perm a :
  free_pages (merge_and_sort_free a) ++ release_pages (merge_and_sort_free a)
  ≡ₚ free_pages a ++ release_pages a.
Proof.
  unfold merge_and_sort_free. case_if; [|done]. cbn.
  rewrite app_nil_r. unfold sort_Z. by rewrite sort_key_perm.
Qed.

Lemma merge_and_sort_group a :
  is_not_in_free_group (merge_and_sort_free a) = is_not_in_free_group a /\
  free_group (merge_and_sort_free a) = free_group a /\
  need_sort (merge_and_sort_free a) = need_sort a /\
  size (merge_and_sort_free a) = size a.
Proof. unfold merge_and_sort_free. by case_if. Qed.

Lemma merge_and_sort_slots a :
  token_pool_slots (merge_and_sort_free a) ≡ₚ token_pool_slots a.
Proof.
  unfold token_pool_slots. destruct (merge_and_sort_group a) as (-> & -> & _).
  rewrite !app_assoc. by rewrite merge_and_sort_perm.
Qed.

Lemma merge_release_empty a :
  release_pages (merge_and_sort_free a) = [].
Proof.
  unfold merge_and_sort_free. case_if; [done|]. breflect.
  destruct (release_pages a); [done|].
  rewrite len_cons in *. pose proof (len_nonneg l). lia.
Qed.

(** The allocator after the optional merge, as [token_alloc] uses it. *)
Definition token_alloc_prep (n : Z) (a : TokenToKVPoolAllocator) :=
  if need_sort a && (len (free_pages a) <? n) then merge_and_sort_free a else a.

Lemma token_alloc_prep_slots n a : token_pool_slots (token_alloc_prep n a) ≡ₚ token_pool_slots a.
Proof. unfold token_alloc_prep. case_if; [apply merge_and_sort_slots|done]. Qed.

Lemma token_alloc_unfold n a :
  token_alloc n a =
  let a' := token_alloc_prep n a in
  if len (free_pages a') <? n then (None, a')
  else (Some (slice_to (free_pages a') n),
        set_pages (slice_from (free_pages a') n) (release_pages a') a').
Proof. done. Qed.

#[global] Instance token_allocator : Allocator TokenToKVPoolAllocator.
Proof.
  split; cbn.
  - intros n a x a' Hn. rewrite token_alloc_unfold. cbv zeta.
    case_if; [done|]. breflect. intros [= <- <-]. split; [apply len_slice_to; lia|].
    rewrite <- (token_alloc_prep_slots n a). unfold token_pool_slots at 1. cbn.
    rewrite <- (slice_to_from (free_pages (token_alloc_prep n a)) n) at 1.
    by rewrite <- !app_assoc.
  - intros n a a'. rewrite token_alloc_unfold. cbv zeta.
    case_if; [|done]. intros [= <-]. apply token_alloc_prep_slots.
  - intros x a. unfold token_free. case_if; breflect.
    { destruct x; [done|]. rewrite len_cons in *. pose proof (len_nonneg x). lia. }
    unfold token_pool_slots. destruct (is_not_in_free_group a) eqn:Eg.
    + destruct (need_sort a); cbn; rewrite Eg, ?app_nil_r; solve_Permutation.
    + cbn. rewrite concat_app. cbn. rewrite app_nil_r. solve_Permutation.
  - intros n a [Hg Hr] Hn. rewrite token_alloc_unfold. cbv zeta.
    unfold token_alloc_prep, token_available_size in *.
    destruct (need_sort a) eqn:Es; cbn [andb].
    + destruct (Z.ltb_spec (len (free_pages a)) n) as [Hlt|Hge].
      * pose proof (len_perm _ _ (merge_and_sort_perm a)) as Hp.
        rewrite merge_release_empty, !len_app, len_nil in Hp.
        case_if; [breflect; lia|eauto].
      * case_if; [breflect; lia|eauto].
    + assert (len (release_pages a) = 0) by (rewrite Hr; done). case_if; [breflect; lia|eauto].
  - intros x a [Hg Hr]. unfold token_free, token_available_size.
    case_if; breflect; [lia|]. rewrite Hg.
    destruct (need_sort a); cbn; rewrite len_app; lia.
  - intros x a [Hg Hr]. unfold token_free, token_alloc_ready.
    case_if; [done|]. rewrite Hg. destruct (need_sort a) eqn:Es; cbn; rewrite Es; split; auto; done.
  - intros n a o a' [Hg Hr]. rewrite token_alloc_unfold. cbv zeta.
    unfold token_alloc_prep, token_alloc_ready.
    destruct (merge_and_sort_group a) as (Hg' & _ & Hs' & _).
    case_if; case_if; intros [= <- <-]; cbn; rewrite ?Hg', ?Hs', ?merge_release_empty; auto.
  - intros a. unfold token_available_size, token_pool_slots. rewrite !len_app.
    pose proof (len_nonneg (if is_not_in_free_group a then [] else concat (free_group a))).
    pose proof (len_nonneg (free_pages a)). pose proof (len_nonneg (release_pages a)). lia.
  - intros a [Hg _]. unfold token_available_size, token_pool_slots. rewrite Hg, !len_app.
    change (len (@nil Z)) with 0. lia.
Qed.

(** Token allocation is exact: a request within [available_size]
    succeeds (merging the release list when sorting is on), hands out that
    many slots from the pool, and a request beyond it fails and changes
    nothing. *)
Theorem token_alloc_exact n a :
  token_alloc_ready a -> 0 <= n ->
  match token_alloc n a with
  | (Some x, a') => n <= token_available_size a /\ len x = n /\
      token_pool_slots a ≡ₚ x ++ token_pool_slots a' /\
      token_available_size a' = token_available_size a - n
  | (None, a') => token_available_size a < n /\
      token_pool_slots a' ≡ₚ token_pool_slots a
  end.
Proof.
  intros Hr Hn. destruct (token_alloc n a) as [[x|] a'] eqn:E.
  - pose proof (alloc_success n a x a' Hn E) as [Hl Hp]. cbn in Hp.
    pose proof (alloc_ready_preserved n a _ a' Hr E) as [Hg _].
    destruct Hr as [Hg0 _]. apply len_perm in Hp as Hlen.
    unfold token_pool_slots in Hlen. rewrite Hg, Hg0, !len_app, !len_nil in Hlen.
    pose proof (len_nonneg (free_pages a')). pose proof (len_nonneg (release_pages a')).
    unfold token_available_size. split_and!; try done; lia.
  - split; [|exact (alloc_failure n a a' E)].
    destruct (Z.le_gt_cases n (token_available_size a)); [|lia].
    pose proof (alloc_enough n a Hr (conj Hn H)) as (x & a'' & Hx).
    cbn in Hx. congruence.
Qed.

(** A merge on demand: two released slots make the third allocation fit. *)
Lemma token_alloc_exact_witness :
  let a := token_free [5; 2] (token_alloc 3 (token_alloc_init 3 true)).2 in
  token_alloc 2 a = (Some [2; 5], mkTokenAlloc 3 true [] [] true []) /\
  2 <= token_available_size a.
Proof.
  split; [vm_compute; reflexivity|].
  pose proof (token_alloc_exact 2
    (token_free [5; 2] (token_alloc 3 (token_alloc_init 3 true)).2)) as H.
  vm_compute in H. vm_compute. apply H; [|done]. done.
Defined.

(** A free-group window defers frees without losing them: after
    [free_group_begin], any frees, and [free_group_end], every freed slot is
    available again and the pool holds exactly the old slots and the freed
    ones. *)
Theorem free_group_conserves a xs :
  token_alloc_ready a ->
  let a' := free_group_end (foldl (fun a x => token_free x a) (free_group_begin a) xs) in
  token_pool_slots a' ≡ₚ concat xs ++ token_pool_slots a /\
  token_available_size a' = token_available_size a + len (concat xs).
Proof.
  intros [Hg Hr]. cbn zeta.
  assert (forall xs b, is_not_in_free_group b = false ->
    let b' := foldl (fun a x => token_free x a) b xs in
    concat (free_group b') = concat (free_group b) ++ concat xs /\
    free_pages b' = free_pages b /\ release_pages b' = release_pages b /\
    is_not_in_free_group b' = false) as Hloop.
  { clear. induction xs as [|x xs IH]; intros b Hb; cbn.
    - by rewrite app_nil_r.
    - assert (is_not_in_free_group (token_free x b) = false) as Hb'.
      { unfold token_free. rewrite Hb. by case_if. }
      destruct (IH _ Hb') as (-> & -> & -> & ->).
      unfold token_free. rewrite Hb. case_if; breflect; cbn.
      + destruct x; [done|]. rewrite len_cons in *. pose proof (len_nonneg x). lia.
      + rewrite concat_app. cbn. by rewrite app_nil_r, <- app_assoc. }
  destruct (Hloop xs (free_group_begin a) eq_refl) as (Hc & Hf & Hrel & _).
  set (b := foldl _ _ xs) in *. cbn in Hc, Hf, Hrel.
  set (b0 := mkTokenAlloc (size b) (need_sort b) (free_pages b) (release_pages b)
               true (free_group b)).
  assert (token_pool_slots b0 ≡ₚ token_pool_slots a /\
          token_available_size b0 = token_available_size a) as [Hs Ha].
  { unfold token_pool_slots, token_available_size, b0. cbn.
    by rewrite Hf, Hrel, Hg. }
  assert (token_available_size (token_free (concat xs) b0) =
    token_available_size b0 + len (concat xs)) as Hav.
  { unfold token_free, token_available_size.
    destruct (len (concat xs) =? 0) eqn:E; breflect; [lia|].
    cbn. destruct (need_sort b); cbn; rewrite len_app; lia. }
  unfold free_group_end. fold b0.
  destruct (free_group b) as [|g gs] eqn:Eg.
  - change (concat []) with (@nil Z) in Hc. rewrite <- Hc, len_nil, Z.add_0_r.
    by split.
  - rewrite Hc, Hav, Ha. split; [|done].
    rewrite <- Hs. exact (free_conserves (concat xs) b0).
Qed.

Lemma free_group_conserves_witness :
  let a := token_alloc_init 4 false in
  token_alloc_ready a /\
  let a' := free_group_end (foldl (fun a x => token_free x a) (free_group_begin a) [[7]; [8; 9]]) in
  token_pool_slots a' ≡ₚ concat [[7]; [8; 9]] ++ token_pool_slots a /\
  token_available_size a' = token_available_size a + len (concat [[7]; [8; 9]]).
Proof.
  split; [done|]. apply (free_group_conserves (token_alloc_init 4 false) [[7]; [8; 9]]).
  done.
Defined.
