(* ===== verification/MambaAllocator.v ===== *)
(** * The Mamba slot allocator (srt/mem_cache/allocator/mamba.py)

    A free list of state slots, with the batch window that
    [alloc_group_begin] opens: the slots taken in advance are handed out one
    by one by [alloc(1)], and [alloc_group_end] returns what is left. *)

From S2P Require Import Prelude Allocator.

Record MambaSlotAllocator := mkMambaAlloc {
  mamba_size : Z;
  free_slots : list Z;
  (** [_alloc_iter]: the remaining pre-allocated slots, [None] outside a
      group window. *)
  alloc_iter : option (list Z);
}.

Definition mamba_clear (a : MambaSlotAllocator) : MambaSlotAllocator :=
  mkMambaAlloc (mamba_size a) (pyrange 1 (mamba_size a + 1)) (alloc_iter a).

Definition mamba_alloc_init (size : Z) : MambaSlotAllocator :=
  mamba_clear (mkMambaAlloc size [] None).

Definition mamba_available_size (a : MambaSlotAllocator) : Z := len (free_slots a).

Definition do_alloc (need_size : Z) (a : MambaSlotAllocator)
    : option (list Z) * MambaSlotAllocator :=
  if len (free_slots a) <? need_size then (None, a)
  else (Some (slice_to (free_slots a) need_size),
        mkMambaAlloc (mamba_size a) (slice_from (free_slots a) need_size) (alloc_iter a)).

Definition mamba_alloc (need_size : Z) (a : MambaSlotAllocator)
    : option (list Z) * MambaSlotAllocator :=
  match alloc_iter a with
  | Some (slot :: rest) =>
      if need_size =? 1
      then (Some [slot], mkMambaAlloc (mamba_size a) (free_slots a) (Some rest))
      else do_alloc need_size a
  | _ => do_alloc need_size a
  end.

Definition mamba_free (free_index : list Z) (a : MambaSlotAllocator) : MambaSlotAllocator :=
  if len free_index =? 0 then a
  else mkMambaAlloc (mamba_size a) (free_slots a ++ free_index) (alloc_iter a).

Definition alloc_group_begin (num_reqs : Z) (a : MambaSlotAllocator) : MambaSlotAllocator :=
  let a := mkMambaAlloc (mamba_size a) (free_slots a) None in
  if 0 <? num_reqs then
    match do_alloc num_reqs a with
    | (Some result, a') => mkMambaAlloc (mamba_size a') (free_slots a') (Some result)
    | (None, a') => a'
    end
  else a.

Definition alloc_group_end (a : MambaSlotAllocator) : MambaSlotAllocator :=
  let a' :=
    match alloc_iter a with
    | Some (s :: rest) => mamba_free (s :: rest) a
    | _ => a
    end in
  mkMambaAlloc (mamba_size a') (free_slots a') None.

(** Free slots, and the pre-allocated ones not handed out yet. *)
Definition mamba_pool_slots (a : MambaSlotAllocator) : list Z :=
  free_slots a ++ default [] (alloc_iter a).

#[global] Instance mamba_allocator_ops : AllocatorOps MambaSlotAllocator := {
  alloc := mamba_alloc;
  free := mamba_free;
  available_size := mamba_available_size;
  pool_slots := mamba_pool_slots;
  alloc_ready := fun a => alloc_iter a = None;
}.

Lemma do_alloc_success n a x a' :
  0 <= n -> do_alloc n a = (Some x, a') ->
  len x = n /\ mamba_pool_slots a ≡ₚ x ++ mamba_pool_slots a' /\
  free_slots a = x ++ free_slots a' /\ alloc_iter a' = alloc_iter a.
Proof.
  intros Hn. unfold do_alloc. case_if; [done|]. breflect. intros [= <- <-].
  split; [apply len_slice_to; lia|]. unfold mamba_pool_slots. cbn.
  rewrite app_assoc, slice_to_from. done.
Qed.

Lemma do_alloc_failure n a a' :
  do_alloc n a = (None, a') -> a' = a /\ mamba_available_size a < n.
Proof. unfold do_alloc. case_if; [|done]. breflect. by intros [= <-]. Qed.

#[global] Instance mamba_allocator : Allocator MambaSlotAllocator.
Proof.
  split; cbn.
  - intros n a x a' Hn. unfold mamba_alloc.
    destruct (alloc_iter a) as [[|s rest]|] eqn:Ei;
      [intros H; by eapply do_alloc_success in H as (? & ? & _)| |
       intros H; by eapply do_alloc_success in H as (? & ? & _)].
    case_if; [|intros H; by eapply do_alloc_success in H as (? & ? & _)].
    breflect. intros [= <- <-]. split; [by subst|].
    unfold mamba_pool_slots. rewrite Ei. cbn. solve_Permutation.
  - intros n a a'. unfold mamba_alloc.
    destruct (alloc_iter a) as [[|s rest]|]; try case_if; intros H; simplify_eq;
      by apply do_alloc_failure in H as [-> _].
  - intros x a. unfold mamba_free, mamba_pool_slots. case_if; breflect; cbn.
    + destruct x; [done|]. rewrite len_cons in *. pose proof (len_nonneg x). lia.
    + solve_Permutation.
  - intros n a Hi Hn. unfold mamba_alloc. rewrite Hi.
    assert (exists x a', do_alloc n a = (Some x, a')) as (x & a' & Hd).
    { unfold do_alloc, mamba_available_size in *. case_if; [breflect; lia|eauto]. }
    eauto.
  - intros x a _. unfold mamba_free, mamba_available_size. case_if; breflect; [lia|].
    cbn. rewrite len_app. lia.
  - intros x a Hi. unfold mamba_free. by case_if.
  - intros n a o a' Hi. unfold mamba_alloc, do_alloc. rewrite Hi. case_if; by intros [= <- <-].
  - intros a. unfold mamba_available_size, mamba_pool_slots. rewrite len_app.
    pose proof (len_nonneg (default [] (alloc_iter a))). pose proof (len_nonneg (free_slots a)). lia.
  - intros a Hi. unfold mamba_available_size, mamba_pool_slots. by rewrite Hi, app_nil_r.
Qed.

(** One [alloc(1)] per request inside the window. *)
Fixpoint alloc_each (n : nat) (a : MambaSlotAllocator) : list (option (list Z)) * MambaSlotAllocator :=
  match n with
  | O => ([], a)
  | S n' =>
      let '(o, a1) := mamba_alloc 1 a in
      let '(os, a2) := alloc_each n' a1 in
      (o :: os, a2)
  end.

Lemma alloc_each_iter n sz fs its :
  (n <= length its)%nat ->
  alloc_each n (mkMambaAlloc sz fs (Some its)) =
  ((fun s => Some [s]) <$> take n its, mkMambaAlloc sz fs (Some (drop n its))).
Proof.
  revert its. induction n as [|n IH]; intros its Hn; [done|].
  destruct its as [|s its]; [cbn in Hn; lia|]. cbn [alloc_each].
  change (mamba_alloc 1 (mkMambaAlloc sz fs (Some (s :: its))))
    with (Some [s], mkMambaAlloc sz fs (Some its)). cbv beta iota.
  rewrite IH by (cbn in Hn; lia). done.
Qed.

(** The group window is transparent: when the pool can serve
    [num_reqs] slots, [k <= num_reqs] single allocations inside the window
    return the slots the free list would have given in the same order, and
    closing the window leaves exactly the other slots free. *)
Theorem mamba_group_transparent num_reqs k sz fs it :
  0 <= Z.of_nat k <= num_reqs -> num_reqs <= len fs ->
  let a := mkMambaAlloc sz fs it in
  let '(os, a') := alloc_each k (alloc_group_begin num_reqs a) in
  os = (fun s => Some [s]) <$> take k fs /\
  mamba_pool_slots (alloc_group_end a') ≡ₚ drop k fs /\
  alloc_iter (alloc_group_end a') = None.
Proof.
  intros Hk Hn. cbn zeta. unfold alloc_group_begin. cbn [mamba_size free_slots].
  destruct (Z.ltb_spec 0 num_reqs) as [Hpos|Hz].
  - unfold do_alloc. cbn [free_slots alloc_iter mamba_size].
    destruct (Z.ltb_spec (len fs) num_reqs); [lia|]. cbn [free_slots mamba_size].
    assert (slice_to fs num_reqs = take (Z.to_nat num_reqs) fs /\
            slice_from fs num_reqs = drop (Z.to_nat num_reqs) fs) as [-> ->].
    { unfold slice_to, slice_from, pyidx.
      replace (num_reqs <? 0) with false by (symmetry; apply Z.ltb_ge; lia).
      by rewrite Z.min_l by lia. }
    assert (k <= length (take (Z.to_nat num_reqs) fs))%nat as Hlen.
    { rewrite length_take. unfold len in *. lia. }
    rewrite alloc_each_iter by done. rewrite take_take.
    replace (k `min` Z.to_nat num_reqs)%nat with k by lia.
    split; [done|]. unfold alloc_group_end. cbn [alloc_iter free_slots mamba_size].
    split; [|by destruct (drop k (take (Z.to_nat num_reqs) fs))].
    assert (drop k fs = drop k (take (Z.to_nat num_reqs) fs) ++ drop (Z.to_nat num_reqs) fs) as ->.
    { rewrite <- (take_drop (Z.to_nat num_reqs) fs) at 1. by rewrite drop_app_le by done. }
    destruct (drop k (take (Z.to_nat num_reqs) fs)) as [|s rest]; unfold mamba_pool_slots; cbn.
    + by rewrite app_nil_r.
    + rewrite app_nil_r. solve_Permutation.
  - assert (k = 0%nat) as -> by lia. cbn. by rewrite app_nil_r.
Qed.

Lemma mamba_group_transparent_witness :
  let a := mkMambaAlloc 4 [1; 2; 3; 4] None in
  let '(os, a') := alloc_each 2 (alloc_group_begin 3 a) in
  os = (fun s => Some [s]) <$> take 2 [1; 2; 3; 4] /\
  mamba_pool_slots (alloc_group_end a') ≡ₚ drop 2 [1; 2; 3; 4] /\
  alloc_iter (alloc_group_end a') = None.
Proof. apply (mamba_group_transparent 3 2 4 [1; 2; 3; 4] None); done. Defined.
