(* ===== verification/Engine.v ===== *)
(** * The engine state the position-independent cache lives in

    The data of srt/pic/picache.py, of the [Req] fields PIC uses
    (srt/managers/schedule_batch.py) and of the request pools
    (srt/mem_cache/memory_pool.py).

    [SegmentEntry] objects are shared: the cache index, every request that
    matched or inserted them and the scatter queues hold the same object and
    mutate its lock count.  They live in [heap] and are referred to by their
    position (object identity); [entries] is the dictionary from segment hash
    to object.  Both allocators are parameters that satisfy the allocator
    interface; [time.monotonic] is a parameter, read in order. *)

From S2P Require Import Prelude PyDict Allocator Policy.

Record SegmentEntry := mkEntry {
  seg_hash : list Z;
  full_kv_slots : list Z;
  mamba_state_slot : Z;
  token_ids : list Z;
  lock_ref : Z;
  last_access_time : Z;
  creation_time : Z;
  hit_count : Z;
  priority : Z;
}.

Definition set_lock_ref (v : Z) (e : SegmentEntry) : SegmentEntry :=
  mkEntry (seg_hash e) (full_kv_slots e) (mamba_state_slot e) (token_ids e) v
    (last_access_time e) (creation_time e) (hit_count e) (priority e).
Definition set_last_access_time (v : Z) (e : SegmentEntry) : SegmentEntry :=
  mkEntry (seg_hash e) (full_kv_slots e) (mamba_state_slot e) (token_ids e) (lock_ref e) v
    (creation_time e) (hit_count e) (priority e).
Definition set_hit_count (v : Z) (e : SegmentEntry) : SegmentEntry :=
  mkEntry (seg_hash e) (full_kv_slots e) (mamba_state_slot e) (token_ids e) (lock_ref e)
    (last_access_time e) (creation_time e) v (priority e).

(** The values of [req.pic_miss_segment_slots]: [(kv_slots, mamba)] in the
    addition and transition modes, [(private, public or None, mamba)] in the
    rope modes. *)
Inductive MissSlots :=
  | SlotsStd (kv_slots : list Z) (mamba_slot : option Z)
  | SlotsRope (private : list Z) (public : option (list Z)) (mamba_slot : option Z).

Record Req := mkReq {
  origin_input_ids : list Z;
  output_ids : list Z;
  req_pool_idx : option Z;
  mamba_pool_idx : option Z;
  mamba_needs_clear : bool;
  mamba_ping_pong_track_buffer : option (list Z);
  mamba_next_track_idx : option Z;
  inflight_middle_chunks : Z;
  kv_committed_len : Z;
  kv_allocated_len : Z;
  prefix_indices : list Z;
  cache_protected_len : Z;
  extend_input_len : Z;
  pic_segments : option (list (Z * Z));
  pic_hit_segments : list (Z * Z * list Z);
  pic_miss_segments : list (Z * Z);
  (** by segment hash: identities of shared SegmentEntry objects *)
  pic_segment_entries : list (list Z * nat);
  pic_miss_token_positions : option (list Z);
  pic_hit_seam_positions : list (Z * Z * list Z);
  pic_miss_segment_slots : list (Z * Z * MissSlots);
  (** (private, entry public) *)
  pic_rope_hit_private_slots : list (Z * Z * (list Z * list Z));
  pic_cache_owned_miss_segments : list (Z * Z);
  pic_freed_miss_segments : list (Z * Z);
  pic_scatter_single_seg : bool;
}.

Definition set_output_ids (v : list Z) (r : Req) : Req :=
  mkReq (origin_input_ids r) v (req_pool_idx r) (mamba_pool_idx r) (mamba_needs_clear r)
    (mamba_ping_pong_track_buffer r) (mamba_next_track_idx r) (inflight_middle_chunks r)
    (kv_committed_len r) (kv_allocated_len r) (prefix_indices r) (cache_protected_len r)
    (extend_input_len r) (pic_segments r) (pic_hit_segments r) (pic_miss_segments r)
    (pic_segment_entries r) (pic_miss_token_positions r) (pic_hit_seam_positions r)
    (pic_miss_segment_slots r) (pic_rope_hit_private_slots r) (pic_cache_owned_miss_segments
    r) (pic_freed_miss_segments r) (pic_scatter_single_seg r).
Definition set_req_pool_idx (v : option Z) (r : Req) : Req :=
  mkReq (origin_input_ids r) (output_ids r) v (mamba_pool_idx r) (mamba_needs_clear r)
    (mamba_ping_pong_track_buffer r) (mamba_next_track_idx r) (inflight_middle_chunks r)
    (kv_committed_len r) (kv_allocated_len r) (prefix_indices r) (cache_protected_len r)
    (extend_input_len r) (pic_segments r) (pic_hit_segments r) (pic_miss_segments r)
    (pic_segment_entries r) (pic_miss_token_positions r) (pic_hit_seam_positions r)
    (pic_miss_segment_slots r) (pic_rope_hit_private_slots r) (pic_cache_owned_miss_segments
    r) (pic_freed_miss_segments r) (pic_scatter_single_seg r).
Definition set_mamba_pool_idx (v : option Z) (r : Req) : Req :=
  mkReq (origin_input_ids r) (output_ids r) (req_pool_idx r) v (mamba_needs_clear r)
    (mamba_ping_pong_track_buffer r) (mamba_next_track_idx r) (inflight_middle_chunks r)
    (kv_committed_len r) (kv_allocated_len r) (prefix_indices r) (cache_protected_len r)
    (extend_input_len r) (pic_segments r) (pic_hit_segments r) (pic_miss_segments r)
    (pic_segment_entries r) (pic_miss_token_positions r) (pic_hit_seam_positions r)
    (pic_miss_segment_slots r) (pic_rope_hit_private_slots r) (pic_cache_owned_miss_segments
    r) (pic_freed_miss_segments r) (pic_scatter_single_seg r).
Definition set_mamba_needs_clear (v : bool) (r : Req) : Req :=
  mkReq (origin_input_ids r) (output_ids r) (req_pool_idx r) (mamba_pool_idx r) v
    (mamba_ping_pong_track_buffer r) (mamba_next_track_idx r) (inflight_middle_chunks r)
    (kv_committed_len r) (kv_allocated_len r) (prefix_indices r) (cache_protected_len r)
    (extend_input_len r) (pic_segments r) (pic_hit_segments r) (pic_miss_segments r)
    (pic_segment_entries r) (pic_miss_token_positions r) (pic_hit_seam_positions r)
    (pic_miss_segment_slots r) (pic_rope_hit_private_slots r) (pic_cache_owned_miss_segments
    r) (pic_freed_miss_segments r) (pic_scatter_single_seg r).
Definition set_mamba_ping_pong_track_buffer (v : option (list Z)) (r : Req) : Req :=
  mkReq (origin_input_ids r) (output_ids r) (req_pool_idx r) (mamba_pool_idx r)
    (mamba_needs_clear r) v (mamba_next_track_idx r) (inflight_middle_chunks r)
    (kv_committed_len r) (kv_allocated_len r) (prefix_indices r) (cache_protected_len r)
    (extend_input_len r) (pic_segments r) (pic_hit_segments r) (pic_miss_segments r)
    (pic_segment_entries r) (pic_miss_token_positions r) (pic_hit_seam_positions r)
    (pic_miss_segment_slots r) (pic_rope_hit_private_slots r) (pic_cache_owned_miss_segments
    r) (pic_freed_miss_segments r) (pic_scatter_single_seg r).
Definition set_mamba_next_track_idx (v : option Z) (r : Req) : Req :=
  mkReq (origin_input_ids r) (output_ids r) (req_pool_idx r) (mamba_pool_idx r)
    (mamba_needs_clear r) (mamba_ping_pong_track_buffer r) v (inflight_middle_chunks r)
    (kv_committed_len r) (kv_allocated_len r) (prefix_indices r) (cache_protected_len r)
    (extend_input_len r) (pic_segments r) (pic_hit_segments r) (pic_miss_segments r)
    (pic_segment_entries r) (pic_miss_token_positions r) (pic_hit_seam_positions r)
    (pic_miss_segment_slots r) (pic_rope_hit_private_slots r) (pic_cache_owned_miss_segments
    r) (pic_freed_miss_segments r) (pic_scatter_single_seg r).
Definition set_kv_committed_len (v : Z) (r : Req) : Req :=
  mkReq (origin_input_ids r) (output_ids r) (req_pool_idx r) (mamba_pool_idx r)
    (mamba_needs_clear r) (mamba_ping_pong_track_buffer r) (mamba_next_track_idx r)
    (inflight_middle_chunks r) v (kv_allocated_len r) (prefix_indices r) (cache_protected_len
    r) (extend_input_len r) (pic_segments r) (pic_hit_segments r) (pic_miss_segments r)
    (pic_segment_entries r) (pic_miss_token_positions r) (pic_hit_seam_positions r)
    (pic_miss_segment_slots r) (pic_rope_hit_private_slots r) (pic_cache_owned_miss_segments
    r) (pic_freed_miss_segments r) (pic_scatter_single_seg r).
Definition set_kv_allocated_len (v : Z) (r : Req) : Req :=
  mkReq (origin_input_ids r) (output_ids r) (req_pool_idx r) (mamba_pool_idx r)
    (mamba_needs_clear r) (mamba_ping_pong_track_buffer r) (mamba_next_track_idx r)
    (inflight_middle_chunks r) (kv_committed_len r) v (prefix_indices r) (cache_protected_len
    r) (extend_input_len r) (pic_segments r) (pic_hit_segments r) (pic_miss_segments r)
    (pic_segment_entries r) (pic_miss_token_positions r) (pic_hit_seam_positions r)
    (pic_miss_segment_slots r) (pic_rope_hit_private_slots r) (pic_cache_owned_miss_segments
    r) (pic_freed_miss_segments r) (pic_scatter_single_seg r).
Definition set_prefix_indices (v : list Z) (r : Req) : Req :=
  mkReq (origin_input_ids r) (output_ids r) (req_pool_idx r) (mamba_pool_idx r)
    (mamba_needs_clear r) (mamba_ping_pong_track_buffer r) (mamba_next_track_idx r)
    (inflight_middle_chunks r) (kv_committed_len r) (kv_allocated_len r) v
    (cache_protected_len r) (extend_input_len r) (pic_segments r) (pic_hit_segments r)
    (pic_miss_segments r) (pic_segment_entries r) (pic_miss_token_positions r)
    (pic_hit_seam_positions r) (pic_miss_segment_slots r) (pic_rope_hit_private_slots r)
    (pic_cache_owned_miss_segments r) (pic_freed_miss_segments r) (pic_scatter_single_seg r).
Definition set_cache_protected_len (v : Z) (r : Req) : Req :=
  mkReq (origin_input_ids r) (output_ids r) (req_pool_idx r) (mamba_pool_idx r)
    (mamba_needs_clear r) (mamba_ping_pong_track_buffer r) (mamba_next_track_idx r)
    (inflight_middle_chunks r) (kv_committed_len r) (kv_allocated_len r) (prefix_indices r) v
    (extend_input_len r) (pic_segments r) (pic_hit_segments r) (pic_miss_segments r)
    (pic_segment_entries r) (pic_miss_token_positions r) (pic_hit_seam_positions r)
    (pic_miss_segment_slots r) (pic_rope_hit_private_slots r) (pic_cache_owned_miss_segments
    r) (pic_freed_miss_segments r) (pic_scatter_single_seg r).
Definition set_extend_input_len (v : Z) (r : Req) : Req :=
  mkReq (origin_input_ids r) (output_ids r) (req_pool_idx r) (mamba_pool_idx r)
    (mamba_needs_clear r) (mamba_ping_pong_track_buffer r) (mamba_next_track_idx r)
    (inflight_middle_chunks r) (kv_committed_len r) (kv_allocated_len r) (prefix_indices r)
    (cache_protected_len r) v (pic_segments r) (pic_hit_segments r) (pic_miss_segments r)
    (pic_segment_entries r) (pic_miss_token_positions r) (pic_hit_seam_positions r)
    (pic_miss_segment_slots r) (pic_rope_hit_private_slots r) (pic_cache_owned_miss_segments
    r) (pic_freed_miss_segments r) (pic_scatter_single_seg r).
Definition set_pic_segments (v : option (list (Z * Z))) (r : Req) : Req :=
  mkReq (origin_input_ids r) (output_ids r) (req_pool_idx r) (mamba_pool_idx r)
    (mamba_needs_clear r) (mamba_ping_pong_track_buffer r) (mamba_next_track_idx r)
    (inflight_middle_chunks r) (kv_committed_len r) (kv_allocated_len r) (prefix_indices r)
    (cache_protected_len r) (extend_input_len r) v (pic_hit_segments r) (pic_miss_segments r)
    (pic_segment_entries r) (pic_miss_token_positions r) (pic_hit_seam_positions r)
    (pic_miss_segment_slots r) (pic_rope_hit_private_slots r) (pic_cache_owned_miss_segments
    r) (pic_freed_miss_segments r) (pic_scatter_single_seg r).
Definition set_pic_hit_segments (v : list (Z * Z * list Z)) (r : Req) : Req :=
  mkReq (origin_input_ids r) (output_ids r) (req_pool_idx r) (mamba_pool_idx r)
    (mamba_needs_clear r) (mamba_ping_pong_track_buffer r) (mamba_next_track_idx r)
    (inflight_middle_chunks r) (kv_committed_len r) (kv_allocated_len r) (prefix_indices r)
    (cache_protected_len r) (extend_input_len r) (pic_segments r) v (pic_miss_segments r)
    (pic_segment_entries r) (pic_miss_token_positions r) (pic_hit_seam_positions r)
    (pic_miss_segment_slots r) (pic_rope_hit_private_slots r) (pic_cache_owned_miss_segments
    r) (pic_freed_miss_segments r) (pic_scatter_single_seg r).
Definition set_pic_miss_segments (v : list (Z * Z)) (r : Req) : Req :=
  mkReq (origin_input_ids r) (output_ids r) (req_pool_idx r) (mamba_pool_idx r)
    (mamba_needs_clear r) (mamba_ping_pong_track_buffer r) (mamba_next_track_idx r)
    (inflight_middle_chunks r) (kv_committed_len r) (kv_allocated_len r) (prefix_indices r)
    (cache_protected_len r) (extend_input_len r) (pic_segments r) (pic_hit_segments r) v
    (pic_segment_entries r) (pic_miss_token_positions r) (pic_hit_seam_positions r)
    (pic_miss_segment_slots r) (pic_rope_hit_private_slots r) (pic_cache_owned_miss_segments
    r) (pic_freed_miss_segments r) (pic_scatter_single_seg r).
Definition set_pic_segment_entries (v : list (list Z * nat)) (r : Req) : Req :=
  mkReq (origin_input_ids r) (output_ids r) (req_pool_idx r) (mamba_pool_idx r)
    (mamba_needs_clear r) (mamba_ping_pong_track_buffer r) (mamba_next_track_idx r)
    (inflight_middle_chunks r) (kv_committed_len r) (kv_allocated_len r) (prefix_indices r)
    (cache_protected_len r) (extend_input_len r) (pic_segments r) (pic_hit_segments r)
    (pic_miss_segments r) v (pic_miss_token_positions r) (pic_hit_seam_positions r)
    (pic_miss_segment_slots r) (pic_rope_hit_private_slots r) (pic_cache_owned_miss_segments
    r) (pic_freed_miss_segments r) (pic_scatter_single_seg r).
Definition set_pic_miss_token_positions (v : option (list Z)) (r : Req) : Req :=
  mkReq (origin_input_ids r) (output_ids r) (req_pool_idx r) (mamba_pool_idx r)
    (mamba_needs_clear r) (mamba_ping_pong_track_buffer r) (mamba_next_track_idx r)
    (inflight_middle_chunks r) (kv_committed_len r) (kv_allocated_len r) (prefix_indices r)
    (cache_protected_len r) (extend_input_len r) (pic_segments r) (pic_hit_segments r)
    (pic_miss_segments r) (pic_segment_entries r) v (pic_hit_seam_positions r)
    (pic_miss_segment_slots r) (pic_rope_hit_private_slots r) (pic_cache_owned_miss_segments
    r) (pic_freed_miss_segments r) (pic_scatter_single_seg r).
Definition set_pic_hit_seam_positions (v : list (Z * Z * list Z)) (r : Req) : Req :=
  mkReq (origin_input_ids r) (output_ids r) (req_pool_idx r) (mamba_pool_idx r)
    (mamba_needs_clear r) (mamba_ping_pong_track_buffer r) (mamba_next_track_idx r)
    (inflight_middle_chunks r) (kv_committed_len r) (kv_allocated_len r) (prefix_indices r)
    (cache_protected_len r) (extend_input_len r) (pic_segments r) (pic_hit_segments r)
    (pic_miss_segments r) (pic_segment_entries r) (pic_miss_token_positions r) v
    (pic_miss_segment_slots r) (pic_rope_hit_private_slots r) (pic_cache_owned_miss_segments
    r) (pic_freed_miss_segments r) (pic_scatter_single_seg r).
Definition set_pic_miss_segment_slots (v : list (Z * Z * MissSlots)) (r : Req) : Req :=
  mkReq (origin_input_ids r) (output_ids r) (req_pool_idx r) (mamba_pool_idx r)
    (mamba_needs_clear r) (mamba_ping_pong_track_buffer r) (mamba_next_track_idx r)
    (inflight_middle_chunks r) (kv_committed_len r) (kv_allocated_len r) (prefix_indices r)
    (cache_protected_len r) (extend_input_len r) (pic_segments r) (pic_hit_segments r)
    (pic_miss_segments r) (pic_segment_entries r) (pic_miss_token_positions r)
    (pic_hit_seam_positions r) v (pic_rope_hit_private_slots r) (pic_cache_owned_miss_segments
    r) (pic_freed_miss_segments r) (pic_scatter_single_seg r).
Definition set_pic_rope_hit_private_slots (v : list (Z * Z * (list Z * list Z))) (r : Req) :
  Req :=
  mkReq (origin_input_ids r) (output_ids r) (req_pool_idx r) (mamba_pool_idx r)
    (mamba_needs_clear r) (mamba_ping_pong_track_buffer r) (mamba_next_track_idx r)
    (inflight_middle_chunks r) (kv_committed_len r) (kv_allocated_len r) (prefix_indices r)
    (cache_protected_len r) (extend_input_len r) (pic_segments r) (pic_hit_segments r)
    (pic_miss_segments r) (pic_segment_entries r) (pic_miss_token_positions r)
    (pic_hit_seam_positions r) (pic_miss_segment_slots r) v (pic_cache_owned_miss_segments r)
    (pic_freed_miss_segments r) (pic_scatter_single_seg r).
Definition set_pic_cache_owned_miss_segments (v : list (Z * Z)) (r : Req) : Req :=
  mkReq (origin_input_ids r) (output_ids r) (req_pool_idx r) (mamba_pool_idx r)
    (mamba_needs_clear r) (mamba_ping_pong_track_buffer r) (mamba_next_track_idx r)
    (inflight_middle_chunks r) (kv_committed_len r) (kv_allocated_len r) (prefix_indices r)
    (cache_protected_len r) (extend_input_len r) (pic_segments r) (pic_hit_segments r)
    (pic_miss_segments r) (pic_segment_entries r) (pic_miss_token_positions r)
    (pic_hit_seam_positions r) (pic_miss_segment_slots r) (pic_rope_hit_private_slots r) v
    (pic_freed_miss_segments r) (pic_scatter_single_seg r).
Definition set_pic_freed_miss_segments (v : list (Z * Z)) (r : Req) : Req :=
  mkReq (origin_input_ids r) (output_ids r) (req_pool_idx r) (mamba_pool_idx r)
    (mamba_needs_clear r) (mamba_ping_pong_track_buffer r) (mamba_next_track_idx r)
    (inflight_middle_chunks r) (kv_committed_len r) (kv_allocated_len r) (prefix_indices r)
    (cache_protected_len r) (extend_input_len r) (pic_segments r) (pic_hit_segments r)
    (pic_miss_segments r) (pic_segment_entries r) (pic_miss_token_positions r)
    (pic_hit_seam_positions r) (pic_miss_segment_slots r) (pic_rope_hit_private_slots r)
    (pic_cache_owned_miss_segments r) v (pic_scatter_single_seg r).

(** [ReqToTokenPool] and the bookkeeping of [HybridReqToTokenPool]; the
    table has [size + 1] rows, row 0 is the padding row. *)
Record ReqToTokenPool := mkPool {
  rp_size : Z;
  max_context_len : Z;
  req_to_token : list (list Z);
  rp_free_slots : list Z;
  enable_mamba_extra_buffer : bool;
  enable_mamba_extra_buffer_lazy : bool;
  mamba_ping_pong_track_buffer_size : Z;
  req_index_to_mamba_index_mapping : list Z;
  req_index_to_mamba_ping_pong_track_buffer_mapping : list (list Z);
}.

Definition set_req_to_token (v : list (list Z)) (p : ReqToTokenPool) : ReqToTokenPool :=
  mkPool (rp_size p) (max_context_len p) v (rp_free_slots p) (enable_mamba_extra_buffer p)
    (enable_mamba_extra_buffer_lazy p) (mamba_ping_pong_track_buffer_size p)
    (req_index_to_mamba_index_mapping p) (req_index_to_mamba_ping_pong_track_buffer_mapping
    p).
Definition set_rp_free_slots (v : list Z) (p : ReqToTokenPool) : ReqToTokenPool :=
  mkPool (rp_size p) (max_context_len p) (req_to_token p) v (enable_mamba_extra_buffer p)
    (enable_mamba_extra_buffer_lazy p) (mamba_ping_pong_track_buffer_size p)
    (req_index_to_mamba_index_mapping p) (req_index_to_mamba_ping_pong_track_buffer_mapping
    p).
Definition set_req_index_to_mamba_index_mapping (v : list Z) (p : ReqToTokenPool) :
  ReqToTokenPool :=
  mkPool (rp_size p) (max_context_len p) (req_to_token p) (rp_free_slots p)
    (enable_mamba_extra_buffer p) (enable_mamba_extra_buffer_lazy p)
    (mamba_ping_pong_track_buffer_size p) v (req_index_to_mamba_ping_pong_track_buffer_mapping
    p).
Definition set_req_index_to_mamba_ping_pong_track_buffer_mapping (v : list (list Z)) (p :
  ReqToTokenPool) : ReqToTokenPool :=
  mkPool (rp_size p) (max_context_len p) (req_to_token p) (rp_free_slots p)
    (enable_mamba_extra_buffer p) (enable_mamba_extra_buffer_lazy p)
    (mamba_ping_pong_track_buffer_size p) (req_index_to_mamba_index_mapping p) v.

Section engine.
Context {KV MB : Type}.

Record Engine := mkEngine {
  (** token_to_kv_pool_allocator *)
  kv : KV;
  (** req_to_token_pool.mamba_allocator *)
  mamba : MB;
  (** req_to_token_pool *)
  pool : ReqToTokenPool;
  (** SegmentEntry objects, by identity *)
  heap : list SegmentEntry;
  (** PICache._entries *)
  entries : list (list Z * nat);
  inflight_full_tokens : Z;
  inflight_mamba_slots : Z;
  (** readings of time.monotonic so far *)
  clock_reads : nat;
}.

Definition set_kv (v : KV) (s : Engine) : Engine :=
  mkEngine v (mamba s) (pool s) (heap s) (entries s) (inflight_full_tokens s)
    (inflight_mamba_slots s) (clock_reads s).
Definition set_mamba (v : MB) (s : Engine) : Engine :=
  mkEngine (kv s) v (pool s) (heap s) (entries s) (inflight_full_tokens s)
    (inflight_mamba_slots s) (clock_reads s).
Definition set_pool (v : ReqToTokenPool) (s : Engine) : Engine :=
  mkEngine (kv s) (mamba s) v (heap s) (entries s) (inflight_full_tokens s)
    (inflight_mamba_slots s) (clock_reads s).
Definition set_heap (v : list SegmentEntry) (s : Engine) : Engine :=
  mkEngine (kv s) (mamba s) (pool s) v (entries s) (inflight_full_tokens s)
    (inflight_mamba_slots s) (clock_reads s).
Definition set_entries (v : list (list Z * nat)) (s : Engine) : Engine :=
  mkEngine (kv s) (mamba s) (pool s) (heap s) v (inflight_full_tokens s) (inflight_mamba_slots
    s) (clock_reads s).
Definition set_inflight_full_tokens (v : Z) (s : Engine) : Engine :=
  mkEngine (kv s) (mamba s) (pool s) (heap s) (entries s) v (inflight_mamba_slots s)
    (clock_reads s).
Definition set_inflight_mamba_slots (v : Z) (s : Engine) : Engine :=
  mkEngine (kv s) (mamba s) (pool s) (heap s) (entries s) (inflight_full_tokens s) v
    (clock_reads s).
Definition set_clock_reads (v : nat) (s : Engine) : Engine :=
  mkEngine (kv s) (mamba s) (pool s) (heap s) (entries s) (inflight_full_tokens s)
    (inflight_mamba_slots s) v.

End engine.

Arguments Engine KV MB : clear implicits.

(** Configuration: the policy of [pic_mode], [PICache]'s flags, the server
    argument pic_segment_min_tokens and the PIC_SEAM_SINK knob. *)
Record PICConfig := mkConfig {
  policy : PICPolicy;
  disable : bool;
  is_decode : bool;
  pic_segment_min_tokens : Z;
  seam_sink : SpecFloat.spec_float;
}.

Definition dummy_entry : SegmentEntry := mkEntry [] [] 0 [] 0 0 0 0 0.

Section objects.
Context {KV MB : Type}.
Implicit Types s : Engine KV MB.

(** The object with identity [i] (object references never dangle: [heap]
    only grows). *)
Definition deref s (i : nat) : SegmentEntry := default dummy_entry (heap s !! i).

Definition update_entry (i : nat) (f : SegmentEntry -> SegmentEntry) s : Engine KV MB :=
  set_heap (alter f i (heap s)) s.

(** Allocate an object; its identity is the next position. *)
Definition new_entry (e : SegmentEntry) s : nat * Engine KV MB :=
  (length (heap s), set_heap (heap s ++ [e]) s).

Definition add_lock (d : Z) (e : SegmentEntry) : SegmentEntry :=
  set_lock_ref (lock_ref e + d) e.

(** [if e.lock_ref > 0: e.lock_ref -= 1]. *)
Definition drop_lock (e : SegmentEntry) : SegmentEntry :=
  if 0 <? lock_ref e then add_lock (-1) e else e.

(** The KV and Mamba slots owned by the cache index. *)
Definition entry_of s (p : list Z * nat) : SegmentEntry := deref s p.2.
Definition entries_kv s : list Z := concat (full_kv_slots ∘ entry_of s <$> entries s).
Definition entries_mamba s : list Z := mamba_state_slot ∘ entry_of s <$> entries s.

(** Well-formedness of the index: distinct keys, live objects, and each
    object filed under its own hash. *)
Definition index_wf s : Prop :=
  dict_wf (entries s) /\
  forall h i, (h, i) ∈ entries s ->
    (i < length (heap s))%nat /\ seg_hash (deref s i) = h.

Lemma deref_update_eq s i f :
  (i < length (heap s))%nat -> deref (update_entry i f s) i = f (deref s i).
Proof.
  intros Hi. unfold deref, update_entry. cbn. rewrite list_lookup_alter.
  destruct (lookup_lt_is_Some_2 _ _ Hi) as [e ->]. by rewrite decide_True.
Qed.

Lemma deref_update_ne s i j f : i <> j -> deref (update_entry i f s) j = deref s j.
Proof.
  intros Hij. unfold deref, update_entry. cbn. by rewrite list_lookup_alter_ne.
Qed.

Lemma deref_update_field {A} (g : SegmentEntry -> A) s i j f :
  (forall e, g (f e) = g e) -> g (deref (update_entry i f s) j) = g (deref s j).
Proof.
  intros Hf. unfold deref, update_entry. cbn. rewrite list_lookup_alter.
  case_decide; [|done]. subst. by destruct (heap s !! j); cbn; [rewrite Hf|].
Qed.

Lemma deref_new_old s e i :
  (i < length (heap s))%nat -> deref (new_entry e s).2 i = deref s i.
Proof. intros Hi. unfold deref, new_entry. cbn. by rewrite lookup_app_l. Qed.

Lemma deref_new s e : deref (new_entry e s).2 (new_entry e s).1 = e.
Proof. unfold deref, new_entry. cbn. by rewrite lookup_app_r, Nat.sub_diag. Qed.

Lemma index_wf_ids s h h' i :
  index_wf s -> (h, i) ∈ entries s -> (h', i) ∈ entries s -> h = h'.
Proof. intros [_ Hw] H1 H2. apply Hw in H1 as [_ <-], H2 as [_ <-]. done. Qed.

(** Two states with the same index whose objects agree on slots and hash. *)
Lemma index_wf_ext s s' :
  entries s' = entries s -> (length (heap s) <= length (heap s'))%nat ->
  (forall i, (i < length (heap s))%nat -> seg_hash (deref s' i) = seg_hash (deref s i)) ->
  index_wf s -> index_wf s'.
Proof.
  intros He Hl Hs [Hd Hw]. split; rewrite He; [done|].
  intros h i Hin. destruct (Hw _ _ Hin). split; [lia|]. rewrite Hs; done.
Qed.

Lemma entries_kv_ext s s' :
  entries s' = entries s ->
  (forall h i, (h, i) ∈ entries s -> full_kv_slots (deref s' i) = full_kv_slots (deref s i)) ->
  entries_kv s' = entries_kv s.
Proof.
  intros He Hs. unfold entries_kv. rewrite He. f_equal.
  apply list_fmap_ext. intros j [h i] Hj. cbn. eapply Hs.
  by apply list_elem_of_lookup_2 in Hj.
Qed.

Lemma entries_mamba_ext s s' :
  entries s' = entries s ->
  (forall h i, (h, i) ∈ entries s -> mamba_state_slot (deref s' i) = mamba_state_slot (deref s i)) ->
  entries_mamba s' = entries_mamba s.
Proof.
  intros He Hs. unfold entries_mamba. rewrite He.
  apply list_fmap_ext. intros j [h i] Hj. cbn. eapply Hs.
  by apply list_elem_of_lookup_2 in Hj.
Qed.

Lemma drop_lock_field {A} (g : SegmentEntry -> A) e :
  (forall d, g (set_lock_ref d e) = g e) -> g (drop_lock e) = g e.
Proof. intros Hg. unfold drop_lock, add_lock. case_if; auto. Qed.

(** Popping a filed object removes its slots from the index. *)
Lemma entries_kv_pop s h i :
  index_wf s -> (h, i) ∈ entries s ->
  entries_kv s ≡ₚ full_kv_slots (deref s i) ++ entries_kv (set_entries (dict_pop h (entries s)) s).
Proof.
  intros [Hd _] Hin. apply dict_elem_get in Hin; [|done].
  unfold entries_kv. cbn. rewrite (dict_pop_perm _ _ _ Hin) at 1. done.
Qed.

Lemma entries_mamba_pop s h i :
  index_wf s -> (h, i) ∈ entries s ->
  entries_mamba s ≡ₚ mamba_state_slot (deref s i) :: entries_mamba (set_entries (dict_pop h (entries s)) s).
Proof.
  intros [Hd _] Hin. apply dict_elem_get in Hin; [|done].
  unfold entries_mamba. cbn. rewrite (dict_pop_perm _ _ _ Hin) at 1. done.
Qed.

Lemma index_wf_pop s h : index_wf s -> index_wf (set_entries (dict_pop h (entries s)) s).
Proof.
  intros [Hd Hw]. split; cbn; [auto with hyx|]. intros h' i Hin.
  apply (Hw h'). by eapply dict_pop_elem.
Qed.

End objects.

#[export] Hint Resolve index_wf_pop : hyx.
