(* ===== verification/ReqPool.v ===== *)
(** * Request pools (srt/mem_cache/memory_pool.py)

    [ReqToTokenPool] hands out rows of the request-to-token table and writes
    slot indices into them; [HybridReqToTokenPool] additionally gives every
    request a Mamba state slot (and, with the extra buffer enabled, a
    ping-pong track buffer). *)

From S2P Require Import Prelude PyDict Allocator Engine.

Definition pool_init (size max_context_len : Z) (extra lazy : bool) (pp_size : Z)
    : ReqToTokenPool :=
  mkPool size max_context_len
    (replicate (Z.to_nat (size + 1)) (replicate (Z.to_nat max_context_len) 0))
    (pyrange 1 (size + 1)) extra lazy pp_size
    (replicate (Z.to_nat (size + 1)) 0)
    (if extra then replicate (Z.to_nat (size + 1)) (replicate (Z.to_nat pp_size) 0) else []).

Definition pool_clear (p : ReqToTokenPool) : ReqToTokenPool :=
  set_rp_free_slots (pyrange 1 (rp_size p + 1)) p.

Definition pool_available_size (p : ReqToTokenPool) : Z := len (rp_free_slots p).

(** [row[s:e] = values] into an int32 tensor row: a length mismatch raises,
    except that a single value broadcasts. *)
Definition row_write (row : list Z) (s e : Z) (values : list Z) : outcome (list Z) :=
  let s' := pyidx (len row) s in
  let m := Z.max 0 (pyidx (len row) e - s') in
  let splice vs := take (Z.to_nat s') row ++ vs ++ drop (Z.to_nat (s' + m)) row in
  if len values =? m then Ret (splice (to_int32 <$> values))
  else match values with
       | [v] => Ret (splice (replicate (Z.to_nat m) (to_int32 v)))
       | _ => Raise RuntimeError
       end.

(** [self.req_to_token[(idx, slice(s, e))] = values]. *)
Definition pool_write (idx s e : Z) (values : list Z) : M ReqToTokenPool unit := fun p =>
  match pyget (req_to_token p) idx with
  | None => (Raise IndexError, p)
  | Some row =>
      match row_write row s e values with
      | Raise x => (Raise x, p)
      | Ret row' =>
          (Ret tt, set_req_to_token (<[Z.to_nat idx := row']> (req_to_token p)) p)
      end
  end.

(** [self.req_to_token[idx, s:e]]. *)
Definition pool_read (idx s e : Z) (p : ReqToTokenPool) : list Z :=
  pyslice (default [] (pyget (req_to_token p) idx)) s e.

(** [r.req_pool_idx = select_index[offset]] for the requests without a row. *)
Fixpoint assign_rows (sel : list Z) (reqs : list Req) : list Req :=
  match reqs with
  | [] => []
  | r :: rs =>
      match req_pool_idx r, sel with
      | None, x :: sel' => set_req_pool_idx (Some x) r :: assign_rows sel' rs
      | _, _ => r :: assign_rows sel rs
      end
  end.

Definition row_of (r : Req) : Z := default 0 (req_pool_idx r).

Definition pool_alloc (reqs : list Req) : M ReqToTokenPool (option (list Z) * list Req) := fun p =>
  let reusing := filter (fun r => is_Some (req_pool_idx r)) reqs in
  if forallb (fun r => (0 <? inflight_middle_chunks r) || (0 <? kv_committed_len r)) reusing
  then
    let need_size := len reqs - len reusing in
    if len (rp_free_slots p) <? need_size then (Ret (None, reqs), p)
    else
      let reqs' := assign_rows (slice_to (rp_free_slots p) need_size) reqs in
      (Ret (Some (row_of <$> reqs'), reqs'),
       set_rp_free_slots (slice_from (rp_free_slots p) need_size) p)
  else (Raise AssertionError, p).

Definition pool_free (r : Req) : M ReqToTokenPool Req := fun p =>
  match req_pool_idx r with
  | None => (Raise AssertionError, p)
  | Some i => (Ret (set_req_pool_idx None r), set_rp_free_slots (rp_free_slots p ++ [i]) p)
  end.

Section hybrid.
Context {KV MB : Type} `{AllocatorOps KV} `{AllocatorOps MB}.

Definition on_pool {A} (m : M ReqToTokenPool A) : M (Engine KV MB) A := zoom pool set_pool m.

(** [mamba_allocator.alloc] / [.free] on the engine. *)
Definition mamba_alloc_m (n : Z) : M (Engine KV MB) (option (list Z)) := fun s =>
  let '(o, mb) := alloc n (mamba s) in (Ret o, set_mamba mb s).
Definition mamba_free_m (x : list Z) : M (Engine KV MB) unit :=
  modify (fun s => set_mamba (free x (mamba s)) s).

(** [_alloc_ping_pong_buffer]. *)
Definition alloc_ping_pong_buffer (r : Req) : M (Engine KV MB) Req :=
  p ← gets pool;
  let n := if enable_mamba_extra_buffer_lazy p then 1
           else mamba_ping_pong_track_buffer_size p in
  o ← mamba_alloc_m n;
  slots ← of_option AssertionError o;
  let buf := slots ++ replicate (Z.to_nat (mamba_ping_pong_track_buffer_size p - n)) (-1) in
  mret (set_mamba_next_track_idx (Some 0) (set_mamba_ping_pong_track_buffer (Some buf) r)).

(** The loop body of [HybridReqToTokenPool.alloc]: a request that has no
    Mamba slot yet gets one, which must be cleared on the forward stream. *)
Definition hybrid_alloc_req (r : Req) : M (Engine KV MB) Req :=
  r ← match mamba_pool_idx r with
      | Some _ => mret r
      | None =>
          o ← mamba_alloc_m 1;
          mid ← of_option AssertionError o;
          i ← of_option IndexError (mid !! 0%nat);
          mret (set_mamba_needs_clear true (set_mamba_pool_idx (Some i) r))
      end;
  p ← gets pool;
  if enable_mamba_extra_buffer p then
    match mamba_ping_pong_track_buffer r with
    | None => alloc_ping_pong_buffer r
    | Some _ => mret r
    end
  else mret r.

(** [mapping[select_index] = values]. *)
Definition scatter {A} (idx : list Z) (vals : list A) (l : list A) : list A :=
  foldl (fun l '(i, v) => <[Z.to_nat i := v]> l) l (zip idx vals).

Definition hybrid_alloc (reqs : list Req)
    : M (Engine KV MB) (option (list Z) * list Req) :=
  res ← on_pool (pool_alloc reqs);
  match res with
  | (None, reqs1) => mret (None, reqs1)
  | (Some select_index, reqs1) =>
      reqs2 ← mfold (fun acc r => r' ← hybrid_alloc_req r; mret (acc ++ [r'])) [] reqs1;
      (* torch.stack([]) raises *)
      match reqs2 with [] => raise RuntimeError | _ =>
      modify (fun s =>
        let p := pool s in
        let p := set_req_index_to_mamba_index_mapping
          (scatter select_index (to_int32 ∘ default 0 ∘ mamba_pool_idx <$> reqs2)
             (req_index_to_mamba_index_mapping p)) p in
        let p :=
          if enable_mamba_extra_buffer p then
            set_req_index_to_mamba_ping_pong_track_buffer_mapping
              (scatter select_index (default [] ∘ mamba_ping_pong_track_buffer <$> reqs2)
                 (req_index_to_mamba_ping_pong_track_buffer_mapping p)) p
          else p in
        set_pool p s);;
      mret (Some select_index, reqs2)
      end
  end.

(** [free_mamba_cache(req)]; [to_keep] is mamba_ping_pong_track_buffer_to_keep. *)
Definition free_mamba_cache (r : Req) (to_keep : option Z) : M (Engine KV MB) Req :=
  i ← of_option AssertionError (mamba_pool_idx r);
  mamba_free_m [i];;
  let r := set_mamba_pool_idx None r in
  p ← gets pool;
  if enable_mamba_extra_buffer p then
    row ← of_option TypeError (req_pool_idx r);
    let buf := default [] (pyget (req_index_to_mamba_ping_pong_track_buffer_mapping p) row) in
    buf ← match to_keep with
          | None => mret buf
          | Some k =>
              assert_ (bool_decide (k = 0 \/ k = 1));;
              if mamba_ping_pong_track_buffer_size p =? 2
              then mret (pyslice buf (1 - k) (1 - k + 1))
              else assert_ (mamba_ping_pong_track_buffer_size p =? 1);;
                   assert_ (k =? 0);; mret (pyslice buf 0 0)
          end;
    let buf := if enable_mamba_extra_buffer_lazy p
               then filter (fun x => x <> -1) buf else buf in
    mamba_free_m buf;;
    mret (set_mamba_next_track_idx None (set_mamba_ping_pong_track_buffer None r))
  else mret r.

End hybrid.
