(* ===== verification/ReqPoolFacts.v ===== *)
(** * Facts on the request pools

    Writing a range of a request's row and reading it back, and what the
    write leaves alone. *)

From S2P Require Import Prelude PyDict Allocator Engine ReqPool.

(** The row of [idx], when [idx] is a row of the table. *)
Definition row_at (p : ReqToTokenPool) (idx : Z) : option (list Z) :=
  if 0 <=? idx then req_to_token p !! Z.to_nat idx else None.

Lemma row_at_pyget p idx row : row_at p idx = Some row -> pyget (req_to_token p) idx = Some row.
Proof.
  unfold row_at, pyget. intros Hr. destruct (0 <=? idx) eqn:Hi; [|done]. breflect.
  apply lookup_lt_Some in Hr as Hl.
  rewrite (proj2 (Z.ltb_ge idx 0)), (proj2 (Z.leb_le 0 idx)) by lia.
  rewrite (proj2 (Z.ltb_lt idx (len (req_to_token p)))) by (unfold len; lia). done.
Qed.

Lemma row_write_exact row s e vs :
  0 <= s <= e -> e <= len row -> len vs = e - s ->
  row_write row s e vs = Ret (take (Z.to_nat s) row ++ (to_int32 <$> vs) ++ drop (Z.to_nat e) row).
Proof.
  intros Hs He Hl. unfold row_write.
  assert (pyidx (len row) s = s) as -> by (unfold pyidx; case_if; breflect; lia).
  assert (pyidx (len row) e = e) as -> by (unfold pyidx; case_if; breflect; lia).
  rewrite Z.max_r by lia. rewrite (proj2 (Z.eqb_eq (len vs) (e - s))) by done.
  by replace (s + (e - s)) with e by lia.
Qed.

(** The table after a write that fits. *)
Definition written (p : ReqToTokenPool) (idx s e : Z) (row vs : list Z) : ReqToTokenPool :=
  set_req_to_token
    (<[Z.to_nat idx := take (Z.to_nat s) row ++ (to_int32 <$> vs) ++ drop (Z.to_nat e) row]>
       (req_to_token p)) p.

Lemma pool_write_exact p idx s e row vs :
  row_at p idx = Some row -> 0 <= s <= e -> e <= len row -> len vs = e - s ->
  pool_write idx s e vs p = (Ret tt, written p idx s e row vs).
Proof.
  intros Hr Hs He Hl. unfold pool_write. by rewrite (row_at_pyget _ _ _ Hr), row_write_exact.
Qed.

Lemma row_at_written p idx s e row vs :
  row_at p idx = Some row ->
  row_at (written p idx s e row vs) idx =
    Some (take (Z.to_nat s) row ++ (to_int32 <$> vs) ++ drop (Z.to_nat e) row).
Proof.
  unfold row_at. intros Hr. destruct (0 <=? idx); [|done]. cbn.
  rewrite list_lookup_insert, decide_True; [done|]. split; [done|]. by eapply lookup_lt_Some.
Qed.

Lemma row_at_written_ne p idx s e row vs idx' :
  0 <= idx -> idx' <> idx -> row_at (written p idx s e row vs) idx' = row_at p idx'.
Proof.
  intros Hi Hne. unfold row_at. destruct (0 <=? idx') eqn:Hi'; [|done]. breflect. cbn.
  rewrite list_lookup_insert_ne; [done|]. lia.
Qed.

Lemma len_written row s e (vs : list Z) :
  0 <= s <= e -> e <= len row -> len vs = e - s ->
  len (take (Z.to_nat s) row ++ vs ++ drop (Z.to_nat e) row) = len row.
Proof.
  intros. rewrite !len_app. unfold len in *. rewrite length_take, length_drop. lia.
Qed.

(** Reads of a spliced row: the spliced range, and ranges beside it. *)
Lemma splice_read row s e (vs : list Z) :
  0 <= s <= e -> e <= len row -> len vs = e - s ->
  pyslice (take (Z.to_nat s) row ++ vs ++ drop (Z.to_nat e) row) s e = vs.
Proof.
  intros Hs He Hl. rewrite pyslice_in_range; [|lia..|rewrite len_written by done; lia].
  rewrite drop_app_length' by (rewrite length_take; unfold len in *; lia).
  rewrite take_app_length'; [done|]. unfold len in *. lia.
Qed.

Lemma splice_read_ne row s e (vs : list Z) a b :
  0 <= s <= e -> e <= len row -> len vs = e - s ->
  0 <= a <= b -> b <= len row -> b <= s \/ e <= a ->
  pyslice (take (Z.to_nat s) row ++ vs ++ drop (Z.to_nat e) row) a b = pyslice row a b.
Proof.
  intros Hs He Hl Ha Hb Hd.
  rewrite !pyslice_in_range; [|lia..|rewrite len_written by done; lia].
  apply list_eq. intros i. destruct (decide (i < Z.to_nat (b - a))%nat) as [Hi|Hi].
  - rewrite !lookup_take, !decide_True, !lookup_drop by done. unfold len in *. destruct Hd.
    + rewrite lookup_app_l by (rewrite length_take; lia).
      by rewrite lookup_take, decide_True by lia.
    + rewrite lookup_app_r by (rewrite length_take; lia).
      rewrite lookup_app_r by (rewrite length_take; lia).
      rewrite lookup_drop, length_take. f_equal. lia.
  - by rewrite !lookup_take, !decide_False by done.
Qed.

Lemma pool_read_row p idx row s e :
  row_at p idx = Some row -> pool_read idx s e p = pyslice row s e.
Proof. intros Hr. unfold pool_read. by rewrite (row_at_pyget _ _ _ Hr). Qed.

(** The request-to-token table is a faithful store: a write that fits
    its row is read back (as 32-bit values), and every other range of that
    row and every other row are unchanged. *)
Theorem pool_write_read p idx s e row vs :
  row_at p idx = Some row -> 0 <= s <= e -> e <= len row -> len vs = e - s ->
  exists p', pool_write idx s e vs p = (Ret tt, p') /\
    pool_read idx s e p' = (to_int32 <$> vs) /\
    (forall a b, 0 <= a <= b -> b <= len row -> b <= s \/ e <= a ->
       pool_read idx a b p' = pool_read idx a b p) /\
    (forall idx', idx' <> idx -> row_at p' idx' = row_at p idx').
Proof.
  intros Hr Hs He Hl. assert (0 <= idx) as Hi.
  { unfold row_at in Hr. destruct (0 <=? idx) eqn:Hi; [|done]. by breflect. }
  exists (written p idx s e row vs). split; [by apply pool_write_exact|].
  pose proof (row_at_written p idx s e row vs Hr) as Hr'.
  assert (len (to_int32 <$> vs) = e - s) as Hl' by by rewrite len_map.
  split_and!.
  - rewrite (pool_read_row _ _ _ _ _ Hr'). by apply splice_read.
  - intros a b ???. rewrite (pool_read_row _ _ _ _ _ Hr'), (pool_read_row _ _ _ _ _ Hr).
    by apply splice_read_ne.
  - intros idx' Hne. by apply row_at_written_ne.
Qed.

Lemma pool_write_read_witness :
  let p := pool_init 2 8 false false 0 in
  exists p', pool_write 1 2 5 [11; 12; 13] p = (Ret tt, p') /\
    pool_read 1 2 5 p' = [11; 12; 13] /\ pool_read 1 5 8 p' = [0; 0; 0].
Proof.
  intros p. destruct (pool_write_read p 1 2 5 (replicate 8 0) [11; 12; 13])
    as (p' & Hw & Hr & Hf & _).
  - reflexivity.
  - lia.
  - vm_compute. discriminate.
  - reflexivity.
  - exists p'. split; [done|]. split; [exact Hr|].
    rewrite Hf; [reflexivity|lia|vm_compute; discriminate|lia].
Defined.

(** ** Sequences of writes *)

(** A write of values at a range of a fixed row. *)
Definition do_write (idx : Z) (p : ReqToTokenPool) (w : (Z * Z) * list Z) : ReqToTokenPool :=
  (pool_write idx w.1.1 w.1.2 w.2 p).2.

Definition do_writes (idx : Z) (ws : list ((Z * Z) * list Z)) (p : ReqToTokenPool) :=
  foldl (do_write idx) p ws.

(** The write fits a row of length [n]. *)
Definition fits (n : Z) (w : (Z * Z) * list Z) : Prop :=
  0 <= w.1.1 <= w.1.2 /\ w.1.2 <= n /\ len w.2 = w.1.2 - w.1.1.

Definition apart (a b : Z * Z) : Prop := a.2 <= b.1 \/ b.2 <= a.1.

Lemma do_writes_row idx ws p row :
  row_at p idx = Some row -> (forall w, w ∈ ws -> fits (len row) w) ->
  exists row', row_at (do_writes idx ws p) idx = Some row' /\ len row' = len row.
Proof.
  revert p row. induction ws as [|w ws IH]; intros p row Hr Hf; [by exists row|].
  destruct (Hf w ltac:(left)) as (Hs & He & Hl).
  unfold do_writes. cbn [foldl]. unfold do_write at 2.
  rewrite (pool_write_exact _ _ _ _ row) by done. cbn [snd].
  pose proof (row_at_written p idx w.1.1 w.1.2 row w.2 Hr) as Hr'.
  assert (len (to_int32 <$> w.2) = w.1.2 - w.1.1) as Hl' by by rewrite len_map.
  destruct (IH _ _ Hr') as (row' & Hrow & Hlen).
  { intros w' Hw'. rewrite len_written by done. apply Hf. by right. }
  exists row'. split; [done|]. rewrite Hlen. by apply len_written.
Qed.

(** A range apart from every write is unchanged. *)
Lemma do_writes_frame idx ws p row a b :
  row_at p idx = Some row -> (forall w, w ∈ ws -> fits (len row) w) ->
  0 <= a <= b -> b <= len row -> (forall w, w ∈ ws -> apart (a, b) w.1) ->
  pool_read idx a b (do_writes idx ws p) = pool_read idx a b p.
Proof.
  revert p row. induction ws as [|w ws IH]; intros p row Hr Hf Ha Hb Hd; [done|].
  destruct (Hf w ltac:(left)) as (Hs & He & Hl).
  unfold do_writes. cbn [foldl]. unfold do_write at 2.
  rewrite (pool_write_exact _ _ _ _ row) by done. cbn [snd].
  pose proof (row_at_written p idx w.1.1 w.1.2 row w.2 Hr) as Hr'.
  assert (len (to_int32 <$> w.2) = w.1.2 - w.1.1) as Hl' by by rewrite len_map.
  pose proof (len_written row w.1.1 w.1.2 (to_int32 <$> w.2) Hs He Hl') as Hlen.
  etrans; [eapply (IH _ _ Hr')|].
  - intros w' Hw'. rewrite Hlen. apply Hf. by right.
  - done.
  - by rewrite Hlen.
  - intros; apply Hd; by right.
  - rewrite (pool_read_row _ _ _ _ _ Hr'), (pool_read_row _ _ _ _ _ Hr).
    apply splice_read_ne; try done. destruct (Hd w ltac:(left)); cbn in *; auto.
Qed.

(** After writes at pairwise apart ranges, each range reads back. *)
Lemma do_writes_read idx ws p row w :
  row_at p idx = Some row -> (forall w, w ∈ ws -> fits (len row) w) ->
  ForallOrdPairs (fun a b => apart a.1 b.1) ws -> w ∈ ws ->
  pool_read idx w.1.1 w.1.2 (do_writes idx ws p) = (to_int32 <$> w.2).
Proof.
  revert p row. induction ws as [|w0 ws IH]; intros p row Hr Hf Hd Hin.
  { by apply not_elem_of_nil in Hin. }
  destruct (Hf w0 ltac:(left)) as (Hs & He & Hl). inversion Hd as [|? ? Hall Hd' Heq]; subst.
  unfold do_writes. cbn [foldl]. unfold do_write at 2.
  rewrite (pool_write_exact _ _ _ _ row) by done. cbn [snd].
  pose proof (row_at_written p idx w0.1.1 w0.1.2 row w0.2 Hr) as Hr'.
  assert (len (to_int32 <$> w0.2) = w0.1.2 - w0.1.1) as Hl' by by rewrite len_map.
  pose proof (len_written row w0.1.1 w0.1.2 (to_int32 <$> w0.2) Hs He Hl') as Hlen.
  assert (forall w', w' ∈ ws -> fits (len (take (Z.to_nat w0.1.1) row ++ (to_int32 <$> w0.2) ++
    drop (Z.to_nat w0.1.2) row)) w') as Hf'.
  { intros w' Hw'. rewrite Hlen. apply Hf. by right. }
  apply elem_of_cons in Hin as [->|Hin]; [|by eapply (IH _ _ Hr')].
  etrans; [eapply (do_writes_frame idx ws _ _ _ _ Hr' Hf')|].
  - done.
  - by rewrite Hlen.
  - intros w' Hw'. rewrite Forall_forall in Hall. rewrite <- surjective_pairing. by apply Hall.
  - rewrite (pool_read_row _ _ _ _ _ Hr'). by apply splice_read.
Qed.

Lemma do_writes_other idx ws p row idx' :
  row_at p idx = Some row -> (forall w, w ∈ ws -> fits (len row) w) -> idx' <> idx ->
  row_at (do_writes idx ws p) idx' = row_at p idx'.
Proof.
  revert p row. induction ws as [|w ws IH]; intros p row Hr Hf Hne; [done|].
  destruct (Hf w ltac:(left)) as (Hs & He & Hl).
  assert (0 <= idx) as Hi.
  { unfold row_at in Hr. destruct (0 <=? idx) eqn:Hi; [|done]. by breflect. }
  unfold do_writes. cbn [foldl]. unfold do_write at 2.
  rewrite (pool_write_exact _ _ _ _ row) by done. cbn [snd].
  pose proof (row_at_written p idx w.1.1 w.1.2 row w.2 Hr) as Hr'.
  assert (len (to_int32 <$> w.2) = w.1.2 - w.1.1) as Hl' by by rewrite len_map.
  etrans; [eapply (IH _ _ Hr')|].
  - intros w' Hw'. rewrite len_written by done. apply Hf. by right.
  - done.
  - by apply row_at_written_ne.
Qed.

(** The row of [idx] holds the values of the writes [ws]. *)
Definition row_holds (p : ReqToTokenPool) (idx : Z) (ws : list ((Z * Z) * list Z)) : Prop :=
  is_Some (row_at p idx) /\
  forall w, w ∈ ws -> pool_read idx w.1.1 w.1.2 p = (to_int32 <$> w.2).

Lemma row_holds_writes idx ws p row :
  row_at p idx = Some row -> (forall w, w ∈ ws -> fits (len row) w) ->
  ForallOrdPairs (fun a b => apart a.1 b.1) ws -> row_holds (do_writes idx ws p) idx ws.
Proof.
  intros Hr Hf Hd. split.
  - destruct (do_writes_row idx ws p row Hr Hf) as (row' & -> & _). by eexists.
  - intros w Hw. by eapply do_writes_read.
Qed.

Lemma row_holds_ext p p' idx ws :
  row_at p' idx = row_at p idx -> row_holds p idx ws -> row_holds p' idx ws.
Proof.
  intros He [[row Hr] Hw]. split; [rewrite He; by eexists|]. intros w Hin.
  rewrite <- Hw by done. rewrite (pool_read_row _ _ row), (pool_read_row _ _ row) by congruence.
  done.
Qed.
