(* ===== verification/PICache.v ===== *)
(** * The position-independent cache (srt/pic/picache.py)

    Every operation of [PICache] over the engine state: matching, insertion,
    the two request hooks [cache_unfinished_req] and [cache_finished_req],
    eviction and lock counting.  [cfg] carries the policy and flags the
    constructor stores, [monotonic n] is the n-th reading of the clock. *)

From stdpp Require Import strings.
From S2P Require Import Prelude PyDict Allocator Policy Segmenter Engine ReqPool.

(** [s.add(x)] on a Python set of ranges. *)
Definition set_add {A} `{EqDecision A} (x : A) (l : list A) : list A :=
  if bool_decide (x ∈ l) then l else l ++ [x].

(** [MatchResult], the fields PIC fills. *)
Record MatchResult := mkMatch {
  device_indices : list Z;
  match_segment_entries : option (list (option nat));
}.

Record EvictResult := mkEvict {
  num_tokens_evicted : Z;
  mamba_num_evicted : Z;
}.

(** Python truthiness of [req.pic_segments]. *)
Definition segs_of (r : Req) : list (Z * Z) := default [] (pic_segments r).
(** The segment that is never cached: the last one of a multi-segment prompt. *)
Definition global_seg (r : Req) : option (Z * Z) :=
  if 1 <? len (segs_of r) then last (segs_of r) else None.

(** Tuple unpacking; a tuple of the other shape raises [ValueError]. *)
Definition unpack_std (m : MissSlots) : outcome (list Z * option Z) :=
  match m with SlotsStd kv mb => Ret (kv, mb) | SlotsRope _ _ _ => Raise ValueError end.
Definition unpack_rope (m : MissSlots) : outcome (list Z * option (list Z) * option Z) :=
  match m with SlotsRope pr pu mb => Ret (pr, pu, mb) | SlotsStd _ _ => Raise ValueError end.
Section picache.
Context {KV MB : Type} `{AllocatorOps KV} `{AllocatorOps MB}.
Variable cfg : PICConfig.
Variable monotonic : nat -> Z.

#[local] Abbreviation E := (Engine KV MB).

Definition is_transition : bool := bool_decide (compose (policy cfg) = TRANSITION).
Definition is_rope : bool := rope (policy cfg).

Definition time_monotonic : M E Z := fun s =>
  (Ret (monotonic (clock_reads s)), set_clock_reads (S (clock_reads s)) s).

Definition kv_free_m (x : list Z) : M E unit :=
  modify (fun s => set_kv (free x (kv s)) s).

(** [__init__]: an unknown mode is refused, the index starts empty. *)
Definition picache_init (pic_mode : string) (k : KV) (m : MB) (p : ReqToTokenPool)
    : outcome (PICPolicy * E) :=
  match dict_get pic_mode POLICIES with
  | None => Raise AssertionError
  | Some pol => Ret (pol, mkEngine k m p [] [] 0 0 0)
  end.

Definition reset (s : E) : E :=
  set_inflight_mamba_slots 0 (set_inflight_full_tokens 0 (set_entries [] s)).

(** ** Accounting *)

Definition cached_entries (s : E) : list SegmentEntry := entry_of s <$> entries s.
Definition entry_tokens (e : SegmentEntry) : Z := len (full_kv_slots e).

Definition evictable_size (s : E) : Z :=
  zsum (entry_tokens <$> filter (fun e => lock_ref e = 0) (cached_entries s)).
Definition protected_size (s : E) : Z :=
  zsum (entry_tokens <$> filter (fun e => 0 < lock_ref e) (cached_entries s)).
Definition total_size (s : E) : Z := zsum (entry_tokens <$> cached_entries s).
Definition mamba_evictable_size (s : E) : Z :=
  len (filter (fun e => lock_ref e = 0) (cached_entries s)).
Definition mamba_protected_size (s : E) : Z :=
  len (filter (fun e => 0 < lock_ref e) (cached_entries s)) + inflight_mamba_slots s.
Definition full_protected_size (s : E) : Z := protected_size s + inflight_full_tokens s.

Definition add_inflight (num_tokens num_mamba_slots : Z) (s : E) : E :=
  set_inflight_mamba_slots (inflight_mamba_slots s + num_mamba_slots)
    (set_inflight_full_tokens (inflight_full_tokens s + num_tokens) s).
Definition remove_inflight (num_tokens num_mamba_slots : Z) (s : E) : E :=
  set_inflight_mamba_slots (Z.max 0 (inflight_mamba_slots s - num_mamba_slots))
    (set_inflight_full_tokens (Z.max 0 (inflight_full_tokens s - num_tokens)) s).

Definition all_values_flatten (s : E) : list Z := concat (full_kv_slots <$> cached_entries s).
Definition all_mamba_values_flatten (s : E) : list Z := mamba_state_slot <$> cached_entries s.

(** ** Lookup and insertion *)

Definition touch (t : Z) (e : SegmentEntry) : SegmentEntry :=
  set_hit_count (hit_count e + 1) (set_last_access_time t e).

Definition match_segment (h : list Z) (tokens : list Z) : M E (option nat) :=
  s ← get;
  match dict_get h (entries s) with
  | None => mret None
  | Some i =>
      if bool_decide (token_ids (deref s i) = tokens) then
        t ← time_monotonic;
        modify (update_entry i (touch t));;
        mret (Some i)
      else mret None
  end.

Definition insert_segment (h tokens kv_slots : list Z) (mamba_slot : Z) : M E nat :=
  existing ← match_segment h tokens;
  match existing with
  | Some i => mret i
  | None =>
      now ← time_monotonic;
      i ← lift (new_entry (mkEntry h kv_slots mamba_slot tokens 0 now now 0 0));
      modify (fun s => set_entries (dict_set h i (entries s)) s);;
      mret i
  end.

Definition inject_received_segment (h tokens kv_slots : list Z) (mamba_slot : Z) : M E nat :=
  s ← get;
  match dict_get h (entries s) with
  | Some i => modify (update_entry i (add_lock 1));; mret i
  | None =>
      i ← insert_segment h tokens kv_slots mamba_slot;
      modify (update_entry i (add_lock 1));;
      mret i
  end.

(** ** Matching *)

(** A segment is looked up unless it is the last one or shorter than
    pic_segment_min_tokens. *)
Definition too_short (start end_ : Z) : bool :=
  (0 <? pic_segment_min_tokens cfg) && (end_ - start <? pic_segment_min_tokens cfg).

Definition seg_tokens (r : Req) (seg : Z * Z) : list Z :=
  pyslice (origin_input_ids r) seg.1 seg.2.

Definition match_step (r : Req) (n : Z) (per_seg : list (option nat)) (x : Z * (Z * Z))
    : M E (list (option nat)) :=
  let '(i, (start, end_)) := x in
  if (i =? n - 1) || too_short start end_ then mret (per_seg ++ [None])
  else
    o ← match_segment (segment_hash (seg_tokens r (start, end_))) (seg_tokens r (start, end_));
    mret (per_seg ++ [o]).

(** One hit's contribution to the reused slots: in recompute mode the seam
    at the head of every hit but the first segment is re-forwarded. *)
Definition hit_step (acc : list Z * Req) (x : Z * ((Z * Z) * option nat)) : M E (list Z * Req) :=
  let '(slots, r) := acc in
  let '(i, ((start, end_), o)) := x in
  match o with
  | None => mret (slots, r)
  | Some eid =>
      s ← get;
      let fks := full_kv_slots (deref s eid) in
      if recompute (policy cfg) && (0 <? i) then
        x_sink_eff ← of_outcome (resolve_seam_sink_tokens (seam_sink cfg) (end_ - start - 1));
        if 0 <? x_sink_eff then
          mret (slots ++ slice_from fks x_sink_eff,
                set_pic_hit_seam_positions
                  (dict_set (start, end_) (pyrange start (start + x_sink_eff))
                     (pic_hit_seam_positions r)) r)
        else mret (slots ++ fks, r)
      else mret (slots ++ fks, r)
  end.

Definition match_prefix (req : option Req) : M E (MatchResult * option Req) :=
  match req with
  | None => mret (mkMatch [] None, None)
  | Some r =>
      if disable cfg || (len (segs_of r) =? 0) then mret (mkMatch [] None, Some r)
      else
        let segments := segs_of r in
        let r := if recompute (policy cfg) then set_pic_hit_seam_positions [] r else r in
        per_seg ← mfold (match_step r (len segments)) [] (enumerate segments);
        res ← mfold hit_step ([], r) (enumerate (zip segments per_seg));
        mret (mkMatch res.1 (Some per_seg), Some res.2)
  end.

(** ** Registration of miss segments *)

(** The tests that leave a miss segment out of the cache. *)
Definition skip_unfinished (r : Req) (seg : Z * Z) : bool :=
  (bool_decide (global_seg r = Some seg) && negb (pic_scatter_single_seg r))
  || too_short seg.1 seg.2
  || negb (dict_mem seg (pic_miss_segment_slots r)).

(** [slot_tuple] to the slots that become the entry's. *)
Definition cacheable_slots (m : MissSlots) : M E (list Z * Z) :=
  kvmb ← (if is_rope then
            t ← of_outcome (unpack_rope m);
            public ← of_option AssertionError t.1.2;
            mret (public, t.2)
          else of_outcome (unpack_std m));
  mb ← of_option AssertionError kvmb.2;
  mret (kvmb.1, mb).

Definition unfinished_step (acc : Req * (Z * Z)) (seg : Z * Z) : M E (Req * (Z * Z)) :=
  let '(r, (inflight_tokens, inflight_mamba)) := acc in
  if skip_unfinished r seg then mret acc
  else
    let ids := seg_tokens r seg in
    let h := segment_hash ids in
    slot_tuple ← of_option KeyError (dict_get seg (pic_miss_segment_slots r));
    km ← cacheable_slots slot_tuple;
    let '(kv_slots, mamba_slot) := km in
    existing ← match_segment h ids;
    r' ← match existing with
         | Some i =>
             kv_free_m kv_slots;;
             mamba_free_m [mamba_slot];;
             mret (set_pic_freed_miss_segments (set_add seg (pic_freed_miss_segments r))
                     (set_pic_segment_entries (dict_set h i (pic_segment_entries r)) r))
         | None =>
             i ← insert_segment h ids kv_slots mamba_slot;
             (if is_transition then modify (update_entry i (add_lock 1)) else mret tt);;
             mret (set_pic_cache_owned_miss_segments
                     (set_add seg (pic_cache_owned_miss_segments r))
                     (set_pic_segment_entries (dict_set h i (pic_segment_entries r)) r))
         end;
    mret (r', (inflight_tokens + len kv_slots, inflight_mamba + 1)).

Definition cache_unfinished_req (r : Req) : M E Req :=
  let r := set_pic_freed_miss_segments [] (set_pic_cache_owned_miss_segments [] r) in
  res ← mfold unfinished_step (r, (0, 0)) (pic_miss_segments r);
  let '(r', (inflight_tokens, inflight_mamba)) := res in
  (if is_transition && ((0 <? inflight_tokens) || (0 <? inflight_mamba))
   then modify (remove_inflight inflight_tokens inflight_mamba) else mret tt);;
  mret r'.

(** ** Eviction and locks *)

(** One candidate: stop once both needs are met. *)
Definition evict_step (need_tokens need_mamba : Z) (acc : (Z * Z) * E) (i : nat) : (Z * Z) * E :=
  let '((et, em), s) := acc in
  if (need_tokens <=? et) && (need_mamba <=? em) then acc
  else
    let e := deref s i in
    ((et + len (full_kv_slots e), em + 1),
     set_entries (dict_pop (seg_hash e) (entries s))
       (set_mamba (free [mamba_state_slot e] (mamba s))
          (set_kv (free (full_kv_slots e) (kv s)) s))).

(** [LRUStrategy.get_priority]. *)
Definition lru_priority (s : E) (i : nat) : Z := last_access_time (deref s i).

Definition evict_candidates (s : E) : list nat :=
  sort_key (lru_priority s) (filter (fun i => lock_ref (deref s i) = 0) (entries s).*2).

Definition evict (need_tokens need_mamba : Z) (s : E) : EvictResult * E :=
  if (need_tokens <=? 0) && (need_mamba <=? 0) then (mkEvict 0 0, s)
  else
    let '((et, em), s') :=
      foldl (evict_step need_tokens need_mamba) ((0, 0), s) (evict_candidates s) in
    (mkEvict et em, s').

Definition lock_all (f : SegmentEntry -> SegmentEntry) (ids : list nat) (s : E) : E :=
  foldl (fun s i => update_entry i f s) s ids.

Definition inc_lock_ref (r : Req) (s : E) : Z * E :=
  (len (pic_segment_entries r), lock_all (add_lock 1) (pic_segment_entries r).*2 s).

Definition dec_lock_ref_step (acc : Z * E) (i : nat) : Z * E :=
  let '(delta, s) := acc in
  if 0 <? lock_ref (deref s i) then (delta - 1, update_entry i (add_lock (-1)) s) else acc.

Definition dec_lock_ref (r : Req) (s : E) : Z * E :=
  foldl dec_lock_ref_step (0, s) (pic_segment_entries r).*2.

(** ** Release of a finished request *)

(** Mamba slots that are not [None]. *)
Definition count_some {A} (l : list (option A)) : Z := len (omap id l).
Definition mamba_free_opt (o : option Z) : M E unit :=
  match o with Some m => mamba_free_m [m] | None => mret tt end.

(** Addition modes: the whole miss inflight goes at once. *)
Definition finish_addition_inflight (slots : list MissSlots) : M E unit :=
  tm ← mfold (fun acc m =>
         if is_rope then
           t ← of_outcome (unpack_rope m);
           mret (acc.1 + (len t.1.1 + len (default [] t.1.2)), acc.2 + count_some [t.2])
         else
           t ← of_outcome (unpack_std m);
           mret (acc.1 + len t.1, acc.2 + count_some [t.2])) (0, 0) slots;
  modify (remove_inflight tm.1 tm.2).

(** The never-cached last segment of a multi-segment prompt. *)
Definition finish_last_segment (r : Req) : M E unit :=
  match global_seg r ≫= fun g => dict_get g (pic_miss_segment_slots r) with
  | None => mret tt
  | Some m =>
      if is_rope then
        t ← of_outcome (unpack_rope m);
        assert_ (bool_decide (t.1.2 = None));;
        kv_free_m t.1.1;;
        mamba_free_opt t.2
      else
        t ← of_outcome (unpack_std m);
        kv_free_m t.1;;
        mamba_free_opt t.2;;
        (if is_transition then modify (remove_inflight (len t.1) (count_some [t.2]))
         else mret tt)
  end.

(** Non-rope modes: segments below the length threshold were never cached. *)
Definition finish_skipped (r : Req) : M E unit :=
  acc ← mfold (fun acc (x : Z * Z * MissSlots) =>
          let '(seg, m) := x in
          t ← of_outcome (unpack_std m);
          if bool_decide (last (segs_of r) = Some seg)
             || bool_decide (seg ∈ pic_cache_owned_miss_segments r)
             || bool_decide (seg ∈ pic_freed_miss_segments r)
             || negb (too_short seg.1 seg.2)
          then mret acc
          else mret (acc.1 ++ [t.1], acc.2 ++ option_list t.2))
        ([], []) (pic_miss_segment_slots r);
  let '(skipped_slots, skipped_mamba_slots) := acc in
  match skipped_slots with
  | [] => mret tt
  | _ =>
      kv_free_m (concat skipped_slots);;
      (match skipped_mamba_slots with [] => mret tt | _ => mamba_free_m skipped_mamba_slots end);;
      (if is_transition
       then modify (remove_inflight (len (concat skipped_slots)) (len skipped_mamba_slots))
       else mret tt)
  end.

(** Rope modes: the private copies of the miss segments. *)
Definition finish_rope_private (r : Req) : M E unit :=
  privs ← mfold (fun acc (x : Z * Z * MissSlots) =>
            let '(seg, m) := x in
            t ← of_outcome (unpack_rope m);
            if bool_decide (global_seg r = Some seg) then mret acc
            else mret (acc ++ [t.1.1])) [] (pic_miss_segment_slots r);
  (match privs with
   | [] => mret tt
   | _ => kv_free_m (concat privs);; modify (remove_inflight (len (concat privs)) 0)
   end);;
  match global_seg r ≫= fun g => dict_get g (pic_miss_segment_slots r) with
  | None => mret tt
  | Some m => t ← of_outcome (unpack_rope m); modify (remove_inflight (len t.1.1) 1)
  end.

(** Rope modes: the re-rotated private copies of the hits. *)
Definition finish_hit_private (r : Req) : M E unit :=
  match pic_rope_hit_private_slots r with
  | [] => mret tt
  | hits =>
      let combined := concat ((fun x => x.2.1) <$> hits) in
      kv_free_m combined;; modify (remove_inflight (len combined) 0)
  end.

(** KV slots generated while decoding. *)
Definition finish_decode_slots (r : Req) : M E unit :=
  match last (segs_of r), req_pool_idx r with
  | Some (_, prompt_end), Some idx =>
      let committed_len := kv_committed_len r in
      let free_start := if is_decode cfg then 0 else prompt_end in
      if free_start <? committed_len then
        p ← gets pool;
        kv_free_m (pool_read idx free_start committed_len p)
      else mret tt
  | _, _ => mret tt
  end.

Definition finish_miss (r : Req) (is_insert : bool) : M E Req :=
  match pic_miss_segment_slots r with
  | [] => mret r
  | slots =>
      r ← (if is_insert then cache_unfinished_req r else mret r);
      (if is_transition then mret tt else finish_addition_inflight slots.*2);;
      finish_last_segment r;;
      (if is_rope then mret tt else finish_skipped r);;
      (if is_rope then finish_rope_private r else mret tt);;
      mret r
  end.

Definition cache_finished_req (r : Req) (is_insert : bool) : M E Req :=
  r ← finish_miss r is_insert;
  (if is_rope then finish_hit_private r else mret tt);;
  finish_decode_slots r;;
  r ← match mamba_pool_idx r with
      | Some _ => free_mamba_cache r None
      | None => mret r
      end;
  lift (dec_lock_ref r);;
  mret r.

End picache.
