(* ===== verification/Scenario.v ===== *)
(** * A small concrete engine

    A KV pool of 32 slots, 8 Mamba slots, 4 request rows of 32 positions and
    a clock that counts, on which the theorems' hypotheses are instantiated
    and the operations evaluated. *)

From stdpp Require Import strings.
From S2P Require Import Prelude PyDict Allocator Policy Segmenter TokenAllocator MambaAllocator.
From S2P Require Import Engine ReqPool PICache.

Definition demo_engine := Engine TokenToKVPoolAllocator MambaSlotAllocator.

Definition demo_cfg (mode : string) (min_tokens : Z) : PICConfig :=
  mkConfig (default (mkPolicy ADDITION false false) (dict_get mode POLICIES))
    false false min_tokens SEAM_SINK_DEFAULT.

Definition demo_clock (n : nat) : Z := Z.of_nat n.

Definition demo0 : demo_engine :=
  mkEngine (token_alloc_init 32 false) (mamba_alloc_init 8)
    (pool_init 4 32 false false 0) [] [] 0 0 0.

Definition demo_req (ids : list Z) (segs : list (Z * Z)) : Req :=
  mkReq ids [] None None false None None 0 0 0 [] 0 0 (Some segs) [] [] [] None [] [] [] [] [] false.

(** A request in row 1 with allocated miss slots. *)
Definition demo_req_slots (ids : list Z) (segs miss : list (Z * Z))
    (slots : list (Z * Z * MissSlots)) (mb : option Z) (committed : Z) : Req :=
  mkReq ids [] (Some 1) mb false None None 0 committed committed [] 0 0 (Some segs) [] miss []
    None [] slots [] [] [] false.

(** Take [n] KV slots and one Mamba slot from the pools. *)
Definition demo_take (n : Z) (s : demo_engine) : list Z * Z * demo_engine :=
  let '(k, kv') := alloc n (kv s) in
  let '(m, mb') := alloc 1 (mamba s) in
  (default [] k, default 0 (m ≫= head), set_mamba mb' (set_kv kv' s)).

(** The engine after caching the tokens [ids]. *)
Definition demo_cache (ids : list Z) (s : demo_engine) : demo_engine :=
  let '(k, m, s1) := demo_take (len ids) s in
  (insert_segment demo_clock (segment_hash ids) ids k m s1).2.
