(* ===== verification/PICacheFacts.v ===== *)
(** * Facts on the position-independent cache

    The equivalence of engine states that differ only in recency (clock,
    access times, hit counters), the well-formedness of the content-addressed
    index, and the slot-ownership lemmas the theorems on matching,
    registration, eviction and release are proved from. *)

From S2P Require Import Prelude PyDict Allocator Policy Segmenter Engine ReqPool PICache.

(** ** Recency-equivalence *)

(** Everything about an entry but its recency. *)
Definition entry_core (e : SegmentEntry) : list Z * list Z * Z * list Z * Z :=
  (seg_hash e, full_kv_slots e, mamba_state_slot e, token_ids e, lock_ref e).

Section recency.
Context {KV MB : Type}.
Implicit Types s : Engine KV MB.

Record same_but_recency s s' : Prop := {
  sbr_kv : kv s' = kv s;
  sbr_mamba : mamba s' = mamba s;
  sbr_pool : pool s' = pool s;
  sbr_entries : entries s' = entries s;
  sbr_tokens : inflight_full_tokens s' = inflight_full_tokens s;
  sbr_slots : inflight_mamba_slots s' = inflight_mamba_slots s;
  sbr_heap : entry_core <$> heap s' = entry_core <$> heap s;
}.

#[global] Instance same_but_recency_equiv : Equivalence same_but_recency.
Proof.
  split.
  - intros s. by split.
  - intros s s' []. by split.
  - intros s s' s'' [] []. split; congruence.
Qed.

Lemma sbr_heap_length s s' : same_but_recency s s' -> length (heap s') = length (heap s).
Proof. intros H. pose proof (sbr_heap _ _ H) as Hh.
  apply (f_equal length) in Hh. by rewrite !length_fmap in Hh. Qed.

Lemma sbr_core s s' i : same_but_recency s s' -> entry_core (deref s' i) = entry_core (deref s i).
Proof.
  intros H. pose proof (sbr_heap _ _ H) as Hh. unfold deref.
  apply (f_equal (lookup i)) in Hh. rewrite !list_lookup_fmap in Hh.
  destruct (heap s !! i), (heap s' !! i); cbn in *; congruence.
Qed.

(** Any observation that factors through [entry_core] is preserved. *)
Lemma sbr_field {A} (g : SegmentEntry -> A) (g' : _ -> A) s s' i :
  (forall e, g e = g' (entry_core e)) ->
  same_but_recency s s' -> g (deref s' i) = g (deref s i).
Proof. intros Hg H. rewrite !Hg. f_equal. by apply sbr_core. Qed.

Lemma sbr_kv_slots s s' i :
  same_but_recency s s' -> full_kv_slots (deref s' i) = full_kv_slots (deref s i).
Proof. by apply (sbr_field _ (fun c => c.1.1.1.2)). Qed.
Lemma sbr_mamba_slot s s' i :
  same_but_recency s s' -> mamba_state_slot (deref s' i) = mamba_state_slot (deref s i).
Proof. by apply (sbr_field _ (fun c => c.1.1.2)). Qed.
Lemma sbr_hash s s' i :
  same_but_recency s s' -> seg_hash (deref s' i) = seg_hash (deref s i).
Proof. by apply (sbr_field _ (fun c => c.1.1.1.1)). Qed.
Lemma sbr_token_ids s s' i :
  same_but_recency s s' -> token_ids (deref s' i) = token_ids (deref s i).
Proof. by apply (sbr_field _ (fun c => c.1.2)). Qed.
Lemma sbr_lock s s' i :
  same_but_recency s s' -> lock_ref (deref s' i) = lock_ref (deref s i).
Proof. by apply (sbr_field _ (fun c => c.2)). Qed.

#[global] Instance entries_kv_proper : Proper (same_but_recency ==> eq) (@entries_kv KV MB).
Proof.
  intros s s' H. symmetry. apply entries_kv_ext; [apply (sbr_entries _ _ H)|].
  intros; by apply sbr_kv_slots.
Qed.

#[global] Instance entries_mamba_proper :
  Proper (same_but_recency ==> eq) (@entries_mamba KV MB).
Proof.
  intros s s' H. symmetry. apply entries_mamba_ext; [apply (sbr_entries _ _ H)|].
  intros; by apply sbr_mamba_slot.
Qed.

(** Sums over the cached entries are sums over their cores. *)
Lemma sbr_cached s s' : same_but_recency s s' ->
  entry_core <$> cached_entries s' = entry_core <$> cached_entries s.
Proof.
  intros H. unfold cached_entries. rewrite (sbr_entries _ _ H), <- !list_fmap_compose.
  apply list_fmap_ext. intros j [h i] _. cbn. by apply sbr_core.
Qed.

End recency.

Lemma filter_core (P : SegmentEntry -> Prop) `{!forall x, Decision (P x)}
    (es es' : list SegmentEntry) :
  (forall e e', lock_ref e = lock_ref e' -> P e <-> P e') ->
  entry_core <$> es' = entry_core <$> es ->
  entry_core <$> filter P es' = entry_core <$> filter P es.
Proof.
  intros HP. revert es'. induction es as [|e es IH]; intros [|e' es']; try done.
  rewrite !fmap_cons. intros Heq.
  assert (entry_core e' = entry_core e) as H1.
  { exact (f_equal (fun l => default (entry_core e) (head l)) Heq). }
  pose proof (f_equal tail Heq) as H2. cbn [tail] in H2.
  assert (P e' <-> P e) as Hl by (apply HP; unfold entry_core in H1; congruence).
  rewrite !filter_cons. rewrite (decide_ext _ _ _ _ Hl).
  case_decide; [|by apply IH]. rewrite !fmap_cons, IH by done.
  by rewrite H1.
Qed.

Lemma tokens_core (es es' : list SegmentEntry) :
  entry_core <$> es' = entry_core <$> es -> entry_tokens <$> es' = entry_tokens <$> es.
Proof.
  intros H. apply (f_equal (fmap (fun c : _ * list Z * Z * list Z * Z => len c.1.1.1.2))) in H.
  by rewrite <- !list_fmap_compose in H.
Qed.

#[global] Instance evictable_size_proper {KV MB} :
  Proper (@same_but_recency KV MB ==> eq) evictable_size.
Proof.
  intros s s' H. unfold evictable_size. f_equal. symmetry.
  apply tokens_core, filter_core, sbr_cached, H. by intros ?? ->.
Qed.

#[global] Instance protected_size_proper {KV MB} :
  Proper (@same_but_recency KV MB ==> eq) protected_size.
Proof.
  intros s s' H. unfold protected_size. f_equal. symmetry.
  apply tokens_core, filter_core, sbr_cached, H. by intros ?? ->.
Qed.

(** ** The content-addressed index

    [T] is a set of token sequences on which the hash does not collide;
    [index_ok T s] says that the index files live objects under the hash of
    their own tokens, all of them in [T], with non-negative lock counts. *)

Definition no_collision (T : list (list Z)) : Prop :=
  forall a b, a ∈ T -> b ∈ T -> segment_hash a = segment_hash b -> a = b.

Section index.
Context {KV MB : Type}.
Implicit Types s : Engine KV MB.

Definition entry_ok (T : list (list Z)) (h : list Z) (e : SegmentEntry) : Prop :=
  seg_hash e = h /\ h = segment_hash (token_ids e) /\ token_ids e ∈ T /\ 0 <= lock_ref e.

Definition index_ok (T : list (list Z)) s : Prop :=
  dict_wf (entries s) /\
  forall h i, (h, i) ∈ entries s -> (i < length (heap s))%nat /\ entry_ok T h (deref s i).

Lemma index_ok_wf T s : index_ok T s -> index_wf s.
Proof. intros [Hd Hw]. split; [done|]. intros h i Hin. by destruct (Hw _ _ Hin) as (?&?&?). Qed.

#[global] Instance index_ok_proper T : Proper (same_but_recency ==> iff) (@index_ok T).
Proof.
  enough (forall s s', same_but_recency s s' -> index_ok T s -> index_ok T s') as Hi.
  { intros s s' H. split; apply Hi; [done|by symmetry]. }
  intros s s' H [Hd Hw]. unfold index_ok. rewrite (sbr_entries _ _ H). split; [done|].
  intros h i Hin. destruct (Hw _ _ Hin) as [Hl (?&?&?&?)].
  rewrite (sbr_heap_length _ _ H). split; [done|]. unfold entry_ok.
  by rewrite (sbr_hash _ _ _ H), (sbr_token_ids _ _ _ H), (sbr_lock _ _ _ H).
Qed.

#[global] Instance index_wf_proper : Proper (same_but_recency ==> iff) (@index_wf KV MB).
Proof.
  enough (forall s s', same_but_recency s s' -> index_wf s -> index_wf s') as Hi.
  { intros s s' H. split; apply Hi; [done|by symmetry]. }
  intros s s' H. apply index_wf_ext; [apply (sbr_entries _ _ H)| |].
  - by rewrite (sbr_heap_length _ _ H).
  - intros; by apply sbr_hash.
Qed.

(** ** Lookup *)

(** What a lookup finds, without its effect on recency. *)
Definition lookup_segment (h tokens : list Z) s : option nat :=
  i ← dict_get h (entries s);
  if bool_decide (token_ids (deref s i) = tokens) then Some i else None.

#[global] Instance lookup_segment_proper h tokens :
  Proper (same_but_recency ==> eq) (@lookup_segment h tokens).
Proof.
  intros s s' H. unfold lookup_segment. rewrite (sbr_entries _ _ H).
  destruct (dict_get h (entries s)) as [i|]; [|done]. cbn.
  by rewrite (sbr_token_ids _ _ _ H).
Qed.

Lemma touch_recency t s i : same_but_recency s (update_entry i (touch t) s).
Proof.
  split; try done. unfold update_entry, set_heap. cbn.
  apply list_eq. intros j. rewrite !list_lookup_fmap, list_lookup_alter.
  case_decide; [|done]. subst. by destruct (heap s !! j).
Qed.

Lemma clock_recency n s : same_but_recency s (set_clock_reads n s).
Proof. by split. Qed.

Section ops.
Context (monotonic : nat -> Z).

(** [match_segment] returns exactly [lookup_segment] and changes recency
    only. *)
Lemma match_segment_spec h tokens s :
  wp (match_segment monotonic h tokens)
     (fun o s' => o = lookup_segment h tokens s /\ same_but_recency s s')
     (fun _ _ => False) s.
Proof.
  unfold match_segment. apply wp_bind, wp_get. unfold lookup_segment.
  destruct (dict_get h (entries s)) as [i|] eqn:Hg; cbn; [|by apply wp_ret].
  case_bool_decide; [|by apply wp_ret].
  apply wp_bind. unfold time_monotonic, wp at 1. cbn.
  split; [done|]. etrans; [apply clock_recency|apply touch_recency].
Qed.

Lemma lookup_segment_Some T h tokens s i :
  index_ok T s -> lookup_segment h tokens s = Some i ->
  (h, i) ∈ entries s /\ token_ids (deref s i) = tokens.
Proof.
  intros [Hd Hw] Hl. unfold lookup_segment in Hl.
  destruct (dict_get h (entries s)) as [j|] eqn:Hg; [|done]. cbn in Hl.
  case_bool_decide; [|done]. injection Hl as ->.
  split; [by apply dict_get_elem|done].
Qed.

Lemma lookup_segment_None T ids s :
  no_collision T -> ids ∈ T -> index_ok T s ->
  lookup_segment (segment_hash ids) ids s = None ->
  dict_get (segment_hash ids) (entries s) = None.
Proof.
  intros HT Hin [Hd Hw] Hl. unfold lookup_segment in Hl.
  destruct (dict_get _ (entries s)) as [j|] eqn:Hg; [|done]. cbn in Hl. exfalso.
  case_bool_decide as Hn; [done|]. apply Hn.
  apply dict_get_elem in Hg. destruct (Hw _ _ Hg) as [_ (_&He&?&_)].
  symmetry. by apply HT.
Qed.

(** Filing a fresh entry under an absent hash. *)
Definition file_entry (h : list Z) (e : SegmentEntry) s : Engine KV MB :=
  set_entries (dict_set h (length (heap s)) (entries s)) (set_heap (heap s ++ [e]) s).

Lemma file_entry_old h e s i :
  (i < length (heap s))%nat -> deref (file_entry h e s) i = deref s i.
Proof. intros. unfold file_entry, deref. cbn. by rewrite lookup_app_l. Qed.

Lemma file_entry_new h e s : deref (file_entry h e s) (length (heap s)) = e.
Proof. unfold file_entry, deref. cbn. by rewrite lookup_app_r, Nat.sub_diag. Qed.

Lemma file_entry_map {A} (g : SegmentEntry -> A) h e s :
  index_wf s -> dict_get h (entries s) = None ->
  (g ∘ entry_of (file_entry h e s) <$> entries (file_entry h e s)) =
  (g ∘ entry_of s <$> entries s) ++ [g e].
Proof.
  intros [Hd Hw] Hg.
  replace (entries (file_entry h e s)) with (entries s ++ [(h, length (heap s))]).
  2:{ cbn. symmetry. by apply dict_set_fresh. }
  rewrite fmap_app, list_fmap_singleton. f_equal.
  - apply list_fmap_ext. intros k [h' i] Hk. apply list_elem_of_lookup_2 in Hk.
    destruct (Hw _ _ Hk) as [Hi _]. unfold Basics.compose, entry_of. cbn [snd].
    by rewrite file_entry_old.
  - unfold Basics.compose, entry_of. cbn [snd]. by rewrite file_entry_new.
Qed.

Lemma file_entry_kv h e s :
  index_wf s -> dict_get h (entries s) = None ->
  entries_kv (file_entry h e s) = entries_kv s ++ full_kv_slots e.
Proof.
  intros Hw Hg. unfold entries_kv. rewrite (file_entry_map full_kv_slots) by done.
  rewrite concat_app. cbn. by rewrite app_nil_r.
Qed.

Lemma file_entry_mamba h e s :
  index_wf s -> dict_get h (entries s) = None ->
  entries_mamba (file_entry h e s) = entries_mamba s ++ [mamba_state_slot e].
Proof. intros Hw Hg. by apply (file_entry_map mamba_state_slot). Qed.

Lemma file_entry_ok T h e s :
  index_ok T s -> entry_ok T h e -> index_ok T (file_entry h e s).
Proof.
  intros [Hd Hw] He. split; [cbn; auto with hyx|].
  intros h' i Hin. cbn in Hin. apply dict_set_elem in Hin as [[-> ->]|[_ Hin]]; [| |done].
  - rewrite file_entry_new. cbn. rewrite length_app. cbn. split; [lia|done].
  - destruct (Hw _ _ Hin) as [Hi ?]. rewrite file_entry_old by done.
    cbn. rewrite length_app. split; [lia|done].
Qed.

(** Insertion under an absent hash files a fresh, unlocked entry. *)
Lemma insert_segment_fresh h tokens kv_slots mb s :
  dict_get h (entries s) = None ->
  exists t s', insert_segment monotonic h tokens kv_slots mb s = (Ret (length (heap s)), s') /\
    same_but_recency (file_entry h (mkEntry h kv_slots mb tokens 0 t t 0 0) s) s'.
Proof.
  intros Hg. unfold insert_segment, match_segment, mbind, M_bind, get.
  rewrite Hg. cbn. eexists _, _. split; [done|]. by split.
Qed.

(** Insertion of a segment that is already cached returns its entry. *)
Lemma insert_segment_cached h tokens kv_slots mb s i :
  lookup_segment h tokens s = Some i ->
  wp (insert_segment monotonic h tokens kv_slots mb)
     (fun j s' => j = i /\ same_but_recency s s') (fun _ _ => False) s.
Proof.
  intros Hl. unfold insert_segment. apply wp_bind.
  eapply wp_mono; [apply match_segment_spec| |done].
  intros o s' [-> ?]. rewrite Hl. by apply wp_ret.
Qed.

(** ** Updates that keep slots, hash and tokens *)

Record keeps_content (f : SegmentEntry -> SegmentEntry) : Prop := {
  kc_hash e : seg_hash (f e) = seg_hash e;
  kc_kv e : full_kv_slots (f e) = full_kv_slots e;
  kc_mamba e : mamba_state_slot (f e) = mamba_state_slot e;
  kc_tokens e : token_ids (f e) = token_ids e;
}.

Lemma add_lock_keeps d : keeps_content (add_lock d).
Proof. by split. Qed.

Lemma update_entries_kv f i s :
  keeps_content f -> entries_kv (update_entry i f s) = entries_kv s.
Proof.
  intros Hf. apply entries_kv_ext; [done|]. intros h j _.
  apply deref_update_field, (kc_kv _ Hf).
Qed.

Lemma update_entries_mamba f i s :
  keeps_content f -> entries_mamba (update_entry i f s) = entries_mamba s.
Proof.
  intros Hf. apply entries_mamba_ext; [done|]. intros h j _.
  apply deref_update_field, (kc_mamba _ Hf).
Qed.

Lemma update_index_ok T f i s :
  keeps_content f -> (forall e, 0 <= lock_ref e -> 0 <= lock_ref (f e)) ->
  index_ok T s -> index_ok T (update_entry i f s).
Proof.
  intros Hf Hl [Hd Hw]. split; [done|]. intros h j Hin.
  destruct (Hw _ _ Hin) as [Hj (H1&H2&H3&H4)]. cbn. rewrite length_alter.
  split; [done|]. unfold entry_ok.
  rewrite (deref_update_field seg_hash) by apply Hf.
  rewrite (deref_update_field token_ids) by apply Hf.
  repeat split; try done. unfold deref, update_entry in *. cbn.
  rewrite list_lookup_alter. case_decide; [|done]. subst.
  destruct (heap s !! j); cbn in *; auto.
Qed.

Lemma update_same_but_recency f i s s' :
  (forall e e', entry_core e = entry_core e' -> entry_core (f e) = entry_core (f e')) ->
  same_but_recency s s' -> same_but_recency (update_entry i f s) (update_entry i f s').
Proof.
  intros Hf H. pose proof (sbr_heap _ _ H) as Hh. destruct H.
  split; try done. cbn. apply list_eq. intros j.
  apply (f_equal (lookup j)) in Hh. rewrite !list_lookup_fmap in *.
  rewrite !list_lookup_alter. case_decide; [subst i|done].
  destruct (heap s !! j), (heap s' !! j); cbn in *; try done.
  f_equal. apply Hf. congruence.
Qed.

End ops.

(** The hypotheses on a concrete index are decidable. *)
#[global] Instance pairs_forall_dec {K V} (P : K -> V -> Prop) (d : list (K * V)) :
  (forall k v, Decision (P k v)) -> Decision (forall k v, (k, v) ∈ d -> P k v).
Proof.
  intros HP. refine (cast_if (decide (Forall (fun p => P p.1 p.2) d))).
  - intros k v Hin. rewrite Forall_forall in f. by apply (f (k, v)).
  - intros Hall. apply n, Forall_forall. intros [k v] Hin. by apply Hall.
Defined.

#[global] Instance index_ok_dec T s : Decision (index_ok T s).
Proof. unfold index_ok, entry_ok, dict_wf. apply _. Defined.
End index.

#[global] Instance no_collision_dec T : Decision (no_collision T).
Proof.
  refine (cast_if (decide (Forall (fun a =>
    Forall (fun b => segment_hash a = segment_hash b -> a = b) T) T))).
  - intros a b Ha Hb. rewrite Forall_forall in f. specialize (f _ Ha).
    rewrite Forall_forall in f. by apply f.
  - intros Hall. apply n, Forall_forall. intros a Ha. apply Forall_forall.
    intros b Hb. by apply Hall.
Defined.

Lemma elem_of_set_add {A} `{EqDecision A} (x y : A) l : y ∈ set_add x l <-> y = x \/ y ∈ l.
Proof. unfold set_add. case_bool_decide; set_solver. Qed.

(** Decide a closed proposition by evaluation. *)
Ltac eval_decide := apply (bool_decide_unpack _); vm_compute; exact I.

#[export] Hint Resolve add_lock_keeps index_ok_wf : hyx.
