(* ===== verification/PICacheMatch.v ===== *)
(** * Matching a request's segments

    [PICache.match_prefix] is characterised by a pure function of the index,
    and the plan [Req.init_next_round_input] derives from it (which positions
    are forwarded, which slots are reused) is shown to cover the prompt
    exactly once. *)

From S2P Require Import Prelude PyDict Allocator Policy Segmenter Engine ReqPool PICache.
From S2P Require Import PICacheFacts.

(** ** What matching returns *)

Section match_prefix.
Context {KV MB : Type} `{AllocatorOps KV} `{AllocatorOps MB}.
Context (cfg : PICConfig) (monotonic : nat -> Z).
Implicit Types s : Engine KV MB.

(** The entry the [i]-th of [n] segments resolves to. *)
Definition match_one (r : Req) (n : Z) s (x : Z * (Z * Z)) : option nat :=
  if (x.1 =? n - 1) || too_short cfg x.2.1 x.2.2 then None
  else lookup_segment (segment_hash (seg_tokens r x.2)) (seg_tokens r x.2) s.

Definition matched (r : Req) s : list (option nat) :=
  match_one r (len (segs_of r)) s <$> enumerate (segs_of r).

(** Width of the re-forwarded seam at the head of the [i]-th segment. *)
Definition seam_width (i : Z) (seg : Z * Z) : Z :=
  if recompute (policy cfg) && (0 <? i) then
    match resolve_seam_sink_tokens (seam_sink cfg) (seg.2 - seg.1 - 1) with
    | Ret k => Z.max 0 k
    | Raise _ => 0
    end
  else 0.

(** Slots reused for one segment, and its seam positions. *)
Definition reused s (x : Z * ((Z * Z) * option nat)) : list Z :=
  match x.2.2 with
  | None => []
  | Some i => slice_from (full_kv_slots (deref s i)) (seam_width x.1 x.2.1)
  end.

Definition seam_of (x : Z * ((Z * Z) * option nat)) : list (Z * Z * list Z) :=
  let w := seam_width x.1 x.2.1 in
  match x.2.2 with
  | Some _ => if 0 <? w then [(x.2.1, pyrange x.2.1.1 (x.2.1.1 + w))] else []
  | None => []
  end.

(** The knob resolves to a token count (it is not infinite or NaN). *)
Definition seam_sink_ok : Prop :=
  recompute (policy cfg) = true ->
  forall n, exists k, resolve_seam_sink_tokens (seam_sink cfg) n = Ret k.

Lemma match_loop r n acc xs s :
  wp (mfold (match_step cfg monotonic r n) acc xs)
     (fun res s' => res = acc ++ (match_one r n s <$> xs) /\ same_but_recency s s')
     (fun _ _ => False) s.
Proof.
  apply wp_mfold with (I := fun done_ res s' =>
    res = acc ++ (match_one r n s <$> done_) /\ same_but_recency s s').
  - by rewrite app_nil_r.
  - intros done_ [i [start end_]] rest res s' _ [-> Hs].
    unfold match_step. rewrite fmap_app, app_assoc, list_fmap_singleton.
    unfold match_one at 4. cbn [fst snd]. case_if.
    + by apply wp_ret.
    + apply wp_bind. eapply wp_mono; [apply match_segment_spec| |done].
      intros o s'' [-> Hs']. apply wp_ret.
      rewrite <- (lookup_segment_proper _ _ _ _ Hs). split; [done|by etrans].
  - done.
Qed.

Lemma slice_from_0 {A} (l : list A) : slice_from l 0 = l.
Proof. unfold slice_from, pyidx. cbn. rewrite Z.min_l by apply len_nonneg. done. Qed.

Definition seam_dict (d : list (Z * Z * list Z)) (xs : list (Z * ((Z * Z) * option nat))) :=
  foldl (fun d p => dict_set p.1 p.2 d) d (concat (seam_of <$> xs)).

Lemma seam_dict_cons d x xs : seam_dict d (x :: xs) = seam_dict (seam_dict d [x]) xs.
Proof.
  unfold seam_dict. rewrite fmap_cons, list_fmap_singleton. cbn [concat].
  by rewrite foldl_app, app_nil_r.
Qed.

Lemma hit_step_spec slots r x s :
  seam_sink_ok ->
  hit_step cfg (slots, r) x s =
  (Ret (slots ++ reused s x,
        set_pic_hit_seam_positions (seam_dict (pic_hit_seam_positions r) [x]) r), s).
Proof.
  intros Hk. destruct x as [i [[start end_] [eid|]]]; cycle 1.
  { unfold hit_step, reused, seam_dict. cbn. rewrite app_nil_r. by destruct r. }
  unfold seam_dict. rewrite list_fmap_singleton. cbn [concat]. rewrite app_nil_r.
  unfold hit_step, reused, seam_of, seam_width. cbn [fst snd].
  unfold mbind, M_bind, get.
  destruct (recompute (policy cfg)) eqn:Hr; cbn [andb]; cycle 1.
  { cbn. rewrite slice_from_0. by destruct r. }
  destruct (0 <? i); cycle 1.
  { cbn. rewrite slice_from_0. by destruct r. }
  destruct (Hk Hr (end_ - start - 1)) as [k Hk']. unfold of_outcome. rewrite Hk'.
  destruct (0 <? k) eqn:Hp; breflect.
  - rewrite Z.max_r by lia. rewrite (proj2 (Z.ltb_lt 0 k)) by lia. cbn. done.
  - rewrite Z.max_l by lia. cbn. rewrite slice_from_0. by destruct r.
Qed.

Lemma hit_loop xs slots r s :
  seam_sink_ok ->
  mfold (hit_step cfg) (slots, r) xs s =
  (Ret (slots ++ concat (reused s <$> xs),
        set_pic_hit_seam_positions (seam_dict (pic_hit_seam_positions r) xs) r), s).
Proof.
  intros Hk. revert slots r. induction xs as [|x xs IH]; intros slots r.
  { cbn. rewrite app_nil_r. by destruct r. }
  cbn [mfold]. unfold mbind at 1, M_bind at 1. rewrite hit_step_spec by done.
  rewrite IH, fmap_cons. cbn [concat]. rewrite <- app_assoc.
  by rewrite (seam_dict_cons _ x xs).
Qed.

Lemma reused_recency s s' x : same_but_recency s s' -> reused s' x = reused s x.
Proof.
  intros Hs. unfold reused. destruct x.2.2; [|done]. by rewrite (sbr_kv_slots _ _ _ Hs).
Qed.

(** The request as [match_prefix] leaves it. *)
Definition with_seams (r : Req) (per_seg : list (option nat)) : Req :=
  let d := if recompute (policy cfg) then [] else pic_hit_seam_positions r in
  set_pic_hit_seam_positions (seam_dict d (enumerate (zip (segs_of r) per_seg))) r.

Lemma match_prefix_spec r s :
  seam_sink_ok -> disable cfg = false -> segs_of r <> [] ->
  wp (match_prefix cfg monotonic (Some r))
     (fun res s' =>
        res = (mkMatch (concat (reused s <$> enumerate (zip (segs_of r) (matched r s))))
                       (Some (matched r s)),
               Some (with_seams r (matched r s))) /\
        same_but_recency s s')
     (fun _ _ => False) s.
Proof.
  intros Hk Hd Hne. unfold match_prefix. rewrite Hd.
  assert ((len (segs_of r) =? 0) = false) as ->.
  { apply Z.eqb_neq. destruct (segs_of r); [done|]. rewrite len_cons.
    pose proof (len_nonneg l). lia. }
  cbn [orb]. set (r0 := if recompute (policy cfg) then _ else r).
  apply wp_bind. eapply wp_mono; [apply match_loop| |done].
  intros per_seg s' [-> Hs]. cbn [app].
  replace (match_one r0 (len (segs_of r)) s <$> enumerate (segs_of r))
    with (matched r s) by (unfold r0, matched; by case_if).
  apply wp_bind. unfold wp at 1. rewrite hit_loop by done. cbn [fst snd].
  apply wp_ret. split; [|done]. cbn [app]. f_equal.
  - f_equal. f_equal. apply list_fmap_ext. intros j x _. by apply reused_recency.
  - unfold with_seams, r0. by destruct (recompute (policy cfg)).
Qed.

End match_prefix.
