(* ===== verification/NextRound.v ===== *)
(** * Planning a prefill round

    [Req.init_next_round_input] (srt/managers/schedule_batch.py) turns the
    match into a plan: the slots to reuse, the hit and miss segments and the
    absolute positions that are forwarded (miss segments, and the seams of
    the hits in recompute mode).  The plan covers the prompt exactly. *)

From stdpp Require Import strings.
From S2P Require Import Prelude PyDict Allocator Policy Segmenter Engine ReqPool PICache.
From S2P Require Import PICacheFacts PICacheMatch TokenAllocator MambaAllocator Scenario.

Section next_round.
Context {KV MB : Type} `{AllocatorOps KV} `{AllocatorOps MB}.
Variable cfg : PICConfig.
Variable monotonic : nat -> Z.
Implicit Types s : Engine KV MB.

(** The forwarded positions: miss segments in order, then, when there are
    seams, merged with them and sorted. *)
Definition plan_positions (r : Req) : list Z :=
  let positions := concat ((fun seg => pyrange seg.1 seg.2) <$> pic_miss_segments r) in
  match pic_hit_seam_positions r with
  | [] => positions
  | hit_seam => sort_Z (positions ++ concat hit_seam.*2)
  end.

Definition apply_match s (mr : MatchResult) (r : Req) : outcome Req :=
  let r := set_cache_protected_len (len (device_indices mr))
             (set_prefix_indices (device_indices mr) r) in
  match match_segment_entries mr with
  | None => Ret r
  | Some per_seg =>
      match pic_segments r with
      | None => Raise AssertionError
      | Some segs =>
          let pairs := zip segs per_seg in
          let r :=
            set_pic_segment_entries
              (foldl (fun d i => dict_set (seg_hash (deref s i)) i d) [] (omap id per_seg)) r in
          let r :=
            set_pic_hit_segments
              (omap (fun x => i ← x.2; Some (x.1, seg_hash (deref s i))) pairs) r in
          let r :=
            set_pic_miss_segments
              (omap (fun x => match x.2 with None => Some x.1 | Some _ => None end) pairs) r in
          let positions := plan_positions r in
          Ret (match positions with
               | [] => r
               | _ => set_pic_miss_token_positions (Some positions) r
               end)
      end
  end.

Definition init_next_round_input (r : Req) : M (Engine KV MB) Req :=
  let input_len := len (origin_input_ids r ++ output_ids r) in
  res ← match_prefix cfg monotonic (Some r);
  s ← get;
  r' ← of_outcome (apply_match s res.1 (default r res.2));
  mret (set_extend_input_len (input_len - len (prefix_indices r')) r').

(** ** Coverage of the prompt *)

(** The positions one segment contributes. *)
Definition forwarded (x : Z * ((Z * Z) * option nat)) : list Z :=
  match x.2.2 with
  | None => pyrange x.2.1.1 x.2.1.2
  | Some _ => pyrange x.2.1.1 (x.2.1.1 + seam_width cfg x.1 x.2.1)
  end.

Lemma seam_width_bounds i seg : seg.1 < seg.2 -> 0 <= seam_width cfg i seg < seg.2 - seg.1.
Proof.
  intros Hs. unfold seam_width. case_if; [|lia].
  destruct (resolve_seam_sink_tokens _ _) as [k|] eqn:Hk; [|lia].
  apply seam_sink_range in Hk. lia.
Qed.

Lemma forwarded_range x p : x.2.1.1 < x.2.1.2 -> p ∈ forwarded x -> x.2.1.1 <= p < x.2.1.2.
Proof.
  intros Hs. pose proof (seam_width_bounds x.1 x.2.1 Hs).
  unfold forwarded. case_match; rewrite elem_of_pyrange; lia.
Qed.

Lemma forwarded_sorted segs os k lo hi :
  tiles lo hi segs ->
  StronglySorted Z.lt (concat (forwarded <$> enum_from k (zip segs os))) /\
  forall p, p ∈ concat (forwarded <$> enum_from k (zip segs os)) -> lo <= p < hi.
Proof.
  revert os k lo. induction segs as [|[a b] segs IH]; intros [|o os] k lo; cbn [zip zip_with];
    try (intros; split; [constructor|by intros p ?%not_elem_of_nil]).
  intros (-> & Hab & Ht). destruct (IH os (k + 1) b Ht) as [IHs IHr].
  rewrite enum_from_cons, fmap_cons. cbn [concat].
  pose proof (fun p => forwarded_range (k, (lo, b, o)) p Hab) as Hf. cbn [fst snd] in Hf.
  apply tiles_le in Ht. split.
  - apply sorted_app; [|done|].
    + unfold forwarded. case_match; apply pyrange_sorted.
    + intros x y Hx Hy. apply Hf in Hx. apply IHr in Hy. lia.
  - intros p [Hp|Hp]%elem_of_app; [apply Hf in Hp; lia|]. apply IHr in Hp. lia.
Qed.

(** Misses and seams together are the forwarded positions. *)
Lemma forwarded_split (pairs : list ((Z * Z) * option nat)) k :
  concat ((fun seg => pyrange seg.1 seg.2) <$>
     omap (fun x => match x.2 with None => Some x.1 | Some _ => None end) pairs) ++
  concat (concat (seam_of cfg <$> enum_from k pairs)).*2
  ≡ₚ concat (forwarded <$> enum_from k pairs).
Proof.
  revert k. induction pairs as [|[[a b] o] pairs IH]; intros k; [done|].
  rewrite enum_from_cons, !fmap_cons. cbn [concat].
  rewrite fmap_app, concat_app, <- (IH (k + 1)). clear IH.
  unfold seam_of at 1, forwarded at 1. cbn [fst snd].
  destruct o; cbn [omap list_omap]; rewrite ?fmap_cons; cbn [concat fst snd].
  - destruct (0 <? seam_width cfg k (a, b)) eqn:Hw; cbn [fmap list_fmap concat snd].
    + rewrite app_nil_r. solve_Permutation.
    + breflect. by rewrite pyrange_empty by lia.
  - solve_Permutation.
Qed.

Lemma tiles_NoDup lo hi segs : tiles lo hi segs -> NoDup segs.
Proof.
  revert lo. induction segs as [|[a b] segs IH]; cbn; intros lo; [constructor|].
  intros (-> & Hab & Ht). constructor; [|by eapply IH].
  intros Hin. eapply tiles_elem in Hin; [|done]. lia.
Qed.

Lemma seam_keys_sublist (pairs : list ((Z * Z) * option nat)) k :
  sublist (concat (seam_of cfg <$> enum_from k pairs)).*1 pairs.*1.
Proof.
  revert k. induction pairs as [|[seg o] pairs IH]; intros k; [constructor|].
  rewrite enum_from_cons, !fmap_cons. cbn [concat fst]. rewrite fmap_app.
  unfold seam_of at 1. cbn [fst snd].
  destruct o; [case_if|]; cbn; [|apply sublist_cons, IH..].
  apply sublist_skip, IH.
Qed.

Lemma seam_dict_tiles segs os k lo hi :
  tiles lo hi segs ->
  seam_dict cfg [] (enum_from k (zip segs os)) = concat (seam_of cfg <$> enum_from k (zip segs os)).
Proof.
  intros Ht. unfold seam_dict. rewrite dict_of_pairs; [done|]. cbn [fmap list_fmap app].
  eapply sublist_NoDup; [|apply seam_keys_sublist].
  eapply sublist_NoDup; [by eapply tiles_NoDup|].
  clear Ht. revert os. induction segs as [|seg segs IH]; intros [|o os]; cbn.
  1-3: by apply sublist_nil_l. by apply sublist_skip.
Qed.

Lemma seam_dict_off d (xs : list (Z * ((Z * Z) * option nat))) :
  recompute (policy cfg) = false -> seam_dict cfg d xs = d.
Proof.
  intros Hr. unfold seam_dict.
  assert (concat (seam_of cfg <$> xs) = []) as ->; [|done].
  induction xs as [|x xs IH]; [done|]. rewrite fmap_cons. cbn [concat].
  rewrite IH, app_nil_r. unfold seam_of, seam_width. rewrite Hr. by destruct x.2.2.
Qed.

(** Without seams the misses alone are the forwarded positions. *)
Lemma forwarded_no_seam (pairs : list ((Z * Z) * option nat)) k :
  concat (seam_of cfg <$> enum_from k pairs) = [] ->
  concat ((fun seg => pyrange seg.1 seg.2) <$>
     omap (fun x => match x.2 with None => Some x.1 | Some _ => None end) pairs)
  = concat (forwarded <$> enum_from k pairs).
Proof.
  revert k. induction pairs as [|[[a b] o] pairs IH]; intros k; [done|].
  rewrite enum_from_cons, !fmap_cons. cbn [concat].
  intros [Hs Hr]%app_eq_nil. rewrite <- (IH _ Hr).
  unfold seam_of in Hs. unfold forwarded at 1. cbn [fst snd] in *.
  destruct o; cbn [omap list_omap]; rewrite ?fmap_cons; cbn [concat fst snd]; [|done].
  case_if; [done|]. breflect.
  by rewrite pyrange_empty by lia.
Qed.

(** [plan_positions] yields the forwarded positions in increasing order. *)
Lemma plan_positions_forwarded r os segs lo hi :
  tiles lo hi segs ->
  pic_miss_segments r =
    omap (fun x => match x.2 with None => Some x.1 | Some _ => None end) (zip segs os) ->
  pic_hit_seam_positions r = concat (seam_of cfg <$> enum_from 0 (zip segs os)) ->
  plan_positions r = concat (forwarded <$> enum_from 0 (zip segs os)).
Proof.
  intros Ht Hm Hs. pose proof (forwarded_split (zip segs os) 0) as Hp.
  destruct (forwarded_sorted segs os 0 lo hi Ht) as [Hsort _].
  unfold plan_positions. rewrite Hm. rewrite <- Hs in Hp.
  destruct (pic_hit_seam_positions r) as [|p d] eqn:Hd.
  - by apply forwarded_no_seam.
  - by apply sort_Z_unique.
Qed.

(** ** Lengths *)

(** Every indexed entry holds one KV slot per token. *)
Definition kv_aligned s : Prop :=
  forall h i, (h, i) ∈ entries s -> len (full_kv_slots (deref s i)) = len (token_ids (deref s i)).

#[global] Instance kv_aligned_dec s : Decision (kv_aligned s).
Proof. unfold kv_aligned. apply _. Defined.

(** A hit is a non-last, long enough segment whose entry holds exactly the
    segment's tokens. *)
Definition sound_hit (r : Req) s (x : Z * ((Z * Z) * option nat)) : Prop :=
  forall i, x.2.2 = Some i ->
    x.1 <> len (segs_of r) - 1 /\ too_short cfg x.2.1.1 x.2.1.2 = false /\
    (segment_hash (seg_tokens r x.2.1), i) ∈ entries s /\
    token_ids (deref s i) = seg_tokens r x.2.1.

Lemma zip_enum_fmap {A B} (f : Z * A -> B) k (l : list A) x :
  x ∈ enum_from k (zip l (f <$> enum_from k l)) -> x.2.2 = f (x.1, x.2.1) /\ x.2.1 ∈ l.
Proof.
  revert k. induction l as [|a l IH]; intros k; cbn [zip zip_with].
  { by intros ?%not_elem_of_nil. }
  rewrite enum_from_cons, fmap_cons. cbn [zip_with]. rewrite enum_from_cons.
  intros [->|Hin]%elem_of_cons; [split; [done|left]|].
  apply IH in Hin as [? ?]. split; [done|by right].
Qed.

Lemma matched_sound T r s x :
  index_ok T s -> x ∈ enumerate (zip (segs_of r) (matched cfg r s)) -> sound_hit r s x.
Proof.
  intros Hok Hx i Hi. apply (zip_enum_fmap (match_one cfg r (len (segs_of r)) s)) in Hx as [Hx _].
  rewrite Hi in Hx. unfold match_one in Hx. cbn [fst snd] in Hx.
  destruct ((x.1 =? _) || _) eqn:Hc; [done|]. breflect.
  symmetry in Hx. eapply lookup_segment_Some in Hx as [? ?]; done.
Qed.

Lemma reused_forwarded_len T r s x lo hi :
  index_ok T s -> kv_aligned s -> tiles lo hi (segs_of r) -> 0 <= lo ->
  hi = len (origin_input_ids r) ->
  x ∈ enumerate (zip (segs_of r) (matched cfg r s)) ->
  len (reused cfg s x) + len (forwarded x) = x.2.1.2 - x.2.1.1.
Proof.
  intros Hok Hal Ht Hlo -> Hx. pose proof (matched_sound T r s x Hok Hx) as Hs.
  apply (zip_enum_fmap (match_one cfg r (len (segs_of r)) s)) in Hx as [_ Hin].
  destruct x as [k [[a b] o]]. cbn [fst snd] in *.
  eapply tiles_elem in Hin; [|done].
  pose proof (seam_width_bounds k (a, b) ltac:(cbn; lia)) as Hw. cbn [fst snd] in Hw.
  unfold reused, forwarded. cbn [fst snd]. destruct o as [i|].
  - destruct (Hs i eq_refl) as (_ & _ & Hi & Htok). cbn [fst snd] in *.
    assert (len (full_kv_slots (deref s i)) = b - a) as Hl.
    { rewrite (Hal _ _ Hi), Htok. unfold seg_tokens. cbn [fst snd].
      apply len_pyslice; lia. }
    rewrite len_slice_from, len_pyrange by lia. lia.
  - rewrite len_nil, len_pyrange. lia.
Qed.

Lemma tiles_total (g h : Z * ((Z * Z) * option nat) -> list Z) segs os k lo hi :
  tiles lo hi segs -> length os = length segs ->
  (forall x, x ∈ enum_from k (zip segs os) -> len (g x) + len (h x) = x.2.1.2 - x.2.1.1) ->
  len (concat (g <$> enum_from k (zip segs os))) +
  len (concat (h <$> enum_from k (zip segs os))) = hi - lo.
Proof.
  revert os k lo. induction segs as [|[a b] segs IH]; intros [|o os] k lo; try done.
  { cbn [tiles]. intros -> _ _. change (0 + 0 = hi - hi). lia. }
  intros (-> & Hab & Ht) [= Hl] Hx. cbn [zip zip_with] in *.
  rewrite enum_from_cons in *. rewrite !fmap_cons. cbn [concat]. rewrite !len_app.
  specialize (IH os (k + 1) b Ht Hl (fun x Hin => Hx x (list_elem_of_further _ _ _ Hin))).
  specialize (Hx _ (list_elem_of_here _ _)). cbn [fst snd] in Hx. lia.
Qed.

Lemma length_matched r s : length (matched cfg r s) = length (segs_of r).
Proof.
  unfold matched, enumerate. rewrite length_fmap, length_zip, length_seqZ. unfold len. lia.
Qed.

(** The last segment is never matched. *)
Lemma matched_last r s segs seg :
  segs_of r = segs ++ [seg] -> exists os, matched cfg r s = os ++ [None] /\ length os = length segs.
Proof.
  intros Hs. unfold matched. rewrite Hs. change (@enumerate (Z * Z)) with (@enum_from (Z * Z) 0).
  assert (match_one cfg r (len (segs ++ [seg])) s (0 + len segs, seg) = None) as Hn.
  { unfold match_one. cbn [fst snd]. pose proof (len_app segs [seg]) as Hl.
    rewrite len_cons in Hl. change (len (@nil (Z * Z))) with 0 in Hl.
    by rewrite (proj2 (Z.eqb_eq (0 + len segs) (len (segs ++ [seg]) - 1))) by lia. }
  rewrite enum_from_app, enum_from_cons, fmap_app, fmap_cons, Hn.
  eexists. split; [reflexivity|].
  unfold enum_from. rewrite length_fmap, length_zip, length_seqZ. unfold len. lia.
Qed.

Lemma forwarded_nonempty r s lo hi :
  tiles lo hi (segs_of r) -> segs_of r <> [] ->
  concat (forwarded <$> enumerate (zip (segs_of r) (matched cfg r s))) <> [].
Proof.
  intros Ht Hne. destruct (exists_last Hne) as (segs & [a b] & Hs).
  destruct (matched_last r s segs (a, b) Hs) as (os & -> & Hl).
  assert (a < b) as Hab.
  { eapply (tiles_elem _ _ _ a b) in Ht; [lia|]. rewrite Hs. set_solver. }
  rewrite Hs, zip_with_app by done. change (@enumerate (Z * Z * option nat)) with
    (@enum_from (Z * Z * option nat) 0).
  rewrite enum_from_app, fmap_app, concat_app. cbn [zip_with]. rewrite enum_from_cons, fmap_cons.
  cbn [concat]. unfold forwarded at 2. cbn [fst snd].
  assert (a ∈ pyrange a b) as Hin by (apply elem_of_pyrange; lia).
  intros [_ [He _]%app_eq_nil]%app_eq_nil. rewrite He in Hin. by apply not_elem_of_nil in Hin.
Qed.

(** The request after [apply_match]: its plan is the forwarded positions. *)
Lemma apply_match_plan r s os lo hi :
  tiles lo hi (segs_of r) -> (recompute (policy cfg) = false -> pic_hit_seam_positions r = []) -> segs_of r <> [] ->
  let xs := enumerate (zip (segs_of r) os) in
  concat (forwarded <$> xs) <> [] ->
  exists r', apply_match s (mkMatch (concat (reused cfg s <$> xs)) (Some os)) (with_seams cfg r os)
               = Ret r' /\
    prefix_indices r' = concat (reused cfg s <$> xs) /\
    pic_miss_token_positions r' = Some (concat (forwarded <$> xs)) /\
    origin_input_ids r' = origin_input_ids r /\ segs_of r' = segs_of r /\
    pic_hit_segments r' = omap (fun x => i ← x.2; Some (x.1, seg_hash (deref s i))) (zip (segs_of r) os) /\
    pic_miss_segments r' =
      omap (fun x => match x.2 with None => Some x.1 | Some _ => None end) (zip (segs_of r) os) /\
    pic_segment_entries r' = foldl (fun d i => dict_set (seg_hash (deref s i)) i d) [] (omap id os) /\
    pic_hit_seam_positions r' = concat (seam_of cfg <$> xs).
Proof.
  intros Ht Hh Hne xs Hf. unfold apply_match. cbn [match_segment_entries device_indices].
  assert (pic_segments r = Some (segs_of r)) as Hs.
  { unfold segs_of in *. by destruct (pic_segments r). }
  cbn [pic_segments set_cache_protected_len set_prefix_indices with_seams
       set_pic_hit_seam_positions]. rewrite Hs.
  match goal with |- context [plan_positions ?q] => set (r1 := q) end.
  assert (pic_hit_seam_positions r1 = concat (seam_of cfg <$> xs)) as Hseam.
  { cbn. destruct (recompute (policy cfg)) eqn:Hr.
    - by apply seam_dict_tiles with lo hi.
    - rewrite (Hh eq_refl), (seam_dict_off [] _ Hr). rewrite <- (seam_dict_off [] xs Hr).
      by apply seam_dict_tiles with lo hi. }
  assert (plan_positions r1 = concat (forwarded <$> xs)) as Hp.
  { by apply plan_positions_forwarded with lo hi. }
  rewrite Hp. destruct (concat (forwarded <$> xs)) as [|p ps] eqn:He; [done|].
  eexists. split; [done|]. split_and!; done.
Qed.

(** C15. The prefill plan covers the prompt exactly: for a tiled prompt every
    hit is a non-last, long-enough segment whose cached entry holds exactly
    its tokens; the forwarded positions are strictly increasing and are the
    miss segments plus the seams; reused slots and forwarded positions add up
    to the prompt, so [extend_input_len] is the number of positions. *)
Theorem init_next_round_covers T r s :
  index_ok T s -> kv_aligned s -> seam_sink_ok cfg -> disable cfg = false ->
  tiles 0 (len (origin_input_ids r)) (segs_of r) -> segs_of r <> [] ->
  output_ids r = [] -> (recompute (policy cfg) = false -> pic_hit_seam_positions r = []) ->
  let xs := enumerate (zip (segs_of r) (matched cfg r s)) in
  wp (init_next_round_input r)
     (fun r' s' => same_but_recency s s' /\
        (forall x, x ∈ xs -> sound_hit r s x) /\
        prefix_indices r' = concat (reused cfg s <$> xs) /\
        exists P, pic_miss_token_positions r' = Some P /\
          P = concat (forwarded <$> xs) /\ StronglySorted Z.lt P /\
          extend_input_len r' = len P /\
          len (prefix_indices r') + len P = len (origin_input_ids r))
     (fun _ _ => False) s.
Proof.
  intros Hok Hal Hk Hd Ht Hne Ho Hh xs. unfold init_next_round_input. rewrite Ho, app_nil_r.
  apply wp_bind. eapply wp_mono; [by apply match_prefix_spec| |done].
  intros res s' [-> Hs]. cbn [fst snd from_option id]. apply wp_bind, wp_get, wp_bind.
  assert (concat (reused cfg s <$> xs) = concat (reused cfg s' <$> xs)) as Hre.
  { f_equal. apply list_fmap_ext. intros. symmetry. by apply reused_recency. }
  fold xs. rewrite Hre.
  destruct (apply_match_plan r s' (matched cfg r s) 0 _ Ht Hh Hne) as (r' & Ha & Hp & Hm & _).
  { by eapply forwarded_nonempty. }
  fold xs in Ha, Hp, Hm. unfold of_outcome, wp at 1. rewrite Ha. apply wp_ret.
  assert (len (concat (reused cfg s <$> xs)) + len (concat (forwarded <$> xs))
          = len (origin_input_ids r)) as Htot.
  { etrans; [apply (tiles_total _ _ _ _ 0 0 (len (origin_input_ids r))); [done| |]|lia].
    - apply length_matched.
    - intros x Hx. by eapply (reused_forwarded_len T r s x 0). }
  split; [done|]. split; [intros x; by apply matched_sound with T|].
  cbn [prefix_indices set_extend_input_len pic_miss_token_positions extend_input_len].
  rewrite Hp, Hm. rewrite <- Hre in *. split; [done|]. eexists. split; [done|]. split; [done|].
  split; [by eapply (forwarded_sorted _ _ 0)|]. split; [lia|done].
Qed.

End next_round.

(** Three cached tokens in the middle of a three-segment prompt. *)
Definition next_round_demo : demo_engine := demo_cache [7; 8; 9] demo0.
Definition next_round_req : Req :=
  demo_req [5; 6; 7; 8; 9; 4] [(0, 2); (2, 5); (5, 6)].

Lemma seam_sink_default_ok mode n : seam_sink_ok (demo_cfg mode n).
Proof. intros _ k. cbn. eexists. apply resolve_seam_sink_default. Qed.

Lemma init_next_round_covers_witness :
  let cfg := demo_cfg "transition_rope_recompute" (-1) in
  exists r' s', init_next_round_input cfg demo_clock next_round_req next_round_demo = (Ret r', s') /\
    pic_miss_token_positions r' = Some [0; 1; 2; 3; 5] /\ extend_input_len r' = 5 /\
    len (prefix_indices r') = 1.
Proof.
  intros cfg.
  assert (wp (init_next_round_input cfg demo_clock next_round_req)
    (fun r' _ => pic_miss_token_positions r' = Some [0; 1; 2; 3; 5] /\ extend_input_len r' = 5
       /\ len (prefix_indices r') = 1)
    (fun _ _ => False) next_round_demo) as Hw.
  { eapply wp_mono; [eapply (init_next_round_covers cfg demo_clock [[7; 8; 9]])| |done].
    - eval_decide.
    - eval_decide.
    - apply seam_sink_default_ok.
    - reflexivity.
    - vm_compute. done.
    - done.
    - done.
    - done.
    - intros r' s' (_ & _ & Hpre & P & HP & HPe & _ & He & _).
      assert (P = [0; 1; 2; 3; 5]) as -> by (rewrite HPe; vm_compute; reflexivity).
      rewrite He, Hpre. split; [done|]. split; vm_compute; reflexivity. }
  unfold wp in Hw. destruct (init_next_round_input _ _ _ _) as [[r'|] s']; [|done].
  by exists r', s'.
Defined.
