(* ===== verification/PICacheEvict.v ===== *)
(** * Eviction

    [PICache.evict] removes a prefix of the unlocked entries in
    least-recently-used order, returns exactly their slots to the pools and
    stops as soon as both needs are met. *)

From stdpp Require Import strings.
From S2P Require Import Prelude PyDict Allocator Policy Segmenter Engine ReqPool PICache.
From S2P Require Import PICacheFacts TokenAllocator MambaAllocator Scenario.

Lemma dict_pop_filter {K V} `{EqDecision K} (k : K) (d : list (K * V)) :
  dict_wf d -> dict_pop k d = filter (fun p => p.1 <> k) d.
Proof.
  unfold dict_wf. induction d as [|[k' v] d IH]; [done|].
  rewrite fmap_cons. intros [Hk Hn]%NoDup_cons. cbn [dict_pop fst] in *.
  case_decide; subst.
  - rewrite filter_cons_False by (cbn; auto). symmetry.
    apply filter_all. intros [k1 v1] Hin. cbn. intros ->.
    apply Hk. apply list_elem_of_fmap. by exists (k, v1).
  - rewrite filter_cons_True by done. by rewrite IH.
Qed.

Section evict.
Context {KV MB : Type} `{Allocator KV} `{Allocator MB}.
Implicit Types s : Engine KV MB.

(** What an eviction leaves alone. *)
Record evict_frame s s' : Prop := {
  ef_pool : pool s' = pool s;
  ef_heap : heap s' = heap s;
  ef_tokens : inflight_full_tokens s' = inflight_full_tokens s;
  ef_slots : inflight_mamba_slots s' = inflight_mamba_slots s;
  ef_clock : clock_reads s' = clock_reads s;
}.

#[global] Instance evict_frame_trans : PreOrder evict_frame.
Proof. split; [by intros s|]. intros s1 s2 s3 [] []. split; congruence. Qed.

Lemma evict_frame_deref s s' i : evict_frame s s' -> deref s' i = deref s i.
Proof. intros Hf. unfold deref. by rewrite (ef_heap _ _ Hf). Qed.

(** The state after evicting the objects [ev]. *)
Definition evict_one (i : nat) s : Engine KV MB :=
  set_entries (dict_pop (seg_hash (deref s i)) (entries s))
    (set_mamba (free [mamba_state_slot (deref s i)] (mamba s))
       (set_kv (free (full_kv_slots (deref s i)) (kv s)) s)).

Lemma evict_one_frame i s : evict_frame s (evict_one i s).
Proof. by split. Qed.

Lemma evict_one_wf i s : index_wf s -> index_wf (evict_one i s).
Proof. intros Hw. exact (index_wf_pop s _ Hw). Qed.

Lemma evict_one_entries i s :
  index_wf s -> i ∈ (entries s).*2 ->
  entries (evict_one i s) = filter (fun p => p.2 ∉ [i]) (entries s).
Proof.
  intros Hw Hi. apply list_elem_of_fmap in Hi as ([h j] & -> & Hin). cbn.
  destruct (proj2 Hw _ _ Hin) as [_ ->]. rewrite dict_pop_filter by apply Hw.
  apply filter_ext_in. intros [h' i'] Hp. cbn.
  rewrite list_elem_of_singleton. split; intros Hne Heq; apply Hne; subst.
  - by eapply index_wf_ids.
  - apply dict_elem_get in Hin, Hp; [|apply Hw..]. congruence.
Qed.

Lemma evict_one_conserves i s :
  index_wf s -> i ∈ (entries s).*2 ->
  pool_slots (kv (evict_one i s)) ++ entries_kv (evict_one i s)
    ≡ₚ pool_slots (kv s) ++ entries_kv s /\
  pool_slots (mamba (evict_one i s)) ++ entries_mamba (evict_one i s)
    ≡ₚ pool_slots (mamba s) ++ entries_mamba s.
Proof.
  intros Hw Hi. apply list_elem_of_fmap in Hi as ([h j] & -> & Hin). cbn [snd].
  pose proof (entries_kv_pop s h j Hw Hin) as Hk.
  pose proof (entries_mamba_pop s h j Hw Hin) as Hm.
  destruct (proj2 Hw _ _ Hin) as [_ Hh]. unfold evict_one. rewrite Hh.
  split; cbn [kv mamba set_entries set_mamba set_kv].
  - rewrite free_conserves, Hk. change (entries_kv (set_entries _ _)) with
      (entries_kv (set_entries (dict_pop h (entries s)) s)). solve_Permutation.
  - rewrite free_conserves, Hm. change (entries_mamba (set_entries _ _)) with
      (entries_mamba (set_entries (dict_pop h (entries s)) s)). solve_Permutation.
Qed.

Definition evicted_tokens s (ev : list nat) : Z :=
  zsum ((fun i => len (full_kv_slots (deref s i))) <$> ev).

Lemma evicted_tokens_cons s i ev :
  evicted_tokens s (i :: ev) = len (full_kv_slots (deref s i)) + evicted_tokens s ev.
Proof. done. Qed.

(** Once both needs are met the remaining candidates are skipped. *)
Lemma evict_met nt nm et em s cs :
  nt <= et -> nm <= em ->
  foldl (evict_step nt nm) ((et, em), s) cs = ((et, em), s).
Proof.
  intros Ht Hm. induction cs as [|c cs IH]; [done|]. cbn [foldl].
  unfold evict_step at 2.
  by rewrite (proj2 (Z.leb_le nt et)), (proj2 (Z.leb_le nm em)) by done.
Qed.

(** The relation between the states before and after evicting [ev]. *)
Record evicted (ev : list nat) s s' : Prop := {
  ev_frame : evict_frame s s';
  ev_wf : index_wf s';
  ev_entries : entries s' = filter (fun p => p.2 ∉ ev) (entries s);
  ev_kv : pool_slots (kv s') ++ entries_kv s' ≡ₚ pool_slots (kv s) ++ entries_kv s;
  ev_mamba : pool_slots (mamba s') ++ entries_mamba s' ≡ₚ
             pool_slots (mamba s) ++ entries_mamba s;
  ev_available : alloc_ready (kv s) -> alloc_ready (kv s') /\
    available_size (kv s') = available_size (kv s) + evicted_tokens s ev;
  ev_mamba_available : alloc_ready (mamba s) -> alloc_ready (mamba s') /\
    available_size (mamba s') = available_size (mamba s) + len ev;
}.

Lemma evicted_nil s : index_wf s -> evicted [] s s.
Proof.
  intros Hw. split; try done.
  - symmetry. apply filter_all. intros p _. apply not_elem_of_nil.
  - intros. split; [done|]. unfold evicted_tokens. cbn. lia.
  - intros. split; [done|]. rewrite len_nil. lia.
Qed.

Lemma evicted_cons i ev s s' :
  index_wf s -> i ∈ (entries s).*2 -> evicted ev (evict_one i s) s' -> evicted (i :: ev) s s'.
Proof.
  intros Hw Hi [Hf Hw' He Hk Hm Ha Hma].
  destruct (evict_one_conserves i s Hw Hi) as [Hk1 Hm1]. split; try done.
  - etrans; [apply evict_one_frame|done].
  - rewrite He, evict_one_entries, list_filter_filter by done.
    apply list_filter_iff. intros p. rewrite list_elem_of_singleton, elem_of_cons. tauto.
  - by rewrite Hk, Hk1.
  - by rewrite Hm, Hm1.
  - intros Hr. destruct Ha as [Hr' Ha].
    { cbn. by apply (free_ready (A := KV)). }
    split; [done|]. rewrite Ha. cbn [kv evict_one set_entries set_mamba set_kv].
    rewrite free_available, evicted_tokens_cons by done.
    change (evicted_tokens (evict_one i s) ev) with (evicted_tokens s ev). lia.
  - intros Hr. destruct Hma as [Hr' Ha'].
    { cbn. by apply (free_ready (A := MB)). }
    split; [done|]. rewrite Ha'. cbn [mamba evict_one set_entries set_mamba set_kv].
    rewrite free_available, !len_cons by done. rewrite len_nil. lia.
Qed.

Lemma evict_loop nt nm cs : forall et em s,
  index_wf s -> NoDup cs -> (forall i, i ∈ cs -> i ∈ (entries s).*2) ->
  exists ev rest s', cs = ev ++ rest /\
    foldl (evict_step nt nm) ((et, em), s) cs =
      ((et + evicted_tokens s ev, em + len ev), s') /\
    evicted ev s s' /\
    ((nt <= et + evicted_tokens s ev /\ nm <= em + len ev) \/ rest = []).
Proof.
  induction cs as [|c cs IH]; intros et em s Hw Hn Hin.
  { exists [], [], s. unfold evicted_tokens. cbn. rewrite !Z.add_0_r.
    split; [done|]. split; [done|]. split; [by apply evicted_nil|by right]. }
  destruct ((nt <=? et) && (nm <=? em)) eqn:Hg.
  { breflect. exists [], (c :: cs), s. rewrite evict_met by done.
    unfold evicted_tokens. cbn. rewrite !Z.add_0_r.
    split; [done|]. split; [done|]. split; [by apply evicted_nil|by left]. }
  apply NoDup_cons in Hn as [Hc Hn].
  assert (c ∈ (entries s).*2) as Hcs by (apply Hin; left).
  destruct (IH (et + len (full_kv_slots (deref s c))) (em + 1) (evict_one c s))
    as (ev & rest & s' & -> & Hfold & Hev & Hend).
  - by apply evict_one_wf.
  - done.
  - intros i Hi. rewrite evict_one_entries by done.
    specialize (Hin i (list_elem_of_further _ _ _ Hi)).
    apply list_elem_of_fmap in Hin as (p & -> & Hp). apply list_elem_of_fmap.
    exists p. split; [done|]. apply list_elem_of_filter. split; [|done].
    rewrite list_elem_of_singleton. intros Heq. by rewrite Heq in Hi.
  - exists (c :: ev), rest, s'. split; [done|].
    assert (et + evicted_tokens s (c :: ev) =
            et + len (full_kv_slots (deref s c)) + evicted_tokens (evict_one c s) ev) as ->.
    { rewrite evicted_tokens_cons.
      change (evicted_tokens (evict_one c s) ev) with (evicted_tokens s ev). lia. }
    replace (em + len (c :: ev)) with (em + 1 + len ev) by (rewrite len_cons; lia).
    split; [|split; [by apply evicted_cons|done]].
    rewrite <- Hfold. cbn [foldl app]. f_equal. unfold evict_step at 1. by rewrite Hg.
Qed.

Lemma evict_candidates_perm s :
  evict_candidates s ≡ₚ filter (fun i => lock_ref (deref s i) = 0) (entries s).*2.
Proof. apply sort_key_perm. Qed.

Lemma index_wf_objects s : index_wf s -> NoDup (entries s).*2.
Proof.
  intros [Hd Hw]. unfold dict_wf in Hd. revert Hd Hw.
  generalize (entries s). intros d. induction d as [|[h i] d IH]; [constructor|].
  rewrite !fmap_cons. intros [Hh Hd]%NoDup_cons Hw. cbn [fst snd] in *. constructor.
  - intros Hi. apply list_elem_of_fmap in Hi as ([h' i'] & -> & Hin). cbn in *.
    apply Hh. destruct (Hw h i' ltac:(left)) as [_ <-].
    destruct (Hw h' i' ltac:(by right)) as [_ ->].
    apply list_elem_of_fmap. by exists (h', i').
  - apply IH; [done|]. intros; apply Hw; by right.
Qed.

(** The full description of an eviction. *)
Lemma evict_spec nt nm s :
  index_wf s ->
  exists ev rest s', evict nt nm s = (mkEvict (evicted_tokens s ev) (len ev), s') /\
    evicted ev s s' /\
    (ev ++ rest = evict_candidates s \/ ev = [] /\ nt <= 0 /\ nm <= 0) /\
    ((nt <= evicted_tokens s ev /\ nm <= len ev) \/ rest = []).
Proof.
  intros Hw. unfold evict. destruct ((nt <=? 0) && (nm <=? 0)) eqn:Hg.
  { breflect. exists [], [], s. split; [done|]. split; [by apply evicted_nil|].
    split; [by right|]. left. by split. }
  destruct (evict_loop nt nm (evict_candidates s) 0 0 s Hw)
    as (ev & rest & s' & Hc & Hf & Hev & Hend).
  - rewrite evict_candidates_perm. apply NoDup_filter. by apply index_wf_objects.
  - intros i. rewrite evict_candidates_perm, list_elem_of_filter. tauto.
  - exists ev, rest, s'. rewrite Hf. rewrite !Z.add_0_l in *.
    split; [done|]. split; [done|]. split; [by left|done].
Qed.

Lemma candidates_evictable s : evicted_tokens s (evict_candidates s) = evictable_size s.
Proof.
  unfold evicted_tokens. rewrite (zsum_perm _ _ (fmap_Permutation _ _ _ (evict_candidates_perm s))).
  unfold evictable_size, cached_entries, entry_of. f_equal.
  induction (entries s) as [|[h i] d IH]; [done|].
  rewrite !fmap_cons, !filter_cons. cbn [snd].
  case_decide; [rewrite !fmap_cons; by f_equal|done].
Qed.

Lemma evicted_tokens_app s l k : evicted_tokens s (l ++ k) = evicted_tokens s l + evicted_tokens s k.
Proof. unfold evicted_tokens. by rewrite fmap_app, zsum_app. Qed.

Lemma evicted_tokens_nonneg s l : 0 <= evicted_tokens s l.
Proof.
  induction l as [|i l IH]; [done|]. rewrite evicted_tokens_cons.
  pose proof (len_nonneg (full_kv_slots (deref s i))). lia.
Qed.

(** Evicting frees what is asked for whenever that much is evictable. *)
Lemma evict_enough nt nm s :
  index_wf s -> nt <= evictable_size s -> nm <= 0 ->
  nt <= num_tokens_evicted (evict nt nm s).1.
Proof.
  intros Hw Hn Hm. destruct (evict_spec nt nm s Hw) as (ev & rest & s' & -> & _ & Hc & He).
  cbn [fst num_tokens_evicted]. destruct He as [[? _]| ->]; [done|].
  destruct Hc as [Hc|(-> & ? & _)]; [|unfold evicted_tokens; cbn; lia].
  rewrite app_nil_r in Hc. by rewrite Hc, candidates_evictable.
Qed.

(** Mamba slots that can still be handed out: free or evictable. *)
Definition mcap s : Z := available_size (mamba s) + mamba_evictable_size s.

Lemma mamba_evictable_candidates s : mamba_evictable_size s = len (evict_candidates s).
Proof.
  rewrite (len_perm _ _ (evict_candidates_perm s)).
  unfold mamba_evictable_size, cached_entries, entry_of.
  induction (entries s) as [|[h i] d IH]; [done|].
  rewrite !fmap_cons, !filter_cons. cbn [snd].
  case_decide; [rewrite !len_cons; by rewrite IH|done].
Qed.

Lemma evicted_evictable ev rest s s' :
  index_wf s -> evicted ev s s' -> ev ++ rest = evict_candidates s ->
  mamba_evictable_size s' = mamba_evictable_size s - len ev.
Proof.
  intros Hw Hev Hc. rewrite !mamba_evictable_candidates, <- Hc, len_app.
  assert (evict_candidates s' ≡ₚ rest) as Hp; [|rewrite (len_perm _ _ Hp); lia].
  assert (NoDup (ev ++ rest)) as Hnd.
  { rewrite Hc, evict_candidates_perm. apply NoDup_filter. by apply index_wf_objects. }
  rewrite evict_candidates_perm.
  rewrite (filter_ext_in _ (fun i => lock_ref (deref s i) = 0)).
  2:{ intros i _. by rewrite (evict_frame_deref _ _ i (ev_frame _ _ _ Hev)). }
  assert ((entries s').*2 = filter (fun i => i ∉ ev) (entries s).*2) as ->.
  { rewrite (ev_entries _ _ _ Hev). clear. induction (entries s) as [|p d IH]; [done|].
    rewrite fmap_cons, !filter_cons. case_decide; [by rewrite fmap_cons, IH|done]. }
  rewrite filter_comm, <- evict_candidates_perm, <- Hc, filter_app.
  apply NoDup_app in Hnd as (_ & Hd & _).
  rewrite filter_none by (intros x Hx Hn; by apply Hn).
  rewrite filter_all; [done|]. intros x Hx Hin. by apply (Hd x).
Qed.


End evict.

