(* ===== verification/CacheCommon.v ===== *)
(** * Allocation and release shared by the schedulers (srt/mem_cache/common.py)

    Page arithmetic, allocation with eviction on demand, request-row
    allocation, the decode allocation and the release path, over the engine
    whose prefix cache is the position-independent cache (page size 1, no
    sliding-window allocator). *)

From stdpp Require Import strings.
From S2P Require Import Prelude PyDict Allocator Policy Segmenter Engine ReqPool PICache.
From S2P Require Import PICacheFacts PICacheEvict TokenAllocator MambaAllocator Scenario.

(** ** Page arithmetic *)

(** [l[::k]]. *)
Fixpoint every_go {A} (k skip : nat) (l : list A) : list A :=
  match l with
  | [] => []
  | x :: l' => match skip with
               | O => x :: every_go k (k - 1) l'
               | S skip' => every_go k skip' l'
               end
  end.
Definition every {A} (k : Z) (l : list A) : list A := every_go (Z.to_nat k) 0 l.

Definition kv_to_page_indices (kv_indices : list Z) (page_size : Z) : list Z :=
  if page_size =? 1 then kv_indices
  else (fun i => i / page_size) <$> every page_size kv_indices.

Definition kv_to_page_num (num_kv_indices page_size : Z) : Z :=
  (num_kv_indices + page_size - 1) / page_size.

Definition page_align_floor (length page_size : Z) : Z := (length / page_size) * page_size.

Definition ceil_align (x y : Z) : Z := ((x + y - 1) / y) * y.

(** The server arguments the reservations depend on; [has_draft_kv] is the
    algorithm's own flag. *)
Record SpecArgs := mkSpecArgs {
  speculative_algorithm : option bool;
  speculative_num_steps : option Z;
  speculative_eagle_topk : option Z;
  max_speculative_num_draft_tokens : option Z;
  page_size_arg : Z;
}.

(** Python's [x or d] on an optional integer. *)
Definition py_or (o : option Z) (d : Z) : Z :=
  match o with Some x => if x =? 0 then d else x | None => d end.

Definition get_alloc_len_per_decode (a : SpecArgs) : outcome Z :=
  match speculative_algorithm a with
  | None => Ret 1
  | Some has_draft_kv =>
      let spec_steps := py_or (speculative_num_steps a) 1 in
      let spec_topk := py_or (speculative_eagle_topk a) 1 in
      (* max with None raises *)
      match max_speculative_num_draft_tokens a with
      | None => Raise TypeError
      | Some spec_tokens =>
          let p := page_size_arg a in
          if (p =? 1) || (spec_topk =? 1) || negb has_draft_kv
          then Ret (Z.max (spec_steps * spec_topk) spec_tokens)
          else
            let num_new_pages_per_topk := ((p - 1) + spec_steps + p - 1) / p in
            Ret (Z.max (num_new_pages_per_topk * p * spec_topk) spec_tokens)
      end
  end.

Definition get_alloc_reserve_per_decode (a : SpecArgs) : outcome Z :=
  match get_alloc_len_per_decode a with Ret n => Ret (2 * n) | Raise e => Raise e end.

Definition get_req_to_token_extra_context_len (a : SpecArgs) : outcome Z :=
  let extra := 4 + py_or (max_speculative_num_draft_tokens a) 0 in
  if bool_decide (is_Some (speculative_algorithm a)) && (1 <? page_size_arg a)
     && (1 <? py_or (speculative_eagle_topk a) 1)
  then match get_alloc_reserve_per_decode a with
       | Ret n => Ret (Z.max extra n)
       | Raise e => Raise e
       end
  else Ret extra.

(** ** Slots *)

Definition MAMBA_STATE_PER_REQ_PREFIX_CACHE : Z := 3.
Definition MAMBA_STATE_PER_REQ_PREFIX_CACHE_LAZY : Z := 2.

(** The arguments [release_kv_cache] reads besides the request. *)
Record ReleaseArgs := mkRelease {
  ra_page_size : Z;
  ra_spec_algo : bool;
  ra_strip_thinking_cache : bool;
  ra_reasoning_tokens : Z;
  ra_skip_radix_cache_insert : bool;
  ra_overallocated_freed : bool;
}.

Section common.
Context {KV MB : Type} `{AllocatorOps KV} `{AllocatorOps MB}.
Variable cfg : PICConfig.
Variable monotonic : nat -> Z.

#[local] Abbreviation E := (Engine KV MB).

Definition kv_alloc_m (n : Z) : M E (option (list Z)) := fun s =>
  let '(o, a) := alloc n (kv s) in (Ret o, set_kv a s).

(** Standard allocator branch (PIC runs without a sliding window). *)
Definition evict_from_tree_cache (num_tokens : Z) : M E unit :=
  s ← get;
  if available_size (kv s) <? num_tokens
  then _ ← lift (evict num_tokens 0); mret tt
  else mret tt.

Definition alloc_token_slots (num_tokens : Z) : M E (list Z) :=
  evict_from_tree_cache num_tokens;;
  o ← kv_alloc_m num_tokens;
  of_option RuntimeError o.

Definition alloc_req_slots (reqs : list Req) : M E (list Z * list Req) :=
  s ← get;
  let mamba_available_size := available_size (mamba s) in
  let factor := if enable_mamba_extra_buffer_lazy (pool s)
                then MAMBA_STATE_PER_REQ_PREFIX_CACHE_LAZY
                else MAMBA_STATE_PER_REQ_PREFIX_CACHE in
  let mamba_state_needed := len reqs * factor in
  (if mamba_available_size <? mamba_state_needed
   then _ ← lift (evict 0 (Z.max 0 (mamba_state_needed - mamba_available_size))); mret tt
   else mret tt);;
  res ← hybrid_alloc reqs;
  idx ← of_option RuntimeError res.1;
  mret (idx, res.2).

(** [req_to_token[req_pool_indices, locs] = values] (one value per row). *)
Fixpoint write_at (idx locs vals : list Z) : M ReqToTokenPool unit :=
  match idx, locs, vals with
  | i :: idx', l :: locs', v :: vals' =>
      pool_write i l (l + 1) [v];; write_at idx' locs' vals'
  | _, _, _ => mret tt
  end.

(** [alloc_for_decode] with page size 1 for a decoder-only model. *)
Definition alloc_for_decode (req_pool_indices seq_lens : list Z) (token_per_req : Z)
    : M E (list Z) :=
  let bs := len seq_lens in
  out_cache_loc ← alloc_token_slots (bs * token_per_req);
  (* the indexed assignment needs one value per row *)
  (if len out_cache_loc =? bs
   then on_pool (write_at req_pool_indices seq_lens out_cache_loc)
   else raise RuntimeError);;
  mret out_cache_loc.

(** The CPU loop of [write_cache_indices]. *)
Fixpoint write_cache_indices (out_cache_loc : list Z)
    (rows : list (Z * (Z * (Z * (Z * list Z))))) (pt : Z) : M ReqToTokenPool unit :=
  match rows with
  | [] => mret tt
  | (req_idx, (prefix_len, (seq_len, (extend_len, prefix)))) :: rows' =>
      pool_write req_idx 0 prefix_len prefix;;
      pool_write req_idx prefix_len seq_len (pyslice out_cache_loc pt (pt + extend_len));;
      write_cache_indices out_cache_loc rows' (pt + extend_len)
  end.

Definition get_last_loc_torch (p : ReqToTokenPool) (idx prefix_lens : list Z) : list Z :=
  zip_with (fun i n => if 0 <? n then default 0 (pool_read i (n - 1) n p !! 0%nat) else -1)
    idx prefix_lens.

Definition maybe_cache_unfinished_req (skip_radix_cache_insert : bool) (r : Req) : M E Req :=
  if skip_radix_cache_insert then mret r else cache_unfinished_req cfg monotonic r.

(** [Req._cache_commit_len]. *)
Definition cache_commit_len (a : ReleaseArgs) (r : Req) : Z :=
  if ra_strip_thinking_cache a && (0 <? ra_reasoning_tokens a)
  then Z.min (kv_committed_len r) (len (origin_input_ids r)) else kv_committed_len r.

Definition release_kv_cache (a : ReleaseArgs) (r : Req) (is_insert : bool) : M E Req :=
  match req_pool_idx r with
  | None =>
      match mamba_pool_idx r with
      | Some i => mamba_free_m [i];; mret (set_mamba_pool_idx None r)
      | None => mret r
      end
  | Some _ =>
      r ← cache_finished_req cfg monotonic r (is_insert && negb (ra_skip_radix_cache_insert a));
      match req_pool_idx r with
      | None => mret r
      | Some idx =>
          assert_ (negb (ra_overallocated_freed a));;
          let start_p := cache_commit_len a r in
          let end_p := kv_allocated_len r in
          (if negb (ra_spec_algo a) && negb (ra_strip_thinking_cache a)
           then assert_ (start_p =? end_p) else mret tt);;
          let start_p := if 1 <? ra_page_size a then ceil_align start_p (ra_page_size a)
                         else start_p in
          (if start_p <? end_p then
             p ← gets pool; kv_free_m (pool_read idx start_p end_p p)
           else mret tt);;
          on_pool (pool_free r)
      end
  end.

End common.

(** ** Page arithmetic facts *)

(** Page arithmetic is sound for every positive page size: the page
    count covers the tokens with less than one page of slack, the floor is
    the largest aligned length not above, the ceiling the smallest not
    below, and both fix aligned lengths. *)
Theorem page_arithmetic n p :
  0 < p -> 0 <= n ->
  n <= kv_to_page_num n p * p < n + p /\
  page_align_floor n p <= n < page_align_floor n p + p /\
  n <= ceil_align n p < n + p /\
  (n mod p = 0 -> page_align_floor n p = n /\ ceil_align n p = n).
Proof.
  intros Hp Hn. unfold kv_to_page_num, page_align_floor, ceil_align.
  pose proof (Z.div_mod (n + p - 1) p ltac:(lia)).
  pose proof (Z.mod_pos_bound (n + p - 1) p Hp).
  pose proof (Z.div_mod n p ltac:(lia)). pose proof (Z.mod_pos_bound n p Hp).
  split_and!; try nia. intros Hm. split; [nia|].
  assert (n = p * (n / p)) as Hd by nia.
  assert ((n + p - 1) / p = n / p) as ->; [|nia].
  symmetry. apply (Z.div_unique _ _ _ (p - 1)); [lia|nia].
Qed.

Lemma page_arithmetic_witness : 100 <= kv_to_page_num 100 16 * 16 < 116.
Proof. apply (page_arithmetic 100 16); lia. Defined.

Section facts.
Context {KV MB : Type} `{Allocator KV} `{Allocator MB}.
Implicit Types s : Engine KV MB.

Definition capacity s : Z := available_size (kv s) + evictable_size s.

(** What [evict_from_tree_cache] leaves. *)
Lemma evict_from_tree_cache_spec n s :
  index_wf s -> alloc_ready (kv s) ->
  wp (evict_from_tree_cache n)
     (fun _ s' => index_wf s' /\ alloc_ready (kv s') /\ evict_frame s s' /\
        (forall p, p ∈ entries s -> lock_ref (deref s p.2) <> 0 -> p ∈ entries s') /\
        pool_slots (kv s') ++ entries_kv s' ≡ₚ pool_slots (kv s) ++ entries_kv s /\
        pool_slots (mamba s') ++ entries_mamba s' ≡ₚ pool_slots (mamba s) ++ entries_mamba s /\
        Z.min n (capacity s) <= available_size (kv s') <= capacity s /\
        (alloc_ready (mamba s) -> alloc_ready (mamba s') /\ mcap s' = mcap s))
     (fun _ _ => False) s.
Proof.
  intros Hw Hr. unfold evict_from_tree_cache. apply wp_bind, wp_get.
  pose proof (available_bound (kv s)) as Hav. unfold capacity.
  pose proof (evicted_tokens_nonneg s (evict_candidates s)) as Hge.
  rewrite candidates_evictable in Hge.
  case_if; breflect; cycle 1.
  { apply wp_ret. split_and!; try done; lia. }
  apply wp_bind, wp_lift.
  destruct (evict_spec n 0 s Hw) as (ev & rest & s' & -> & Hev & Hc & Hend). cbn [fst snd].
  apply wp_ret. pose proof (fun rest => evicted_evictable ev rest s s' Hw Hev) as Hme.
  destruct Hev as [Hf Hw' He Hk Hm Ha Hma]. destruct (Ha Hr) as [Hr' Hav'].
  pose proof (evicted_tokens_nonneg s rest) as Hrest.
  assert (evicted_tokens s ev + evicted_tokens s rest = evictable_size s \/ n <= 0) as Hsum.
  { destruct Hc as [Hc|(-> & ? & _)]; [|by right]. left.
    by rewrite <- evicted_tokens_app, Hc, candidates_evictable. }
  split_and!; try done.
  - intros p Hp Hl. rewrite He. apply list_elem_of_filter. split; [|done]. intros Hin.
    assert (p.2 ∈ evict_candidates s) as Hcand.
    { destruct Hc as [<-|(-> & _)]; set_solver. }
    rewrite evict_candidates_perm in Hcand. by apply list_elem_of_filter in Hcand as [].
  - rewrite Hav'. destruct Hend as [[? _]| ->]; [lia|].
    destruct Hsum as [Hs|?]; [unfold evicted_tokens at 2 in Hs; cbn in Hs|]; lia.
  - rewrite Hav'. destruct Hsum as [Hs|Hn]; [lia|].
    destruct Hc as [Hc|(-> & _)]; [|unfold evicted_tokens; cbn; lia].
    pose proof (evicted_tokens_app s ev rest) as Happ.
    rewrite Hc, candidates_evictable in Happ. lia.
  - intros Hrm. destruct (Hma Hrm) as [Hrm' Hmav]. split; [done|]. unfold mcap. rewrite Hmav.
    destruct Hc as [Hc|(-> & _)]; [rewrite (Hme _ Hc); lia|].
    rewrite (Hme (evict_candidates s)) by done. lia.
Qed.

Lemma alloc_token_slots_wp n s :
  0 <= n -> index_wf s -> alloc_ready (kv s) ->
  let after (x : list Z) s' := index_wf s' /\ alloc_ready (kv s') /\
        evict_frame s s' /\ (alloc_ready (mamba s) -> alloc_ready (mamba s') /\ mcap s' = mcap s) /\
        x ++ pool_slots (kv s') ++ entries_kv s' ≡ₚ pool_slots (kv s) ++ entries_kv s /\
        pool_slots (mamba s') ++ entries_mamba s' ≡ₚ pool_slots (mamba s) ++ entries_mamba s /\
        forall p, p ∈ entries s -> lock_ref (deref s p.2) <> 0 -> p ∈ entries s' in
  wp (alloc_token_slots n)
     (fun x s' => n <= capacity s /\ len x = n /\ after x s')
     (fun e s' => e = RuntimeError /\ capacity s < n /\ after [] s') s.
Proof.
  intros Hn Hw Hr. unfold alloc_token_slots. apply wp_bind.
  eapply wp_mono; [by apply evict_from_tree_cache_spec| |done].
  intros [] s1 (Hw1 & Hr1 & Hf & Hl & Hk & Hm & Hcap & Hmc).
  apply wp_bind. unfold kv_alloc_m, wp at 1.
  destruct (alloc n (kv s1)) as [o a] eqn:Ha.
  pose proof (alloc_conserves _ _ _ _ Hn Ha) as Hc.
  change (entries_kv s1) with (entries_kv (set_kv a s1)) in Hk.
  change (entries_mamba s1) with (entries_mamba (set_kv a s1)) in Hm.
  destruct o as [x|]; cbn [default from_option id] in Hc.
  - apply wp_ret. pose proof (alloc_len _ _ _ _ Hn Ha) as Hx.
    assert (n <= capacity s) as Hle.
    { destruct (Z.le_gt_cases n (capacity s)) as [?|Hgt]; [done|].
      (* more than the capacity cannot be handed out *)
      exfalso. eapply (alloc_exhausted n (kv s1)); [done|done|lia|exact Ha]. }
    split_and!; try done.
    + cbn [kv set_kv]. by eapply alloc_ready_preserved.
    + by destruct Hf.
    + rewrite <- Hk, Hc. cbn [kv set_kv]. solve_Permutation.
  - apply wp_raise. split; [done|]. split.
    + destruct (Z.le_gt_cases n (capacity s)) as [Hle|?]; [|done].
      destruct (alloc_enough n (kv s1) Hr1) as (x & a' & Hs); [lia|congruence].
    + split_and!; try done.
      * cbn [kv set_kv]. by eapply alloc_ready_preserved.
      * by destruct Hf.
      * rewrite <- Hk, Hc. cbn [kv set_kv]. done.
Qed.

(** C19. Allocation evicts just enough to succeed: [alloc_token_slots]
    returns exactly [n] fresh slots whenever the free and the evictable slots
    together suffice, and otherwise raises RuntimeError; either way no slot
    is lost or duplicated and no locked entry leaves the cache. *)
Theorem alloc_token_slots_spec n s :
  0 <= n -> index_wf s -> alloc_ready (kv s) ->
  wp (alloc_token_slots n)
     (fun x s' => n <= capacity s /\ len x = n /\ index_wf s' /\
        x ++ pool_slots (kv s') ++ entries_kv s' ≡ₚ pool_slots (kv s) ++ entries_kv s /\
        pool_slots (mamba s') ++ entries_mamba s' ≡ₚ pool_slots (mamba s) ++ entries_mamba s /\
        forall p, p ∈ entries s -> lock_ref (deref s p.2) <> 0 -> p ∈ entries s')
     (fun e s' => e = RuntimeError /\ capacity s < n /\
        pool_slots (kv s') ++ entries_kv s' ≡ₚ pool_slots (kv s) ++ entries_kv s /\
        forall p, p ∈ entries s -> lock_ref (deref s p.2) <> 0 -> p ∈ entries s') s.
Proof.
  intros Hn Hw Hr. eapply wp_mono; [by apply alloc_token_slots_wp| |].
  - intros x s' (? & ? & ? & _ & _ & _ & ?). done.
  - intros e s' (? & ? & _ & _ & _ & _ & ? & _ & ?). done.
Qed.

End facts.

(** Thirty-one slots from a pool of 29 free and 3 evictable ones. *)
Definition alloc_demo : demo_engine := demo_cache [3] (demo_cache [1; 2] demo0).

Lemma alloc_token_slots_spec_witness :
  wp (alloc_token_slots 31) (fun x _ => len x = 31) (fun _ _ => False) alloc_demo.
Proof.
  eapply wp_mono; [apply (alloc_token_slots_spec 31 alloc_demo)| |].
  - lia.
  - apply (index_ok_wf [[1; 2]; [3]]). eval_decide.
  - vm_compute. split; [reflexivity|intros _; reflexivity].
  - intros x s' (_ & Hl & _). exact Hl.
  - intros e s' (_ & Hl & _). revert Hl.
    assert (capacity alloc_demo = 32) as -> by (vm_compute; reflexivity). lia.
Defined.
