(* ===== verification/PICacheReg.v ===== *)
(** * Registration of miss segments

    [PICache.cache_unfinished_req] moves the slots of every cacheable miss
    segment from the request to the index, or back to the pools when the
    segment is already cached.  The theorems are about slot ownership: what
    the pools, the index and the request hold, as multisets. *)

From stdpp Require Import strings.
From S2P Require Import Prelude PyDict Allocator Policy Segmenter Engine ReqPool PICache.
From S2P Require Import PICacheFacts TokenAllocator MambaAllocator Scenario.

Section register.
Context {KV MB : Type} `{Allocator KV} `{Allocator MB}.
Context (cfg : PICConfig) (monotonic : nat -> Z).
Implicit Types s : Engine KV MB.

(** ** One segment *)

(** The effect of registering the slots [kvs], [mb] of the tokens [ids]. *)
Record registers (T : list (list Z)) (ids kvs : list Z) (mb : Z) s s' : Prop := {
  rg_ok : index_ok T s';
  rg_kv : pool_slots (kv s') ++ entries_kv s' ≡ₚ (pool_slots (kv s) ++ entries_kv s) ++ kvs;
  rg_mamba : pool_slots (mamba s') ++ entries_mamba s' ≡ₚ
             (pool_slots (mamba s) ++ entries_mamba s) ++ [mb];
  rg_pool : pool s' = pool s;
  rg_tokens : inflight_full_tokens s' = inflight_full_tokens s;
  rg_slots : inflight_mamba_slots s' = inflight_mamba_slots s;
  rg_old h tk i : lookup_segment h tk s = Some i -> lookup_segment h tk s' = Some i;
  rg_new : is_Some (lookup_segment (segment_hash ids) ids s');
}.

Lemma registers_free T ids kvs mb s s' :
  index_ok T s -> is_Some (lookup_segment (segment_hash ids) ids s) ->
  same_but_recency s s' ->
  registers T ids kvs mb s (set_mamba (free [mb] (mamba s')) (set_kv (free kvs (kv s')) s')).
Proof.
  intros Hok Hl Hs. split; try (cbn; destruct Hs; done).
  - by rewrite Hs in Hok.
  - cbn [kv set_mamba set_kv]. rewrite free_conserves.
    change (entries_kv (set_mamba _ _)) with (entries_kv s').
    rewrite <- (entries_kv_proper _ _ Hs), (sbr_kv _ _ Hs). solve_Permutation.
  - cbn [mamba set_mamba set_kv]. rewrite free_conserves.
    change (entries_mamba (set_mamba _ _)) with (entries_mamba s').
    rewrite <- (entries_mamba_proper _ _ Hs), (sbr_mamba _ _ Hs). solve_Permutation.
  - intros h tk i Hi. change (lookup_segment h tk s' = Some i).
    by rewrite <- (lookup_segment_proper h tk _ _ Hs).
  - change (is_Some (lookup_segment (segment_hash ids) ids s')).
    by rewrite <- (lookup_segment_proper _ _ _ _ Hs).
Qed.

Lemma registers_trans_recency T ids kvs mb s s1 s2 :
  same_but_recency s s1 -> registers T ids kvs mb s1 s2 -> registers T ids kvs mb s s2.
Proof.
  intros Hs [Hok Hk Hm Hp Ht Hsl Ho Hn]. destruct Hs as [E1 E2 E3 E4 E5 E6 E7] eqn:Heq.
  split; try congruence; try done.
  - by rewrite Hk, E1, (entries_kv_proper _ _ Hs).
  - by rewrite Hm, E2, (entries_mamba_proper _ _ Hs).
  - intros h tk i Hi. apply Ho. by rewrite <- (lookup_segment_proper h tk _ _ Hs).
Qed.

Lemma lookup_file_old h e h' tk s i :
  index_wf s -> dict_get h (entries s) = None ->
  lookup_segment h' tk s = Some i -> lookup_segment h' tk (file_entry h e s) = Some i.
Proof.
  intros Hw Hg. unfold lookup_segment.
  destruct (dict_get h' (entries s)) as [j|] eqn:Hj; [|done]. cbn [mbind option_bind].
  assert (h <> h') as Hne by congruence. intros Hd.
  replace (dict_get h' (entries (file_entry h e s))) with (Some j).
  2:{ cbn. by rewrite dict_get_set_ne. }
  cbn [mbind option_bind]. rewrite file_entry_old; [done|].
  apply dict_get_elem in Hj. by destruct (proj2 Hw _ _ Hj).
Qed.

Lemma lookup_file_new h e s :
  lookup_segment h (token_ids e) (file_entry h e s) = Some (length (heap s)).
Proof.
  unfold lookup_segment.
  replace (dict_get h (entries (file_entry h e s))) with (Some (length (heap s))).
  2:{ cbn. by rewrite dict_get_set_eq. }
  cbn [mbind option_bind]. by rewrite file_entry_new, bool_decide_true.
Qed.

Lemma registers_file T ids kvs mb t s s' :
  index_ok T s -> ids ∈ T -> dict_get (segment_hash ids) (entries s) = None ->
  same_but_recency
    (file_entry (segment_hash ids) (mkEntry (segment_hash ids) kvs mb ids 0 t t 0 0) s) s' ->
  registers T ids kvs mb s s'.
Proof.
  intros Hok Hin Hg Hs. pose proof (index_ok_wf _ _ Hok) as Hw. split.
  - rewrite <- Hs. apply file_entry_ok; [done|]. by repeat split.
  - rewrite <- (entries_kv_proper _ _ Hs), (sbr_kv _ _ Hs), file_entry_kv by done.
    cbn [kv file_entry set_entries set_heap full_kv_slots]. solve_Permutation.
  - rewrite <- (entries_mamba_proper _ _ Hs), (sbr_mamba _ _ Hs), file_entry_mamba by done.
    cbn [mamba file_entry set_entries set_heap mamba_state_slot]. solve_Permutation.
  - by rewrite (sbr_pool _ _ Hs).
  - by rewrite (sbr_tokens _ _ Hs).
  - by rewrite (sbr_slots _ _ Hs).
  - intros h tk i Hi. rewrite <- (lookup_segment_proper h tk _ _ Hs).
    by apply lookup_file_old.
  - rewrite <- (lookup_segment_proper _ _ _ _ Hs).
    rewrite (lookup_file_new _ (mkEntry (segment_hash ids) kvs mb ids 0 t t 0 0)). by eexists.
Qed.

Lemma lookup_add_lock h tk d i s :
  lookup_segment h tk (update_entry i (add_lock d) s) = lookup_segment h tk s.
Proof.
  unfold lookup_segment. cbn [entries update_entry set_heap].
  destruct (dict_get h (entries s)) as [j|]; [|done]. cbn [mbind option_bind].
  by rewrite (deref_update_field token_ids).
Qed.

Lemma registers_lock T ids kvs mb i s s' :
  registers T ids kvs mb s s' -> registers T ids kvs mb s (update_entry i (add_lock 1) s').
Proof.
  intros [Hok Hk Hm Hp Ht Hsl Ho Hn]. split; try done.
  - apply update_index_ok; [auto with hyx| |done]. intros e ?. cbn. lia.
  - by rewrite update_entries_kv by auto with hyx.
  - by rewrite update_entries_mamba by auto with hyx.
  - intros h tk j ?. rewrite lookup_add_lock. auto.
  - by rewrite lookup_add_lock.
Qed.

(** ** The slots a request hands over *)

Definition public_slots (m : MissSlots) : option (list Z * Z) :=
  match is_rope cfg, m with
  | true, SlotsRope _ (Some pu) (Some mb) => Some (pu, mb)
  | false, SlotsStd kvs (Some mb) => Some (kvs, mb)
  | _, _ => None
  end.

Lemma cacheable_slots_spec m x s :
  public_slots m = Some x -> cacheable_slots cfg m s = (Ret x, s).
Proof.
  unfold public_slots, cacheable_slots, is_rope. intros Hm.
  destruct (rope (policy cfg)), m as [? [|]|? [|] [|]]; simplify_eq; done.
Qed.

(** The handed-over slots of a miss segment, if it is registered at all. *)
Definition handover (r : Req) (seg : Z * Z) : option (list Z * Z) :=
  if skip_unfinished cfg r seg then None
  else dict_get seg (pic_miss_segment_slots r) ≫= public_slots.

Definition handovers (r : Req) (segs : list (Z * Z)) : list (list Z * Z) := omap (handover r) segs.

(** Every registered segment has its slots, and its tokens are in [T]. *)
Definition handover_ok (T : list (list Z)) (r : Req) : Prop :=
  forall seg, seg ∈ pic_miss_segments r -> skip_unfinished cfg r seg = false ->
    is_Some (handover r seg) /\ seg_tokens r seg ∈ T.

(** The request fields registration reads and does not write. *)
Record same_inputs (r r' : Req) : Prop := {
  si_ids : origin_input_ids r' = origin_input_ids r;
  si_segs : pic_segments r' = pic_segments r;
  si_miss : pic_miss_segments r' = pic_miss_segments r;
  si_slots : pic_miss_segment_slots r' = pic_miss_segment_slots r;
  si_single : pic_scatter_single_seg r' = pic_scatter_single_seg r;
  si_row : req_pool_idx r' = req_pool_idx r;
  si_mamba : mamba_pool_idx r' = mamba_pool_idx r;
  si_committed : kv_committed_len r' = kv_committed_len r;
  si_hits : pic_rope_hit_private_slots r' = pic_rope_hit_private_slots r;
}.

#[global] Instance same_inputs_preorder : PreOrder same_inputs.
Proof. split; [by intros r|]. intros r1 r2 r3 [] []. split; congruence. Qed.

Lemma same_inputs_skip r r' seg :
  same_inputs r r' -> skip_unfinished cfg r' seg = skip_unfinished cfg r seg.
Proof.
  intros [_ Hs _ Hm Hi _ _ _ _]. unfold skip_unfinished, global_seg, segs_of.
  by rewrite Hs, Hm, Hi.
Qed.

(** Segments the request has marked as handed over or freed. *)
Definition marked (r : Req) : list (Z * Z) :=
  pic_cache_owned_miss_segments r ++ pic_freed_miss_segments r.

Lemma unfinished_skip r t m seg s :
  skip_unfinished cfg r seg = true ->
  unfinished_step cfg monotonic (r, (t, m)) seg s = (Ret (r, (t, m)), s).
Proof. intros Hs. unfold unfinished_step. by rewrite Hs. Qed.

Lemma unfinished_register T r t m seg kvs mb s :
  no_collision T -> index_ok T s -> seg_tokens r seg ∈ T ->
  handover r seg = Some (kvs, mb) ->
  wp (unfinished_step cfg monotonic (r, (t, m)) seg)
     (fun acc s' => same_inputs r acc.1 /\ acc.2 = (t + len kvs, m + 1) /\
        registers T (seg_tokens r seg) kvs mb s s' /\
        forall x, x ∈ marked acc.1 -> x = seg \/ x ∈ marked r)
     (fun _ _ => False) s.
Proof.
  intros HT Hok Hin Hh. unfold handover in Hh.
  destruct (skip_unfinished cfg r seg) eqn:Hs; [done|].
  destruct (dict_get seg (pic_miss_segment_slots r)) as [mm|] eqn:Hg; [|done].
  cbn [mbind option_bind] in Hh. unfold unfinished_step. rewrite Hs, Hg.
  apply wp_bind, wp_ret, wp_bind. unfold wp at 1. rewrite (cacheable_slots_spec _ _ _ Hh).
  set (ids := seg_tokens r seg) in *. apply wp_bind.
  eapply wp_mono; [apply match_segment_spec| |done]. intros o s1 [-> Hs1].
  destruct (lookup_segment (segment_hash ids) ids s) as [i|] eqn:Hl.
  - apply wp_bind, wp_bind, wp_modify, wp_bind, wp_modify, wp_ret, wp_ret.
    split; [by split|]. split; [done|].
    split; [apply (registers_free T ids kvs mb s s1); [done|by eexists|done]|].
    unfold marked. cbn. intros x [?|[?|?]%elem_of_set_add]%elem_of_app; set_solver.
  - pose proof (lookup_segment_None _ _ _ HT Hin Hok Hl) as Hd.
    assert (index_ok T s1) as Hok1 by by rewrite <- Hs1.
    rewrite <- (sbr_entries _ _ Hs1) in Hd.
    destruct (insert_segment_fresh monotonic _ ids kvs mb s1 Hd) as (tt' & s2 & Hi & Hs2).
    assert (registers T ids kvs mb s s2) as Hr.
    { eapply registers_trans_recency; [exact Hs1|]. by eapply registers_file. }
    assert (forall r', pic_cache_owned_miss_segments r' =
              set_add seg (pic_cache_owned_miss_segments r) ->
              pic_freed_miss_segments r' = pic_freed_miss_segments r ->
              forall x, x ∈ marked r' -> x = seg \/ x ∈ marked r) as Hmk.
    { intros r' Ho Hf x. unfold marked. rewrite Ho, Hf.
      intros [[?|?]%elem_of_set_add|?]%elem_of_app; set_solver. }
    apply wp_bind, wp_bind. unfold wp at 1. rewrite Hi. cbn [fst snd].
    apply wp_bind. destruct (is_transition cfg).
    + apply wp_modify, wp_ret, wp_ret. split; [by split|]. split; [done|].
      split; [by apply registers_lock|by apply Hmk].
    + apply wp_ret, wp_ret, wp_ret. split; [by split|]. split; [done|]. split; [done|by apply Hmk].
Qed.

(** ** The whole request *)

(** The effect of registering a list of handovers. *)
Record registered (T : list (list Z)) (hs : list (list Z * Z)) s s' : Prop := {
  rs_ok : index_ok T s';
  rs_kv : pool_slots (kv s') ++ entries_kv s' ≡ₚ
          (pool_slots (kv s) ++ entries_kv s) ++ concat hs.*1;
  rs_mamba : pool_slots (mamba s') ++ entries_mamba s' ≡ₚ
             (pool_slots (mamba s) ++ entries_mamba s) ++ hs.*2;
  rs_pool : pool s' = pool s;
  rs_old h tk i : lookup_segment h tk s = Some i -> lookup_segment h tk s' = Some i;
}.

Lemma registered_nil T s : index_ok T s -> registered T [] s s.
Proof. intros. split; try done; by rewrite app_nil_r. Qed.

Lemma registered_snoc T hs ids kvs mb s s1 s2 :
  registered T hs s s1 -> registers T ids kvs mb s1 s2 ->
  registered T (hs ++ [(kvs, mb)]) s s2.
Proof.
  intros [Hok Hk Hm Hp Ho] [Hok' Hk' Hm' Hp' _ _ Ho' _]. split.
  - done.
  - rewrite Hk', Hk, fmap_app, concat_app. cbn. rewrite app_nil_r. solve_Permutation.
  - rewrite Hm', Hm, fmap_app. cbn. solve_Permutation.
  - congruence.
  - auto.
Qed.

Definition handover_tokens (hs : list (list Z * Z)) : Z := zsum (len <$> hs.*1).

Lemma unfinished_loop T r s :
  no_collision T -> index_ok T s -> handover_ok T r -> marked r = [] ->
  wp (mfold (unfinished_step cfg monotonic) (r, (0, 0)) (pic_miss_segments r))
     (fun acc s' => let hs := handovers r (pic_miss_segments r) in
        same_inputs r acc.1 /\ acc.2 = (handover_tokens hs, len hs) /\
        registered T hs s s' /\
        inflight_full_tokens s' = inflight_full_tokens s /\
        inflight_mamba_slots s' = inflight_mamba_slots s /\
        (forall x, x ∈ marked acc.1 -> skip_unfinished cfg r x = false) /\
        forall seg, seg ∈ pic_miss_segments r -> skip_unfinished cfg r seg = false ->
          is_Some (lookup_segment (segment_hash (seg_tokens r seg)) (seg_tokens r seg) s'))
     (fun _ _ => False) s.
Proof.
  intros HT Hok Hh Hmk0.
  apply wp_mfold with (I := fun done_ acc s' => let hs := handovers r done_ in
    same_inputs r acc.1 /\ acc.2 = (handover_tokens hs, len hs) /\ registered T hs s s' /\
    inflight_full_tokens s' = inflight_full_tokens s /\
    inflight_mamba_slots s' = inflight_mamba_slots s /\
    (forall x, x ∈ marked acc.1 -> skip_unfinished cfg r x = false) /\
    forall seg, seg ∈ done_ -> skip_unfinished cfg r seg = false ->
      is_Some (lookup_segment (segment_hash (seg_tokens r seg)) (seg_tokens r seg) s')); [| |done].
  { split; [done|]. split; [done|]. split; [by apply registered_nil|].
    split; [done|]. split; [done|]. cbn [fst]. rewrite Hmk0.
    split; by intros ? ?%not_elem_of_nil. }
  intros done_ seg rest [r1 [t m]] s1 Hl (Hsi & Hacc & Hreg & Ht & Hm & Hmk & Hlook).
  cbn [fst snd] in *. injection Hacc as -> ->.
  assert (seg ∈ pic_miss_segments r) as Hin by (rewrite Hl; set_solver).
  assert (handovers r (done_ ++ [seg]) = handovers r done_ ++ option_list (handover r seg)) as Hsn.
  { unfold handovers. rewrite omap_app. cbn. by destruct (handover r seg). }
  pose proof (same_inputs_skip _ _ seg Hsi) as Hskip.
  destruct (skip_unfinished cfg r seg) eqn:Hs.
  - unfold wp. rewrite unfinished_skip by done. rewrite Hsn.
    unfold handover at 1 2 3. rewrite Hs. cbn [option_list]. rewrite app_nil_r.
    repeat (split; [done|]). intros seg' [Hd| ->%list_elem_of_singleton]%elem_of_app ?; [auto|congruence].
  - destruct (Hh seg Hin Hs) as [[[kvs mb] Hho] HinT].
    assert (seg_tokens r1 seg = seg_tokens r seg) as Htok.
    { unfold seg_tokens. by rewrite (si_ids _ _ Hsi). }
    eapply wp_mono; [eapply (unfinished_register T r1 _ _ seg kvs mb)| |done].
    + done.
    + by destruct Hreg.
    + by rewrite Htok.
    + unfold handover in *. rewrite Hskip, (si_slots _ _ Hsi). by rewrite Hs in Hho.
    + intros [r2 [t' m']] s2 (Hsi2 & Hacc2 & Hr2 & Hmk2). cbn [fst snd] in *.
      injection Hacc2 as -> ->. rewrite Htok in Hr2. rewrite Hsn, Hho. cbn [option_list].
      split; [by etrans|]. split.
      { unfold handover_tokens. rewrite !fmap_app, zsum_app, len_app. f_equal; cbn; lia. }
      split; [by eapply registered_snoc|]. destruct Hr2.
      split; [congruence|]. split; [congruence|].
      split; [intros x [->|?]%Hmk2; auto|].
      intros seg' [Hd| ->%list_elem_of_singleton]%elem_of_app ?; [|done].
      destruct (Hlook seg' Hd) as [j Hj]; [done|]. exists j. auto.
Qed.

Lemma registered_inflight T hs a b s s' :
  registered T hs s s' -> registered T hs s (remove_inflight a b s').
Proof. by intros []. Qed.

Lemma cache_unfinished_spec T r s :
  no_collision T -> index_ok T s -> handover_ok T r ->
  wp (cache_unfinished_req cfg monotonic r)
     (fun r' s' => let hs := handovers r (pic_miss_segments r) in
        same_inputs r r' /\ registered T hs s s' /\
        (hs <> [] ->
           inflight_full_tokens s' = (if is_transition cfg
             then Z.max 0 (inflight_full_tokens s - handover_tokens hs)
             else inflight_full_tokens s) /\
           inflight_mamba_slots s' = (if is_transition cfg
             then Z.max 0 (inflight_mamba_slots s - len hs) else inflight_mamba_slots s)) /\
        (forall x, x ∈ marked r' -> skip_unfinished cfg r x = false) /\
        forall seg, seg ∈ pic_miss_segments r -> skip_unfinished cfg r seg = false ->
          is_Some (lookup_segment (segment_hash (seg_tokens r seg)) (seg_tokens r seg) s'))
     (fun _ _ => False) s.
Proof.
  intros HT Hok Hh. unfold cache_unfinished_req. apply wp_bind.
  eapply wp_mono; [apply (unfinished_loop T)| |done]; [done..|].
  intros [r1 [t m]] s1 (Hsi & Hacc & Hreg & Ht & Hm & Hmk & Hlook).
  cbn [fst snd] in *. injection Hacc as -> ->.
  set (hs := handovers _ _) in *. apply wp_bind.
  destruct (is_transition cfg) eqn:Htr; cbn [andb].
  - case_if.
    + apply wp_modify, wp_ret. split; [by destruct Hsi|]. split; [by apply registered_inflight|].
      split; [|done]. intros _. cbn. by rewrite Ht, Hm.
    + breflect. apply wp_ret, wp_ret. split; [by destruct Hsi|]. split; [done|].
      split; [|done]. intros Hne. exfalso.
      assert (len hs <= 0) as Hz by done. destruct hs as [|x l]; [done|].
      rewrite len_cons in Hz. pose proof (len_nonneg l). lia.
  - apply wp_ret, wp_ret. split; [by destruct Hsi|]. split; [done|]. split; done.
Qed.

(** C10. Registration neither leaks nor duplicates a slot: for a request
    whose cacheable miss segments hold their slots, [cache_unfinished_req]
    does not raise, pools plus index gain exactly the handed-over slots, and
    every registered segment (and every earlier one) is found by a later
    lookup. *)
Theorem cache_unfinished_conserves T r s :
  no_collision T -> index_ok T s -> handover_ok T r ->
  wp (cache_unfinished_req cfg monotonic r)
     (fun r' s' => let hs := handovers r (pic_miss_segments r) in
        same_inputs r r' /\ registered T hs s s' /\
        (hs <> [] ->
           inflight_full_tokens s' = (if is_transition cfg
             then Z.max 0 (inflight_full_tokens s - handover_tokens hs)
             else inflight_full_tokens s) /\
           inflight_mamba_slots s' = (if is_transition cfg
             then Z.max 0 (inflight_mamba_slots s - len hs) else inflight_mamba_slots s)) /\
        forall seg, seg ∈ pic_miss_segments r -> skip_unfinished cfg r seg = false ->
          is_Some (lookup_segment (segment_hash (seg_tokens r seg)) (seg_tokens r seg) s'))
     (fun _ _ => False) s.
Proof.
  intros HT Hok Hh. eapply wp_mono; [by apply (cache_unfinished_spec T)| |done].
  intros r' s' (? & ? & ? & _ & ?). done.
Qed.

End register.

(** Two cacheable segments of a transition-mode request, slots 1-2 and 3-5. *)
Definition reg_req : Req :=
  demo_req_slots [5; 6; 7; 8; 9; 4] [(0, 2); (2, 5); (5, 6)] [(0, 2); (2, 5); (5, 6)]
    [((0, 2), SlotsStd [1; 2] (Some 1)); ((2, 5), SlotsStd [3; 4; 5] (Some 2));
     ((5, 6), SlotsStd [6] (Some 3))] None 6.
Definition reg_state : demo_engine := (demo_take 2 (demo_take 3 (demo_take 2 demo0).2).2).2.

Lemma handover_ok_demo : handover_ok (demo_cfg "transition" (-1)) [[5; 6]; [7; 8; 9]; [4]] reg_req.
Proof.
  intros seg Hin. cbn in Hin. set_unfold in Hin.
  destruct Hin as [-> | [-> | [-> | []]]]; intros Hs; vm_compute in Hs; try done;
    (split; [vm_compute; eauto|apply (bool_decide_unpack _); vm_compute; exact I]).
Qed.

Lemma cache_unfinished_conserves_witness :
  exists r' s', cache_unfinished_req (demo_cfg "transition" (-1)) demo_clock reg_req reg_state
    = (Ret r', s') /\
    pool_slots (kv s') ++ entries_kv s' ≡ₚ pool_slots (kv reg_state) ++ [1; 2; 3; 4; 5].
Proof.
  pose proof (cache_unfinished_conserves (demo_cfg "transition" (-1)) demo_clock
    [[5; 6]; [7; 8; 9]; [4]] reg_req reg_state) as Hc.
  unfold wp in Hc. destruct (cache_unfinished_req _ _ _ _) as [[r'|] s'].
  - exists r', s'. split; [done|]. destruct Hc as (_ & Hr & _).
    + eval_decide.
    + eval_decide.
    + apply handover_ok_demo.
    + destruct Hr as [_ Hk _ _ _]. rewrite Hk. rewrite app_nil_r. done.
  - destruct Hc; [eval_decide..|apply handover_ok_demo].
Defined.
