(* ===== verification/PICacheRelease.v ===== *)
(** * Locks and release of finished requests

    [inc_lock_ref]/[dec_lock_ref] pair up and protect entries from eviction;
    [cache_finished_req] returns every slot a request holds, exactly once,
    when it is the first call that registers the request's segments.  A
    second registration of the same request is shown to return slots the
    index still owns. *)

From stdpp Require Import strings.
From S2P Require Import Prelude PyDict Allocator Policy Segmenter Engine ReqPool PICache.
From S2P Require Import PICacheFacts PICacheEvict PICacheReg TokenAllocator MambaAllocator.
From S2P Require Import Scenario.

(** ** Locks *)

Section locks.
Context {KV MB : Type}.
Implicit Types s : Engine KV MB.

Lemma update_entry_comm f g i j s :
  (forall e, f (g e) = g (f e)) ->
  update_entry i f (update_entry j g s) = update_entry j g (update_entry i f s).
Proof.
  intros Hfg. unfold update_entry. cbn. unfold set_heap. cbn. f_equal.
  apply list_eq. intros k. rewrite !list_lookup_alter. repeat case_decide; subst;
    destruct (heap s !! k); cbn; rewrite ?Hfg; done.
Qed.

Lemma add_lock_comm a b e : add_lock a (add_lock b e) = add_lock b (add_lock a e).
Proof. unfold add_lock, set_lock_ref. cbn. f_equal. lia. Qed.

Lemma update_entry_undo i s : update_entry i (add_lock (-1)) (update_entry i (add_lock 1) s) = s.
Proof.
  unfold update_entry, set_heap. cbn. destruct s as [a b c h d e f g]. cbn. f_equal.
  apply list_eq. intros k. rewrite !list_lookup_alter.
  repeat case_decide; subst; destruct (h !! k) as [[]|]; try done.
  cbn. unfold add_lock, set_lock_ref. cbn. do 2 f_equal. lia.
Qed.

Lemma lock_all_cons f j ids s : lock_all f (j :: ids) s = lock_all f ids (update_entry j f s).
Proof. done. Qed.

Lemma lock_all_update i ids s :
  lock_all (add_lock 1) ids (update_entry i (add_lock 1) s) =
  update_entry i (add_lock 1) (lock_all (add_lock 1) ids s).
Proof.
  revert s. induction ids as [|j ids IH]; intros s; [done|]. rewrite !lock_all_cons.
  rewrite <- IH. f_equal. apply update_entry_comm. apply add_lock_comm.
Qed.

Lemma lock_all_length ids s : length (heap (lock_all (add_lock 1) ids s)) = length (heap s).
Proof.
  revert s. induction ids as [|j ids IH]; intros s; [done|]. rewrite lock_all_cons.
  etrans; [apply IH|]. cbn. apply length_alter.
Qed.

(** Locking raises lock counts, by one at least on the locked objects. *)
Lemma lock_all_ge ids s i : lock_ref (deref s i) <= lock_ref (deref (lock_all (add_lock 1) ids s) i).
Proof.
  revert s. induction ids as [|j ids IH]; intros s; [cbn; lia|]. rewrite lock_all_cons.
  etrans; [|apply IH]. destruct (decide (j = i)) as [->|Hne].
  - destruct (decide (i < length (heap s))%nat).
    + rewrite deref_update_eq by done. cbn. lia.
    + unfold deref, update_entry. cbn. rewrite list_lookup_alter, decide_True by done.
      by rewrite lookup_ge_None_2 by lia.
  - by rewrite deref_update_ne.
Qed.

Lemma lock_all_locked ids s i :
  i ∈ ids -> (i < length (heap s))%nat ->
  lock_ref (deref s i) < lock_ref (deref (lock_all (add_lock 1) ids s) i).
Proof.
  revert s. induction ids as [|j ids IH]; intros s Hin Hi; [by apply not_elem_of_nil in Hin|].
  rewrite lock_all_cons.
  destruct (decide (i = j)) as [->|Hne].
  - eapply Z.lt_le_trans; [|apply lock_all_ge]. rewrite deref_update_eq by done. cbn. lia.
  - apply elem_of_cons in Hin as [?|Hin]; [done|].
    rewrite <- (deref_update_ne s j i (add_lock 1)) by done.
    apply IH; [done|]. cbn. by rewrite length_alter.
Qed.

Lemma lock_all_entries ids s : entries (lock_all (add_lock 1) ids s) = entries s.
Proof.
  revert s. induction ids as [|j ids IH]; intros s; [done|]. rewrite lock_all_cons.
  etrans; [apply IH|done].
Qed.

Lemma lock_all_hash ids s i :
  seg_hash (deref (lock_all (add_lock 1) ids s) i) = seg_hash (deref s i).
Proof.
  revert s. induction ids as [|j ids IH]; intros s; [done|]. rewrite lock_all_cons.
  etrans; [apply IH|]. by apply deref_update_field.
Qed.

Lemma lock_all_wf ids s : index_wf s -> index_wf (lock_all (add_lock 1) ids s).
Proof.
  apply index_wf_ext; [apply lock_all_entries|by rewrite lock_all_length|].
  intros; apply lock_all_hash.
Qed.

Lemma dec_inc_loop ids : forall d s,
  (forall i, i ∈ ids -> (i < length (heap s))%nat /\ 0 <= lock_ref (deref s i)) ->
  foldl dec_lock_ref_step (d, lock_all (add_lock 1) ids s) ids = (d - len ids, s).
Proof.
  induction ids as [|i ids IH]; intros d s Hin.
  { change ((d, s) = (d - 0, s)). f_equal. lia. }
  rewrite lock_all_cons.
  destruct (Hin i ltac:(left)) as [Hi Hl].
  pose proof (lock_all_ge ids (update_entry i (add_lock 1) s) i) as Hge.
  rewrite deref_update_eq in Hge by done. cbn in Hge.
  cbn [foldl]. unfold dec_lock_ref_step at 2. rewrite (proj2 (Z.ltb_lt _ _)) by lia.
  rewrite lock_all_update, update_entry_undo.
  rewrite IH by (intros; apply Hin; by right). rewrite len_cons. f_equal. lia.
Qed.

(** Lock round trip: [dec_lock_ref] undoes [inc_lock_ref] exactly,
    whatever entries the request references (shared or repeated), and the
    two report opposite deltas. *)
Theorem lock_round_trip (r : Req) s :
  (forall i, i ∈ (pic_segment_entries r).*2 ->
     (i < length (heap s))%nat /\ 0 <= lock_ref (deref s i)) ->
  let '(d1, s1) := inc_lock_ref r s in
  dec_lock_ref r s1 = (- d1, s).
Proof.
  intros Hin. unfold inc_lock_ref, dec_lock_ref. rewrite dec_inc_loop by done.
  rewrite len_map. f_equal.
Qed.

(** Dropping locks keeps everything but lock counts. *)
Lemma dec_lock_ref_keeps T ids : forall d s, index_ok T s ->
  let s' := (foldl dec_lock_ref_step (d, s) ids).2 in
  index_ok T s' /\ entries_kv s' = entries_kv s /\ entries_mamba s' = entries_mamba s /\
  kv s' = kv s /\ mamba s' = mamba s /\ pool s' = pool s.
Proof.
  induction ids as [|i ids IH]; intros d s Hok; [done|]. cbn [foldl].
  unfold dec_lock_ref_step at 2 4 6 8 10 12. case_if; [|by apply IH]. breflect.
  assert (index_ok T (update_entry i (add_lock (-1)) s)) as Hok'.
  { destruct Hok as [Hd Hw]. split; [done|]. intros h j Hj.
    destruct (Hw _ _ Hj) as [Hl (?&?&?&?)]. cbn. rewrite length_alter. split; [done|].
    unfold entry_ok. rewrite (deref_update_field seg_hash), (deref_update_field token_ids) by done.
    repeat split; try done. destruct (decide (i = j)) as [->|].
    - rewrite deref_update_eq by done. cbn. lia.
    - by rewrite deref_update_ne. }
  destruct (IH (d - 1) _ Hok') as (? & Hk & Hm & ? & ? & ?).
  split; [done|]. split; [etrans; [exact Hk|apply update_entries_kv; auto with hyx]|].
  split; [etrans; [exact Hm|apply update_entries_mamba; auto with hyx]|]. done.
Qed.

End locks.

Section lock_evict.
Context {KV MB : Type} `{Allocator KV} `{Allocator MB}.

(** A locked entry survives any eviction: between [inc_lock_ref] and the
    matching [dec_lock_ref], no amount of memory pressure evicts an entry
    the request matched. *)
Theorem lock_protects (r : Req) (s : Engine KV MB) nt nm h i :
  index_wf s -> (forall h i, (h, i) ∈ entries s -> 0 <= lock_ref (deref s i)) ->
  i ∈ (pic_segment_entries r).*2 -> (h, i) ∈ entries s ->
  (h, i) ∈ entries (evict nt nm (inc_lock_ref r s).2).2.
Proof.
  intros Hw Hl Hi Hin. unfold inc_lock_ref. cbn [snd].
  set (s1 := lock_all _ _ s).
  assert (index_wf s1) as Hw1 by by apply lock_all_wf.
  destruct (evict_spec nt nm s1 Hw1) as (ev & rest & s' & -> & Hev & Hc & _).
  cbn [snd]. rewrite (ev_entries _ _ _ Hev). apply list_elem_of_filter. split.
  - cbn [snd]. intros Hev'. assert (i ∈ evict_candidates s1) as Hcand.
    { destruct Hc as [<-|(-> & _)]; set_solver. }
    rewrite evict_candidates_perm in Hcand. apply list_elem_of_filter in Hcand as [Hz _].
    destruct (proj2 Hw _ _ Hin) as [Hlen _].
    pose proof (lock_all_locked _ s i Hi Hlen) as Hlt. fold s1 in Hlt.
    specialize (Hl _ _ Hin). lia.
  - unfold s1. by rewrite lock_all_entries.
Qed.

End lock_evict.

Lemma lock_round_trip_witness :
  let s := demo_cache [3] (demo_cache [1; 2] demo0) in
  let r := set_pic_segment_entries [(segment_hash [3], 1%nat)] (demo_req [3; 4] [(0, 1); (1, 2)]) in
  inc_lock_ref r s = (1, update_entry 1 (add_lock 1) s) /\
  dec_lock_ref r (inc_lock_ref r s).2 = (-1, s).
Proof.
  intros s r. split; [reflexivity|].
  apply (lock_round_trip r s). intros i Hi. cbn in Hi.
  apply list_elem_of_singleton in Hi as ->. split; [vm_compute; lia|]. vm_compute. discriminate.
Defined.

Lemma lock_protects_witness :
  let s := demo_cache [3] (demo_cache [1; 2] demo0) in
  let r := set_pic_segment_entries [(segment_hash [3], 1%nat)] (demo_req [3; 4] [(0, 1); (1, 2)]) in
  len (entries (evict 100 100 (inc_lock_ref r s).2).2) = 1 /\
  (segment_hash [3], 1%nat) ∈ entries (evict 100 100 (inc_lock_ref r s).2).2.
Proof.
  intros s r. split; [vm_compute; reflexivity|].
  assert (index_ok [[1; 2]; [3]] s) as Hok by eval_decide.
  apply (lock_protects r s).
  - by apply index_ok_wf in Hok.
  - intros h i Hin. by destruct (proj2 Hok h i Hin) as (_ & _ & _ & _ & ?).
  - apply list_elem_of_singleton. reflexivity.
  - eval_decide.
Defined.

(** ** Release *)

Section release.
Context {KV MB : Type} `{Allocator KV} `{Allocator MB}.
Context (cfg : PICConfig) (monotonic : nat -> Z).
Implicit Types s : Engine KV MB.

(** Pools and index together gain the KV slots [ks] and Mamba slots [ms]. *)
Record gains (T : list (list Z)) (ks ms : list Z) s s' : Prop := {
  gn_ok : index_ok T s';
  gn_kv : pool_slots (kv s') ++ entries_kv s' ≡ₚ (pool_slots (kv s) ++ entries_kv s) ++ ks;
  gn_mamba : pool_slots (mamba s') ++ entries_mamba s' ≡ₚ
             (pool_slots (mamba s) ++ entries_mamba s) ++ ms;
  gn_pool : pool s' = pool s;
}.

Lemma gains_refl T s : index_ok T s -> gains T [] [] s s.
Proof. intros. split; try done; by rewrite app_nil_r. Qed.

Lemma gains_trans T ks ms ks' ms' s s1 s2 :
  gains T ks ms s s1 -> gains T ks' ms' s1 s2 -> gains T (ks ++ ks') (ms ++ ms') s s2.
Proof.
  intros [? Hk Hm ?] [? Hk' Hm' ?]. split; [done| | |congruence].
  - rewrite Hk', Hk. solve_Permutation.
  - rewrite Hm', Hm. solve_Permutation.
Qed.

Lemma gains_perm T ks ms ks' ms' s s' :
  gains T ks ms s s' -> ks ≡ₚ ks' -> ms ≡ₚ ms' -> gains T ks' ms' s s'.
Proof. intros [? Hk Hm ?] Ek Em. split; [done| | |done]; by rewrite <- ?Ek, <- ?Em. Qed.

Lemma gains_registered T hs s s' : registered T hs s s' -> gains T (concat hs.*1) hs.*2 s s'.
Proof. by intros []. Qed.

Lemma gains_kv_free T x s : index_ok T s -> gains T x [] s (set_kv (free x (kv s)) s).
Proof.
  intros Hok. split; [done| | |done].
  - cbn [kv set_kv]. rewrite free_conserves.
    change (entries_kv (set_kv _ _)) with (entries_kv s). solve_Permutation.
  - by rewrite app_nil_r.
Qed.

Lemma gains_mamba_free T x s : index_ok T s -> gains T [] x s (set_mamba (free x (mamba s)) s).
Proof.
  intros Hok. split; [done| | |done].
  - by rewrite app_nil_r.
  - cbn [mamba set_mamba]. rewrite free_conserves.
    change (entries_mamba (set_mamba _ _)) with (entries_mamba s). solve_Permutation.
Qed.

Lemma gains_inflight T a b s : index_ok T s -> gains T [] [] s (remove_inflight a b s).
Proof. intros Hok. split; try done; by rewrite app_nil_r. Qed.

(** [m] returns and gains [ks] and [ms]; sequential composition. *)
Definition frees {A} T (m : M (Engine KV MB) A) (ks ms : list Z) s : Prop :=
  index_ok T s -> wp m (fun _ s' => gains T ks ms s s') (fun _ _ => False) s.

Lemma frees_skip T s : frees T (mret tt) [] [] s.
Proof. intros Hok. apply wp_ret. by apply gains_refl. Qed.

Lemma frees_kv T x s : frees T (kv_free_m x) x [] s.
Proof. intros Hok. apply wp_modify. by apply gains_kv_free. Qed.

Lemma frees_mamba T x s : frees T (mamba_free_m x) [] x s.
Proof. intros Hok. apply wp_modify. by apply gains_mamba_free. Qed.

Lemma frees_mamba_opt T o s : frees T (mamba_free_opt o) [] (option_list o) s.
Proof. destruct o; [apply frees_mamba|apply frees_skip]. Qed.

Lemma frees_inflight T a b s : frees T (modify (remove_inflight a b)) [] [] s.
Proof. intros Hok. apply wp_modify. by apply gains_inflight. Qed.

Lemma frees_seq {A B} T (m : M (Engine KV MB) A) (k : A -> M (Engine KV MB) B) ks ms ks' ms' s :
  frees T m ks ms s -> (forall a s', pool s' = pool s -> frees T (k a) ks' ms' s') ->
  frees T (mbind k m) (ks ++ ks') (ms ++ ms') s.
Proof.
  intros Hm Hk Hok. apply wp_bind. eapply wp_mono; [by apply Hm| |done].
  intros a s' Hg. eapply wp_mono; [apply Hk; apply Hg| |done].
  intros b s2 Hg2. exact (gains_trans T _ _ _ _ _ _ _ Hg Hg2).
Qed.

Lemma frees_perm {A} T (m : M (Engine KV MB) A) ks ms ks' ms' s :
  frees T m ks ms s -> ks ≡ₚ ks' -> ms ≡ₚ ms' -> frees T m ks' ms' s.
Proof.
  intros Hm Ek Em Hok. eapply wp_mono; [by apply Hm| |done].
  intros b s2 Hg. exact (gains_perm T _ _ _ _ _ _ Hg Ek Em).
Qed.

Lemma frees_ret {A} T (a : A) s : frees T (mret a) [] [] s.
Proof. intros Hok. apply wp_ret. by apply gains_refl. Qed.

(** *** What a request holds *)

Definition kv_of (m : MissSlots) : list Z :=
  match m with SlotsStd k _ => k | SlotsRope pr pu _ => pr ++ default [] pu end.
Definition mb_of (m : MissSlots) : list Z :=
  match m with SlotsStd _ mb | SlotsRope _ _ mb => option_list mb end.

Definition is_std (m : MissSlots) : Prop := exists k mb, m = SlotsStd k mb.

Definition global_slots (r : Req) : list MissSlots :=
  option_list (global_seg r ≫= fun g => dict_get g (pic_miss_segment_slots r)).

(** Decode-generated slots, as [cache_finished_req] reads them. *)
Definition decode_slots (r : Req) s : list Z :=
  match last (segs_of r), req_pool_idx r with
  | Some (_, prompt_end), Some idx =>
      let free_start := if is_decode cfg then 0 else prompt_end in
      if free_start <? kv_committed_len r
      then pool_read idx free_start (kv_committed_len r) (pool s) else []
  | _, _ => []
  end.

Lemma frees_decode T r s : frees T (finish_decode_slots cfg r) (decode_slots r s) [] s.
Proof.
  unfold finish_decode_slots, decode_slots.
  destruct (last (segs_of r)) as [[a b]|]; [|apply frees_skip].
  destruct (req_pool_idx r); [|apply frees_skip].
  destruct (_ <? kv_committed_len r); [|apply frees_skip].
  intros Hok. apply wp_bind, wp_gets. by apply frees_kv.
Qed.

Lemma frees_addition_inflight T slots s :
  is_rope cfg = false -> (forall m, m ∈ slots -> is_std m) ->
  frees T (finish_addition_inflight cfg slots) [] [] s.
Proof.
  intros Hr Hstd Hok. unfold finish_addition_inflight. rewrite Hr. apply wp_bind.
  unfold wp at 1. erewrite (mfold_pure _ (fun acc m =>
    (acc.1 + len (kv_of m), acc.2 + len (mb_of m)))); [by apply frees_inflight|].
  intros acc m Hm. destruct (Hstd m Hm) as (k & mb & ->). by destruct mb.
Qed.

Lemma frees_last_std T r s :
  is_rope cfg = false -> (forall m, m ∈ global_slots r -> is_std m) ->
  frees T (finish_last_segment cfg r)
    (concat (kv_of <$> global_slots r)) (concat (mb_of <$> global_slots r)) s.
Proof.
  unfold finish_last_segment, global_slots. intros Hr Hstd.
  destruct (global_seg r ≫= _) as [m|]; cbn [option_list] in *; [|apply frees_skip].
  destruct (Hstd m ltac:(left)) as (k & mb & ->). rewrite Hr.
  change (option_list (Some (SlotsStd k mb))) with [SlotsStd k mb].
  rewrite !list_fmap_singleton. cbn [concat kv_of mb_of]. rewrite !app_nil_r.
  intros Hok. unfold of_outcome. apply wp_bind. unfold wp at 1. cbn [unpack_std fst snd].
  eapply frees_perm; [|reflexivity..|done].
  eapply frees_perm; [apply (frees_seq T _ _ k [] [] (option_list mb ++ []))| |].
  - apply frees_kv.
  - intros _ s' _. apply (frees_seq T _ _ [] (option_list mb) [] []).
    + apply frees_mamba_opt.
    + intros _ s'' _. destruct (is_transition cfg); [apply frees_inflight|apply frees_skip].
  - by rewrite app_nil_r.
  - by rewrite app_nil_r.
Qed.

(** The test under which [cache_finished_req] frees a short segment. *)
Definition skipped_short (r : Req) (x : Z * Z * MissSlots) : bool :=
  negb (bool_decide (last (segs_of r) = Some x.1)
        || bool_decide (x.1 ∈ pic_cache_owned_miss_segments r)
        || bool_decide (x.1 ∈ pic_freed_miss_segments r)
        || negb (too_short cfg x.1.1 x.1.2)).

Lemma frees_skipped T r s :
  (forall x, x ∈ pic_miss_segment_slots r -> is_std x.2) ->
  let keep := filter (fun x => skipped_short r x = true) (pic_miss_segment_slots r) in
  frees T (finish_skipped cfg r)
    (concat ((fun x => kv_of x.2) <$> keep)) (concat ((fun x => mb_of x.2) <$> keep)) s.
Proof.
  intros Hstd keep Hok. unfold finish_skipped. apply wp_bind. unfold wp at 1.
  rewrite (mfold_pure _ (fun acc x => if skipped_short r x
    then (acc.1 ++ [kv_of x.2], acc.2 ++ mb_of x.2) else acc)); cycle 1.
  { intros acc [seg m] Hx. destruct (Hstd _ Hx) as (k & mb & Hm). cbn in Hm. subst m.
    unfold mbind, M_bind, of_outcome, skipped_short. cbn [unpack_std fst snd].
    destruct (_ || _ || _ || _); cbn [negb]; by destruct acc. }
  assert (forall l a b, foldl (fun acc x => if skipped_short r x
    then (acc.1 ++ [kv_of x.2], acc.2 ++ mb_of x.2) else acc) (a, b) l =
    (a ++ ((fun x => kv_of x.2) <$> filter (fun x => skipped_short r x = true) l),
     b ++ concat ((fun x => mb_of x.2) <$> filter (fun x => skipped_short r x = true) l))) as Hf.
  { induction l as [|x l IH]; intros a b; [cbn; by rewrite !app_nil_r|]. cbn [foldl].
    rewrite filter_cons. destruct (skipped_short r x); cbn [fst snd].
    - rewrite decide_True by done. rewrite IH, !fmap_cons. cbn [concat].
      by rewrite <- !app_assoc.
    - rewrite decide_False by done. apply IH. }
  rewrite Hf. cbn [app]. fold keep. destruct keep as [|x l]; [by apply frees_skip|].
  set (ks := concat _). set (ms := concat _).
  rewrite fmap_cons. cbn [concat]. change (kv_of x.2 ++ concat _) with ks.
  eapply frees_perm; [apply (frees_seq T _ _ ks [] [] (ms ++ []))| | |done].
  - apply frees_kv.
  - intros _ s1 _. apply (frees_seq T _ _ [] ms [] []).
    + destruct ms; [apply frees_skip|apply frees_mamba].
    + intros _ s2 _. destruct (is_transition cfg); [apply frees_inflight|apply frees_skip].
  - by rewrite app_nil_r.
  - by rewrite app_nil_r.
Qed.

(** *** First release of a request (standard modes) *)

(** A request as [pic_alloc_for_extend] leaves it in the modes without
    re-rotation: one slot tuple per miss segment; a prompt of a single
    segment is not below the length threshold. *)
Record holds_std (T : list (list Z)) (r : Req) : Prop := {
  hs_handover : handover_ok cfg T r;
  hs_keys : pic_miss_segments r = (pic_miss_segment_slots r).*1;
  hs_wf : dict_wf (pic_miss_segment_slots r);
  hs_std x : x ∈ pic_miss_segment_slots r -> is_std x.2;
  hs_single : global_seg r = None \/ pic_scatter_single_seg r = false;
  hs_short : global_seg r = None ->
    forall seg, seg ∈ pic_miss_segments r -> too_short cfg seg.1 seg.2 = false;
}.

(** Registered, global and short segments partition the miss segments. *)
Lemma release_split T r r1 (f : MissSlots -> list Z) (p : list Z * Z -> list Z) :
  holds_std T r -> same_inputs r r1 ->
  (forall x, x ∈ marked r1 -> skip_unfinished cfg r x = false) ->
  (forall m q, public_slots cfg m = Some q -> p q = f m) ->
  concat (f <$> (pic_miss_segment_slots r).*2) ≡ₚ
  concat (p <$> handovers cfg r (pic_miss_segments r)) ++
  concat (f <$> global_slots r1) ++
  concat ((fun x => f x.2) <$>
    filter (fun x => skipped_short r1 x = true) (pic_miss_segment_slots r)).
Proof.
  intros [Hho Hk Hwf Hstd Hsi Hsh] Hin Hmk Hp.
  unfold handovers, global_slots. rewrite Hk, omap_concat, <- list_fmap_compose.
  unfold global_seg, segs_of. rewrite (si_segs _ _ Hin), (si_slots _ _ Hin).
  change (if 1 <? len (default [] (pic_segments r)) then last (default [] (pic_segments r)) else None)
    with (global_seg r).
  rewrite dict_get_select, concat_filter, <- list_fmap_compose by done.
  rewrite <- (concat_split _ _ _ _ (fun x _ => Permutation_refl _)).
  apply concat_split. intros [seg m] Hx. unfold Basics.compose. cbn [fst snd].
  assert (seg ∈ pic_miss_segments r) as Hseg.
  { rewrite Hk. apply list_elem_of_fmap. by exists (seg, m). }
  pose proof (dict_elem_get _ _ _ Hwf Hx) as Hg.
  assert (skipped_short r1 (seg, m) = negb (bool_decide (last (segs_of r) = Some seg))
            && too_short cfg seg.1 seg.2) as ->.
  { unfold skipped_short. cbn [fst]. unfold segs_of. rewrite (si_segs _ _ Hin).
    destruct (too_short cfg seg.1 seg.2) eqn:Hts; [|by rewrite orb_true_r, andb_false_r].
    assert (seg ∉ marked r1) as Hnm.
    { intros Hm%Hmk. unfold skip_unfinished in Hm. rewrite Hts, orb_true_r in Hm. done. }
    unfold marked in Hnm. rewrite !(bool_decide_false (seg ∈ _)) by set_solver.
    by rewrite !orb_false_r, andb_true_r. }
  assert (skip_unfinished cfg r seg =
    bool_decide (global_seg r = Some seg) || too_short cfg seg.1 seg.2) as Hskip.
  { unfold skip_unfinished. unfold dict_mem. rewrite Hg, (bool_decide_true (is_Some _)) by eauto.
    rewrite orb_false_r. destruct Hsi as [-> | ->]; [done|by rewrite andb_true_r]. }
  specialize (Hho seg Hseg). unfold handover in *. rewrite Hskip, Hg in *.
  cbn [mbind option_bind] in *.
  destruct (decide (global_seg r = Some seg)) as [Hglob|Hglob].
  - rewrite (bool_decide_true (global_seg r = _)) by done. cbn [orb app].
    assert (last (segs_of r) = Some seg) as Hl.
    { unfold global_seg in Hglob. by case_if. }
    by rewrite (bool_decide_true (last _ = _)), app_nil_r by done.
  - rewrite (bool_decide_false (global_seg r = _)) in * by done. cbn [orb app] in *.
    destruct (too_short cfg seg.1 seg.2) eqn:Hts.
    + assert (last (segs_of r) <> Some seg) as Hl.
      { intros Hl. destruct (global_seg r) eqn:Hgs.
        - unfold global_seg in Hgs. case_if; congruence.
        - rewrite (Hsh eq_refl seg Hseg) in Hts. done. }
      by rewrite (bool_decide_false (last _ = _)), decide_True by done.
    + destruct (Hho eq_refl) as [[q Hq] _]. rewrite Hq, andb_false_r, decide_False by done.
      by rewrite app_nil_r, (Hp _ _ Hq).
Qed.

Lemma wp_frees {A} T (m : M (Engine KV MB) unit) (k : unit -> M (Engine KV MB) A) ks ms Q s :
  frees T m ks ms s -> index_ok T s ->
  (forall s', gains T ks ms s s' -> wp (k tt) Q (fun _ _ => False) s') ->
  wp (mbind k m) Q (fun _ _ => False) s.
Proof.
  intros Hm Hok Hk. apply wp_bind. eapply wp_mono; [by apply Hm| |done].
  intros [] s' Hg. by apply Hk.
Qed.

Lemma public_std m q :
  is_rope cfg = false -> public_slots cfg m = Some q -> q.1 = kv_of m /\ [q.2] = mb_of m.
Proof.
  unfold public_slots. intros ->. destruct m as [k [mb|]|? [|] [|]]; intros [= <-]. done.
Qed.

Lemma finish_miss_std T r s :
  is_rope cfg = false -> no_collision T -> index_ok T s -> holds_std T r ->
  wp (finish_miss cfg monotonic r true)
     (fun r' s' => same_inputs r r' /\
        gains T (concat (kv_of <$> (pic_miss_segment_slots r).*2))
                (concat (mb_of <$> (pic_miss_segment_slots r).*2)) s s')
     (fun _ _ => False) s.
Proof.
  intros Hr HT Hok Hh. unfold finish_miss.
  destruct (pic_miss_segment_slots r) as [|x0 l0] eqn:Hsl.
  { apply wp_ret. split; [done|]. by apply gains_refl. }
  rewrite <- Hsl. apply wp_bind.
  eapply wp_mono; [apply (cache_unfinished_spec cfg monotonic T)| |done];
    [done|done|by destruct Hh|].
  intros r1 s1 (Hin & Hreg & _ & Hmk & _).
  pose proof (fun f p => release_split T r r1 f p Hh Hin Hmk) as Hsplit.
  pose proof (gains_registered _ _ _ _ Hreg) as Hg1. rewrite Hr.
  assert (forall x, x ∈ pic_miss_segment_slots r1 -> is_std x.2) as Hstd1.
  { rewrite (si_slots _ _ Hin). apply (hs_std _ _ Hh). }
  assert (forall m, m ∈ global_slots r1 -> is_std m) as Hgstd.
  { intros m Hm. unfold global_slots in Hm.
    destruct (global_seg r1) as [g|]; [|by apply not_elem_of_nil in Hm].
    cbn [mbind option_bind] in Hm. destruct (dict_get g _) as [m'|] eqn:Hgm; [|by apply not_elem_of_nil in Hm].
    apply list_elem_of_singleton in Hm as ->. apply dict_get_elem in Hgm. by apply (Hstd1 (g, m')). }
  eapply (wp_frees T _ _ [] []); [|apply Hreg|].
  { destruct (is_transition cfg); [apply frees_skip|]. apply frees_addition_inflight; [done|].
    intros m Hm. apply list_elem_of_fmap in Hm as (x & -> & Hx). by apply (hs_std _ _ Hh). }
  intros s2 Hg2. eapply (wp_frees T); [by apply frees_last_std|apply Hg2|].
  intros s3 Hg3. eapply (wp_frees T); [by apply frees_skipped|apply Hg3|].
  intros s4 Hg4. eapply (wp_frees T); [apply frees_skip|apply Hg4|].
  intros s5 Hg5. apply wp_ret. split; [done|].
  pose proof (gains_trans _ _ _ _ _ _ _ _ Hg1 (gains_trans _ _ _ _ _ _ _ _ Hg2
    (gains_trans _ _ _ _ _ _ _ _ Hg3 (gains_trans _ _ _ _ _ _ _ _ Hg4 Hg5)))) as Hg.
  rewrite (si_slots _ _ Hin) in Hg. eapply gains_perm; [exact Hg| |].
  - rewrite (Hsplit kv_of fst). 2:{ intros m q Hq. by apply public_std in Hq as []. }
    rewrite !app_nil_r. solve_Permutation.
  - rewrite (Hsplit mb_of (fun q => [q.2])). 2:{ intros m q Hq. by apply public_std in Hq as []. }
    rewrite !app_nil_r, concat_singletons. solve_Permutation.
Qed.

Lemma frees_mamba_cache T r i s :
  mamba_pool_idx r = Some i -> enable_mamba_extra_buffer (pool s) = false ->
  frees T (free_mamba_cache r None) [] [i] s.
Proof.
  intros Hi He Hok. unfold free_mamba_cache. rewrite Hi.
  apply wp_bind, wp_ret, wp_bind, wp_modify, wp_bind, wp_gets. cbn [pool set_mamba].
  rewrite He. apply wp_ret. by apply gains_mamba_free.
Qed.

(** The part of [cache_finished_req] after the miss segments. *)
Lemma finish_tail T r s :
  enable_mamba_extra_buffer (pool s) = false ->
  frees T (finish_decode_slots cfg r;;
    r' ← match mamba_pool_idx r with Some _ => free_mamba_cache r None | None => mret r end;
    lift (dec_lock_ref r');; mret r') (decode_slots r s) (option_list (mamba_pool_idx r)) s.
Proof.
  intros He. eapply frees_perm; [apply (frees_seq T _ _ (decode_slots r s) []
    [] (option_list (mamba_pool_idx r) ++ []))| |].
  - apply frees_decode.
  - intros _ s1 Hp1. apply (frees_seq T _ _ [] (option_list (mamba_pool_idx r)) [] []).
    + destruct (mamba_pool_idx r) as [i|] eqn:Hi; [|apply frees_ret].
      apply frees_mamba_cache; [done|congruence].
    + intros r' s2 _ Hok. apply wp_bind, wp_lift.
      destruct (dec_lock_ref_keeps T (pic_segment_entries r').*2 0 s2 Hok)
        as (Hok' & Hk & Hm & Hkv & Hmb & Hp). apply wp_ret.
      fold (dec_lock_ref r' s2) in *. split; [done| | |done].
      * by rewrite Hk, Hkv, app_nil_r.
      * by rewrite Hm, Hmb, app_nil_r.
  - by rewrite app_nil_r.
  - by rewrite app_nil_r.
Qed.


(** *** First release of a request (re-rotation modes) *)

Definition is_rope_slots (m : MissSlots) : Prop := exists pr pu mb, m = SlotsRope pr pu mb.

(** The last segment of a multi-segment prompt has no public copy, every
    other miss segment has one and a Mamba slot; nothing is below the length
    threshold. *)
Record holds_rope (T : list (list Z)) (r : Req) : Prop := {
  hr_handover : handover_ok cfg T r;
  hr_keys : pic_miss_segments r = (pic_miss_segment_slots r).*1;
  hr_wf : dict_wf (pic_miss_segment_slots r);
  hr_rope x : x ∈ pic_miss_segment_slots r -> is_rope_slots x.2;
  hr_global g m : global_seg r = Some g -> dict_get g (pic_miss_segment_slots r) = Some m ->
    exists pr mb, m = SlotsRope pr None mb;
  hr_single : global_seg r = None \/ pic_scatter_single_seg r = false;
  hr_long seg : seg ∈ pic_miss_segments r -> too_short cfg seg.1 seg.2 = false;
}.

Definition private_of (m : MissSlots) : list Z :=
  match m with SlotsRope pr _ _ => pr | SlotsStd k _ => k end.

Lemma frees_last_rope T r s :
  is_rope cfg = true ->
  (forall m, m ∈ global_slots r -> exists pr mb, m = SlotsRope pr None mb) ->
  frees T (finish_last_segment cfg r)
    (concat (kv_of <$> global_slots r)) (concat (mb_of <$> global_slots r)) s.
Proof.
  unfold finish_last_segment, global_slots. intros Hr Hg.
  destruct (global_seg r ≫= _) as [m|]; [|apply frees_skip].
  destruct (Hg m ltac:(left)) as (pr & mb & ->). rewrite Hr.
  change (option_list (Some (SlotsRope pr None mb))) with [SlotsRope pr None mb].
  rewrite !list_fmap_singleton. cbn [concat kv_of mb_of from_option]. rewrite !app_nil_r.
  intros Hok. unfold of_outcome. apply wp_bind. unfold wp at 1.
  cbn [unpack_rope fst snd]. apply wp_bind, wp_ret.
  apply (frees_perm T _ (pr ++ []) ([] ++ option_list mb)); [|by rewrite app_nil_r|done|done].
  apply frees_seq; [apply frees_kv|]. intros _ s' _. apply frees_mamba_opt.
Qed.

Lemma frees_rope_private T r s :
  (forall x, x ∈ pic_miss_segment_slots r -> is_rope_slots x.2) ->
  frees T (finish_rope_private r)
    (concat ((fun x => private_of x.2) <$>
       filter (fun x => global_seg r <> Some x.1) (pic_miss_segment_slots r))) [] s.
Proof.
  intros Hrope Hok. unfold finish_rope_private. apply wp_bind. unfold wp at 1.
  rewrite (mfold_pure _ (fun acc x => if decide (global_seg r = Some x.1) then acc
    else acc ++ [private_of x.2])); cycle 1.
  { intros acc [seg m] Hx. destruct (Hrope _ Hx) as (pr & pu & mb & Hm). cbn in Hm. subst m.
    unfold mbind, M_bind, of_outcome. cbn [unpack_rope fst snd].
    destruct (decide (global_seg r = Some seg));
      [rewrite bool_decide_true by done|rewrite bool_decide_false by done]; done. }
  assert (forall l a, foldl (fun acc x => if decide (global_seg r = Some x.1) then acc
    else acc ++ [private_of x.2]) a l =
    a ++ ((fun x => private_of x.2) <$> filter (fun x => global_seg r <> Some x.1) l)) as Hf.
  { induction l as [|x l IH]; intros a; [cbn; by rewrite app_nil_r|]. cbn [foldl].
    rewrite filter_cons. case_decide.
    - rewrite decide_False by naive_solver. apply IH.
    - rewrite decide_True by done. rewrite IH, fmap_cons, <- app_assoc. done. }
  rewrite Hf. cbn [app]. set (privs := _ <$> _).
  apply (frees_perm T _ ((concat privs ++ []) ++ []) ([] ++ [])); [|by rewrite !app_nil_r|done|done].
  apply frees_seq.
  - destruct privs as [|q l]; [apply frees_skip|].
    apply (frees_seq T _ _ (concat (q :: l)) [] [] []); [apply frees_kv|].
    intros _ s' _. apply frees_inflight.
  - intros _ s' _. destruct (global_seg r ≫= _) as [m|] eqn:Hg; [|apply frees_skip].
    destruct (global_seg r) as [g|]; [|done]. cbn [mbind option_bind] in Hg.
    apply dict_get_elem in Hg. destruct (Hrope _ Hg) as (pr & pu & mb & Hm). cbn in Hm. subst m.
    intros Hok'. unfold of_outcome. apply wp_bind. unfold wp at 1. by apply frees_inflight.
Qed.

Definition hit_privates (r : Req) : list Z :=
  concat ((fun x => x.2.1) <$> pic_rope_hit_private_slots r).

Lemma frees_hit_private T r s : frees T (finish_hit_private r) (hit_privates r) [] s.
Proof.
  unfold finish_hit_private, hit_privates.
  destruct (pic_rope_hit_private_slots r) as [|x l]; [apply frees_skip|].
  set (ks := concat _). apply (frees_perm T _ (ks ++ []) ([] ++ [])); [|by rewrite app_nil_r|done].
  apply frees_seq; [apply frees_kv|]. intros _ s' _. apply frees_inflight.
Qed.

Lemma release_split_rope T r r1 :
  is_rope cfg = true -> holds_rope T r -> same_inputs r r1 ->
  concat (kv_of <$> (pic_miss_segment_slots r).*2) ≡ₚ
    concat (handovers cfg r (pic_miss_segments r)).*1 ++ concat (kv_of <$> global_slots r1) ++
    concat ((fun x => private_of x.2) <$>
       filter (fun x => global_seg r1 <> Some x.1) (pic_miss_segment_slots r)) /\
  concat (mb_of <$> (pic_miss_segment_slots r).*2) ≡ₚ
    (handovers cfg r (pic_miss_segments r)).*2 ++ concat (mb_of <$> global_slots r1).
Proof.
  intros Hr [Hho Hk Hwf Hrope Hgl Hsi Hlong] Hin.
  assert (global_seg r1 = global_seg r) as Hgs
    by (unfold global_seg, segs_of; by rewrite (si_segs _ _ Hin)).
  unfold global_slots. rewrite Hgs, (si_slots _ _ Hin).
  assert (forall seg m, (seg, m) ∈ pic_miss_segment_slots r ->
    handover cfg r seg = if decide (global_seg r = Some seg) then None else public_slots cfg m)
    as Hh.
  { intros seg m Hx. pose proof (dict_elem_get _ _ _ Hwf Hx) as Hg.
    assert (seg ∈ pic_miss_segments r) as Hseg
      by (rewrite Hk; apply list_elem_of_fmap; by exists (seg, m)).
    unfold handover, skip_unfinished, dict_mem.
    rewrite Hg, (Hlong _ Hseg), (bool_decide_true (is_Some _)), !orb_false_r by eauto.
    destruct (decide (global_seg r = Some seg)) as [He|He];
      [rewrite bool_decide_true by done|by rewrite bool_decide_false by done].
    destruct Hsi as [Hn|Hn]; [congruence|by rewrite Hn]. }
  assert (forall seg m, (seg, m) ∈ pic_miss_segment_slots r -> global_seg r <> Some seg ->
    exists pr pu mb, m = SlotsRope pr (Some pu) (Some mb)) as Hshape.
  { intros seg m Hx Hne. destruct (Hrope _ Hx) as (pr & pu & mb & Hm). cbn in Hm. subst m.
    assert (seg ∈ pic_miss_segments r) as Hseg
      by (rewrite Hk; apply list_elem_of_fmap; by eexists (seg, _)).
    destruct (Hho seg Hseg) as [[q Hq] _].
    { unfold skip_unfinished, dict_mem. rewrite (Hlong _ Hseg), (bool_decide_false (global_seg r = _)) by done.
      rewrite (dict_elem_get _ _ _ Hwf Hx), (bool_decide_true (is_Some _)) by eauto. done. }
    rewrite (Hh _ _ Hx), decide_False in Hq by done. unfold public_slots in Hq. rewrite Hr in Hq.
    destruct pu as [pu|], mb as [mb|]; try done. by exists pr, pu, mb. }
  unfold handovers. rewrite Hk. split.
  - rewrite omap_concat, <- list_fmap_compose, dict_get_select, concat_filter,
      <- list_fmap_compose by done.
    rewrite <- (concat_split _ _ _ _ (fun x _ => Permutation_refl _)).
    apply concat_split. intros [seg m] Hx. unfold Basics.compose. cbn [fst snd].
    rewrite (Hh _ _ Hx). destruct (decide (global_seg r = Some seg)) as [He|He].
    + rewrite decide_False by naive_solver. by rewrite app_nil_r.
    + rewrite decide_True by done. destruct (Hshape _ _ Hx He) as (pr & pu & mb & ->).
      unfold public_slots. rewrite Hr. cbn. solve_Permutation.
  - rewrite <- (concat_singletons snd (omap (handover cfg r) _)), omap_concat, <- !list_fmap_compose, dict_get_select by done.
    apply concat_split. intros [seg m] Hx. unfold Basics.compose. cbn [fst snd].
    rewrite (Hh _ _ Hx). destruct (decide (global_seg r = Some seg)) as [He|He]; [done|].
    destruct (Hshape _ _ Hx He) as (pr & pu & mb & ->).
    unfold public_slots. rewrite Hr. cbn. done.
Qed.

Lemma finish_miss_rope T r s :
  is_rope cfg = true -> is_transition cfg = true -> no_collision T -> index_ok T s ->
  holds_rope T r ->
  wp (finish_miss cfg monotonic r true)
     (fun r' s' => same_inputs r r' /\
        gains T (concat (kv_of <$> (pic_miss_segment_slots r).*2))
                (concat (mb_of <$> (pic_miss_segment_slots r).*2)) s s')
     (fun _ _ => False) s.
Proof.
  intros Hr Htr HT Hok Hh. unfold finish_miss.
  destruct (pic_miss_segment_slots r) as [|x0 l0] eqn:Hsl.
  { apply wp_ret. split; [done|]. by apply gains_refl. }
  rewrite <- Hsl. apply wp_bind.
  eapply wp_mono; [apply (cache_unfinished_spec cfg monotonic T)| |done];
    [done|done|by destruct Hh|].
  intros r1 s1 (Hin & Hreg & _ & _ & _).
  destruct (release_split_rope T r r1 Hr Hh Hin) as [Hsk Hsm].
  pose proof (gains_registered _ _ _ _ Hreg) as Hg1. rewrite Hr, Htr.
  eapply (wp_frees T); [apply frees_skip|apply Hreg|]. intros s2 Hg2.
  eapply (wp_frees T); [apply frees_last_rope; [done|]|apply Hg2|].
  { intros m Hm. unfold global_slots, global_seg, segs_of in Hm.
    rewrite (si_segs _ _ Hin), (si_slots _ _ Hin) in Hm. fold (segs_of r) in Hm.
    change (if 1 <? len (segs_of r) then last (segs_of r) else None) with (global_seg r) in Hm.
    destruct (global_seg r) as [g|] eqn:Hgs; [|by apply not_elem_of_nil in Hm].
    cbn [mbind option_bind] in Hm.
    destruct (dict_get g _) as [m'|] eqn:Hgm; [|by apply not_elem_of_nil in Hm].
    apply list_elem_of_singleton in Hm as ->. by eapply (hr_global _ _ Hh). }
  intros s3 Hg3. eapply (wp_frees T); [apply frees_skip|apply Hg3|].
  intros s4 Hg4. eapply (wp_frees T); [apply frees_rope_private|apply Hg4|].
  { rewrite (si_slots _ _ Hin). apply (hr_rope _ _ Hh). }
  intros s5 Hg5. apply wp_ret. split; [done|].
  pose proof (gains_trans _ _ _ _ _ _ _ _ Hg1 (gains_trans _ _ _ _ _ _ _ _ Hg2
    (gains_trans _ _ _ _ _ _ _ _ Hg3 (gains_trans _ _ _ _ _ _ _ _ Hg4 Hg5)))) as Hg.
  rewrite (si_slots _ _ Hin) in Hg. eapply gains_perm; [exact Hg| |].
  - by rewrite Hsk.
  - rewrite Hsm, !app_nil_r. done.
Qed.


(** *** Registering twice *)

Lemma handovers_ext r r1 l :
  (forall seg, handover cfg r1 seg = handover cfg r seg) -> handovers cfg r1 l = handovers cfg r l.
Proof.
  intros He. unfold handovers. induction l as [|seg l IH]; [done|]. csimpl. by rewrite He, IH.
Qed.

(** Registration is not idempotent: a second [cache_unfinished_req] for
    the same request (as [cache_finished_req] issues after the post-prefill
    hook already registered it) returns its slots again although the index
    owns them, so a slot is both free and cached. *)
Theorem reregistration_duplicates T r s :
  no_collision T -> index_ok T s -> handover_ok cfg T r ->
  concat (handovers cfg r (pic_miss_segments r)).*1 <> [] ->
  wp (r' ← cache_unfinished_req cfg monotonic r; cache_unfinished_req cfg monotonic r')
     (fun _ s' => ~ NoDup (pool_slots (kv s') ++ entries_kv s')) (fun _ _ => False) s.
Proof.
  intros HT Hok Hh Hne. set (hs := handovers _ _ _) in Hne. apply wp_bind.
  eapply wp_mono; [by apply (cache_unfinished_spec cfg monotonic T)| |done].
  intros r1 s1 (Hin & Hreg & _).
  assert (forall seg, handover cfg r1 seg = handover cfg r seg) as Hheq.
  { intros seg. unfold handover. by rewrite (same_inputs_skip _ _ _ _ Hin), (si_slots _ _ Hin). }
  assert (handovers cfg r1 (pic_miss_segments r1) = hs) as Hhs.
  { unfold hs. rewrite (si_miss _ _ Hin). by apply handovers_ext. }
  eapply wp_mono; [apply (cache_unfinished_spec cfg monotonic T)| |done].
  - done.
  - apply Hreg.
  - intros seg Hseg Hsk. rewrite (si_miss _ _ Hin) in Hseg.
    rewrite (same_inputs_skip _ _ _ _ Hin) in Hsk. destruct (Hh seg Hseg Hsk) as [? ?].
    rewrite Hheq. split; [done|]. unfold seg_tokens. by rewrite (si_ids _ _ Hin).
  - intros r2 s2 (_ & Hreg2 & _) Hnd. rewrite Hhs in Hreg2.
    rewrite (rs_kv _ _ _ _ Hreg2), (rs_kv _ _ _ _ Hreg) in Hnd. fold hs in Hnd.
    destruct (concat hs.*1) as [|x l]; [done|].
    apply NoDup_app in Hnd as (_ & Hd & _). apply (Hd x); [|left].
    apply elem_of_app. right. left.
Qed.

End release.

Lemma holds_std_demo :
  holds_std (demo_cfg "transition" (-1)) [[5; 6]; [7; 8; 9]; [4]] reg_req.
Proof.
  split; [apply handover_ok_demo|done|eval_decide| | |].
  - intros x Hx. cbn in Hx. set_unfold in Hx.
    destruct Hx as [-> | [-> | [-> | []]]]; cbn; by eexists _, _.
  - by right.
  - intros _ seg _. reflexivity.
Qed.


(** A re-rotation request: private and public copies of the first segment,
    private copy of the global one. *)
Definition rope_req : Req :=
  demo_req_slots [5; 6; 4] [(0, 2); (2, 3)] [(0, 2); (2, 3)]
    [((0, 2), SlotsRope [1; 2] (Some [3; 4]) (Some 1)); ((2, 3), SlotsRope [5] None (Some 2))]
    None 3.
Definition rope_state : demo_engine := (demo_take 3 (demo_take 2 demo0).2).2.

Lemma holds_rope_demo :
  holds_rope (demo_cfg "transition_rope" (-1)) [[5; 6]; [4]] rope_req.
Proof.
  split.
  - intros seg Hin. cbn in Hin. set_unfold in Hin.
    destruct Hin as [-> | [-> | []]]; intros Hs; vm_compute in Hs; try done.
    split; [vm_compute; eauto|eval_decide].
  - done.
  - eval_decide.
  - intros x Hx. cbn in Hx. set_unfold in Hx.
    destruct Hx as [-> | [-> | []]]; cbn; by eexists _, _, _.
  - intros g m Hg Hm. injection Hg as <-. vm_compute in Hm. injection Hm as <-. by eexists _, _.
  - by right.
  - intros seg _. reflexivity.
Qed.


Lemma reregistration_duplicates_witness :
  wp (r' ← cache_unfinished_req (demo_cfg "transition" (-1)) demo_clock reg_req;
      cache_unfinished_req (demo_cfg "transition" (-1)) demo_clock r')
     (fun _ s' => ~ NoDup (pool_slots (kv s') ++ entries_kv s')) (fun _ _ => False) reg_state.
Proof.
  apply (reregistration_duplicates (demo_cfg "transition" (-1)) demo_clock
    [[5; 6]; [7; 8; 9]; [4]] reg_req reg_state).
  - eval_decide.
  - eval_decide.
  - apply handover_ok_demo.
  - vm_compute. discriminate.
Defined.

(** A prompt of one segment below pic_segment_min_tokens is neither
    cached nor freed: after its release slots 1 and 2 and its Mamba slot 1
    are owned by nobody, and the in-flight accounting still counts them. *)
Theorem short_single_segment_leaks :
  let cfg := demo_cfg "transition" 8 in
  let r := demo_req_slots [5; 6] [(0, 2)] [(0, 2)] [((0, 2), SlotsStd [1; 2] (Some 1))] None 2 in
  let s := add_inflight 2 1 (demo_take 2 demo0).2 in
  let res := cache_finished_req cfg demo_clock r true s in
  let s' := res.2 in
  (exists r', res.1 = Ret r') /\ entries s' = [] /\
  (1 ∉ pool_slots (kv s')) /\ (2 ∉ pool_slots (kv s')) /\ (1 ∉ pool_slots (mamba s')) /\
  inflight_full_tokens s' = 2 /\ inflight_mamba_slots s' = 1.
Proof.
  intros cfg r s res s'. split; [eexists; vm_compute; reflexivity|].
  split; [vm_compute; reflexivity|]. split; [eval_decide|]. split; [eval_decide|].
  split; [eval_decide|]. split; vm_compute; reflexivity.
Qed.
