(* ===== verification/PicAlloc.v ===== *)
(** * Slot allocation for a prefill batch (srt/pic/pic_alloc.py)

    For every request of the batch: a row of the request-to-token table, KV
    slots for the miss segments (in the re-rotation modes also public copies
    and private copies of the hits), a Mamba slot per cacheable segment, the
    row contents, and the in-flight accounting. *)

From stdpp Require Import strings.
From S2P Require Import Prelude PyDict Allocator Policy Segmenter Engine ReqPool ReqPoolFacts.
From S2P Require Import PICache PICacheFacts PICacheEvict PICacheReg PICacheRelease CacheCommon.
From S2P Require Import TokenAllocator MambaAllocator Scenario.

Section pic_alloc.
Context {KV MB : Type} `{AllocatorOps KV} `{AllocatorOps MB}.
Variable cfg : PICConfig.

#[local] Abbreviation E := (Engine KV MB).

Definition alloc_one_mamba : M E Z :=
  res ← mamba_alloc_m 1;
  match res with
  | Some l => of_option IndexError (l !! 0%nat)
  | None =>
      evicted ← lift (evict 0 1);
      if mamba_num_evicted evicted <=? 0 then raise RuntimeError
      else
        res ← mamba_alloc_m 1;
        match res with
        | Some l => of_option IndexError (l !! 0%nat)
        | None => raise RuntimeError
        end
  end.

Definition write_row (req_idx start end_ : Z) (slots : list Z) : M E unit :=
  on_pool (pool_write req_idx start end_ slots).

(** [sum(end - start for (start, end) in segs)]. *)
Definition seg_total (segs : list (Z * Z)) : Z := zsum ((fun seg => seg.2 - seg.1) <$> segs).

(** ** Addition and transition modes *)

Definition std_hit (r : Req) (req_idx : Z) (hit : Z * Z * list Z) : M E unit :=
  let '((start, end_), seg_hash) := hit in
  i ← of_option KeyError (dict_get seg_hash (pic_segment_entries r));
  s ← get;
  write_row req_idx start end_ (full_kv_slots (deref s i)).

(** Every segment but a short non-last one gets a Mamba slot. *)
Definition cacheable_local (r : Req) (seg : Z * Z) : bool :=
  negb (negb (bool_decide (last (segs_of r) = Some seg)) && too_short cfg seg.1 seg.2).

Definition std_miss (out_cache_loc : list Z) (req_idx : Z) (acc : Req * (Z * Z)) (seg : Z * Z)
    : M E (Req * (Z * Z)) :=
  let '(r, (cursor, total_mamba)) := acc in
  let n := seg.2 - seg.1 in
  let slot_chunk := pyslice out_cache_loc cursor (cursor + n) in
  mamba_slot ← (if cacheable_local r seg then m ← alloc_one_mamba; mret (Some m) else mret None);
  let r := set_pic_miss_segment_slots
             (dict_set seg (SlotsStd slot_chunk mamba_slot) (pic_miss_segment_slots r)) r in
  write_row req_idx seg.1 seg.2 slot_chunk;;
  mret (r, (cursor + n, total_mamba + count_some [mamba_slot])).

Definition std_req (out_cache_loc : list Z) (acc : list Req * (Z * Z)) (x : Z * Req)
    : M E (list Req * (Z * Z)) :=
  let '(reqs, (cursor, total_mamba)) := acc in
  let '(req_idx, r) := x in
  let r := set_pic_miss_segment_slots [] r in
  mfor (pic_hit_segments r) (std_hit r req_idx);;
  res ← mfold (std_miss out_cache_loc req_idx) (r, (cursor, total_mamba)) (pic_miss_segments r);
  mret (reqs ++ [res.1], res.2).

(** After the rows are allocated. *)
Definition std_fill (req_pool_indices : list Z) (reqs : list Req) : M E (list Z * list Req) :=
  let total_miss := zsum ((fun r => seg_total (pic_miss_segments r)) <$> reqs) in
  out_cache_loc ← alloc_token_slots total_miss;
  res ← mfold (std_req out_cache_loc) ([], (0, 0)) (zip req_pool_indices reqs);
  modify (add_inflight total_miss res.2.2);;
  mret (out_cache_loc, res.1).

Definition pic_alloc_standard (reqs : list Req) : M E (list Z * list Z * list Req) :=
  rows ← alloc_req_slots reqs;
  res ← std_fill rows.1 rows.2;
  mret (res.1, rows.1, res.2).

(** ** Re-rotation modes *)

(** Miss segments with a public copy: all but the last of a multi-segment
    prompt. *)
Definition local_miss (r : Req) : list (Z * Z) :=
  filter (fun seg => global_seg r <> Some seg) (pic_miss_segments r).

(** Slot of one position of the forward batch. *)
Definition slot_map : Type := list (Z * list Z).

Definition rope_hit (hit_priv_pool : list Z) (req_idx : Z)
    (acc : (Req * Z) * slot_map) (hit : Z * Z * list Z) : M E ((Req * Z) * slot_map) :=
  let '((r, hit_cursor), slot_at_pos) := acc in
  let '((start, end_), seg_hash) := hit in
  i ← of_option KeyError (dict_get seg_hash (pic_segment_entries r));
  let n := end_ - start in
  let private_slots := pyslice hit_priv_pool hit_cursor (hit_cursor + n) in
  s ← get;
  let r := set_pic_rope_hit_private_slots
             (dict_set (start, end_) (private_slots, full_kv_slots (deref s i))
                (pic_rope_hit_private_slots r)) r in
  write_row req_idx start end_ private_slots;;
  let slot_at_pos :=
    if recompute (policy cfg) then
      match dict_get (start, end_) (pic_hit_seam_positions r) with
      | None => slot_at_pos
      | Some seam =>
          foldl (fun d ap => dict_set ap (pyslice private_slots (ap - start) (ap - start + 1)) d)
            slot_at_pos seam
      end
    else slot_at_pos in
  mret ((r, hit_cursor + n), slot_at_pos).

Definition rope_miss (miss_priv_pool pub_pool : list Z) (req_idx : Z)
    (acc : (Req * (Z * (Z * Z))) * slot_map) (seg : Z * Z)
    : M E ((Req * (Z * (Z * Z))) * slot_map) :=
  let '((r, (miss_cursor, (pub_cursor, total_mamba))), slot_at_pos) := acc in
  let n := seg.2 - seg.1 in
  let private_slots := pyslice miss_priv_pool miss_cursor (miss_cursor + n) in
  let local := negb (bool_decide (global_seg r = Some seg)) in
  let public_slots := if local then Some (pyslice pub_pool pub_cursor (pub_cursor + n)) else None in
  let pub_cursor := if local then pub_cursor + n else pub_cursor in
  mamba_slot ← alloc_one_mamba;
  let r := set_pic_miss_segment_slots
             (dict_set seg (SlotsRope private_slots public_slots (Some mamba_slot))
                (pic_miss_segment_slots r)) r in
  write_row req_idx seg.1 seg.2 private_slots;;
  let slot_at_pos :=
    if recompute (policy cfg) then
      foldl (fun d ofs => dict_set (seg.1 + ofs) (pyslice private_slots ofs (ofs + 1)) d)
        slot_at_pos (pyrange 0 n)
    else slot_at_pos in
  mret ((r, (miss_cursor + n, (pub_cursor, total_mamba + 1))), slot_at_pos).

Definition rope_req (miss_priv_pool pub_pool hit_priv_pool : list Z)
    (acc : list (Req * slot_map) * ((Z * Z) * (Z * Z))) (x : Z * Req)
    : M E (list (Req * slot_map) * ((Z * Z) * (Z * Z))) :=
  let '(reqs, ((miss_cursor, pub_cursor), (hit_cursor, total_mamba))) := acc in
  let '(req_idx, r) := x in
  let r := set_pic_rope_hit_private_slots [] (set_pic_miss_segment_slots [] r) in
  hres ← mfold (rope_hit hit_priv_pool req_idx) ((r, hit_cursor), []) (pic_hit_segments r);
  let '((r, hit_cursor), slot_at_pos) := hres in
  mres ← mfold (rope_miss miss_priv_pool pub_pool req_idx)
           ((r, (miss_cursor, (pub_cursor, total_mamba))), slot_at_pos) (pic_miss_segments r);
  let '((r, (miss_cursor, (pub_cursor, total_mamba))), slot_at_pos) := mres in
  mret (reqs ++ [(r, slot_at_pos)], ((miss_cursor, pub_cursor), (hit_cursor, total_mamba))).

(** [slots = [slot_at_pos[int(p)] for p in pos.tolist()]] over the batch. *)
Definition recompute_out (reqs : list (Req * slot_map)) : M E (list Z) :=
  mfold (fun out x =>
    match pic_miss_token_positions x.1 with
    | None => mret out
    | Some pos =>
        mfold (fun out p => sl ← of_option KeyError (dict_get p x.2); mret (out ++ sl)) out pos
    end) [] reqs.

Definition rope_fill (req_pool_indices : list Z) (reqs : list Req) : M E (list Z * list Req) :=
  let total_miss_priv := zsum ((fun r => seg_total (pic_miss_segments r)) <$> reqs) in
  let total_local_miss_pub := zsum ((fun r => seg_total (local_miss r)) <$> reqs) in
  let total_hit := zsum ((fun r => seg_total (pic_hit_segments r).*1) <$> reqs) in
  let total_alloc := total_miss_priv + total_local_miss_pub + total_hit in
  all_slots ← alloc_token_slots total_alloc;
  let miss_priv_pool := slice_to all_slots total_miss_priv in
  let pub_pool := pyslice all_slots total_miss_priv (total_miss_priv + total_local_miss_pub) in
  let hit_priv_pool := slice_from all_slots (total_miss_priv + total_local_miss_pub) in
  res ← mfold (rope_req miss_priv_pool pub_pool hit_priv_pool) ([], ((0, 0), (0, 0)))
          (zip req_pool_indices reqs);
  out_cache_loc ← (if recompute (policy cfg) then recompute_out res.1 else mret miss_priv_pool);
  modify (add_inflight total_alloc res.2.2.2);;
  mret (out_cache_loc, res.1.*1).

Definition pic_alloc_transition_rope (reqs : list Req) : M E (list Z * list Z * list Req) :=
  rows ← alloc_req_slots reqs;
  res ← rope_fill rows.1 rows.2;
  mret (res.1, rows.1, res.2).

Definition pic_alloc_for_extend (reqs : list Req) : M E (list Z * list Z * list Req) :=
  if rope (policy cfg) then pic_alloc_transition_rope reqs else pic_alloc_standard reqs.

End pic_alloc.
