(* ===== verification/PicAllocFacts.v ===== *)
(** * Correctness of the prefill allocation (standard modes)

    [std_fill] succeeds whenever KV and Mamba capacity suffice, hands every
    request exactly the slots of its miss segments, writes hits and misses
    into its row, and accounts for what it took. *)

From stdpp Require Import strings.
From S2P Require Import Prelude PyDict Allocator Policy Segmenter Engine ReqPool ReqPoolFacts.
From S2P Require Import PICache PICacheFacts PICacheEvict PICacheReg PICacheRelease CacheCommon.
From S2P Require Import PicAlloc TokenAllocator MambaAllocator Scenario.

Section mamba_ledger.
Context {KV MB : Type} `{Allocator KV} `{Allocator MB}.
Implicit Types s : Engine KV MB.

(** The effect of handing out the Mamba slots [ms]. *)
Record ledger (ms : list Z) s s' : Prop := {
  lg_wf : index_wf s';
  lg_heap : heap s' = heap s;
  lg_kv : pool_slots (kv s') ++ entries_kv s' ≡ₚ pool_slots (kv s) ++ entries_kv s;
  lg_mamba : ms ++ pool_slots (mamba s') ++ entries_mamba s' ≡ₚ
             pool_slots (mamba s) ++ entries_mamba s;
  lg_ready : alloc_ready (mamba s');
  lg_kv_ready : alloc_ready (kv s) -> alloc_ready (kv s');
  lg_cap : mcap s' = mcap s - len ms;
  lg_tokens : inflight_full_tokens s' = inflight_full_tokens s;
  lg_slots : inflight_mamba_slots s' = inflight_mamba_slots s;
  lg_locked p : p ∈ entries s -> lock_ref (deref s p.2) <> 0 -> p ∈ entries s';
}.

Lemma ledger_refl s : index_wf s -> alloc_ready (mamba s) -> ledger [] s s.
Proof. intros. split; try done. change (len (@nil Z)) with 0. lia. Qed.

Lemma ledger_trans ms ms' s s1 s2 :
  ledger ms s s1 -> ledger ms' s1 s2 -> ledger (ms ++ ms') s s2.
Proof.
  intros [? Hh Hk Hm ? ? Hc ? ? Hl] [? Hh' Hk' Hm' ? ? Hc' ? ? Hl'].
  split; try done; try congruence.
  - by rewrite Hk', Hk.
  - rewrite <- Hm, <- Hm'. solve_Permutation.
  - auto.
  - rewrite Hc', Hc, len_app. lia.
  - intros p Hp Hne. apply Hl'; [by apply Hl|]. unfold deref. by rewrite Hh.
Qed.

Lemma ledger_pool ms s s' p : ledger ms s s' -> ledger ms s (set_pool p s').
Proof. by intros []. Qed.

(** Taking [m] out of a ready allocator that has a slot. *)
Lemma take_one s s' x a :
  index_wf s' -> alloc_ready (mamba s') -> alloc 1 (mamba s') = (Some x, a) ->
  ledger [] s s' -> exists m, x = [m] /\ ledger [m] s (set_mamba a s').
Proof.
  intros Hw Hr Ha Hl. pose proof (alloc_len _ _ _ _ (Z.le_0_1) Ha) as Hx.
  destruct x as [|m [|]]; [done| |]; cycle 1.
  { rewrite !len_cons in Hx. pose proof (len_nonneg l). lia. }
  exists m. split; [done|].
  pose proof (alloc_conserves _ _ _ _ (Z.le_0_1) Ha) as Hc. cbn [default from_option id] in Hc.
  pose proof (alloc_ready_preserved _ _ _ _ Hr Ha) as Hr'.
  apply (ledger_trans [] [m] s s'); [done|]. split; try done.
  - change (entries_mamba (set_mamba a s')) with (entries_mamba s').
    cbn [mamba set_mamba]. rewrite Hc. solve_Permutation.
  - unfold mcap. change (mamba_evictable_size (set_mamba a s')) with (mamba_evictable_size s').
    cbn [mamba set_mamba]. rewrite !ready_slots by done. rewrite (len_perm _ _ Hc).
    rewrite len_app. change (len [m]) with 1. lia.
Qed.

(** [_alloc_one_mamba] hands out one Mamba slot, evicting one cached segment
    when the pool is empty; it raises only when nothing is free or
    evictable. *)
Lemma alloc_one_mamba_spec s :
  index_wf s -> alloc_ready (mamba s) ->
  wp alloc_one_mamba
     (fun m s' => ledger [m] s s' /\ pool s' = pool s)
     (fun e s' => e = RuntimeError /\ mcap s <= 0 /\ ledger [] s s') s.
Proof.
  intros Hw Hr. unfold alloc_one_mamba. apply wp_bind.
  unfold mamba_alloc_m, wp at 1. destruct (alloc 1 (mamba s)) as [[x|] a] eqn:Ha.
  { destruct (take_one s s x a Hw Hr Ha (ledger_refl s Hw Hr)) as (m & -> & Hl).
    apply wp_ret. done. }
  pose proof (available_bound (mamba s)) as Hb.
  assert (available_size (mamba s) = 0) as Hz.
  { destruct (decide (1 <= available_size (mamba s))) as [Hge|]; [|lia].
    destruct (alloc_enough 1 (mamba s) Hr ltac:(lia)) as (x & a' & Hs). congruence. }
  set (s0 := set_mamba a s).
  assert (index_wf s0) as Hw0 by exact Hw.
  pose proof (alloc_ready_preserved _ _ _ _ Hr Ha) as Hr0.
  pose proof (alloc_failure _ _ _ Ha) as Hf.
  assert (ledger [] s s0) as Hl0.
  { split; try done.
    - cbn [mamba s0 set_mamba]. change (entries_mamba s0) with (entries_mamba s).
      by rewrite Hf.
    - unfold mcap. cbn [mamba s0 set_mamba].
      change (mamba_evictable_size s0) with (mamba_evictable_size s).
      rewrite !ready_slots by done. rewrite (len_perm _ _ Hf). change (len (@nil Z)) with 0. lia. }
  apply wp_bind, wp_lift.
  destruct (evict_spec 0 1 s0 Hw0) as (ev & rest & s1 & -> & Hev & Hc & Hend). cbn [fst snd].
  destruct Hc as [Hc|(_ & _ & ?)]; [|lia]. cbn [mamba_num_evicted].
  assert (mcap s = len ev + len rest) as Hcap.
  { unfold mcap. rewrite Hz. change (mamba_evictable_size s) with (mamba_evictable_size s0).
    rewrite mamba_evictable_candidates, <- Hc, len_app. lia. }
  pose proof (evicted_evictable _ _ _ _ Hw0 Hev Hc) as Hev'.
  destruct Hev as [Hfr Hw1 He Hk Hm Hka Hma]. destruct (Hma Hr0) as [Hr1 Hav1].
  assert (ledger [] s0 s1) as Hl1.
  { destruct Hfr. split; try done.
    - intros. by apply Hka.
    - unfold mcap. rewrite Hev', Hav1. change (len (@nil Z)) with 0. lia.
    - intros p Hp Hne. rewrite He. apply list_elem_of_filter. split; [|done]. intros Hin.
      assert (p.2 ∈ evict_candidates s0) as Hcand by (rewrite <- Hc; set_solver).
      rewrite evict_candidates_perm in Hcand. by apply list_elem_of_filter in Hcand as []. }
  pose proof (ledger_trans _ _ _ _ _ Hl0 Hl1) as Hl. cbn [app] in Hl.
  case_if; breflect.
  - apply wp_raise. split; [done|]. split; [|done]. destruct Hend as [[_ ?]| ->]; [lia|].
    change (len (@nil nat)) with 0 in Hcap. lia.
  - apply wp_bind. unfold wp at 1.
    pose proof (available_bound (mamba s0)).
    destruct (alloc_enough 1 (mamba s1) Hr1 ltac:(lia)) as (x & a' & Hs). rewrite Hs.
    destruct (take_one s s1 x a' Hw1 Hr1 Hs Hl) as (m & -> & Hlm). apply wp_ret.
    split; [done|]. cbn. by destruct Hfr.
Qed.

End mamba_ledger.

(** ** Chunks of the allocated slots *)

(** Consecutive slices of [out], one per segment, from [c] on. *)
Fixpoint chunks (out : list Z) (c : Z) (segs : list (Z * Z)) : list (list Z) :=
  match segs with
  | [] => []
  | seg :: segs' =>
      pyslice out c (c + (seg.2 - seg.1)) :: chunks out (c + (seg.2 - seg.1)) segs'
  end.

Lemma seg_total_cons seg segs : seg_total (seg :: segs) = (seg.2 - seg.1) + seg_total segs.
Proof. done. Qed.

Lemma seg_total_app l k : seg_total (l ++ k) = seg_total l + seg_total k.
Proof. unfold seg_total. by rewrite fmap_app, zsum_app. Qed.

Lemma chunks_app out c l k :
  chunks out c (l ++ k) = chunks out c l ++ chunks out (c + seg_total l) k.
Proof.
  revert c. induction l as [|seg l IH]; intros c.
  - cbn [app chunks]. by replace (c + seg_total []) with c by (cbn; lia).
  - cbn [app chunks]. rewrite IH, seg_total_cons. by rewrite Z.add_assoc.
Qed.

Lemma seg_total_nonneg segs : (forall seg, seg ∈ segs -> seg.1 <= seg.2) -> 0 <= seg_total segs.
Proof.
  induction segs as [|seg segs IH]; intros Hs; [done|]. rewrite seg_total_cons.
  specialize (IH (fun s Hin => Hs s (list_elem_of_further _ _ _ Hin))).
  specialize (Hs seg ltac:(left)). lia.
Qed.

Lemma chunks_concat out c segs :
  (forall seg, seg ∈ segs -> seg.1 <= seg.2) -> 0 <= c -> c + seg_total segs <= len out ->
  concat (chunks out c segs) = pyslice out c (c + seg_total segs).
Proof.
  revert c. induction segs as [|seg segs IH]; intros c Hs Hc Hl.
  - cbn. replace (c + 0) with c by lia.
    assert (c <= len out) by (change (seg_total []) with 0 in Hl; lia).
    rewrite pyslice_in_range by lia. by rewrite Z.sub_diag.
  - cbn [chunks concat]. rewrite seg_total_cons in *.
    pose proof (Hs seg ltac:(left)) as Hseg.
    pose proof (seg_total_nonneg segs (fun s Hin => Hs s (list_elem_of_further _ _ _ Hin))).
    rewrite IH; [|intros; apply Hs; by right|lia|lia].
    rewrite pyslice_app by lia. by rewrite Z.add_assoc.
Qed.

Lemma chunks_len out c segs :
  (forall seg, seg ∈ segs -> seg.1 <= seg.2) -> 0 <= c -> c + seg_total segs <= len out ->
  len <$> chunks out c segs = (fun seg => seg.2 - seg.1) <$> segs.
Proof.
  revert c. induction segs as [|seg segs IH]; intros c Hs Hc Hl; [done|].
  cbn [chunks]. rewrite !fmap_cons. rewrite seg_total_cons in *.
  pose proof (Hs seg ltac:(left)) as Hseg.
  pose proof (seg_total_nonneg segs (fun s Hin => Hs s (list_elem_of_further _ _ _ Hin))).
  rewrite len_pyslice by lia. rewrite IH; [|intros; apply Hs; by right|lia|lia].
  f_equal. lia.
Qed.

(** ** One request *)

Section request.
Context {KV MB : Type} `{Allocator KV} `{Allocator MB}.
Context (cfg : PICConfig).
Implicit Types s : Engine KV MB.

(** What one miss segment holds after allocation. *)
Definition miss_ok (r : Req) (x : Z * Z * MissSlots) : Prop :=
  exists k mb, x.2 = SlotsStd k mb /\ (is_Some mb <-> cacheable_local cfg r x.1 = true).

(** Mamba slots the miss segments [segs] need. *)
Definition mamba_need (r : Req) (segs : list (Z * Z)) : Z :=
  len (filter (fun seg => cacheable_local cfg r seg = true) segs).

Lemma mamba_need_cons r seg segs :
  mamba_need r (seg :: segs) =
  (if cacheable_local cfg r seg then 1 else 0) + mamba_need r segs.
Proof.
  unfold mamba_need. rewrite filter_cons. destruct (cacheable_local cfg r seg).
  - by rewrite decide_True, len_cons by done.
  - rewrite decide_False by done. lia.
Qed.

Lemma mamba_need_app r l k : mamba_need r (l ++ k) = mamba_need r l + mamba_need r k.
Proof. unfold mamba_need. by rewrite filter_app, len_app. Qed.

Lemma cacheable_local_slots r seg d :
  cacheable_local cfg (set_pic_miss_segment_slots d r) seg = cacheable_local cfg r seg.
Proof. done. Qed.

(** The Mamba slot of one segment. *)
Lemma std_mamba_spec r seg s :
  index_wf s -> alloc_ready (mamba s) ->
  (cacheable_local cfg r seg = true -> 0 < mcap s) ->
  wp (if cacheable_local cfg r seg then m ← alloc_one_mamba; mret (Some m) else mret None)
     (fun mb s' => ledger (option_list mb) s s' /\ pool s' = pool s /\
        (is_Some mb <-> cacheable_local cfg r seg = true))
     (fun _ _ => False) s.
Proof.
  intros Hw Hr Hc. destruct (cacheable_local cfg r seg).
  - apply wp_bind. eapply wp_mono; [by apply alloc_one_mamba_spec| |].
    + intros m s' [? ?]. apply wp_ret. split_and!; [done..|]. naive_solver.
    + intros e s' [_ ?]. specialize (Hc eq_refl). lia.
  - apply wp_ret. split; [by apply ledger_refl|]. split; [done|].
    split; [by intros []|done].
Qed.

(** The writes of the processed miss segments. *)
Definition slot_writes (l : list (Z * Z * MissSlots)) : list ((Z * Z) * list Z) :=
  (fun x => (x.1, kv_of x.2)) <$> l.

(** [pic_miss_segment_slots] of [r] replaced by [d]. *)
Lemma std_miss_spec out idx r d c m seg row s :
  index_wf s -> alloc_ready (mamba s) ->
  (cacheable_local cfg r seg = true -> 0 < mcap s) ->
  row_at (pool s) idx = Some row -> 0 <= seg.1 <= seg.2 -> seg.2 <= len row ->
  0 <= c -> c + (seg.2 - seg.1) <= len out -> dict_get seg d = None ->
  wp (std_miss cfg out idx (set_pic_miss_segment_slots d r, (c, m)) seg)
     (fun acc s' => exists mb,
        let x := (seg, SlotsStd (pyslice out c (c + (seg.2 - seg.1))) mb) in
        acc = (set_pic_miss_segment_slots (d ++ [x]) r,
               (c + (seg.2 - seg.1), m + len (option_list mb))) /\
        miss_ok r x /\ ledger (option_list mb) s s' /\
        pool s' = do_writes idx (slot_writes [x]) (pool s))
     (fun _ _ => False) s.
Proof.
  intros Hw Hr Hc Hrow Hseg Hfit Hc0 Hout Hd. unfold std_miss.
  rewrite cacheable_local_slots. apply wp_bind.
  eapply wp_mono; [by apply std_mamba_spec| |done]. intros mb s1 (Hl & Hp & Hmb).
  apply wp_bind. unfold write_row, on_pool, zoom, wp at 1. rewrite Hp.
  set (k := pyslice out c _).
  assert (len k = seg.2 - seg.1) as Hk by (unfold k; rewrite len_pyslice; lia).
  rewrite (pool_write_exact _ _ _ _ row) by done. apply wp_ret. exists mb.
  cbn [pic_miss_segment_slots set_pic_miss_segment_slots]. rewrite dict_set_fresh by done.
  split; [by destruct mb|]. split; [by exists k, mb|]. split; [by apply ledger_pool|].
  unfold slot_writes, do_writes, do_write. cbn. by rewrite (pool_write_exact _ _ _ _ row).
Qed.

Lemma do_writes_app idx ws ws' p : do_writes idx (ws ++ ws') p = do_writes idx ws' (do_writes idx ws p).
Proof. apply foldl_app. Qed.

(** The miss segments [segs] of one request have their slots. *)
Definition misses_done (out : list Z) (idx : Z) (r : Req) (c m : Z) (row : list Z) (s : Engine KV MB)
    (segs : list (Z * Z)) (acc : Req * (Z * Z)) (s' : Engine KV MB) : Prop :=
  exists l, acc = (set_pic_miss_segment_slots l r,
                   (c + seg_total segs, m + len (concat (mb_of <$> l.*2)))) /\
    l.*1 = segs /\ kv_of <$> l.*2 = chunks out c segs /\
    (forall x, x ∈ l -> miss_ok r x) /\
    ledger (concat (mb_of <$> l.*2)) s s' /\
    len (concat (mb_of <$> l.*2)) = mamba_need r segs /\
    (forall w, w ∈ slot_writes l -> fits (len row) w) /\
    pool s' = do_writes idx (slot_writes l) (pool s).

Lemma need_of_ok r seg k mb : miss_ok r (seg, SlotsStd k mb) -> len (option_list mb) = mamba_need r [seg].
Proof.
  intros (k' & mb' & [= <- <-] & Hiff). rewrite mamba_need_cons. change (mamba_need r []) with 0. cbn [fst] in Hiff.
  destruct (cacheable_local cfg r seg), mb as [v|]; try done; exfalso.
  - by destruct (proj2 Hiff eq_refl).
  - specialize (proj1 Hiff ltac:(eauto)). done.
Qed.

Lemma std_misses_step out idx r c m row s done_ seg acc s1 :
  index_wf s -> row_at (pool s) idx = Some row -> 0 <= seg.1 < seg.2 -> seg.2 <= len row -> seg ∉ done_ ->
  0 <= c -> 0 <= seg_total done_ -> c + seg_total done_ + (seg.2 - seg.1) <= len out ->
  mamba_need r (done_ ++ [seg]) <= mcap s ->
  misses_done out idx r c m row s done_ acc s1 ->
  wp (std_miss cfg out idx acc seg) (misses_done out idx r c m row s (done_ ++ [seg])) (fun _ _ => False) s1.
Proof.
  intros Hw Hrow Hseg Hfit Hnd Hc Ht0 Hout Hcap (l & -> & Hk & Hkv & Hok & Hl & Hlen & Hfits & Hp).
  destruct (do_writes_row idx (slot_writes l) (pool s) row Hrow Hfits) as (row' & Hrow' & Hlrow).
  rewrite <- Hp in Hrow'. rewrite mamba_need_app, mamba_need_cons in Hcap. change (mamba_need r []) with 0 in Hcap.
  eapply wp_mono; [eapply (std_miss_spec out idx r l _ _ seg row'); try lia; try apply Hl; try done| |done].
  - intros Hcl. rewrite Hcl in Hcap. rewrite (lg_cap _ _ _ Hl), Hlen. lia.
  - apply dict_get_None. by rewrite Hk.
  - intros acc s2 (mb & -> & Hmok & Hl2 & Hp2).
    set (k := pyslice out _ _) in *. set (x := (seg, SlotsStd k mb)) in *.
    exists (l ++ [x]). rewrite !fmap_app, concat_app.
    change (concat (mb_of <$> [x].*2)) with (option_list mb ++ []). rewrite app_nil_r.
    rewrite chunks_app. cbn [chunks]. fold k. rewrite seg_total_app, mamba_need_app.
    change (seg_total [seg]) with (seg.2 - seg.1 + 0). rewrite len_app. split_and!.
    + f_equal. f_equal; lia.
    + by rewrite Hk.
    + by rewrite Hkv.
    + intros y [?| ->%list_elem_of_singleton]%elem_of_app; auto.
    + by eapply ledger_trans.
    + by rewrite Hlen, (need_of_ok _ _ _ _ Hmok).
    + intros w. unfold slot_writes. rewrite fmap_app.
      intros [?| ->%list_elem_of_singleton]%elem_of_app; [by apply Hfits|].
      unfold fits, x. cbn [fst snd kv_of]. split; [lia|]. split; [done|]. unfold k. rewrite len_pyslice; lia.
    + unfold slot_writes. rewrite fmap_app, do_writes_app. fold (slot_writes l). rewrite <- Hp. exact Hp2.
Qed.

(** The miss loop of one request. *)
Lemma std_misses_spec out idx r c m row s segs :
  index_wf s -> alloc_ready (mamba s) -> mamba_need r segs <= mcap s ->
  row_at (pool s) idx = Some row ->
  (forall seg, seg ∈ segs -> 0 <= seg.1 < seg.2 /\ seg.2 <= len row) -> NoDup segs ->
  0 <= c -> c + seg_total segs <= len out ->
  wp (mfold (std_miss cfg out idx) (set_pic_miss_segment_slots [] r, (c, m)) segs)
     (misses_done out idx r c m row s segs) (fun _ _ => False) s.
Proof.
  intros Hw Hr Hcap Hrow Hsegs Hnd Hc Hout.
  assert (forall l, l ⊆ segs -> 0 <= seg_total l) as Hnn.
  { intros l Hl. apply seg_total_nonneg. intros seg Hin. destruct (Hsegs seg); [by apply Hl|lia]. }
  apply wp_mfold with (I := misses_done out idx r c m row s); [| |done].
  - exists []. change (seg_total []) with 0. change (len (concat _)) with 0.
    rewrite !Z.add_0_r. split_and!; try done; try (intros x Hx; by apply not_elem_of_nil in Hx). by apply ledger_refl.
  - intros done_ seg rest acc s1 Heq HI. destruct (Hsegs seg) as [Hseg Hfit]; [rewrite Heq; set_solver|].
    pose proof (Hnn done_ ltac:(rewrite Heq; set_solver)). pose proof (Hnn rest ltac:(rewrite Heq; set_solver)).
    rewrite Heq, mamba_need_app, mamba_need_cons in Hcap. rewrite Heq, seg_total_app, seg_total_cons in Hout.
    rewrite Heq in Hnd. apply NoDup_app in Hnd as (_ & Hd & _).
    apply std_misses_step; try done; try lia.
    + intros Hx. apply (Hd seg Hx). left.
    + rewrite mamba_need_app, mamba_need_cons. change (mamba_need r []) with 0.
      assert (0 <= mamba_need r rest) by apply len_nonneg. lia.
Qed.

(** ** Hits, and the whole request *)

Definition hit_entry (r : Req) (h : list Z) : nat := default 0%nat (dict_get h (pic_segment_entries r)).

Definition hit_writes s (r : Req) : list ((Z * Z) * list Z) :=
  (fun h => (h.1, full_kv_slots (deref s (hit_entry r h.2)))) <$> pic_hit_segments r.

(** The plan of a request fits its row [idx]: its hits are resolved and as
    long as their entries, and no two of its ranges overlap. *)
Record plan_ok s (idx : Z) (r : Req) : Prop := {
  po_row : exists row, row_at (pool s) idx = Some row /\
    (forall w, w ∈ hit_writes s r -> fits (len row) w) /\
    (forall seg, seg ∈ pic_miss_segments r -> 0 <= seg.1 < seg.2 /\ seg.2 <= len row);
  po_hits h : h ∈ pic_hit_segments r -> is_Some (dict_get h.2 (pic_segment_entries r));
  po_apart : ForallOrdPairs apart ((pic_hit_segments r).*1 ++ pic_miss_segments r);
}.

Lemma std_hits_spec r idx row s :
  row_at (pool s) idx = Some row -> (forall w, w ∈ hit_writes s r -> fits (len row) w) ->
  (forall h, h ∈ pic_hit_segments r -> is_Some (dict_get h.2 (pic_segment_entries r))) ->
  wp (mfor (pic_hit_segments r) (std_hit r idx))
     (fun _ s' => s' = set_pool (do_writes idx (hit_writes s r) (pool s)) s)
     (fun _ _ => False) s.
Proof.
  intros Hrow Hfit Hres. unfold mfor, hit_writes in *. set (f := fun h => _) in *.
  apply wp_mfold with (I := fun done_ _ s' =>
    s' = set_pool (do_writes idx (f <$> done_) (pool s)) s).
  - by destruct s.
  - intros done_ [[a b] h] rest _ s1 Heq ->. unfold std_hit.
    assert ((a, b, h) ∈ pic_hit_segments r) as Hin by (rewrite Heq; set_solver).
    destruct (Hres _ Hin) as [i Hi]. cbn [snd] in Hi. rewrite Hi.
    apply wp_bind, wp_ret, wp_bind, wp_get. unfold write_row, on_pool, zoom, wp.
    destruct (do_writes_row idx (f <$> done_) (pool s) row Hrow) as (row' & Hrow' & Hlen).
    { intros w Hw. apply Hfit. rewrite Heq, fmap_app. set_solver. }
    assert (f (a, b, h) = (a, b, full_kv_slots (deref s i))) as Hf.
    { unfold f, hit_entry. cbn [snd fst]. by rewrite Hi. }
    destruct (Hfit (f (a, b, h))) as (Hw1 & Hw2 & Hw3); [by apply list_elem_of_fmap_2|].
    rewrite Hf in Hw1, Hw2, Hw3. cbn [fst snd] in *.
    cbn [pool set_pool]. change (deref (set_pool _ s) i) with (deref s i).
    rewrite (pool_write_exact _ _ _ _ row') by (try done; lia).
    rewrite fmap_app, do_writes_app, list_fmap_singleton, Hf.
    match goal with |- context [do_writes idx [?w] ?q] =>
      change (do_writes idx [w] q) with (pool_write idx w.1.1 w.1.2 w.2 q).2 end.
    cbn [fst snd]. rewrite (pool_write_exact _ _ _ _ row') by (try done; lia). done.
  - done.
Qed.

Lemma apart_NoDup segs :
  ForallOrdPairs apart segs -> (forall seg, seg ∈ segs -> seg.1 < seg.2) -> NoDup segs.
Proof.
  induction 1 as [|seg segs Hall _ IH]; intros Hs; constructor.
  - intros Hin. rewrite Forall_forall in Hall. specialize (Hall _ Hin).
    specialize (Hs seg ltac:(left)). unfold apart in Hall. lia.
  - apply IH. intros; apply Hs; by right.
Qed.

Lemma ordpairs_app_r {A} (R : A -> A -> Prop) l k :
  ForallOrdPairs R (l ++ k) -> ForallOrdPairs R k.
Proof. induction l as [|x l IH]; [done|]. intros Hp. inversion Hp; subst. auto. Qed.

Lemma ordpairs_fmap {A B} (f : A -> B) (R : B -> B -> Prop) l :
  ForallOrdPairs R (f <$> l) -> ForallOrdPairs (fun a b => R (f a) (f b)) l.
Proof.
  induction l as [|x l IH]; intros Hp; [constructor|]. rewrite fmap_cons in Hp.
  inversion Hp as [|? ? Hall Hp']; subst. constructor; [|by apply IH].
  rewrite Forall_fmap in Hall. exact Hall.
Qed.

(** What a request holds and where: the outcome of the allocation. *)
Record allocated (p : ReqToTokenPool) s (idx : Z) (r r' : Req) : Prop := {
  al_slots : exists l, r' = set_pic_miss_segment_slots l r /\ l.*1 = pic_miss_segments r /\
    (forall x, x ∈ l -> miss_ok r x) /\
    row_holds p idx (hit_writes s r ++ slot_writes l);
}.

Lemma std_req_spec out reqs c m idx r s :
  index_wf s -> alloc_ready (mamba s) -> mamba_need r (pic_miss_segments r) <= mcap s ->
  plan_ok s idx r -> 0 <= c -> c + seg_total (pic_miss_segments r) <= len out ->
  wp (std_req cfg out (reqs, (c, m)) (idx, r))
     (fun acc s' => exists r' ms,
        acc = (reqs ++ [r'], (c + seg_total (pic_miss_segments r), m + len ms)) /\
        allocated (pool s') s idx r r' /\
        concat (kv_of <$> (pic_miss_segment_slots r').*2) =
          pyslice out c (c + seg_total (pic_miss_segments r)) /\
        concat (mb_of <$> (pic_miss_segment_slots r').*2) = ms /\
        len ms = mamba_need r (pic_miss_segments r) /\
        ledger ms s s' /\
        forall idx', idx' <> idx -> row_at (pool s') idx' = row_at (pool s) idx')
     (fun _ _ => False) s.
Proof.
  intros Hw Hr Hcap [(row & Hrow & Hfit & Hsegs) Hres Hap] Hc Hout. unfold std_req.
  apply wp_bind. eapply wp_mono; [by apply (std_hits_spec (set_pic_miss_segment_slots [] r) idx row)| |done].
  intros [] s1 ->. set (p1 := do_writes _ _ _).
  change (hit_writes s (set_pic_miss_segment_slots [] r)) with (hit_writes s r) in p1.
  destruct (do_writes_row idx _ (pool s) row Hrow Hfit) as (row1 & Hrow1 & Hlen1).
  assert (NoDup (pic_miss_segments r)) as Hnd.
  { apply apart_NoDup; [by eapply ordpairs_app_r|]. intros seg Hin. destruct (Hsegs seg Hin). lia. }
  apply wp_bind. cbn [pic_miss_segments set_pic_miss_segment_slots].
  eapply wp_mono; [apply (std_misses_spec out idx r c m row1)| |done]; try done.
  { intros seg Hin. rewrite Hlen1. by apply Hsegs. }
  intros acc s2 (l & -> & Hk & Hkv & Hok & Hl & Hlm & Hfl & Hp). apply wp_ret.
  exists (set_pic_miss_segment_slots l r), (concat (mb_of <$> l.*2)).
  split; [done|]. cbn [pool set_pool] in Hp.
  assert (forall w, w ∈ hit_writes s r ++ slot_writes l -> fits (len row) w) as Hall.
  { intros w [?|?]%elem_of_app; [by apply Hfit|]. rewrite <- Hlen1. by apply Hfl. }
  assert (pool s2 = do_writes idx (hit_writes s r ++ slot_writes l) (pool s)) as Hp2.
  { by rewrite do_writes_app. }
  split_and!.
  - split. exists l. split_and!; try done. rewrite Hp2. eapply row_holds_writes; [done|done|].
    apply (ordpairs_fmap fst). rewrite fmap_app. unfold hit_writes, slot_writes.
    rewrite <- !list_fmap_compose. unfold Basics.compose. cbn [fst].
    by rewrite <- Hk in Hap.
  - cbn [pic_miss_segment_slots set_pic_miss_segment_slots]. rewrite Hkv. apply chunks_concat.
    + intros seg Hin. destruct (Hsegs seg Hin). lia.
    + done.
    + done.
  - done.
  - done.
  - by destruct Hl.
  - intros idx' Hne. rewrite Hp2. by eapply do_writes_other.
Qed.

End request.

(** ** The batch *)

Section batch.
Context {KV MB : Type} `{Allocator KV} `{Allocator MB}.
Context (cfg : PICConfig).
Implicit Types s : Engine KV MB.

Definition batch_miss (reqs : list Req) : Z :=
  zsum ((fun r => seg_total (pic_miss_segments r)) <$> reqs).
Definition batch_mamba (reqs : list Req) : Z :=
  zsum ((fun r => mamba_need cfg r (pic_miss_segments r)) <$> reqs).

(** KV and Mamba slots recorded on the requests. *)
Definition held_kv (reqs : list Req) : list Z :=
  concat ((fun r => concat (kv_of <$> (pic_miss_segment_slots r).*2)) <$> reqs).
Definition held_mamba (reqs : list Req) : list Z :=
  concat ((fun r => concat (mb_of <$> (pic_miss_segment_slots r).*2)) <$> reqs).

Lemma plan_ok_ext s s' idx r :
  heap s' = heap s -> row_at (pool s') idx = row_at (pool s) idx ->
  plan_ok s idx r -> plan_ok s' idx r.
Proof.
  intros Hh Hr [(row & Hrow & Hf & Hs) Hres Hap].
  assert (hit_writes s' r = hit_writes s r) as Hw.
  { unfold hit_writes, deref. by rewrite Hh. }
  split; [|done|done]. exists row. rewrite Hr, Hw. done.
Qed.

Lemma batch_miss_nonneg s rows reqs :
  Forall2 (plan_ok s) rows reqs -> 0 <= batch_miss reqs.
Proof.
  induction 1 as [|idx r rows reqs [(row & _ & _ & Hs) _ _] _ IH]; [done|].
  unfold batch_miss in *. rewrite fmap_cons, zsum_cons.
  assert (0 <= seg_total (pic_miss_segments r)); [|lia].
  apply seg_total_nonneg. intros seg Hin. destruct (Hs seg Hin). lia.
Qed.

Lemma batch_mamba_nonneg reqs : 0 <= batch_mamba reqs.
Proof.
  induction reqs as [|r reqs IH]; [done|]. unfold batch_mamba in *.
  rewrite fmap_cons, zsum_cons. pose proof (len_nonneg
    (filter (fun seg => cacheable_local cfg r seg = true) (pic_miss_segments r))).
  unfold mamba_need at 1. lia.
Qed.

(** The loop over the batch: distinct rows, enough slots in [out]. *)
Lemma std_batch_spec out rows reqs : forall acc c m s,
  index_wf s -> alloc_ready (mamba s) -> NoDup rows -> Forall2 (plan_ok s) rows reqs ->
  batch_mamba reqs <= mcap s -> 0 <= c -> c + batch_miss reqs <= len out ->
  wp (mfold (std_req cfg out) (acc, (c, m)) (zip rows reqs))
     (fun res s' => exists reqs',
        res = (acc ++ reqs', (c + batch_miss reqs, m + len (held_mamba reqs'))) /\
        length reqs' = length reqs /\
        (forall k idx r r', rows !! k = Some idx -> reqs !! k = Some r -> reqs' !! k = Some r' ->
           allocated cfg (pool s') s idx r r') /\
        held_kv reqs' = pyslice out c (c + batch_miss reqs) /\
        ledger (held_mamba reqs') s s' /\
        forall idx, idx ∉ rows -> row_at (pool s') idx = row_at (pool s) idx)
     (fun _ _ => False) s.
Proof.
  revert reqs. induction rows as [|idx rows IH]; intros reqs acc c m s Hw Hr Hnd Hpl Hcap Hc Hout.
  { inversion Hpl; subst. apply wp_ret. exists []. change (batch_miss []) with 0.
    change (len (held_mamba [])) with 0. rewrite !Z.add_0_r, app_nil_r.
    split_and!; try done; [|by apply ledger_refl].
    change (held_kv []) with (@nil Z). assert (c <= len out) by (change (batch_miss []) with 0 in Hout; lia).
    rewrite pyslice_in_range by lia. by rewrite Z.sub_diag. }
  inversion Hpl as [|? r ? reqs0 Hp0 Hpl0]; subst. apply NoDup_cons in Hnd as [Hni Hnd].
  pose proof (batch_miss_nonneg _ _ _ Hpl0) as Hb0.
  pose proof (batch_mamba_nonneg reqs0) as Hm0.
  assert (batch_miss (r :: reqs0) = seg_total (pic_miss_segments r) + batch_miss reqs0) as Hbm by done.
  assert (batch_mamba (r :: reqs0) = mamba_need cfg r (pic_miss_segments r) + batch_mamba reqs0)
    as Hbb by done. rewrite Hbm, Hbb in *.
  assert (0 <= seg_total (pic_miss_segments r)) as Hs0.
  { destruct (po_row _ _ _ Hp0) as (row & _ & _ & Hs). apply seg_total_nonneg.
    intros seg Hin. destruct (Hs seg Hin). lia. }
  cbn [zip zip_with mfold]. apply wp_bind.
  eapply wp_mono; [apply (std_req_spec cfg out acc c m idx r s)| |done]; [done|done|lia|done|done|lia|].
  intros acc1 s1 (r' & ms & -> & Hal & Hkv & Hms & Hlm & Hl & Hoth).
  assert (Forall2 (plan_ok s1) rows reqs0) as Hpl1.
  { eapply Forall2_impl_in; [exact Hpl0|]. intros x y Hx. apply plan_ok_ext; [by destruct Hl|].
    apply Hoth. by intros ->. }
  eapply wp_mono; [apply (IH reqs0)| |done]; [apply Hl|apply Hl|done|done| |lia|lia|].
  { rewrite (lg_cap _ _ _ Hl), Hlm. lia. }
  intros res s2 (reqs' & -> & Hlen & Hall & Hkv' & Hl' & Hoth').
  assert (held_mamba (r' :: reqs') = ms ++ held_mamba reqs') as Hhm.
  { unfold held_mamba. rewrite fmap_cons. cbn [concat]. by rewrite Hms. }
  exists (r' :: reqs'). rewrite Hhm. split_and!.
  - rewrite <- app_assoc, len_app. f_equal. f_equal; lia.
  - cbn [length]. by rewrite Hlen.
  - intros [|k] idx1 r1 r1' H1' H2' H3'; cbn in H1', H2', H3'.
    + injection H1' as <-. injection H2' as <-. injection H3' as <-.
      destruct Hal as [(l & ? & ? & ? & Hrh)]. split. exists l. split_and!; try done.
      eapply row_holds_ext; [|exact Hrh]. by apply Hoth'.
    + destruct (Hall k idx1 r1 r1' H1' H2' H3') as [(l & ? & ? & ? & Hrh)].
      split. exists l. split_and!; try done.
      assert (hit_writes s1 r1 = hit_writes s r1) as <-; [|done].
      unfold hit_writes, deref. by rewrite (lg_heap _ _ _ Hl).
  - unfold held_kv. rewrite fmap_cons. cbn [concat]. rewrite Hkv.
    fold (held_kv reqs'). rewrite Hkv', pyslice_app by lia. f_equal. lia.
  - by eapply ledger_trans.
  - intros idx' [Hne Hn]%not_elem_of_cons. rewrite Hoth' by done. by apply Hoth.
Qed.

(** The outcome of the allocation: [out_cache_loc], the requests with their
    slots, and the engine. *)
Record std_filled (rows : list Z) (reqs : list Req) s (out : list Z) (reqs' : list Req) s' : Prop := {
  sf_len : len out = batch_miss reqs;
  sf_held : held_kv reqs' = out;
  sf_kv : out ++ pool_slots (kv s') ++ entries_kv s' ≡ₚ pool_slots (kv s) ++ entries_kv s;
  sf_mamba : held_mamba reqs' ++ pool_slots (mamba s') ++ entries_mamba s' ≡ₚ pool_slots (mamba s) ++ entries_mamba s;
  sf_req k idx r r' : rows !! k = Some idx -> reqs !! k = Some r -> reqs' !! k = Some r' -> allocated cfg (pool s') s idx r r';
  sf_tokens : inflight_full_tokens s' = inflight_full_tokens s + batch_miss reqs;
  sf_slots : inflight_mamba_slots s' = inflight_mamba_slots s + len (held_mamba reqs');
}.

Lemma std_fill_spec rows reqs s :
  index_wf s -> alloc_ready (kv s) -> alloc_ready (mamba s) -> NoDup rows ->
  Forall2 (plan_ok s) rows reqs ->
  batch_miss reqs <= capacity s -> batch_mamba reqs <= mcap s ->
  wp (std_fill cfg rows reqs) (fun res s' => std_filled rows reqs s res.1 res.2 s') (fun _ _ => False) s.
Proof.
  intros Hw Hrk Hrm Hnd Hpl Hck Hcm. unfold std_fill. fold (batch_miss reqs).
  pose proof (batch_miss_nonneg _ _ _ Hpl) as Hn. apply wp_bind.
  eapply wp_mono; [by apply alloc_token_slots_wp| |]; cycle 1.
  { intros e s' (_ & ? & _). lia. }
  intros out s1 (_ & Hlen & Hw1 & _ & Hfr & Hmc & Hk & Hm & _).
  destruct (Hmc Hrm) as [Hrm1 Hcap1]. apply wp_bind.
  assert (Forall2 (plan_ok s1) rows reqs) as Hpl1.
  { eapply Forall2_impl_in; [exact Hpl|]. intros x y _. destruct Hfr.
    apply plan_ok_ext; congruence. }
  eapply wp_mono; [apply (std_batch_spec out rows reqs [] 0 0 s1)| |done];
    [done|done|done|done|lia|lia|lia|].
  intros res s2 (reqs' & -> & _ & Hall & Hkv & Hl & _). cbn [fst snd app].
  apply wp_bind, wp_modify, wp_ret. destruct Hl as [Hw2 Hh2 Hk2 Hm2 _ _ _ Ht2 Hs2 _].
  assert (held_kv reqs' = out) as Hout.
  { rewrite Hkv, Z.add_0_l, <- Hlen. apply pyslice_all. }
  split; try done.
  - etrans; [|exact Hk]. by apply Permutation_app_head.
  - by rewrite <- Hm, <- Hm2.
  - intros k idx r r' H1' H2' H3'. destruct (Hall k idx r r' H1' H2' H3') as [(l & ? & ? & ? & Hrh)].
    split. exists l. split_and!; try done.
    assert (hit_writes s1 r = hit_writes s r) as <-; [|done].
    unfold hit_writes, deref. by rewrite (ef_heap _ _ Hfr).
  - cbn. rewrite Ht2. by rewrite (ef_tokens _ _ Hfr).
  - cbn [inflight_mamba_slots add_inflight set_inflight_mamba_slots fst snd]. rewrite Hs2, (ef_slots _ _ Hfr). cbn. lia.
Qed.

(** C11. The prefill allocation is complete and exact (addition and
    transition modes): with enough free or evictable KV and Mamba slots it
    never raises; the slots recorded on the requests are exactly
    [out_cache_loc], in input order; pools, index and requests together keep
    every slot; every request's row holds its hits' cached slots and its
    misses' new slots; the in-flight counters grow by what was taken. *)
Theorem std_fill_correct rows reqs s :
  index_wf s -> alloc_ready (kv s) -> alloc_ready (mamba s) -> NoDup rows ->
  Forall2 (plan_ok s) rows reqs ->
  batch_miss reqs <= capacity s -> batch_mamba reqs <= mcap s ->
  wp (std_fill cfg rows reqs)
     (fun res s' => let '(out, reqs') := res in
        len out = batch_miss reqs /\ held_kv reqs' = out /\
        out ++ pool_slots (kv s') ++ entries_kv s' ≡ₚ pool_slots (kv s) ++ entries_kv s /\
        held_mamba reqs' ++ pool_slots (mamba s') ++ entries_mamba s' ≡ₚ
          pool_slots (mamba s) ++ entries_mamba s /\
        (forall k idx r r', rows !! k = Some idx -> reqs !! k = Some r -> reqs' !! k = Some r' ->
           allocated cfg (pool s') s idx r r') /\
        inflight_full_tokens s' = inflight_full_tokens s + batch_miss reqs /\
        inflight_mamba_slots s' = inflight_mamba_slots s + len (held_mamba reqs'))
     (fun _ _ => False) s.
Proof.
  intros. eapply wp_mono; [by apply std_fill_spec| |done]. by intros [out reqs'] s' [].
Qed.

End batch.

(** A prompt of three segments whose middle one is cached. *)
Definition fill_state : demo_engine := demo_cache [7; 8; 9] demo0.
Definition fill_req : Req :=
  set_pic_segment_entries [(segment_hash [7; 8; 9], 0%nat)]
    (set_pic_miss_segments [(0, 2); (5, 6)]
       (set_pic_hit_segments [((2, 5), segment_hash [7; 8; 9])]
          (demo_req [5; 6; 7; 8; 9; 4] [(0, 2); (2, 5); (5, 6)]))).

Lemma hit_entry_demo : hit_entry fill_req (segment_hash [7; 8; 9]) = 0%nat.
Proof. unfold hit_entry. cbn. by rewrite decide_True. Qed.

Lemma fill_plan_ok : plan_ok fill_state 1 fill_req.
Proof.
  split.
  - exists (replicate 32 0). split; [vm_compute; reflexivity|]. split.
    + intros w Hw. unfold hit_writes in Hw. cbn [fill_req pic_hit_segments set_pic_segment_entries
        set_pic_miss_segments set_pic_hit_segments] in Hw.
      rewrite list_fmap_singleton in Hw. apply list_elem_of_singleton in Hw as ->.
      cbn [fst snd]. rewrite hit_entry_demo.
      assert (full_kv_slots (deref fill_state 0) = [1; 2; 3]) as -> by (vm_compute; reflexivity).
      unfold fits. cbn [fst snd]. split; [lia|]. split; [vm_compute; discriminate|reflexivity].
    + intros seg Hin. cbn in Hin. set_unfold in Hin.
      change (len (replicate 32 0)) with 32.
      destruct Hin as [-> | [-> | []]]; cbn; lia.
  - intros h Hin. cbn in Hin. apply list_elem_of_singleton in Hin as ->. cbn.
    rewrite decide_True by done. by eexists.
  - cbn. repeat constructor; unfold apart; cbn; lia.
Qed.

Lemma std_fill_correct_witness :
  wp (std_fill (demo_cfg "transition" (-1)) [1] [fill_req])
     (fun res s' => let '(out, reqs') := res in
        len out = batch_miss [fill_req] /\ held_kv reqs' = out /\
        out ++ pool_slots (kv s') ++ entries_kv s' ≡ₚ
          pool_slots (kv fill_state) ++ entries_kv fill_state /\
        held_mamba reqs' ++ pool_slots (mamba s') ++ entries_mamba s' ≡ₚ
          pool_slots (mamba fill_state) ++ entries_mamba fill_state /\
        (forall k idx r r', [1] !! k = Some idx -> [fill_req] !! k = Some r ->
           reqs' !! k = Some r' ->
           allocated (demo_cfg "transition" (-1)) (pool s') fill_state idx r r') /\
        inflight_full_tokens s' = inflight_full_tokens fill_state + batch_miss [fill_req] /\
        inflight_mamba_slots s' = inflight_mamba_slots fill_state + len (held_mamba reqs'))
     (fun _ _ => False) fill_state.
Proof.
  apply (std_fill_correct (demo_cfg "transition" (-1)) [1] [fill_req] fill_state).
  - apply (index_ok_wf [[7; 8; 9]]). eval_decide.
  - vm_compute. split; [reflexivity|intros _; reflexivity].
  - vm_compute. reflexivity.
  - repeat constructor. apply not_elem_of_nil.
  - constructor; [apply fill_plan_ok|constructor].
  - vm_compute. discriminate.
  - vm_compute. discriminate.
Defined.
