(* ===== verification/Scatter.v ===== *)
(** * The scatter/combine transfer plane (srt/pic/scatter_xfer.py)

    A prompt's segments are prefilled on scatter workers and pushed into the
    combine worker's cache.  The combine side pre-allocates destination slots
    ([alloc_dst]), stashes them as pending and injects them when the transfer
    notifications arrive ([drain_injects]); the worker side pins the source
    entry while a write is in flight ([start_write], [drain_writes]).  One
    [Sched] record holds both sides' state, since one engine can play both
    roles.

    What comes from outside is an argument of the operation that reads it:
    the notifications and transfer states of the NIXL agent, the transfer
    handles its send primitives return, the outcome of an HTTP post and of
    the device-buffer queries.  An absent attribute and an empty container
    behave alike in the source and are one value here. *)

From stdpp Require Import strings.
From S2P Require Import Prelude PyDict Allocator Policy Segmenter Engine ReqPool PICache.
From S2P Require Import CacheCommon PicAlloc.

(** ** Wire formats *)

(** [str.encode("utf-8")] of a list of code points. *)
Definition utf8_char (c : Z) : list Z :=
  if c <? 128 then [c]
  else if c <? 2048 then [192 + c / 64; 128 + c mod 64]
  else if c <? 65536 then [224 + c / 4096; 128 + (c / 64) mod 64; 128 + c mod 64]
  else [240 + c / 262144; 128 + (c / 4096) mod 64; 128 + (c / 64) mod 64; 128 + c mod 64].
Definition utf8 (s : list Z) : list Z := concat (utf8_char <$> s).

Definition FNV_OFFSET : Z := 0xCBF29CE484222325.
Definition FNV_PRIME : Z := 0x100000001B3.
Definition MASK64 : Z := 0xFFFFFFFFFFFFFFFF.

Definition fnv_step (h b : Z) : Z := Z.land (Z.lxor h b * FNV_PRIME) MASK64.
Definition text_hash (s : list Z) : Z := foldl fnv_step FNV_OFFSET (utf8 s).

(** Decimal digits of an integer, as ASCII codes. *)
Fixpoint dec_go (fuel : nat) (n : Z) (acc : list Z) : list Z :=
  match fuel with
  | O => acc
  | S fuel' =>
      let acc := 48 + n mod 10 :: acc in
      if n / 10 =? 0 then acc else dec_go fuel' (n / 10) acc
  end.
Definition dec (n : Z) : list Z :=
  let digits m := dec_go (S (Z.to_nat (Z.log2 m))) m [] in
  if n <? 0 then 45 :: digits (- n) else digits n.

(** [int(b)] of an ASCII decimal (an optional sign and digits). *)
Definition digit (c : Z) : option Z := if (48 <=? c) && (c <=? 57) then Some (c - 48) else None.
Definition undec_go (l : list Z) (acc : option Z) : option Z :=
  foldl (fun acc c => a ← acc; d ← digit c; Some (a * 10 + d)) acc l.
Definition undec (l : list Z) : outcome Z :=
  let parse m := match m with
                 | [] => Raise ValueError
                 | _ => match undec_go m (Some 0) with
                        | Some n => Ret n
                        | None => Raise ValueError
                        end
                 end in
  match l with
  | 45 :: m => match parse m with Ret n => Ret (- n) | Raise e => Raise e end
  | _ => parse l
  end.

Definition BAR : Z := 124.
Definition TAG_KV : list Z := [107; 118].
Definition TAG_MAMBA : list Z := [109; 97; 109; 98; 97].
(** [f"{room}|{seg_index}|kv"] and [f"{room}|{seg_index}|mamba"]. *)
Definition tag (room seg_index : Z) (kind : list Z) : list Z :=
  dec room ++ BAR :: dec seg_index ++ BAR :: kind.

(** ** Data *)

(** A value of [_pic_scatter_pending]. *)
Record Pending := mkPending {
  pd_kv_slots : list Z;
  pd_mamba_slot : Z;
  pd_n_tokens : Z;
  pd_seg_hash : list Z;
  pd_token_ids : list Z;
}.

(** The destination handle; the agent metadata and device addresses are
    opaque. *)
Record Handle := mkHandle {
  h_room : Z;
  h_seg_index : Z;
  h_agent_meta : list Z;
  h_dst_kv_indices : list Z;
  h_dst_state_indices : list Z;
  h_buffers : list Z;
  h_notif_kv : list Z;
  h_notif_mamba : list Z;
}.

(** An item of [req.pic_combine]; the worker address by its URL port. *)
Record CombineItem := mkCombine {
  ci_seg_index : Z;
  ci_worker_port : option Z;
  ci_room : Z;
}.

Record ScatterMeta := mkMeta {
  sm_combine_port : option Z;
  sm_scatter_room : Z;
  sm_seg_index : Z;
}.

(** A request with its scatter routing fields. *)
Record SReq := mkSReq {
  rid : Z;
  base : Req;
  scatter_meta : option ScatterMeta;
  pic_combine : option (list CombineItem);
  combine_hashes : list (list Z);
  is_pic_combine : bool;
  finished_reason : bool;
  req_priority : option Z;
  wait_queue_entry_time : Z;
}.

Definition set_base (v : Req) (r : SReq) : SReq :=
  mkSReq (rid r) v (scatter_meta r) (pic_combine r) (combine_hashes r) (is_pic_combine r)
    (finished_reason r) (req_priority r) (wait_queue_entry_time r).
Definition set_combine (hs : list (list Z)) (r : SReq) : SReq :=
  mkSReq (rid r) (base r) (scatter_meta r) (pic_combine r) hs true (finished_reason r)
    (req_priority r) (wait_queue_entry_time r).
Definition set_finished (r : SReq) : SReq :=
  mkSReq (rid r) (base r) (scatter_meta r) (pic_combine r) (combine_hashes r) (is_pic_combine r)
    true (req_priority r) (wait_queue_entry_time r).
Definition set_priority (v : option Z) (r : SReq) : SReq :=
  mkSReq (rid r) (base r) (scatter_meta r) (pic_combine r) (combine_hashes r) (is_pic_combine r)
    (finished_reason r) v (wait_queue_entry_time r).
Definition set_wait_queue_entry_time (v : Z) (r : SReq) : SReq :=
  mkSReq (rid r) (base r) (scatter_meta r) (pic_combine r) (combine_hashes r) (is_pic_combine r)
    (finished_reason r) (req_priority r) v.

(** The scheduler's queueing options. *)
Record QueueConfig := mkQueue {
  max_queued_requests : option Z;
  enable_priority_scheduling : bool;
  schedule_low_priority_values_first : bool;
  abort_on_priority_when_disabled : bool;
}.

Record Parked := mkParked {
  pk_req : SReq;
  pk_hashes : list (list Z);
  pk_deadline : Z;
}.

Record PushItem := mkPush {
  pp_room : Z;
  pp_seg_index : Z;
  pp_seg_hash : list Z;
  pp_deadline : Z;
}.

#[global] Instance PushItem_eq_dec : EqDecision PushItem.
Proof. solve_decision. Defined.

Record WriteItem := mkWrite {
  wi_handles : list Z;
  wi_seg_hash : list Z;
  wi_room : Z;
  wi_seg_index : Z;
  wi_deadline : Z;
}.

#[global] Instance WriteItem_eq_dec : EqDecision WriteItem.
Proof. solve_decision. Defined.

Inductive XferState := DONE | ERR | PROC.

#[global] Instance XferState_eq_dec : EqDecision XferState.
Proof. solve_decision. Defined.

Inductive DisaggregationMode := NULL | PREFILL | DECODE.

#[global] Instance DisaggregationMode_eq_dec : EqDecision DisaggregationMode.
Proof. solve_decision. Defined.

(** [l.remove(x)]: the first equal element. *)
Fixpoint list_remove {A} `{EqDecision A} (x : A) (l : list A) : list A :=
  match l with
  | [] => []
  | y :: l' => if decide (y = x) then l' else y :: list_remove x l'
  end.

(** The transfer agent of a worker as one operation sees it: the send
    primitives with the handles they return (the peer lookup included) or
    their exception, and, when PIC_SYNC_WRITE=1, how waiting for given
    handles ends. *)
Record Agent := mkAgent {
  send_kvcache : Handle -> SegmentEntry -> outcome (option Z);
  maybe_send_extra : Handle -> SegmentEntry -> list Z -> outcome (list Z);
  sync_write : option (list Z -> outcome unit);
}.

Section scatter.
Context {KV MB : Type} `{AllocatorOps KV} `{AllocatorOps MB}.
Variable cfg : PICConfig.
Variable monotonic : nat -> Z.
(** [server_args.port], [disaggregation_mode], [pic_scatter_timeout_s] and the
    10 s bound of an in-flight write, in clock units. *)
Variable port : Z.
Variable mode : DisaggregationMode.
Variable scatter_timeout write_timeout : Z.

Record Sched := mkSched {
  eng : Engine KV MB;
  scatter_pending : list ((Z * Z) * Pending);
  seen_notifs : list (list Z);
  seg_recomputed : list ((Z * Z) * bool);
  combine_parked : list Parked;
  scatter_handles : list ((Z * Z) * Handle);
  push_pending : list PushItem;
  write_inflight : list WriteItem;
  push_recomputed : list ((Z * Z) * bool);
  hit_retire : list (SReq * list Z);
  waiting_queue : list SReq;
  bootstrap_queue : list SReq;
  decode_queue : list SReq;
  aborted : list Z;
  streamed : list SReq;
}.

Definition set_eng (v : Engine KV MB) (s : Sched) : Sched :=
  mkSched v (scatter_pending s) (seen_notifs s) (seg_recomputed s) (combine_parked s)
    (scatter_handles s) (push_pending s) (write_inflight s) (push_recomputed s) (hit_retire
    s) (waiting_queue s) (bootstrap_queue s) (decode_queue s) (aborted s) (streamed s).
Definition set_scatter_pending (v : list ((Z * Z) * Pending)) (s : Sched) : Sched :=
  mkSched (eng s) v (seen_notifs s) (seg_recomputed s) (combine_parked s) (scatter_handles
    s) (push_pending s) (write_inflight s) (push_recomputed s) (hit_retire s) (waiting_queue
    s) (bootstrap_queue s) (decode_queue s) (aborted s) (streamed s).
Definition set_seen_notifs (v : list (list Z)) (s : Sched) : Sched :=
  mkSched (eng s) (scatter_pending s) v (seg_recomputed s) (combine_parked s)
    (scatter_handles s) (push_pending s) (write_inflight s) (push_recomputed s) (hit_retire
    s) (waiting_queue s) (bootstrap_queue s) (decode_queue s) (aborted s) (streamed s).
Definition set_seg_recomputed (v : list ((Z * Z) * bool)) (s : Sched) : Sched :=
  mkSched (eng s) (scatter_pending s) (seen_notifs s) v (combine_parked s) (scatter_handles
    s) (push_pending s) (write_inflight s) (push_recomputed s) (hit_retire s) (waiting_queue
    s) (bootstrap_queue s) (decode_queue s) (aborted s) (streamed s).
Definition set_combine_parked (v : list Parked) (s : Sched) : Sched :=
  mkSched (eng s) (scatter_pending s) (seen_notifs s) (seg_recomputed s) v (scatter_handles
    s) (push_pending s) (write_inflight s) (push_recomputed s) (hit_retire s) (waiting_queue
    s) (bootstrap_queue s) (decode_queue s) (aborted s) (streamed s).
Definition set_scatter_handles (v : list ((Z * Z) * Handle)) (s : Sched) : Sched :=
  mkSched (eng s) (scatter_pending s) (seen_notifs s) (seg_recomputed s) (combine_parked s)
    v (push_pending s) (write_inflight s) (push_recomputed s) (hit_retire s) (waiting_queue
    s) (bootstrap_queue s) (decode_queue s) (aborted s) (streamed s).
Definition set_push_pending (v : list PushItem) (s : Sched) : Sched :=
  mkSched (eng s) (scatter_pending s) (seen_notifs s) (seg_recomputed s) (combine_parked s)
    (scatter_handles s) v (write_inflight s) (push_recomputed s) (hit_retire s)
    (waiting_queue s) (bootstrap_queue s) (decode_queue s) (aborted s) (streamed s).
Definition set_write_inflight (v : list WriteItem) (s : Sched) : Sched :=
  mkSched (eng s) (scatter_pending s) (seen_notifs s) (seg_recomputed s) (combine_parked s)
    (scatter_handles s) (push_pending s) v (push_recomputed s) (hit_retire s) (waiting_queue
    s) (bootstrap_queue s) (decode_queue s) (aborted s) (streamed s).
Definition set_push_recomputed (v : list ((Z * Z) * bool)) (s : Sched) : Sched :=
  mkSched (eng s) (scatter_pending s) (seen_notifs s) (seg_recomputed s) (combine_parked s)
    (scatter_handles s) (push_pending s) (write_inflight s) v (hit_retire s) (waiting_queue
    s) (bootstrap_queue s) (decode_queue s) (aborted s) (streamed s).
Definition set_hit_retire (v : list (SReq * list Z)) (s : Sched) : Sched :=
  mkSched (eng s) (scatter_pending s) (seen_notifs s) (seg_recomputed s) (combine_parked s)
    (scatter_handles s) (push_pending s) (write_inflight s) (push_recomputed s) v
    (waiting_queue s) (bootstrap_queue s) (decode_queue s) (aborted s) (streamed s).
Definition set_waiting_queue (v : list SReq) (s : Sched) : Sched :=
  mkSched (eng s) (scatter_pending s) (seen_notifs s) (seg_recomputed s) (combine_parked s)
    (scatter_handles s) (push_pending s) (write_inflight s) (push_recomputed s) (hit_retire
    s) v (bootstrap_queue s) (decode_queue s) (aborted s) (streamed s).
Definition set_bootstrap_queue (v : list SReq) (s : Sched) : Sched :=
  mkSched (eng s) (scatter_pending s) (seen_notifs s) (seg_recomputed s) (combine_parked s)
    (scatter_handles s) (push_pending s) (write_inflight s) (push_recomputed s) (hit_retire
    s) (waiting_queue s) v (decode_queue s) (aborted s) (streamed s).
Definition set_decode_queue (v : list SReq) (s : Sched) : Sched :=
  mkSched (eng s) (scatter_pending s) (seen_notifs s) (seg_recomputed s) (combine_parked s)
    (scatter_handles s) (push_pending s) (write_inflight s) (push_recomputed s) (hit_retire
    s) (waiting_queue s) (bootstrap_queue s) v (aborted s) (streamed s).
Definition set_aborted (v : list Z) (s : Sched) : Sched :=
  mkSched (eng s) (scatter_pending s) (seen_notifs s) (seg_recomputed s) (combine_parked s)
    (scatter_handles s) (push_pending s) (write_inflight s) (push_recomputed s) (hit_retire
    s) (waiting_queue s) (bootstrap_queue s) (decode_queue s) v (streamed s).
Definition set_streamed (v : list SReq) (s : Sched) : Sched :=
  mkSched (eng s) (scatter_pending s) (seen_notifs s) (seg_recomputed s) (combine_parked s)
    (scatter_handles s) (push_pending s) (write_inflight s) (push_recomputed s) (hit_retire
    s) (waiting_queue s) (bootstrap_queue s) (decode_queue s) (aborted s) v.

Variable agent : Agent.

(** Operations of the cache and pools on the scheduler state. *)
Definition on_eng {A} (m : M (Engine KV MB) A) : M Sched A := zoom eng set_eng m.
Definition now : M Sched Z := on_eng (time_monotonic monotonic).
Definition has_entry (h : list Z) (s : Sched) : bool := dict_mem h (entries (eng s)).
Definition get_entry (h : list Z) (s : Sched) : option nat := dict_get h (entries (eng s)).
Definition lock_add (i : nat) (d : Z) : M Sched unit :=
  on_eng (modify (update_entry i (add_lock d))).
(** [if e.lock_ref > 0: e.lock_ref -= 1] on the entry of [h], if present. *)
Definition unlock_hash (h : list Z) : M Sched unit :=
  s ← get;
  match get_entry h s with
  | Some i => on_eng (modify (update_entry i drop_lock))
  | None => mret tt
  end.

(** ** Combine side: destination slots *)

Definition stash (key : Z * Z) (p : Pending) : M Sched unit :=
  modify (fun s => set_scatter_pending (dict_set key p (scatter_pending s)) s).
Definition unstash (key : Z * Z) : M Sched unit :=
  modify (fun s => set_scatter_pending (dict_pop key (scatter_pending s)) s).

(** The slots of a pending segment back to the pools. *)
Definition free_pending (p : Pending) : M Sched unit :=
  on_eng (kv_free_m (pd_kv_slots p));;
  on_eng (mamba_free_m [pd_mamba_slot p]);;
  on_eng (modify (remove_inflight (pd_n_tokens p) 1)).

(** [buffers] is the outcome of the device-buffer queries, which may raise
    after the slots are stashed, and [meta] that of the agent-metadata query,
    made outside the rollback. *)
Definition alloc_dst (has_manager : bool) (buffers meta : outcome (list Z))
    (room seg_index n_tokens : Z) (seg_hash token_ids : list Z) : M Sched Handle :=
  if negb has_manager then raise RuntimeError
  else
    kv_slots ← on_eng (alloc_token_slots n_tokens);
    mamba_slot ← try_except (on_eng alloc_one_mamba)
                   (fun e => on_eng (kv_free_m kv_slots);; raise e);
    on_eng (modify (add_inflight n_tokens 1));;
    stash (room, seg_index) (mkPending kv_slots mamba_slot n_tokens seg_hash token_ids);;
    match buffers with
    | Ret b =>
        am ← of_outcome meta;
        mret (mkHandle room seg_index am kv_slots [mamba_slot] b
                (tag room seg_index TAG_KV) (tag room seg_index TAG_MAMBA))
    | Raise e =>
        unstash (room, seg_index);;
        on_eng (modify (remove_inflight n_tokens 1));;
        on_eng (mamba_free_m [mamba_slot]);;
        on_eng (kv_free_m kv_slots);;
        raise e
    end.

(** What the device, the agent and the HTTP post answer for an item. *)
Record ItemEnv := mkItemEnv {
  ie_buffers : outcome (list Z);
  ie_meta : outcome (list Z);
  ie_post : outcome unit;
}.

(** One item of [req.pic_combine]. *)
Definition prealloc_item (has_manager : bool) (env : CombineItem -> ItemEnv)
    (r : SReq) (item : CombineItem) : M Sched unit :=
  try_except
    (seg ← of_option IndexError (pyget (segs_of (base r)) (ci_seg_index item));
     let '(s, t) := seg in
     let token_ids := pyslice (origin_input_ids (base r)) s t in
     if bool_decide (ci_worker_port item = Some port) then mret tt
     else
       h ← of_outcome (segment_hash_seq token_ids);
       _ ← alloc_dst has_manager (ie_buffers (env item)) (ie_meta (env item)) (ci_room item)
             (ci_seg_index item) (t - s) h token_ids;
       of_outcome (ie_post (env item)))
    (fun _ => mret tt).

Definition prealloc_and_push_handles (has_manager : bool) (env : CombineItem -> ItemEnv)
    (r : SReq) : M Sched unit :=
  match pic_combine r with
  | None => mret tt
  | Some items =>
      match segs_of (base r) with
      | [] => mret tt
      | _ => mfor items (prealloc_item has_manager env r)
      end
  end.

(** Frees every still-pending destination of a timed-out combine request. *)
Definition combine_keys (r : SReq) : list (Z * Z) :=
  (fun i => (ci_room i, ci_seg_index i)) <$> default [] (pic_combine r).

Definition free_combine_pending (r : SReq) : M Sched unit :=
  s ← get;
  mfor (filter (fun k => k ∈ combine_keys r) (scatter_pending s).*1) (fun key : Z * Z =>
    s ← get;
    match dict_get key (scatter_pending s) with
    | None => mret tt
    | Some p =>
        free_pending p;;
        modify (fun s => set_seen_notifs
          (filter (fun m => m <> tag key.1 key.2 TAG_KV /\ m <> tag key.1 key.2 TAG_MAMBA)
             (seen_notifs s)) s);;
        unstash key
    end).

Definition release_combine_holds (r : SReq) : M Sched unit :=
  mfor (combine_hashes r) unlock_hash.

(** [abort_request] and the bootstrap enqueue are recorded as events. *)
Definition park_step (entry : Parked) : M Sched bool :=
  t ← now;
  s ← get;
  if pk_deadline entry <? t then
    free_combine_pending (pk_req entry);;
    release_combine_holds (pk_req entry);;
    modify (fun s => set_aborted (aborted s ++ [rid (pk_req entry)]) s);;
    mret true
  else if forallb (fun h => has_entry h s) (pk_hashes entry) then
    assert_ (bool_decide (mode = PREFILL));;
    modify (fun s => set_bootstrap_queue (bootstrap_queue s ++ [pk_req entry]) s);;
    mret true
  else mret false.

(** The scan over a copy of the list; [parked.remove(entry)] drops the
    scanned entry at once. *)
Fixpoint scan_parked (kept todo : list Parked) : M Sched unit :=
  match todo with
  | [] => mret tt
  | entry :: rest =>
      gone ← park_step entry;
      let kept := match gone with true => kept | false => kept ++ [entry] end in
      modify (set_combine_parked (kept ++ rest));;
      scan_parked kept rest
  end.

Definition try_release_combines : M Sched unit :=
  s ← get;
  scan_parked [] (combine_parked s).

(** ** Combine side: injection *)

(** One notification: remote Mamba notifications carry the hit/miss flag. *)
Definition note_notif (m : list Z) : M Sched unit :=
  match str_split m [BAR] with
  | Ret ([a; b; c; d] as parts) =>
      if bool_decide (c = TAG_MAMBA) && bool_decide (take 1 d = [114]) then
        room ← of_outcome (undec a);
        seg ← of_outcome (undec b);
        modify (fun s => set_seg_recomputed
          (dict_set (room, seg) (bool_decide (take 2 d = [114; 49])) (seg_recomputed s)) s);;
        modify (fun s => set_seen_notifs
          (set_add (a ++ BAR :: b ++ BAR :: c) (seen_notifs s)) s)
      else modify (fun s => set_seen_notifs (set_add m (seen_notifs s)) s)
  | _ => modify (fun s => set_seen_notifs (set_add m (seen_notifs s)) s)
  end.

Definition inject_one (key : Z * Z) (p : Pending) : M Sched unit :=
  s ← get;
  let want_kv := tag key.1 key.2 TAG_KV in
  let want_mamba := tag key.1 key.2 TAG_MAMBA in
  if negb (bool_decide (want_kv ∈ seen_notifs s) && bool_decide (want_mamba ∈ seen_notifs s))
  then mret tt
  else
    let was_present := has_entry (pd_seg_hash p) s in
    try_except
      (_ ← on_eng (inject_received_segment monotonic (pd_seg_hash p) (pd_token_ids p)
                     (pd_kv_slots p) (pd_mamba_slot p));
       (if was_present then
          on_eng (kv_free_m (pd_kv_slots p));; on_eng (mamba_free_m [pd_mamba_slot p])
        else mret tt);;
       on_eng (modify (remove_inflight (pd_n_tokens p) 1)))
      (fun _ => free_pending p);;
    modify (fun s => set_seen_notifs
      (filter (fun m => m <> want_kv /\ m <> want_mamba) (seen_notifs s)) s);;
    unstash key.

(** [notifs] is what the agent lookup and poll deliver, or their exception. *)
Definition drain_injects (notifs : outcome (list (list Z))) : M Sched unit :=
  s ← get;
  match scatter_pending s with
  | [] => mret tt
  | _ =>
      ok ← try_except (ms ← of_outcome notifs; mfor ms note_notif;; mret true)
             (fun _ => mret false);
      if negb ok then mret tt
      else
        s ← get;
        mfor (scatter_pending s) (fun x => inject_one x.1 x.2);;
        try_release_combines
  end.

(** ** Worker side: writes *)

(** [_wait_done] on the successive polls of a blocking write: the states and
    the clock reading of each round; [None] while still waiting. *)
Fixpoint wait_done (deadline : Z) (polls : list (list XferState * Z)) : option (outcome unit) :=
  match polls with
  | [] => None
  | (states, t) :: polls' =>
      if bool_decide (ERR ∈ states) then Some (Raise RuntimeError)
      else if forallb (fun x => bool_decide (x = DONE)) states then Some (Ret tt)
      else if deadline <? t then Some (Raise TimeoutError)
      else wait_done deadline polls'
  end.

(** Pops the hit/miss flag of the segment only once the KV send is posted;
    the Mamba notification carries it. *)
Definition fire_write (h : Handle) (i : nat) (room seg_index : Z) : M Sched (list Z) :=
  s ← get;
  let entry := deref (eng s) i in
  h_kv ← of_outcome (send_kvcache agent h entry);
  let recomputed := default true (dict_get (room, seg_index) (push_recomputed s)) in
  modify (fun s => set_push_recomputed (dict_pop (room, seg_index) (push_recomputed s)) s);;
  let mamba_notif := h_notif_mamba h ++ BAR :: 114 :: [if recomputed then 49 else 48] in
  h_st ← of_outcome (maybe_send_extra agent h entry mamba_notif);
  mret (option_list h_kv ++ h_st).

Definition start_write (h : Handle) (i : nat) (room seg_index : Z) (seg_hash : list Z)
    : M Sched unit :=
  lock_add i 1;;
  handles ← fire_write h i room seg_index;
  match sync_write agent with
  | Some waited =>
      on_eng (modify (update_entry i drop_lock));;
      of_outcome (waited handles)
  | None =>
      t ← now;
      modify (fun s => set_write_inflight
        (write_inflight s ++ [mkWrite handles seg_hash room seg_index (t + write_timeout)]) s)
  end.

Definition reap_inflight (item : WriteItem) : M Sched unit :=
  unlock_hash (wi_seg_hash item);;
  modify (fun s => set_write_inflight (list_remove item (write_inflight s)) s).

(** [check h] is the agent's transfer state of [h], or its exception. *)
Definition drain_one (check : Z -> outcome XferState) (item : WriteItem) : M Sched unit :=
  o ← try_except (states ← mfold (fun acc h => st ← of_outcome (check h); mret (acc ++ [st]))
                             [] (wi_handles item);
                  mret (Some states)) (fun _ => mret None);
  match o with
  | None =>
      t ← now;
      if wi_deadline item <? t then reap_inflight item else mret tt
  | Some states =>
      t ← now;
      let err := bool_decide (ERR ∈ states) in
      let timed_out := wi_deadline item <? t in
      let done_ := forallb (fun x => bool_decide (x = DONE)) states in
      if negb (err || timed_out || done_) then mret tt else reap_inflight item
  end.

Definition drain_writes (has_manager : bool) (check : Z -> outcome XferState) : M Sched unit :=
  s ← get;
  match write_inflight s with
  | [] => mret tt
  | items => if has_manager then mfor items (drain_one check) else mret tt
  end.

(** ** Worker side: pushing a finished segment *)

Definition maybe_push_after_prefill
    (r : SReq) : M Sched unit :=
  match scatter_meta r with
  | None => mret tt
  | Some meta =>
      try_except
        (let room := sm_scatter_room meta in
         let seg_index := sm_seg_index meta in
         h ← of_outcome (segment_hash_seq (origin_input_ids (base r)));
         if bool_decide (sm_combine_port meta = Some port) then
           s ← get;
           (match get_entry h s with Some i => lock_add i 1 | None => mret tt end);;
           try_release_combines
         else
           s ← get;
           match dict_get (room, seg_index) (scatter_handles s) with
           | Some hd =>
               i ← of_option KeyError (get_entry h s);
               modify (fun s => set_scatter_handles
                 (dict_pop (room, seg_index) (scatter_handles s)) s);;
               start_write hd i room seg_index h
           | None =>
               (match get_entry h s with Some i => lock_add i 1 | None => mret tt end);;
               t ← now;
               modify (fun s => set_push_pending
                 (push_pending s ++ [mkPush room seg_index h (t + scatter_timeout)]) s)
           end)
        (fun _ => mret tt)
  end.

Definition pic_scatter_retire (r : SReq) (seg_hash : list Z) (recomputed : bool) : M Sched SReq :=
  (match scatter_meta r with
   | None => mret tt
   | Some meta =>
       let key := (sm_scatter_room meta, sm_seg_index meta) in
       if bool_decide (sm_combine_port meta = Some port)
       then modify (fun s => set_seg_recomputed (dict_set key recomputed (seg_recomputed s)) s)
       else modify (fun s => set_push_recomputed (dict_set key recomputed (push_recomputed s)) s)
   end);;
  maybe_push_after_prefill r;;
  unlock_hash seg_hash;;
  b ← (if recomputed then
         b ← match mamba_pool_idx (base r) with
             | Some _ => on_eng (free_mamba_cache (base r) None)
             | None => mret (base r)
             end;
         on_eng (on_pool (pool_free b))
       else mret (base r));
  let r := set_finished (set_base b r) in
  modify (fun s => set_streamed (streamed s ++ [r]) s);;
  mret r.

(** Cross-request hit tokens billed to a combine request. *)
Definition cached_step (r : SReq) (total : Z) (item : CombineItem) : M Sched Z :=
  let key := (ci_room item, ci_seg_index item) in
  s ← get;
  let recomputed := default true (dict_get key (seg_recomputed s)) in
  modify (fun s => set_seg_recomputed (dict_pop key (seg_recomputed s)) s);;
  if recomputed then mret total
  else
    seg ← of_option IndexError (pyget (segs_of (base r)) (ci_seg_index item));
    mret (total + (seg.2 - seg.1)).

Definition pic_combine_cached_tokens (r : SReq) : M Sched Z :=
  mfold (cached_step r) 0 (default [] (pic_combine r)).

Definition push_item (item : PushItem) : M Sched unit :=
  let key := (pp_room item, pp_seg_index item) in
  let drop := modify (fun s => set_push_pending (list_remove item (push_pending s)) s) in
  try_except
    (s ← get;
     match dict_get key (scatter_handles s) with
     | Some h =>
         match get_entry (pp_seg_hash item) s with
         | None => drop
         | Some i =>
             unlock_hash (pp_seg_hash item);;
             modify (fun s => set_scatter_handles (dict_pop key (scatter_handles s)) s);;
             drop;;
             start_write h i (pp_room item) (pp_seg_index item) (pp_seg_hash item)
         end
     | None =>
         t ← now;
         if pp_deadline item <? t then unlock_hash (pp_seg_hash item);; drop else mret tt
     end)
    (fun _ => drop).

Definition try_push_pending : M Sched unit :=
  s ← get;
  mfor (push_pending s) push_item.

(** ** Scheduler hooks (srt/managers/scheduler.py, srt/disaggregation/prefill.py) *)

Definition handle_pic_scatter_handle (h : Handle) : M Sched unit :=
  modify (fun s => set_scatter_handles
    (dict_set (h_room h, h_seg_index h) h (scatter_handles s)) s).

Definition pic_drain (has_manager : bool) (notifs : outcome (list (list Z)))
    (check : Z -> outcome XferState)
    : M Sched unit :=
  try_push_pending;;
  drain_writes has_manager check;;
  drain_injects (if has_manager then notifs else Raise RuntimeError);;
  s ← get;
  let hits := hit_retire s in
  modify (set_hit_retire []);;
  mfor hits (fun x =>
    try_except (_ ← pic_scatter_retire x.1 x.2 false; mret tt) (fun _ => mret tt)).

(** The gated hashes of a combine request: all segments but the last. *)
Definition gated_hashes (r : Req) : outcome (list (list Z)) :=
  let segs := segs_of r in
  if 2 <=? len segs then
    foldl (fun acc seg => match acc with
                          | Raise e => Raise e
                          | Ret l => match segment_hash_seq (seg_tokens r seg) with
                                     | Ret h => Ret (l ++ [h])
                                     | Raise e => Raise e
                                     end
                          end) (Ret []) (slice_to segs (-1))
  else Ret [].

(** A combine request on a prefill worker: stash its destinations, then park
    it until its gated segments are cached.  [true] when parked. *)
Definition combine_gate (has_manager : bool)
    (env : CombineItem -> ItemEnv) (r : SReq) : M Sched (SReq * bool) :=
  match pic_combine r with
  | Some _ =>
      if bool_decide (mode = PREFILL) then
        gated ← of_outcome (gated_hashes (base r));
        let r := set_combine gated r in
        prealloc_and_push_handles has_manager env r;;
        s ← get;
        if forallb (fun h => has_entry h s) gated then mret (r, false)
        else
          t ← now;
          modify (fun s => set_combine_parked
            (combine_parked s ++ [mkParked r gated (t + scatter_timeout)]) s);;
          mret (r, true)
      else mret (r, false)
  | None => mret (r, false)
  end.

Definition sys_maxsize : Z := 2 ^ 63 - 1.

(** [false] when the request was rejected; otherwise with its priority set. *)
Definition set_or_validate_priority (q : QueueConfig) (r : SReq) : M Sched (bool * SReq) :=
  match enable_priority_scheduling q, req_priority r with
  | true, None =>
      mret (true, set_priority (Some (if schedule_low_priority_values_first q then sys_maxsize
                                      else - sys_maxsize - 1)) r)
  | false, Some _ =>
      if abort_on_priority_when_disabled q then
        modify (fun s => set_aborted (aborted s ++ [rid r]) s);; mret (false, r)
      else mret (true, r)
  | _, _ => mret (true, r)
  end.

(** [(a, b) > (a', b')] on pairs. *)
Definition pair_gt (x y : Z * Z) : bool :=
  (y.1 <? x.1) || ((x.1 =? y.1) && (y.2 <? x.2)).

(** [max(enumerate(l), key)]: the first largest element with its index. *)
Definition max_by {A} (key : A -> Z * Z) (l : list A) : option (Z * A) :=
  foldl (fun best x => match best with
                       | None => Some x
                       | Some b => if pair_gt (key x.2) (key b.2) then Some x else best
                       end) None (enumerate l).

(** The preference key of a queued request: larger is less preferred. *)
Definition direction (q : QueueConfig) : Z :=
  if schedule_low_priority_values_first q then 1 else -1.
Definition queue_key (q : QueueConfig) (r : SReq) : Z * Z :=
  (direction q * default 0 (req_priority r), wait_queue_entry_time r).

(** [true] when the incoming request is the one rejected.  A priority that is
    None does not multiply, and [max] of an empty queue raises. *)
Definition abort_on_queued_limit (q : QueueConfig) (r : SReq) : M Sched bool :=
  s ← get;
  let full := match max_queued_requests q with
              | None => false
              | Some m => m <? len (waiting_queue s) + 1
              end in
  if negb full then mret false
  else if enable_priority_scheduling q then
    (if forallb (fun x => bool_decide (is_Some (req_priority x)))
        (r :: waiting_queue s) then mret tt else raise TypeError);;
    c ← of_option ValueError (max_by (queue_key q) (waiting_queue s));
    let '(idx, candidate) := c in
    if (queue_key q r).1 <? (queue_key q candidate).1 then
      modify (fun s => set_waiting_queue (delete (Z.to_nat idx) (waiting_queue s)) s);;
      modify (fun s => set_aborted (aborted s ++ [rid candidate]) s);;
      mret (rid candidate =? rid r)
    else
      modify (fun s => set_aborted (aborted s ++ [rid r]) s);;
      mret true
  else
    modify (fun s => set_aborted (aborted s ++ [rid r]) s);;
    mret true.

(** The queue of the disaggregation mode; [t] is the entry time stamp. *)
Definition enqueue (q : QueueConfig) (t : Z) (r : SReq) : M Sched unit :=
  match mode with
  | NULL =>
      rejected ← abort_on_queued_limit q r;
      if rejected : bool then mret tt
      else modify (fun s => set_waiting_queue
                              (waiting_queue s ++ [set_wait_queue_entry_time t r]) s)
  | PREFILL => modify (fun s => set_bootstrap_queue (bootstrap_queue s ++ [r]) s)
  | DECODE => modify (fun s => set_decode_queue (decode_queue s ++ [r]) s)
  end.

Definition add_request_to_queue (q : QueueConfig) (t : Z) (has_manager : bool)
    (env : CombineItem -> ItemEnv) (r : SReq) : M Sched unit :=
  pr ← set_or_validate_priority q r;
  if negb pr.1 then mret tt
  else
    let r := pr.2 in
    if pic_scatter_single_seg (base r) then
      h ← of_outcome (segment_hash_seq (origin_input_ids (base r)));
      s ← get;
      match get_entry h s with
      | Some i =>
          lock_add i 1;;
          modify (fun s => set_hit_retire (hit_retire s ++ [(r, h)]) s)
      | None => modify (fun s => set_waiting_queue (waiting_queue s ++ [r]) s)
      end
    else
      res ← combine_gate has_manager env r;
      if res.2 : bool then mret tt else enqueue q t res.1.

(** The PIC part of the post-prefill hook of a PD-prefill worker: registration,
    then retirement of a scatter sub-request or release of a combine's holds
    and rebilling.  The result is the cached-token count of a combine. *)
Definition prefill_hook (skip_insert : bool) (r : SReq) : M Sched (SReq * option Z) :=
  b ← on_eng (maybe_cache_unfinished_req cfg monotonic skip_insert (base r));
  let r := set_base b r in
  if pic_scatter_single_seg b then
    h ← of_outcome (segment_hash_seq (origin_input_ids b));
    r ← pic_scatter_retire r h true;
    mret (r, None)
  else if is_pic_combine r then
    release_combine_holds r;;
    n ← pic_combine_cached_tokens r;
    mret (r, Some n)
  else mret (r, None).

End scatter.

(** [waiting_queue.sort(key=lambda r: 0 if is_pic_combine else 1)]. *)
Definition partition_combine_first (q : list SReq) : list SReq :=
  sort_key (fun r => if is_pic_combine r then 0 else 1) q.
