(* ===== verification/ScatterFacts.v ===== *)
(** * Ownership in the transfer plane

    Every slot of the combine engine is in a pool, in the index or pending;
    no step of the transfer plane, whatever the agents, peers and clock do,
    loses or duplicates one.  Proved per operation, then for every reachable
    state by induction on the steps. *)

From stdpp Require Import strings.
From S2P Require Import Prelude PyDict Allocator Policy Segmenter Engine ReqPool PICache.
From S2P Require Import PICacheFacts PICacheEvict CacheCommon PicAlloc PicAllocFacts Scatter.
From S2P Require Import TokenAllocator MambaAllocator Scenario.

Section ownership.
Context {KV MB : Type} `{Allocator KV} `{Allocator MB}.
Context (cfg : PICConfig) (monotonic : nat -> Z) (port : Z) (mode : DisaggregationMode).
Context (scatter_timeout write_timeout : Z).
#[local] Abbreviation S := (@Sched KV MB).
Implicit Types s : S.

Definition pend_kv s : list Z := concat (pd_kv_slots <$> (scatter_pending s).*2).
Definition pend_mamba s : list Z := pd_mamba_slot <$> (scatter_pending s).*2.

(** Everything a slot can belong to. *)
Definition owned_kv s : list Z := pool_slots (kv (eng s)) ++ entries_kv (eng s) ++ pend_kv s.
Definition owned_mamba s : list Z :=
  pool_slots (mamba (eng s)) ++ entries_mamba (eng s) ++ pend_mamba s.

Record sched_ok s : Prop := {
  so_wf : index_wf (eng s);
  so_pending : dict_wf (scatter_pending s);
  so_kv : alloc_ready (kv (eng s));
  so_mamba : alloc_ready (mamba (eng s));
}.

Record conserves s s' : Prop := {
  cv_ok : sched_ok s';
  cv_kv : owned_kv s' ≡ₚ owned_kv s;
  cv_mamba : owned_mamba s' ≡ₚ owned_mamba s;
}.

Lemma conserves_refl s : sched_ok s -> conserves s s.
Proof. by split. Qed.

Lemma conserves_trans s s1 s2 : conserves s s1 -> conserves s1 s2 -> conserves s s2.
Proof. intros [? Hk Hm] [? Hk' Hm']. split; [done|by rewrite Hk'|by rewrite Hm']. Qed.

(** [m] conserves, whether it returns or raises. *)
Definition keeps {A} (m : M S A) : Prop :=
  forall s, sched_ok s -> wp m (fun _ => conserves s) (fun _ => conserves s) s.

Lemma keeps_ret {A} (a : A) : keeps (mret a).
Proof. intros s Hs. by apply wp_ret, conserves_refl. Qed.

Lemma keeps_raise {A} e : keeps (raise (A := A) e).
Proof. intros s Hs. by apply wp_raise, conserves_refl. Qed.

Lemma keeps_get : keeps get.
Proof. intros s Hs. by apply wp_get, conserves_refl. Qed.

Lemma keeps_outcome {A} (o : outcome A) : keeps (of_outcome o).
Proof. intros s Hs. unfold wp, of_outcome. destruct o; by apply conserves_refl. Qed.

Lemma keeps_option {A} e (o : option A) : keeps (of_option e o).
Proof. destruct o; [apply keeps_ret|apply keeps_raise]. Qed.

Lemma keeps_assert b : keeps (assert_ b).
Proof. destruct b; [apply keeps_ret|apply keeps_raise]. Qed.

Lemma keeps_bind {A B} (m : M S A) (k : A -> M S B) :
  keeps m -> (forall a, keeps (k a)) -> keeps (mbind k m).
Proof.
  intros Hm Hk s Hs. apply wp_bind. eapply wp_mono; [by apply Hm| |done].
  intros a s1 Hc. eapply wp_mono; [apply Hk, Hc| |].
  - intros b s2 Hc'. exact (conserves_trans _ _ _ Hc Hc').
  - intros e s2 Hc'. exact (conserves_trans _ _ _ Hc Hc').
Qed.

Lemma keeps_try {A} (m : M S A) h : keeps m -> (forall e, keeps (h e)) -> keeps (try_except m h).
Proof.
  intros Hm Hh s Hs. apply wp_try. eapply wp_mono; [by apply Hm|done|].
  intros e s1 Hc. eapply wp_mono; [apply Hh, Hc| |].
  - intros b s2 Hc'. exact (conserves_trans _ _ _ Hc Hc').
  - intros e' s2 Hc'. exact (conserves_trans _ _ _ Hc Hc').
Qed.

Lemma keeps_mfold {A B} (body : B -> A -> M S B) acc l :
  (forall acc x, keeps (body acc x)) -> keeps (mfold body acc l).
Proof.
  intros Hb. revert acc. induction l as [|x l IH]; intros acc; [apply keeps_ret|].
  cbn [mfold]. apply keeps_bind; [apply Hb|apply IH].
Qed.

Lemma keeps_mfor {A} (l : list A) body : (forall x, keeps (body x)) -> keeps (mfor l body).
Proof. intros Hb. by apply keeps_mfold. Qed.

(** A state change that touches neither engine nor pending slots. *)
Lemma keeps_modify f :
  (forall s, eng (f s) = eng s) -> (forall s, scatter_pending (f s) = scatter_pending s) ->
  keeps (modify f).
Proof.
  intros He Hp s [? ? ? ?]. apply wp_modify. split.
  - by split; rewrite ?He, ?Hp.
  - unfold owned_kv, pend_kv. by rewrite He, Hp.
  - unfold owned_mamba, pend_mamba. by rewrite He, Hp.
Qed.

(** ** Engine operations *)

Lemma wp_on_eng {A} (m : M (Engine KV MB) A) Q E s :
  wp m (fun a e => Q a (set_eng e s)) (fun x e => E x (set_eng e s)) (eng s) ->
  wp (on_eng m) Q E s.
Proof. unfold wp, on_eng, zoom. by destruct (m (eng s)) as [[]]. Qed.

(** An engine change that keeps pools and index slots. *)
Record eng_same (e e' : Engine KV MB) : Prop := {
  es_wf : index_wf e';
  es_kv : kv e' = kv e;
  es_mamba : mamba e' = mamba e;
  es_ekv : entries_kv e' = entries_kv e;
  es_emb : entries_mamba e' = entries_mamba e;
}.

Lemma conserves_eng s e' : sched_ok s -> eng_same (eng s) e' -> conserves s (set_eng e' s).
Proof.
  intros [? ? ? ?] [? Hk Hm Hek Hem]. split.
  - by split; cbn; rewrite ?Hk, ?Hm.
  - unfold owned_kv. cbn. by rewrite Hk, Hek.
  - unfold owned_mamba. cbn. by rewrite Hm, Hem.
Qed.

Lemma drop_lock_keeps : keeps_content drop_lock.
Proof. by split; intros e; apply drop_lock_field. Qed.

Lemma update_eng_same f i e : keeps_content f -> index_wf e -> eng_same e (update_entry i f e).
Proof.
  intros Hf Hw. split; try done.
  - apply (index_wf_ext e); [done|cbn; by rewrite length_alter| |done].
    intros j _. apply deref_update_field, Hf.
  - by apply update_entries_kv.
  - by apply update_entries_mamba.
Qed.

Lemma keeps_update i f : keeps_content f -> keeps (on_eng (modify (update_entry i f))).
Proof.
  intros Hf s Hs. apply wp_on_eng, wp_modify. apply conserves_eng; [done|].
  apply update_eng_same; [done|apply Hs].
Qed.

Lemma keeps_now : keeps (now monotonic).
Proof.
  intros s Hs. apply wp_on_eng. unfold wp, time_monotonic. apply conserves_eng; [done|].
  split; try done. apply Hs.
Qed.

Lemma keeps_unlock h : keeps (unlock_hash h).
Proof.
  apply keeps_bind; [apply keeps_get|]. intros s. destruct (get_entry h s); [|apply keeps_ret].
  apply keeps_update, drop_lock_keeps.
Qed.

Lemma keeps_lock_add i d : keeps (lock_add i d).
Proof. apply keeps_update, add_lock_keeps. Qed.

(** ** Pending slots *)

Lemma pend_kv_pop s key p :
  dict_get key (scatter_pending s) = Some p ->
  pend_kv s ≡ₚ pd_kv_slots p ++ pend_kv (set_scatter_pending (dict_pop key (scatter_pending s)) s).
Proof. intros Hg. unfold pend_kv. cbn. by rewrite (dict_pop_perm _ _ _ Hg) at 1. Qed.

Lemma pend_mamba_pop s key p :
  dict_get key (scatter_pending s) = Some p ->
  pend_mamba s ≡ₚ pd_mamba_slot p :: pend_mamba (set_scatter_pending (dict_pop key (scatter_pending s)) s).
Proof. intros Hg. unfold pend_mamba. cbn. by rewrite (dict_pop_perm _ _ _ Hg) at 1. Qed.

(** The engine after the slots of [p] went back to the pools. *)
Definition freed (p : Pending) (e : Engine KV MB) : Engine KV MB :=
  remove_inflight (pd_n_tokens p) 1
    (set_mamba (free [pd_mamba_slot p] (mamba (set_kv (free (pd_kv_slots p) (kv e)) e)))
       (set_kv (free (pd_kv_slots p) (kv e)) e)).

Lemma freed_kv p e :
  pool_slots (kv (freed p e)) ++ entries_kv (freed p e) ≡ₚ
    pool_slots (kv e) ++ entries_kv e ++ pd_kv_slots p.
Proof.
  change (entries_kv (freed p e)) with (entries_kv e).
  change (kv (freed p e)) with (free (pd_kv_slots p) (kv e)).
  rewrite free_conserves. solve_Permutation.
Qed.

Lemma freed_mamba p e :
  pool_slots (mamba (freed p e)) ++ entries_mamba (freed p e) ≡ₚ
    pool_slots (mamba e) ++ entries_mamba e ++ [pd_mamba_slot p].
Proof.
  change (entries_mamba (freed p e)) with (entries_mamba e).
  change (mamba (freed p e)) with (free [pd_mamba_slot p] (mamba e)).
  rewrite free_conserves. solve_Permutation.
Qed.

Lemma free_pending_run p s : free_pending p s = (Ret tt, set_eng (freed p (eng s)) s).
Proof. done. Qed.

(** The engine gives the slots of [p] a new owner: its pools or its index. *)
Lemma conserves_handover s e' key p m :
  sched_ok s -> dict_get key (scatter_pending s) = Some p ->
  index_wf e' -> alloc_ready (kv e') -> alloc_ready (mamba e') ->
  pool_slots (kv e') ++ entries_kv e' ≡ₚ
    pool_slots (kv (eng s)) ++ entries_kv (eng s) ++ pd_kv_slots p ->
  pool_slots (mamba e') ++ entries_mamba e' ≡ₚ
    pool_slots (mamba (eng s)) ++ entries_mamba (eng s) ++ [pd_mamba_slot p] ->
  conserves s (set_scatter_pending (dict_pop key (scatter_pending s))
                 (set_seen_notifs m (set_eng e' s))).
Proof.
  intros Hs Hg Hw Hrk Hrm Hk Hm. split.
  - split; cbn; auto. apply dict_pop_wf, Hs.
  - unfold owned_kv. rewrite (pend_kv_pop _ _ _ Hg). cbn [eng set_eng set_scatter_pending
      set_seen_notifs]. rewrite (assoc_L (++)), Hk.
    change (pend_kv (set_scatter_pending _ (set_seen_notifs _ _))) with
      (pend_kv (set_scatter_pending (dict_pop key (scatter_pending s)) s)). solve_Permutation.
  - unfold owned_mamba. rewrite (pend_mamba_pop _ _ _ Hg). cbn [eng set_eng set_scatter_pending
      set_seen_notifs]. rewrite (assoc_L (++)), Hm.
    change (pend_mamba (set_scatter_pending _ (set_seen_notifs _ _))) with
      (pend_mamba (set_scatter_pending (dict_pop key (scatter_pending s)) s)). solve_Permutation.
Qed.

(** Freeing a pending segment and dropping it from the stash. *)
Lemma conserves_free s key p m :
  sched_ok s -> dict_get key (scatter_pending s) = Some p ->
  conserves s (set_scatter_pending (dict_pop key (scatter_pending s))
                 (set_seen_notifs m (set_eng (freed p (eng s)) s))).
Proof.
  intros Hs Hg. apply (conserves_handover s (freed p (eng s)) key p); try done.
  - apply Hs.
  - cbn. apply free_ready, Hs.
  - cbn. apply free_ready, Hs.
  - apply freed_kv.
  - apply freed_mamba.
Qed.

Lemma keeps_free_combine r : keeps (free_combine_pending r).
Proof.
  apply keeps_bind; [apply keeps_get|]. intros s0. apply keeps_mfor. intros key s Hs.
  apply wp_bind, wp_get. destruct (dict_get key (scatter_pending s)) as [p|] eqn:Hg.
  - apply wp_bind. unfold wp at 1. rewrite free_pending_run.
    apply wp_bind, wp_modify, wp_modify.
    exact (conserves_free s key p _ Hs Hg).
  - by apply wp_ret, conserves_refl.
Qed.

Lemma keeps_release r : keeps (release_combine_holds r).
Proof. apply keeps_mfor. intros. apply keeps_unlock. Qed.

Lemma keeps_park_step entry : keeps (park_step monotonic mode entry).
Proof.
  apply keeps_bind; [apply keeps_now|]. intros t. apply keeps_bind; [apply keeps_get|]. intros s.
  case_if.
  - apply keeps_bind; [apply keeps_free_combine|]. intros _.
    apply keeps_bind; [apply keeps_release|]. intros _.
    apply keeps_bind; [by apply keeps_modify|]. intros _. apply keeps_ret.
  - case_if; [|apply keeps_ret]. apply keeps_bind; [apply keeps_assert|]. intros _.
    apply keeps_bind; [by apply keeps_modify|]. intros _. apply keeps_ret.
Qed.

Lemma keeps_try_release : keeps (try_release_combines monotonic mode).
Proof.
  apply keeps_bind; [apply keeps_get|]. intros s0. generalize (@nil Parked).
  induction (combine_parked s0) as [|e l IH]; intros kept; [apply keeps_ret|].
  cbn [scan_parked]. apply keeps_bind; [apply keeps_park_step|]. intros gone.
  apply keeps_bind; [by apply keeps_modify|]. intros _. apply IH.
Qed.

(** ** Injection *)

Lemma file_entry_wf h e (s : Engine KV MB) :
  index_wf s -> seg_hash e = h -> index_wf (file_entry h e s).
Proof.
  intros [Hd Hw] He. split; [cbn; auto with hyx|].
  intros h' i Hin. cbn in Hin. apply dict_set_elem in Hin as [[-> ->]|[_ Hin]]; [| |done].
  - rewrite file_entry_new. cbn. rewrite length_app. cbn. split; [lia|done].
  - destruct (Hw _ _ Hin) as [Hi ?]. rewrite file_entry_old by done.
    cbn. rewrite length_app. split; [lia|done].
Qed.

(** The index after an injection: unchanged slots when the hash was cached,
    the pending slots appended otherwise. *)
Lemma inject_received_spec h tokens kvs mb (e : Engine KV MB) :
  index_wf e ->
  wp (inject_received_segment monotonic h tokens kvs mb)
     (fun _ e' => index_wf e' /\ kv e' = kv e /\ mamba e' = mamba e /\
        (if dict_mem h (entries e)
         then entries_kv e' = entries_kv e /\ entries_mamba e' = entries_mamba e
         else entries_kv e' = entries_kv e ++ kvs /\ entries_mamba e' = entries_mamba e ++ [mb]))
     (fun _ _ => False) e.
Proof.
  intros Hw. unfold inject_received_segment. apply wp_bind, wp_get. unfold dict_mem.
  destruct (dict_get h (entries e)) as [i|] eqn:Hg; cbn.
  - apply wp_bind, wp_modify, wp_ret.
    destruct (update_eng_same (add_lock 1) i e (add_lock_keeps 1) Hw). done.
  - destruct (insert_segment_fresh monotonic h tokens kvs mb e Hg) as (t & e1 & Hrun & Hsbr).
    apply wp_bind. unfold wp at 1. rewrite Hrun.
    apply wp_bind, wp_modify, wp_ret.
    assert (index_wf e1) as Hw1 by (rewrite <- Hsbr; by apply file_entry_wf).
    destruct (update_eng_same (add_lock 1) (length (heap e)) e1 (add_lock_keeps 1) Hw1)
      as [? Hk Hm Hek Hem].
    split; [done|]. rewrite Hk, Hm, (sbr_kv _ _ Hsbr), (sbr_mamba _ _ Hsbr).
    rewrite Hek, Hem. repeat split.
    + rewrite <- Hsbr. by rewrite file_entry_kv.
    + rewrite <- Hsbr. by rewrite file_entry_mamba.
Qed.

Lemma inject_one_spec key p s :
  sched_ok s -> dict_get key (scatter_pending s) = Some p ->
  wp (inject_one monotonic key p)
     (fun _ s' => conserves s s' /\
        (scatter_pending s' = scatter_pending s \/
         scatter_pending s' = dict_pop key (scatter_pending s)))
     (fun _ _ => False) s.
Proof.
  intros Hs Hg. unfold inject_one. apply wp_bind, wp_get.
  case_if; [apply wp_ret; split; [by apply conserves_refl|by left]|].
  apply wp_bind, wp_try, wp_bind, wp_on_eng.
  eapply wp_mono; [apply inject_received_spec, Hs| |done].
  intros i e' (Hw & Hk & Hm & He).
  pose proof (so_kv _ Hs) as Hrk. pose proof (so_mamba _ Hs) as Hrm.
  rewrite <- Hk in Hrk. rewrite <- Hm in Hrm.
  assert (free_ready_kv : alloc_ready (free (pd_kv_slots p) (kv e'))) by by apply free_ready.
  assert (free_ready_mb : alloc_ready (free [pd_mamba_slot p] (mamba e'))) by by apply free_ready.
  unfold has_entry. destruct (dict_mem _ _); destruct He as [Hek Hem]; unfold wp; cbn; split;
    [|by right| |by right].
  - apply (conserves_handover s (freed p e') key p); try done;
      [rewrite freed_kv|rewrite freed_mamba]; by rewrite ?Hk, ?Hm, ?Hek, ?Hem.
  - apply (conserves_handover s (remove_inflight (pd_n_tokens p) 1 e') key p); try done;
      [change (pool_slots (kv e') ++ entries_kv e' ≡ₚ pool_slots (kv (eng s)) ++
         entries_kv (eng s) ++ pd_kv_slots p); by rewrite Hk, Hek
      |change (pool_slots (mamba e') ++ entries_mamba e' ≡ₚ pool_slots (mamba (eng s)) ++
         entries_mamba (eng s) ++ [pd_mamba_slot p]); by rewrite Hm, Hem].
Qed.

Lemma inject_all_spec l s :
  sched_ok s -> dict_wf l ->
  (forall key p, (key, p) ∈ l -> dict_get key (scatter_pending s) = Some p) ->
  wp (mfor l (fun x => inject_one monotonic x.1 x.2)) (fun _ => conserves s) (fun _ _ => False) s.
Proof.
  revert s. induction l as [|[key p] l IH]; intros s Hs Hl Hin.
  { apply wp_ret. by apply conserves_refl. }
  unfold mfor. cbn [mfold]. apply wp_bind.
  eapply wp_mono; [apply (inject_one_spec key p)| |done]; [done|apply Hin; left|].
  intros [] s1 [Hc Hp]. apply NoDup_cons in Hl as [Hnin Hl].
  eapply wp_mono; [apply (IH s1)| |done]; [apply Hc|done| |].
  - intros k q Hkq. assert (k <> key) as Hne.
    { intros ->. apply Hnin. by apply (list_elem_of_fmap_2' fst _ (key, q)). }
    destruct Hp as [->| ->]; [|rewrite dict_get_pop_ne by done]; apply Hin; by right.
  - intros [] s2 Hc2. exact (conserves_trans _ _ _ Hc Hc2).
Qed.

Lemma keeps_note m : keeps (note_notif (KV := KV) (MB := MB) m).
Proof.
  unfold note_notif. destruct (str_split m [BAR]) as [[|a [|b [|c [|d [|]]]]]|];
    try by apply keeps_modify.
  case_if; [|by apply keeps_modify].
  apply keeps_bind; [apply keeps_outcome|]. intros room.
  apply keeps_bind; [apply keeps_outcome|]. intros seg.
  apply keeps_bind; [by apply keeps_modify|]. intros _. by apply keeps_modify.
Qed.

Lemma keeps_drain_injects notifs : keeps (drain_injects monotonic mode notifs).
Proof.
  intros s Hs. unfold drain_injects. apply wp_bind, wp_get. generalize (scatter_pending s) at 1.
  intros [|x pend]; [by apply wp_ret, conserves_refl|]. clear x pend. revert s Hs.
  fold (keeps (A := unit) (ok ← try_except (ms ← of_outcome notifs; mfor ms note_notif;; mret true)
             (fun _ => mret false);
      if negb ok then mret tt
      else s ← get; mfor (scatter_pending s) (fun x => inject_one monotonic x.1 x.2);;
        try_release_combines monotonic mode)).
  apply keeps_bind.
  - apply keeps_try; [|intros; apply keeps_ret].
    apply keeps_bind; [apply keeps_outcome|]. intros ms.
    apply keeps_bind; [apply keeps_mfor, keeps_note|]. intros _. apply keeps_ret.
  - intros []; [|apply keeps_ret]. intros s Hs. apply wp_bind, wp_get, wp_bind.
    eapply wp_mono; [apply inject_all_spec| |done]; [done|apply Hs| |].
    + intros key p Hin. apply dict_elem_get; [apply Hs|done].
    + intros [] s1 Hc. eapply wp_mono; [apply keeps_try_release, Hc| |].
      * intros [] s2 Hc2. exact (conserves_trans _ _ _ Hc Hc2).
      * intros e s2 Hc2. exact (conserves_trans _ _ _ Hc Hc2).
Qed.

(** ** Worker side *)

Section worker.
Context (agent : Agent).

Lemma keeps_start_write h i room seg hash :
  keeps (start_write monotonic write_timeout agent h i room seg hash).
Proof.
  apply keeps_bind; [apply keeps_lock_add|]. intros _. apply keeps_bind.
  - apply keeps_bind; [apply keeps_get|]. intros s.
    apply keeps_bind; [apply keeps_outcome|]. intros hkv.
    apply keeps_bind; [by apply keeps_modify|]. intros _.
    apply keeps_bind; [apply keeps_outcome|]. intros hst. apply keeps_ret.
  - intros hs. destruct (sync_write agent).
    + apply keeps_bind; [apply keeps_update, drop_lock_keeps|]. intros _. apply keeps_outcome.
    + apply keeps_bind; [apply keeps_now|]. intros t. by apply keeps_modify.
Qed.

Lemma keeps_push_item item : keeps (push_item monotonic write_timeout agent item).
Proof.
  apply keeps_try; [|intros; by apply keeps_modify].
  apply keeps_bind; [apply keeps_get|]. intros s. destruct (dict_get _ _) as [h|].
  - destruct (get_entry _ s) as [i|]; [|by apply keeps_modify].
    apply keeps_bind; [apply keeps_unlock|]. intros _.
    apply keeps_bind; [by apply keeps_modify|]. intros _.
    apply keeps_bind; [by apply keeps_modify|]. intros _. apply keeps_start_write.
  - apply keeps_bind; [apply keeps_now|]. intros t. case_if; [|apply keeps_ret].
    apply keeps_bind; [apply keeps_unlock|]. intros _. by apply keeps_modify.
Qed.

Lemma keeps_reap item : keeps (reap_inflight (KV := KV) (MB := MB) item).
Proof. apply keeps_bind; [apply keeps_unlock|]. intros _. by apply keeps_modify. Qed.

Lemma keeps_drain_one check item : keeps (drain_one monotonic check item).
Proof.
  apply keeps_bind.
  - apply keeps_try; [|intros; apply keeps_ret]. apply keeps_bind; [|intros; apply keeps_ret].
    apply keeps_mfold. intros acc x. apply keeps_bind; [apply keeps_outcome|].
    intros st. apply keeps_ret.
  - intros [states|]; (apply keeps_bind; [apply keeps_now|]; intros t);
      cbv beta zeta; case_if; first [apply keeps_reap|apply keeps_ret].
Qed.

Lemma keeps_lock_if (o : option nat) :
  keeps (match o with Some i => lock_add i 1 | None => mret tt end).
Proof. destruct o; [apply keeps_lock_add|apply keeps_ret]. Qed.

Lemma keeps_maybe_push r :
  keeps (maybe_push_after_prefill monotonic port mode scatter_timeout write_timeout agent r).
Proof.
  unfold maybe_push_after_prefill. destruct (scatter_meta r) as [meta|]; [|apply keeps_ret].
  apply keeps_try; [|intros; apply keeps_ret].
  apply keeps_bind; [apply keeps_outcome|]. intros h. case_if;
    (apply keeps_bind; [apply keeps_get|]; intros s).
  - apply keeps_bind; [apply keeps_lock_if|]. intros _. apply keeps_try_release.
  - destruct (dict_get _ _) as [hd|].
    + apply keeps_bind; [apply keeps_option|]. intros i.
      apply keeps_bind; [by apply keeps_modify|]. intros _. apply keeps_start_write.
    + apply keeps_bind; [apply keeps_lock_if|]. intros _.
      apply keeps_bind; [apply keeps_now|]. intros t. by apply keeps_modify.
Qed.

(** A sub-request that hit the cache owns nothing, so retiring it frees
    nothing. *)
Lemma keeps_retire_hit r hash :
  keeps (pic_scatter_retire monotonic port mode scatter_timeout write_timeout agent r hash false).
Proof.
  apply keeps_bind.
  { destruct (scatter_meta r); [|apply keeps_ret]. case_if; by apply keeps_modify. }
  intros _. apply keeps_bind; [apply keeps_maybe_push|]. intros _.
  apply keeps_bind; [apply keeps_unlock|]. intros _.
  apply keeps_bind; [apply keeps_ret|]. intros b.
  apply keeps_bind; [by apply keeps_modify|]. intros _. apply keeps_ret.
Qed.

Lemma keeps_drain_writes hm check : keeps (drain_writes monotonic hm check).
Proof.
  apply keeps_bind; [apply keeps_get|]. intros s.
  destruct (write_inflight s) as [|x l]; [apply keeps_ret|].
  destruct hm; [|apply keeps_ret]. apply keeps_mfor, keeps_drain_one.
Qed.

Lemma keeps_pic_drain hm notifs check :
  keeps (pic_drain monotonic port mode scatter_timeout write_timeout agent hm notifs check).
Proof.
  apply keeps_bind.
  { apply keeps_bind; [apply keeps_get|]. intros s. apply keeps_mfor, keeps_push_item. }
  intros _. apply keeps_bind; [apply keeps_drain_writes|]. intros _.
  apply keeps_bind; [apply keeps_drain_injects|]. intros _.
  apply keeps_bind; [apply keeps_get|]. intros s.
  apply keeps_bind; [by apply keeps_modify|]. intros _. apply keeps_mfor. intros [r h].
  apply keeps_try; [|intros; apply keeps_ret].
  apply keeps_bind; [apply keeps_retire_hit|]. intros _. apply keeps_ret.
Qed.

End worker.

Lemma keeps_cached_tokens r : keeps (pic_combine_cached_tokens (KV := KV) (MB := MB) r).
Proof.
  apply keeps_mfold. intros acc x. apply keeps_bind; [apply keeps_get|]. intros s.
  apply keeps_bind; [by apply keeps_modify|]. intros _. case_if; [apply keeps_ret|].
  apply keeps_bind; [apply keeps_option|]. intros seg. apply keeps_ret.
Qed.

(** ** Destination slots *)

(** From [s] to [s'] the slots [xs] and [ms] were taken out of all owners and
    the stash did not change. *)
Record takes (xs ms : list Z) s s' : Prop := {
  tk_ok : sched_ok s';
  tk_kv : xs ++ owned_kv s' ≡ₚ owned_kv s;
  tk_mamba : ms ++ owned_mamba s' ≡ₚ owned_mamba s;
  tk_pending : scatter_pending s' = scatter_pending s;
}.

Lemma takes_eng xs ms xs' ms' s s1 e :
  takes xs ms s s1 -> index_wf e -> alloc_ready (kv e) -> alloc_ready (mamba e) ->
  xs' ++ pool_slots (kv e) ++ entries_kv e ≡ₚ xs ++ pool_slots (kv (eng s1)) ++ entries_kv (eng s1) ->
  ms' ++ pool_slots (mamba e) ++ entries_mamba e ≡ₚ
    ms ++ pool_slots (mamba (eng s1)) ++ entries_mamba (eng s1) ->
  takes xs' ms' s (set_eng e s1).
Proof.
  intros [[? ? ? ?] Hk Hm Hp] Hw Hrk Hrm Hk' Hm'. split; [by split| | |done].
  - rewrite <- Hk. unfold owned_kv. rewrite !(assoc_L (++)) in *. cbn [eng set_eng].
    rewrite Hk'. done.
  - rewrite <- Hm. unfold owned_mamba. rewrite !(assoc_L (++)) in *. cbn [eng set_eng].
    rewrite Hm'. done.
Qed.

Lemma takes_refl s : sched_ok s -> takes [] [] s s.
Proof. by split. Qed.

(** Changes outside the engine and the stash. *)
Lemma takes_ext xs ms s s1 s2 :
  takes xs ms s s1 -> eng s2 = eng s1 -> scatter_pending s2 = scatter_pending s1 ->
  takes xs ms s s2.
Proof.
  intros [[? ? ? ?] Hk Hm Hp] He Hp2. split; [by split; rewrite ?He, ?Hp2| | |congruence].
  - unfold owned_kv, pend_kv in *. by rewrite He, Hp2.
  - unfold owned_mamba, pend_mamba in *. by rewrite He, Hp2.
Qed.

Lemma takes_none s s' : takes [] [] s s' -> conserves s s'.
Proof. by intros []. Qed.

Lemma takes_inflight xs ms s s1 a b :
  takes xs ms s s1 -> takes xs ms s (set_eng (add_inflight a b (eng s1)) s1).
Proof. intros Ht. apply (takes_eng xs ms _ _ s s1 _ Ht); try done; apply Ht. Qed.

Lemma takes_remove_inflight xs ms s s1 a b :
  takes xs ms s s1 -> takes xs ms s (set_eng (remove_inflight a b (eng s1)) s1).
Proof. intros Ht. apply (takes_eng xs ms _ _ s s1 _ Ht); try done; apply Ht. Qed.

(** Giving the KV slots back. *)
Lemma takes_kv_free xs ms s s1 :
  takes xs ms s s1 ->
  takes [] ms s (set_eng (set_kv (free xs (kv (eng s1))) (eng s1)) s1).
Proof.
  intros Ht. apply (takes_eng xs ms _ _ s s1 _ Ht); try done; try apply Ht.
  - apply free_ready, Ht.
  - cbn [kv set_kv]. rewrite free_conserves.
    change (entries_kv (set_kv _ (eng s1))) with (entries_kv (eng s1)). solve_Permutation.
Qed.

Lemma takes_mamba_free xs ms s s1 :
  takes xs ms s s1 ->
  takes xs [] s (set_eng (set_mamba (free ms (mamba (eng s1))) (eng s1)) s1).
Proof.
  intros Ht. apply (takes_eng xs ms _ _ s s1 _ Ht); try done; try apply Ht.
  - apply free_ready, Ht.
  - cbn [mamba set_mamba]. rewrite free_conserves.
    change (entries_mamba (set_mamba _ (eng s1))) with (entries_mamba (eng s1)). solve_Permutation.
Qed.

Lemma kv_taken n s :
  0 <= n -> sched_ok s ->
  wp (on_eng (alloc_token_slots n)) (fun x s' => len x = n /\ takes x [] s s')
     (fun _ => takes [] [] s) s.
Proof.
  intros Hn Hs. apply wp_on_eng.
  eapply wp_mono; [apply alloc_token_slots_wp; [done|apply Hs|apply Hs]| |].
  - intros x e (_ & Hx & Hw & Hr & _ & Hmb & Hk & Hm & _). split; [done|].
    apply (takes_eng [] [] _ _ s s); try done; apply Hmb, Hs.
  - intros x e (_ & _ & Hw & Hr & _ & Hmb & Hk & Hm & _).
    apply (takes_eng [] [] _ _ s s); try done; apply Hmb, Hs.
Qed.

Lemma mamba_taken xs s s1 :
  takes xs [] s s1 ->
  wp (on_eng alloc_one_mamba) (fun m => takes xs [m] s) (fun _ => takes xs [] s) s1.
Proof.
  intros Ht. apply wp_on_eng.
  eapply wp_mono; [apply alloc_one_mamba_spec; apply Ht| |].
  - intros m e [[Hw _ Hk Hm Hrm Hrk _ _ _ _] _].
    apply (takes_eng xs [] _ _ s s1); try done; [apply Hrk, Ht|by rewrite Hk].
  - intros x e (_ & _ & [Hw _ Hk Hm Hrm Hrk _ _ _ _]).
    apply (takes_eng xs [] _ _ s s1); try done; [apply Hrk, Ht|by rewrite Hk].
Qed.

(** Stashing the taken slots gives them an owner again. *)
Lemma takes_stash xs m s s1 key p :
  takes xs [m] s s1 -> dict_get key (scatter_pending s) = None ->
  pd_kv_slots p = xs -> pd_mamba_slot p = m ->
  conserves s (set_scatter_pending (dict_set key p (scatter_pending s1)) s1).
Proof.
  intros [[? ? ? ?] Hk Hm Hp] Hg <- <-.
  rewrite Hp, dict_set_fresh by done. split.
  - split; cbn; try done. rewrite <- (dict_set_fresh key p) by done.
    apply dict_set_wf. by rewrite <- Hp.
  - rewrite <- Hk. unfold owned_kv, pend_kv. cbn. rewrite !fmap_app, concat_app, Hp. cbn.
    rewrite app_nil_r. solve_Permutation.
  - rewrite <- Hm. unfold owned_mamba, pend_mamba. cbn. rewrite !fmap_app, Hp. cbn.
    solve_Permutation.
Qed.

(** [alloc_dst] moves exactly [n_tokens] KV slots and one Mamba slot from the
    pools (evicting if needed) into the stash, and whatever fails, at whatever
    point, everything goes back. *)
Lemma alloc_dst_wp hm buffers meta room seg n hash ids s :
  0 <= n -> sched_ok s -> dict_get (room, seg) (scatter_pending s) = None ->
  wp (alloc_dst hm buffers meta room seg n hash ids)
     (fun h s' => conserves s s' /\ len (h_dst_kv_indices h) = n /\
        exists m, h_dst_state_indices h = [m] /\
          scatter_pending s' = scatter_pending s ++
            [((room, seg), mkPending (h_dst_kv_indices h) m n hash ids)])
     (fun _ s' => conserves s s' /\ forall k, k <> (room, seg) ->
        dict_get k (scatter_pending s') = dict_get k (scatter_pending s)) s.
Proof.
  intros Hn Hs Hg. unfold alloc_dst. destruct hm; cbn [negb].
  2:{ apply wp_raise. split; [by apply conserves_refl|done]. }
  apply wp_bind. eapply wp_mono; [by apply kv_taken| |].
  2:{ intros e s1 Ht. split; [by apply takes_none|]. intros. by rewrite (tk_pending _ _ _ _ Ht). }
  intros x s1 [Hx Ht]. apply wp_bind, wp_try.
  eapply wp_mono; [by apply mamba_taken| |].
  2:{ intros e s2 Ht2. apply wp_bind, wp_on_eng, wp_modify, wp_raise.
      pose proof (takes_kv_free _ _ _ _ Ht2) as Ht3.
      split; [by apply takes_none|]. intros k _.
      exact (f_equal (dict_get k) (tk_pending _ _ _ _ Ht3)). }
  intros m s2 Ht2. apply wp_bind, wp_on_eng, wp_modify. apply wp_bind, wp_modify.
  apply (takes_inflight _ _ _ _ n 1) in Ht2. destruct buffers as [b|e].
  - pose proof (tk_pending _ _ _ _ Ht2) as Hp. cbn in Hp. apply wp_bind.
    destruct meta as [am|e].
    + apply wp_ret, wp_ret. split; [by apply (takes_stash x m)|]. split; [done|]. exists m.
      split; [done|]. cbn. rewrite Hp. by apply dict_set_fresh.
    + apply wp_raise. split; [by apply (takes_stash x m)|]. intros k Hk. cbn. rewrite Hp.
      by apply dict_get_set_ne.
  - apply wp_bind, wp_modify.
    apply (takes_ext _ _ _ _ (set_scatter_pending (dict_pop (room, seg) (dict_set (room, seg)
      (mkPending x m n hash ids) (scatter_pending s2))) (set_eng (add_inflight n 1 (eng s2)) s2)))
      in Ht2; [|done|].
    2:{ pose proof (tk_pending _ _ _ _ Ht2) as Hp. cbn in Hp |- *.
        apply dict_pop_set_fresh. by rewrite Hp. }
    apply (takes_remove_inflight _ _ _ _ n 1), takes_mamba_free, takes_kv_free in Ht2.
    apply wp_bind, wp_on_eng, wp_modify. apply wp_bind, wp_on_eng, wp_modify.
    apply wp_bind, wp_on_eng, wp_modify, wp_raise.
    split; [apply takes_none, Ht2|]. intros k _.
    exact (f_equal (dict_get k) (tk_pending _ _ _ _ Ht2)).
Qed.

(** ** Admission of a request *)

(** The routing keys of a request are new and its segments are intervals. *)
Definition fresh_for (pending : list ((Z * Z) * Pending)) (keys : list (Z * Z)) : Prop :=
  NoDup keys /\ forall k, k ∈ keys -> dict_get k pending = None.

Definition segs_ordered (r : SReq) : Prop := Forall (fun seg => seg.1 <= seg.2) (segs_of (base r)).

Lemma prealloc_item_wp hm env r item s :
  segs_ordered r -> sched_ok s ->
  dict_get (ci_room item, ci_seg_index item) (scatter_pending s) = None ->
  wp (prealloc_item port hm env r item)
     (fun _ s' => conserves s s' /\ forall k, k <> (ci_room item, ci_seg_index item) ->
        dict_get k (scatter_pending s') = dict_get k (scatter_pending s))
     (fun _ _ => False) s.
Proof.
  intros Ho Hs Hg. unfold prealloc_item. apply wp_try.
  assert (Hend : conserves s s /\ forall k, k <> (ci_room item, ci_seg_index item) ->
    dict_get k (scatter_pending s) = dict_get k (scatter_pending s)).
  { split; [by apply conserves_refl|done]. }
  apply wp_bind, wp_of_option; [|intros; by apply wp_ret].
  intros [a b] Hseg. case_if; [by apply wp_ret|].
  apply wp_bind. destruct (segment_hash_seq _) as [h|e]; [|by apply wp_ret].
  apply wp_ret, wp_bind.
  assert (a <= b) as Hab.
  { apply pyget_elem in Hseg. unfold segs_ordered in Ho. rewrite Forall_forall in Ho.
    apply (Ho _ Hseg). }
  eapply wp_mono; [apply alloc_dst_wp; [lia|done|done]| |].
  - intros hd s' (Hc & _ & m & _ & Hp).
    assert (forall k, k <> (ci_room item, ci_seg_index item) ->
      dict_get k (scatter_pending s') = dict_get k (scatter_pending s)).
    { intros k Hk. rewrite Hp, <- dict_set_fresh by done. by apply dict_get_set_ne. }
    destruct (ie_post (env item)); by apply wp_ret.
  - intros e s' Hc. by apply wp_ret.
Qed.

Lemma prealloc_wp hm env r s :
  segs_ordered r -> sched_ok s -> fresh_for (scatter_pending s) (combine_keys r) ->
  wp (prealloc_and_push_handles port hm env r) (fun _ => conserves s) (fun _ _ => False) s.
Proof.
  intros Ho Hs [Hnd Hf]. unfold prealloc_and_push_handles, combine_keys in *.
  destruct (pic_combine r) as [items|]; [|by apply wp_ret, conserves_refl].
  cbn in Hnd, Hf. generalize (segs_of (base r)) at 1.
  intros [|x l]; [by apply wp_ret, conserves_refl|]. clear x l.
  revert s Hs Hf. induction items as [|item items IH]; intros s Hs Hf.
  { by apply wp_ret, conserves_refl. }
  rewrite fmap_cons in Hnd. apply NoDup_cons in Hnd as [Hnin Hnd].
  unfold mfor. cbn [mfold]. apply wp_bind.
  eapply wp_mono; [apply prealloc_item_wp; [done|done|apply Hf; left]| |done].
  intros [] s1 [Hc Hk]. eapply wp_mono; [apply (IH Hnd s1)| |done]; [apply Hc| |].
  - intros k Hin. rewrite Hk; [apply Hf; by right|]. intros ->. done.
  - intros [] s2 Hc2. exact (conserves_trans _ _ _ Hc Hc2).
Qed.

Lemma combine_gate_wp hm env r s :
  segs_ordered r -> sched_ok s -> fresh_for (scatter_pending s) (combine_keys r) ->
  wp (combine_gate monotonic port mode scatter_timeout hm env r)
     (fun _ => conserves s) (fun _ => conserves s) s.
Proof.
  intros Ho Hs Hf. unfold combine_gate.
  destruct (pic_combine r) as [items|] eqn:Hpc; [|by apply wp_ret, conserves_refl].
  case_if; [|by apply wp_ret, conserves_refl].
  apply wp_bind. destruct (gated_hashes (base r)) as [gated|e];
    [|by apply wp_raise, conserves_refl].
  apply wp_ret. cbv zeta. apply wp_bind.
  eapply wp_mono; [apply prealloc_wp; [done|done|exact Hf]| |done].
  intros [] s1 Hc. apply wp_bind, wp_get. case_if; [by apply wp_ret|].
  eapply (wp_mono _ (fun _ => conserves s1) _ (fun _ => conserves s1));
    [|intros; by eapply conserves_trans..].
  apply (keeps_bind (now monotonic)); [apply keeps_now| |apply Hc]. intros t.
  apply keeps_bind; [by apply keeps_modify|]. intros _. apply keeps_ret.
Qed.

Lemma keeps_queued_limit q r : keeps (abort_on_queued_limit (KV := KV) (MB := MB) q r).
Proof.
  assert (forall x : bool, keeps (modify (fun s => set_aborted (aborted s ++ [rid r]) s);; mret x))
    as Habort.
  { intros x. apply keeps_bind; [by apply keeps_modify|]. intros _. apply keeps_ret. }
  apply keeps_bind; [apply keeps_get|]. intros s. cbv zeta.
  destruct (negb _); [apply keeps_ret|]. destruct (enable_priority_scheduling q); [|apply Habort].
  apply keeps_bind; [case_if; [apply keeps_ret|apply keeps_raise]|]. intros _.
  apply keeps_bind; [apply keeps_option|]. intros [idx c]. case_if; [|apply Habort].
  apply keeps_bind; [by apply keeps_modify|]. intros _.
  apply keeps_bind; [by apply keeps_modify|]. intros _. apply keeps_ret.
Qed.

Lemma keeps_enqueue q t r : keeps (enqueue mode q t r).
Proof.
  unfold enqueue. destruct mode; [|by apply keeps_modify..].
  apply keeps_bind; [apply keeps_queued_limit|]. intros []; [apply keeps_ret|by apply keeps_modify].
Qed.

Lemma validate_spec q r s :
  wp (set_or_validate_priority q r)
     (fun x s' => (sched_ok s -> conserves s s') /\ scatter_pending s' = scatter_pending s /\
        base x.2 = base r /\ pic_combine x.2 = pic_combine r)
     (fun _ _ => False) s.
Proof.
  unfold set_or_validate_priority.
  destruct (enable_priority_scheduling q), (req_priority r); try case_if;
    (split; [intros Hs; by apply conserves_refl|done]) || idtac.
  all: apply wp_bind, wp_modify, wp_ret; split; [|done]; intros [? ? ? ?]; by split.
Qed.

Lemma add_request_wp q t hm env r s :
  segs_ordered r -> sched_ok s -> fresh_for (scatter_pending s) (combine_keys r) ->
  wp (add_request_to_queue monotonic port mode scatter_timeout q t hm env r)
     (fun _ => conserves s) (fun _ => conserves s) s.
Proof.
  intros Ho Hs Hf. unfold add_request_to_queue. apply wp_bind.
  eapply wp_mono; [apply validate_spec| |done].
  intros [ok r'] s1 (Hc & Hp & Hb & Hpc). specialize (Hc Hs). cbn [fst snd] in *.
  destruct ok; [|by apply wp_ret]. cbn [negb]. cbv zeta.
  eapply (wp_mono _ (fun _ => conserves s1) _ (fun _ => conserves s1));
    [|intros; by eapply conserves_trans..].
  case_if.
  - apply (keeps_bind (of_outcome _)); [apply keeps_outcome| |apply Hc]. intros h.
    apply keeps_bind; [apply keeps_get|]. intros s0. destruct (get_entry h s0) as [i|].
    + apply keeps_bind; [apply keeps_lock_add|]. intros _. by apply keeps_modify.
    + by apply keeps_modify.
  - apply wp_bind. eapply wp_mono; [apply combine_gate_wp| |done].
    + unfold segs_ordered. by rewrite Hb.
    + apply Hc.
    + unfold combine_keys. by rewrite Hp, Hpc.
    + intros [r2 []] s2 Hc2; [by apply wp_ret|].
      eapply wp_mono; [apply keeps_enqueue, Hc2|intros; by eapply conserves_trans..].
Qed.

(** ** Reachable states *)

(** One event of the scheduler loop, with whatever the outside world
    contributes to it; an event that raises leaves the state it reached. *)
Inductive sched_step s : S -> Prop :=
| step_tick agent hm notifs check :
    sched_step s (pic_drain monotonic port mode scatter_timeout write_timeout agent hm notifs
                    check s).2
| step_handle h : sched_step s (handle_pic_scatter_handle h s).2
| step_add q t hm env r :
    segs_ordered r -> fresh_for (scatter_pending s) (combine_keys r) ->
    sched_step s (add_request_to_queue monotonic port mode scatter_timeout q t hm env r s).2
| step_push agent r :
    sched_step s (maybe_push_after_prefill monotonic port mode scatter_timeout write_timeout
                    agent r s).2
| step_combine_done r :
    sched_step s ((release_combine_holds r;; pic_combine_cached_tokens r) s).2.

Lemma wp_state {A} (m : M S A) (P : S -> Prop) s :
  wp m (fun _ => P) (fun _ => P) s -> P (m s).2.
Proof. unfold wp. by destruct (m s) as [[]]. Qed.

Lemma sched_step_conserves s s' : sched_ok s -> sched_step s s' -> conserves s s'.
Proof.
  intros Hs Hstep. destruct Hstep; apply wp_state.
  - by apply keeps_pic_drain.
  - apply (keeps_modify _); done.
  - by apply add_request_wp.
  - by apply keeps_maybe_push.
  - apply keeps_bind; [apply keeps_release| |done]. intros _. apply keeps_cached_tokens.
Qed.

(** C1. No slot is lost or duplicated by the transfer plane.  From a state
    with a well-formed index and stash, after any sequence of scheduler ticks,
    arriving handles, admissions (under fresh routing keys), pushes and
    combine completions, whatever the transfer agent, the peers and the clock
    do and even when an event raises, every KV slot and every Mamba slot is in
    exactly one of the pool, the index and the stash of pending segments, as
    it was at the start. *)
Theorem transfer_conserves s s' :
  sched_ok s -> rtc sched_step s s' -> conserves s s'.
Proof.
  intros Hs Hr. induction Hr as [s|s s1 s2 Hstep _ IH]; [by apply conserves_refl|].
  pose proof (sched_step_conserves _ _ Hs Hstep) as Hc.
  eapply conserves_trans; [exact Hc|]. apply IH, Hc.
Qed.

End ownership.

(** ** A combine worker at work

    A prompt of three segments whose first two are scattered: the first on a
    remote worker, the second on this engine (port 30000). *)

Definition xfer_sched := @Sched TokenToKVPoolAllocator MambaSlotAllocator.

Definition xfer_init (e : demo_engine) : xfer_sched :=
  mkSched e [] [] [] [] [] [] [] [] [] [] [] [] [] [].

Definition xfer0 : xfer_sched := xfer_init (demo_cache [7; 8; 9] demo0).

Definition xfer_req : SReq :=
  mkSReq 1 (demo_req [1; 2; 7; 8; 9; 4] [(0, 2); (2, 5); (5, 6)]) None
    (Some [mkCombine 0 (Some 30001) 5; mkCombine 1 (Some 30000) 5]) [] false false None 0.

Definition xfer_env (_ : CombineItem) : ItemEnv := mkItemEnv (Ret []) (Ret []) (Ret tt).

Definition xfer_queue : QueueConfig := mkQueue None false true false.

(** Admission stashes the remote segment's slots and parks the request. *)
Definition xfer1 : xfer_sched :=
  (add_request_to_queue demo_clock 30000 PREFILL 60 xfer_queue 0 true xfer_env xfer_req xfer0).2.

(** An agent that accepts every write. *)
Definition xfer_agent : Agent :=
  mkAgent (fun _ _ => Ret (Some 1)) (fun _ _ _ => Ret [2]) None.

(** The tick in which both notifications arrive. *)
Definition xfer2 : xfer_sched :=
  (pic_drain demo_clock 30000 PREFILL 60 10 xfer_agent true
     (Ret [tag 5 0 TAG_KV; tag 5 0 TAG_MAMBA ++ [BAR; 114; 49; 95; 48]])
     (fun _ => Ret DONE) xfer1).2.

Lemma xfer0_ok : sched_ok xfer0.
Proof.
  split.
  - apply (index_ok_wf [[7; 8; 9]]). eval_decide.
  - constructor.
  - vm_compute. split; [reflexivity|intros _; reflexivity].
  - vm_compute. reflexivity.
Qed.

Lemma xfer_req_ok : segs_ordered xfer_req.
Proof. unfold segs_ordered. eval_decide. Qed.

Lemma xfer_req_fresh : fresh_for (scatter_pending xfer0) (combine_keys xfer_req).
Proof. split; [eval_decide|]. intros k _. reflexivity. Qed.

Lemma xfer1_ok : sched_ok xfer1.
Proof.
  apply (cv_ok xfer0). unfold xfer1. apply wp_state, add_request_wp; [apply xfer_req_ok|apply xfer0_ok|].
  apply xfer_req_fresh.
Qed.

(** Two slots pending after admission, two segments cached and the request
    released after the tick, and no slot lost. *)
Lemma transfer_conserves_witness :
  pend_kv xfer1 = [4; 5] /\ len (combine_parked xfer1) = 1 /\
  len (entries (eng xfer2)) = 2 /\ pend_kv xfer2 = [] /\ len (bootstrap_queue xfer2) = 1 /\
  conserves xfer0 xfer2.
Proof.
  split; [vm_compute; reflexivity|]. split; [vm_compute; reflexivity|].
  split; [vm_compute; reflexivity|]. split; [vm_compute; reflexivity|].
  split; [vm_compute; reflexivity|].
  apply (transfer_conserves demo_clock 30000 PREFILL 60 10 xfer0 xfer2).
  - exact xfer0_ok.
  - apply (rtc_l _ _ xfer1).
    + apply step_add; [exact xfer_req_ok|exact xfer_req_fresh].
    + apply rtc_once, step_tick.
Defined.
