(* ===== verification/ScatterProtocol.v ===== *)
(** * The scatter/combine protocol

    The notification format round-trips between worker and combine side; a
    segment whose two notifications arrived is cached and leaves the stash;
    a parked combine request is released exactly when all its gated segments
    are cached and aborted once its deadline has passed; a write pins its
    source entry until it is reaped; combine requests are admitted first. *)

From stdpp Require Import strings.
From S2P Require Import Prelude PyDict Allocator Policy Segmenter Engine ReqPool PICache.
From S2P Require Import PICacheFacts PICacheEvict CacheCommon PicAlloc PicAllocFacts Scatter.
From S2P Require Import ScatterFacts TokenAllocator MambaAllocator Scenario.

(** ** Decimal numbers on the wire *)

Lemma digit_code d : 0 <= d < 10 -> digit (48 + d) = Some d.
Proof. intros Hd. unfold digit. case_if; breflect; [f_equal; lia|lia]. Qed.

Lemma undec_go_cons d l a :
  0 <= d < 10 -> undec_go (48 + d :: l) (Some a) = undec_go l (Some (a * 10 + d)).
Proof. intros Hd. unfold undec_go. cbn [foldl]. cbn. by rewrite digit_code. Qed.

Lemma undec_dec_go fuel n :
  0 <= n < 2 ^ Z.of_nat fuel ->
  exists k, forall acc a,
    undec_go (dec_go fuel n acc) (Some a) = undec_go acc (Some (a * k + n)).
Proof.
  revert n. induction fuel as [|fuel IH]; intros n Hn.
  { exists 1. intros acc a. change (2 ^ Z.of_nat 0) with 1 in Hn. cbn [dec_go].
    do 2 f_equal. lia. }
  rewrite Nat2Z.inj_succ, Z.pow_succ_r in Hn by lia.
  pose proof (Z.div_mod n 10 ltac:(lia)) as Hdm.
  pose proof (Z.mod_pos_bound n 10 ltac:(lia)) as Hmod.
  cbn [dec_go]. destruct (Z.eqb_spec (n / 10) 0) as [Hz|Hz].
  - exists 10. intros acc a. rewrite undec_go_cons by done. f_equal. f_equal. lia.
  - destruct (IH (n / 10)) as [k Hk].
    { split; [apply Z.div_pos; lia|]. apply Z.div_lt_upper_bound; lia. }
    exists (k * 10). intros acc a. rewrite Hk, undec_go_cons by done. f_equal. f_equal. lia.
Qed.

(** The characters of a decimal. *)
Definition dec_char (c : Z) : Prop := c = 45 \/ 48 <= c <= 57.

Lemma dec_go_chars fuel n acc :
  Forall (fun c => 48 <= c <= 57) acc -> Forall (fun c => 48 <= c <= 57) (dec_go fuel n acc).
Proof.
  revert n acc. induction fuel as [|fuel IH]; intros n acc Ha; [done|]. cbn [dec_go].
  pose proof (Z.mod_pos_bound n 10 ltac:(lia)).
  case_if; [|apply IH]; (constructor; [lia|done]).
Qed.

Lemma dec_go_nonempty fuel n c acc : dec_go fuel n (c :: acc) <> [].
Proof.
  revert n c acc. induction fuel as [|fuel IH]; intros n c acc; [done|].
  cbn [dec_go]. case_if; [done|apply IH].
Qed.

Definition digits (m : Z) : list Z := dec_go (S (Z.to_nat (Z.log2 m))) m [].

Lemma digits_head m : exists c l, digits m = c :: l /\ 48 <= c <= 57.
Proof.
  assert (digits m <> []) as Hn.
  { unfold digits. cbn [dec_go]. case_if; [done|apply dec_go_nonempty]. }
  assert (Forall (fun c => 48 <= c <= 57) (digits m)) as Hf by (by apply dec_go_chars).
  destruct (digits m) as [|c l]; [done|]. apply Forall_cons in Hf as [? _]. eauto.
Qed.

Lemma undec_digits m : 0 <= m -> undec_go (digits m) (Some 0) = Some m.
Proof.
  intros Hm. destruct (undec_dec_go (S (Z.to_nat (Z.log2 m))) m) as [k Hk].
  - rewrite Nat2Z.inj_succ, Z2Nat.id by apply Z.log2_nonneg.
    destruct (Z.eq_dec m 0) as [->|]; [done|]. split; [done|]. apply Z.log2_spec. lia.
  - unfold digits. by rewrite Hk.
Qed.

Lemma undec_dec n : undec (dec n) = Ret n.
Proof.
  unfold dec. fold (digits (- n)) (digits n). case_if; breflect.
  - unfold undec. pose proof (undec_digits (- n) ltac:(lia)) as Hd.
    destruct (digits_head (- n)) as (c & l & Hc & _). rewrite Hc in *. rewrite Hd. f_equal. lia.
  - unfold undec. pose proof (undec_digits n ltac:(lia)) as Hd.
    destruct (digits_head n) as (c & l & Hc & Hr). rewrite Hc in *.
    rewrite Hd. destruct c as [|c|]; try lia.
    do 7 (destruct c as [c|c|]; try lia; try done).
Qed.

Lemma dec_no_bar n : BAR ∉ dec n.
Proof.
  assert (Forall dec_char (dec n)) as Hf.
  { unfold dec. case_if; [constructor; [by left|]|];
      (eapply Forall_impl; [by apply dec_go_chars|intros; by right]). }
  intros Hin. rewrite Forall_forall in Hf. destruct (Hf _ Hin) as [|]; unfold BAR in *; lia.
Qed.

(** ** Splitting at bars *)

Lemma split_bar_end cur a : BAR ∉ a -> str_split_go [BAR] 0 cur a = [reverse cur ++ a].
Proof.
  revert cur. induction a as [|c a IH]; intros cur Hn; cbn [str_split_go].
  - by rewrite app_nil_r.
  - apply not_elem_of_cons in Hn as [Hc Hn]. rewrite decide_False.
    + rewrite IH by done. rewrite reverse_cons, <- app_assoc. done.
    + intros Hp. by apply prefix_cons_inv_1 in Hp.
Qed.

Lemma split_bar cur a rest :
  BAR ∉ a ->
  str_split_go [BAR] 0 cur (a ++ BAR :: rest) =
    (reverse cur ++ a) :: str_split_go [BAR] 0 [] rest.
Proof.
  revert cur. induction a as [|c a IH]; intros cur Hn; cbn [app str_split_go].
  - rewrite decide_True by (by apply prefix_cons, prefix_nil). cbn [length Nat.sub].
    by rewrite app_nil_r.
  - apply not_elem_of_cons in Hn as [Hc Hn]. rewrite decide_False.
    + rewrite IH by done. rewrite reverse_cons, <- app_assoc. done.
    + intros Hp. by apply prefix_cons_inv_1 in Hp.
Qed.

Lemma split_tag room seg kind flag :
  BAR ∉ kind -> BAR ∉ flag ->
  str_split (tag room seg kind ++ BAR :: flag) [BAR] = Ret [dec room; dec seg; kind; flag].
Proof.
  intros Hk Hf. unfold str_split, tag. f_equal. rewrite <- app_assoc. cbn [app].
  rewrite split_bar by apply dec_no_bar. rewrite <- app_assoc. cbn [app].
  rewrite split_bar by apply dec_no_bar. rewrite split_bar by done.
  by rewrite split_bar_end by done.
Qed.

Lemma split_tag3 room seg kind :
  BAR ∉ kind -> str_split (tag room seg kind) [BAR] = Ret [dec room; dec seg; kind].
Proof.
  intros Hk. unfold str_split, tag. f_equal.
  rewrite split_bar by apply dec_no_bar. rewrite split_bar by apply dec_no_bar.
  by rewrite split_bar_end by done.
Qed.

(** Distinct segments have distinct tags. *)
Lemma tag_inj room seg kind room' seg' kind' :
  BAR ∉ kind -> BAR ∉ kind' ->
  tag room seg kind = tag room' seg' kind' -> room = room' /\ seg = seg' /\ kind = kind'.
Proof.
  intros Hk Hk' Ht. apply (f_equal (fun t => str_split t [BAR])) in Ht.
  rewrite !split_tag3 in Ht by done. injection Ht as Hr Hs ->.
  apply (f_equal undec) in Hr, Hs. rewrite !undec_dec in *. by simplify_eq.
Qed.

(** ** Notifications *)

Section protocol.
Context {KV MB : Type} `{Allocator KV} `{Allocator MB}.
Context (cfg : PICConfig) (monotonic : nat -> Z) (port : Z) (mode : DisaggregationMode).
Context (scatter_timeout write_timeout : Z).
#[local] Abbreviation S := (@Sched KV MB).
Implicit Types s : S.

Lemma kinds_no_bar : BAR ∉ TAG_KV /\ BAR ∉ TAG_MAMBA.
Proof. split; eval_decide. Qed.

(** The Mamba notification as [fire_write] composes it, with whatever suffix
    the agent appends to it. *)
Definition mamba_notif (room seg : Z) (recomputed : bool) (suffix : list Z) : list Z :=
  tag room seg TAG_MAMBA ++ BAR :: 114 :: (if recomputed then 49 else 48) :: suffix.

Lemma note_kv_run room seg s :
  note_notif (tag room seg TAG_KV) s =
    (Ret tt, set_seen_notifs (set_add (tag room seg TAG_KV) (seen_notifs s)) s).
Proof. unfold note_notif. by rewrite split_tag3 by apply kinds_no_bar. Qed.

Lemma note_mamba_run room seg b suffix s :
  BAR ∉ suffix ->
  note_notif (mamba_notif room seg b suffix) s =
    (Ret tt, set_seen_notifs (set_add (tag room seg TAG_MAMBA) (seen_notifs s))
               (set_seg_recomputed (dict_set (room, seg) b (seg_recomputed s)) s)).
Proof.
  intros Hs. unfold note_notif, mamba_notif. rewrite split_tag.
  2:{ apply kinds_no_bar. }
  2:{ apply not_elem_of_cons. split; [done|]. apply not_elem_of_cons. split; [by destruct b|done]. }
  rewrite bool_decide_true by done. rewrite bool_decide_true by done. cbn [andb].
  unfold mbind, M_bind, of_outcome, modify. rewrite !undec_dec.
  replace (bool_decide (take 2 (114 :: (if b then 49 else 48) :: suffix) = [114; 49])) with b;
    [done|]. by destruct b.
Qed.

(** The worker's notifications mean on the combine side what the worker
    said: for every room, segment and hit/miss flag, and whatever suffix the
    transfer backend appends, the Mamba notification records exactly that flag
    under that segment and marks exactly that segment's Mamba tag as seen; and
    no two segments share a tag. *)
Theorem notif_round_trip room seg b suffix s :
  BAR ∉ suffix ->
  wp (note_notif (mamba_notif room seg b suffix))
     (fun _ s' => dict_get (room, seg) (seg_recomputed s') = Some b /\
        tag room seg TAG_MAMBA ∈ seen_notifs s' /\
        (forall key, key <> (room, seg) ->
           dict_get key (seg_recomputed s') = dict_get key (seg_recomputed s) /\
           (tag key.1 key.2 TAG_MAMBA ∈ seen_notifs s' <->
            tag key.1 key.2 TAG_MAMBA ∈ seen_notifs s)) /\
        forall key, tag key.1 key.2 TAG_KV ∈ seen_notifs s' <->
                    tag key.1 key.2 TAG_KV ∈ seen_notifs s)
     (fun _ _ => False) s.
Proof.
  intros Hs. unfold wp. rewrite note_mamba_run by done. cbn.
  split_and!.
  - apply dict_get_set_eq.
  - apply elem_of_set_add. by left.
  - intros [room' seg'] Hne. split; [by apply dict_get_set_ne|]. cbn.
    rewrite elem_of_set_add. split; [|by right]. intros [Ht|]; [|done].
    apply tag_inj in Ht as (-> & -> & _); [done|apply kinds_no_bar..].
  - intros [room' seg']. cbn. rewrite elem_of_set_add. split; [|by right].
    intros [Ht|]; [|done]. by apply tag_inj in Ht as (_ & _ & ?); [|apply kinds_no_bar..].
Qed.

(** ** Delivery *)

Definition delivered s (key : Z * Z) : Prop :=
  tag key.1 key.2 TAG_KV ∈ seen_notifs s /\ tag key.1 key.2 TAG_MAMBA ∈ seen_notifs s.

Lemma inject_received_present h tokens kvs mb (e : Engine KV MB) :
  wp (inject_received_segment monotonic h tokens kvs mb)
     (fun _ e' => (forall h', dict_mem h' (entries e') = true <->
                     h' = h \/ dict_mem h' (entries e) = true))
     (fun _ _ => False) e.
Proof.
  unfold inject_received_segment. apply wp_bind, wp_get.
  destruct (dict_get h (entries e)) as [i|] eqn:Hg.
  - apply wp_bind, wp_modify, wp_ret. intros h'. cbn. split; [by right|].
    intros [->|]; [|done]. unfold dict_mem. by rewrite Hg.
  - destruct (insert_segment_fresh monotonic h tokens kvs mb e Hg) as (t & e1 & Hrun & Hsbr).
    apply wp_bind. unfold wp at 1. rewrite Hrun. apply wp_bind, wp_modify, wp_ret.
    intros h'. cbn. rewrite (sbr_entries _ _ Hsbr). cbn. unfold dict_mem.
    destruct (decide (h' = h)) as [->|Hne].
    + rewrite dict_get_set_eq. naive_solver.
    + rewrite dict_get_set_ne by done. naive_solver.
Qed.

(** What injecting the pending segment [key] does to the cached hashes, the
    stash and the tags. *)
Record injected key (p : Pending) s s' : Prop := {
  ij_hashes h : has_entry h s' = true <-> h = pd_seg_hash p \/ has_entry h s = true;
  ij_pending : scatter_pending s' = dict_pop key (scatter_pending s);
  ij_seen : seen_notifs s' =
    filter (fun m => m <> tag key.1 key.2 TAG_KV /\ m <> tag key.1 key.2 TAG_MAMBA)
      (seen_notifs s);
}.

Lemma inject_one_delivers key p s :
  delivered s key ->
  wp (inject_one monotonic key p) (fun _ => injected key p s) (fun _ _ => False) s.
Proof.
  intros [Hk Hm]. unfold inject_one. apply wp_bind, wp_get.
  rewrite bool_decide_true by done. rewrite bool_decide_true by done. cbn [negb andb].
  apply wp_bind, wp_try, wp_bind, wp_on_eng.
  eapply wp_mono; [apply inject_received_present| |done].
  intros i e Hh. by destruct (has_entry (pd_seg_hash p) s).
Qed.

Lemma inject_one_waits key p s :
  ~ delivered s key -> inject_one monotonic key p s = (Ret tt, s).
Proof.
  intros Hd. unfold inject_one, mbind, M_bind, get. unfold delivered in Hd.
  case_bool_decide; [|done]. case_bool_decide; [|done]. exfalso. by apply Hd.
Qed.

(** Tags of other segments survive an injection. *)
Lemma injected_delivered key p s s' key' :
  injected key p s s' -> key' <> key -> delivered s' key' <-> delivered s key'.
Proof.
  intros Hi Hne. destruct kinds_no_bar as [Hbk Hbm]. destruct key as [a b], key' as [a' b'].
  unfold delivered. rewrite (ij_seen _ _ _ _ Hi). cbn [fst snd].
  rewrite !list_elem_of_filter.
  assert (forall k k', BAR ∉ k -> BAR ∉ k' -> tag a' b' k <> tag a b k') as Ht.
  { intros k k' ?? (-> & -> & _)%tag_inj; done. }
  split; [tauto|]. intros [? ?]. split_and!; auto.
Qed.

#[local] Instance delivered_dec s key : Decision (delivered s key).
Proof. unfold delivered. apply _. Defined.

Lemma dict_pop_iff {K V} `{EqDecision K} (k k' : K) (v : V) d :
  dict_wf d -> (k, v) ∈ dict_pop k' d <-> (k, v) ∈ d /\ k <> k'.
Proof.
  intros Hd. rewrite dict_pop_filter by done. rewrite list_elem_of_filter. cbn. tauto.
Qed.

(** All items are injected in one sweep, except those whose notifications are
    incomplete, which stay pending. *)
Lemma inject_all_delivers l s :
  dict_wf (scatter_pending s) -> dict_wf l ->
  wp (mfor l (fun x => inject_one monotonic x.1 x.2))
     (fun _ s' =>
        (forall h, has_entry h s' = true <-> has_entry h s = true \/
           exists key p, (key, p) ∈ l /\ delivered s key /\ pd_seg_hash p = h) /\
        (forall key p, (key, p) ∈ scatter_pending s' <->
           (key, p) ∈ scatter_pending s /\ ~ (key ∈ l.*1 /\ delivered s key)))
     (fun _ _ => False) s.
Proof.
  revert s. induction l as [|[key p] l IH]; intros s Hp Hl.
  { apply wp_ret. split; [set_solver|]. intros. cbn. rewrite elem_of_nil. tauto. }
  apply NoDup_cons in Hl as [Hnin Hl]. cbn in Hnin.
  unfold mfor. cbn [mfold]. apply wp_bind. cbn [fst snd].
  destruct (decide (delivered s key)) as [Hd|Hd].
  - eapply wp_mono; [by apply inject_one_delivers| |done]. intros [] s1 Hi.
    eapply wp_mono; [apply (IH s1)| |done]; [rewrite (ij_pending _ _ _ _ Hi); by apply dict_pop_wf|done|].
    intros [] s2 [Hh Hq]. split.
    + intros h. rewrite Hh, (ij_hashes _ _ _ _ Hi). split.
      * intros [[->|?]|(k & q & Hin & Hdk & <-)]; [right; exists key, p; set_solver|by left|].
        right. exists k, q. split; [by right|]. split; [|done].
        apply (injected_delivered _ _ _ _ _ Hi) in Hdk; [done|]. intros ->. apply Hnin.
        by apply (list_elem_of_fmap_2' fst _ (key, q)).
      * intros [?|(k & q & Hin & Hdk & <-)]; [left; by right|].
        apply elem_of_cons in Hin as [[= -> ->]|Hin]; [left; by left|].
        right. exists k, q. split; [done|]. split; [|done].
        apply (injected_delivered _ _ _ _ _ Hi); [|done]. intros ->. apply Hnin.
        by apply (list_elem_of_fmap_2' fst _ (key, q)).
    + intros k q. rewrite Hq, (ij_pending _ _ _ _ Hi), dict_pop_iff by done.
      rewrite fmap_cons, elem_of_cons. cbn. destruct (decide (k = key)) as [->|Hne]; [tauto|].
      rewrite (injected_delivered _ _ _ _ _ Hi) by done. tauto.
  - unfold wp at 1. rewrite inject_one_waits by done.
    eapply wp_mono; [by apply IH| |done]. intros [] s2 [Hh Hq]. split.
    + intros h. rewrite Hh. split; [set_solver|].
      intros [?|(k & q & [[= -> ->]|Hin]%elem_of_cons & Hdk & <-)]; [by left|done|].
      right. by exists k, q.
    + intros k q. rewrite Hq, fmap_cons, elem_of_cons. cbn.
      destruct (decide (k = key)) as [->|]; [|tauto]. set_solver.
Qed.

(** ** Release of parked combine requests *)

(** The effect of freeing destinations and dropping holds: the cached hashes,
    the clock and the queues are untouched, the stash can only shrink. *)
Record quiet s s' : Prop := {
  qt_entries : entries (eng s') = entries (eng s);
  qt_clock : clock_reads (eng s') = clock_reads (eng s);
  qt_pending x : x ∈ scatter_pending s' -> x ∈ scatter_pending s;
  qt_boot : bootstrap_queue s' = bootstrap_queue s;
  qt_aborted : aborted s' = aborted s;
}.

#[local] Instance quiet_preorder : PreOrder quiet.
Proof.
  split; [by split|]. intros s1 s2 s3 [? ? ? ? ?] [? ? ? ? ?]. split; try congruence. auto.
Qed.

Lemma quiet_mfor {A} (l : list A) (body : A -> M S unit) s :
  (forall x s, wp (body x) (fun _ => quiet s) (fun _ _ => False) s) ->
  wp (mfor l body) (fun _ => quiet s) (fun _ _ => False) s.
Proof.
  intros Hb. apply (wp_mfold _ (fun _ _ => quiet s)); [done| |done].
  intros d x rest acc s1 _ Hq. destruct acc. eapply wp_mono; [apply Hb| |done].
  intros [] s2 ?. by etrans.
Qed.

Lemma unlock_quiet h s : wp (unlock_hash h) (fun _ => quiet s) (fun _ _ => False) s.
Proof. unfold unlock_hash. apply wp_bind, wp_get. by destruct (get_entry h s). Qed.

Lemma free_combine_quiet r s :
  wp (free_combine_pending r) (fun _ => quiet s) (fun _ _ => False) s.
Proof.
  unfold free_combine_pending. apply wp_bind, wp_get. apply quiet_mfor. clear s. intros key s.
  apply wp_bind, wp_get. destruct (dict_get key (scatter_pending s)) as [p|]; [|by apply wp_ret].
  split; try done. cbn. intros [k q]. apply dict_pop_elem.
Qed.

(** The verdict on a parked request at time [t]. *)
Inductive Verdict := Expired | Ready | Waiting.

Definition verdict s (t : Z) (e : Parked) : Verdict :=
  if pk_deadline e <? t then Expired
  else if forallb (fun h => has_entry h s) (pk_hashes e) then Ready else Waiting.

(** [select v] of the parked requests, the k-th judged at the k-th clock
    reading. *)
Fixpoint judged s (clock : nat) (l : list Parked) : list (Parked * Verdict) :=
  match l with
  | [] => []
  | e :: l' => (e, verdict s (monotonic clock) e) :: judged s (Datatypes.S clock) l'
  end.

#[local] Instance Verdict_eq_dec : EqDecision Verdict.
Proof. solve_decision. Defined.

Definition with_verdict (v : Verdict) (js : list (Parked * Verdict)) : list Parked :=
  (filter (fun j => j.2 = v) js).*1.

Lemma verdict_entries s s' t e :
  entries (eng s') = entries (eng s) -> verdict s' t e = verdict s t e.
Proof. intros He. unfold verdict, has_entry. by rewrite He. Qed.

Lemma judged_entries s s' c l :
  entries (eng s') = entries (eng s) -> judged s' c l = judged s c l.
Proof.
  intros He. revert c. induction l as [|e l IH]; intros c; [done|]. cbn.
  by rewrite (verdict_entries s s'), IH.
Qed.

Lemma park_step_spec e s :
  mode = PREFILL ->
  wp (park_step monotonic mode e)
     (fun gone s' => let v := verdict s (monotonic (clock_reads (eng s))) e in
        entries (eng s') = entries (eng s) /\
        clock_reads (eng s') = Datatypes.S (clock_reads (eng s)) /\
        (forall x, x ∈ scatter_pending s' -> x ∈ scatter_pending s) /\
        gone = negb (bool_decide (v = Waiting)) /\
        bootstrap_queue s' = bootstrap_queue s ++
          (if decide (v = Ready) then [pk_req e] else []) /\
        aborted s' = aborted s ++ (if decide (v = Expired) then [rid (pk_req e)] else []))
     (fun _ _ => False) s.
Proof.
  intros Hm. unfold park_step. apply wp_bind, wp_on_eng. unfold wp at 1, time_monotonic.
  set (s1 := set_eng _ s). change (entries (eng s)) with (entries (eng s1)).
  apply wp_bind, wp_get. unfold verdict.
  destruct (pk_deadline e <? monotonic (clock_reads (eng s))).
  - apply wp_bind. eapply wp_mono; [apply free_combine_quiet| |done]. intros [] s2 Hq2.
    apply wp_bind. eapply wp_mono; [apply quiet_mfor, unlock_quiet| |done]. intros [] s3 Hq3.
    apply wp_bind, wp_modify, wp_ret. destruct (quiet_preorder) as [_ Htr].
    destruct (Htr _ _ _ Hq2 Hq3) as [He Hc Hp Hb Ha]. cbn in He, Hc, Hp, Hb, Ha |- *.
    rewrite app_nil_r, Hb, Ha. done.
  - change (fun h => has_entry h s1) with (fun h => has_entry h s).
    destruct (forallb _ _).
    + apply wp_bind, wp_assert; [intros _|by rewrite bool_decide_true by done].
      apply wp_bind, wp_modify, wp_ret. cbn. by rewrite app_nil_r.
    + apply wp_ret. cbn. by rewrite !app_nil_r.
Qed.

(** [l] extends by [x] when [b]. *)
Lemma with_verdict_cons v e w js :
  with_verdict v ((e, w) :: js) = (if decide (w = v) then [e] else []) ++ with_verdict v js.
Proof. unfold with_verdict. rewrite filter_cons. cbn. by case_decide. Qed.

Lemma scan_parked_spec todo kept s :
  mode = PREFILL -> combine_parked s = kept ++ todo ->
  wp (scan_parked monotonic mode kept todo)
     (fun _ s' => let js := judged s (clock_reads (eng s)) todo in
        entries (eng s') = entries (eng s) /\
        (forall x, x ∈ scatter_pending s' -> x ∈ scatter_pending s) /\
        combine_parked s' = kept ++ with_verdict Waiting js /\
        bootstrap_queue s' = bootstrap_queue s ++ (pk_req <$> with_verdict Ready js) /\
        aborted s' = aborted s ++ (rid <$> (pk_req <$> with_verdict Expired js)))
     (fun _ _ => False) s.
Proof.
  intros Hm. revert kept s. induction todo as [|e todo IH]; intros kept s Hk.
  { apply wp_ret. cbn. by rewrite !app_nil_r in *. }
  cbn [scan_parked]. apply wp_bind. eapply wp_mono; [by apply park_step_spec| |done].
  intros gone s1 (He & Hc & Hp & Hg & Hb & Ha). apply wp_bind, wp_modify.
  eapply wp_mono; [by apply IH| |done].
  intros [] s2 (He2 & Hp2 & Hk2 & Hb2 & Ha2).
  cbn [eng set_combine_parked] in He2, Hp2, Hk2, Hb2, Ha2.
  rewrite (judged_entries s) in Hk2, Hb2, Ha2 by done. rewrite Hc in Hk2, Hb2, Ha2.
  cbn [judged]. cbv zeta. rewrite !with_verdict_cons. split; [congruence|]. split; [auto|].
  rewrite Hk2, Hb2, Ha2. cbn. rewrite Hb, Ha, !fmap_app, <- !app_assoc. split_and!.
  - subst gone. destruct (verdict s _ e);
      [rewrite bool_decide_false, decide_False by done..|rewrite bool_decide_true, decide_True by done];
      cbn; by rewrite <- ?app_assoc.
  - by destruct (verdict s _ e).
  - by destruct (verdict s _ e).
Qed.


(** ** From notifications to cached segments *)

Inductive Notif :=
  | NotifKV (room seg : Z)
  | NotifMamba (room seg : Z) (recomputed : bool) (suffix : list Z).

Definition encode (n : Notif) : list Z :=
  match n with
  | NotifKV room seg => tag room seg TAG_KV
  | NotifMamba room seg b suffix => mamba_notif room seg b suffix
  end.

Definition notif_tag (n : Notif) : list Z :=
  match n with
  | NotifKV room seg => tag room seg TAG_KV
  | NotifMamba room seg _ _ => tag room seg TAG_MAMBA
  end.

Definition suffix_ok (n : Notif) : Prop :=
  match n with NotifKV _ _ => True | NotifMamba _ _ _ suffix => BAR ∉ suffix end.

Lemma notes_run ns s :
  Forall suffix_ok ns ->
  wp (mfor (encode <$> ns) note_notif)
     (fun _ s' => eng s' = eng s /\ scatter_pending s' = scatter_pending s /\
        forall t, t ∈ seen_notifs s' <-> t ∈ seen_notifs s \/ t ∈ (notif_tag <$> ns))
     (fun _ _ => False) s.
Proof.
  revert s. induction ns as [|n ns IH]; intros s Hn.
  { apply wp_ret. split_and!; [done..|]. intros t. cbn. set_solver. }
  apply Forall_cons in Hn as [Hn Hns]. unfold mfor. rewrite fmap_cons. cbn [mfold].
  apply wp_bind. unfold wp at 1.
  destruct n; cbn [encode]; [rewrite note_kv_run|rewrite note_mamba_run by done];
    (eapply wp_mono; [by apply IH| |done]); intros [] s2 (He & Hp & Hs);
    (split; [done|]; split; [done|]); intros t; rewrite Hs; cbn; rewrite elem_of_set_add;
    rewrite elem_of_cons; tauto.
Qed.

(** C17. A transferred segment is cached as soon as it has landed.  On a
    prefill worker, when both notifications of a pending segment are among
    those seen before or delivered by this poll, the tick that drains them
    files the segment's hash in the cache index and takes the segment off the
    stash; a segment with a missing notification is never filed early. *)
Theorem landed_segment_cached ns key p s :
  mode = PREFILL -> sched_ok s -> Forall suffix_ok ns ->
  (key, p) ∈ scatter_pending s ->
  let seen t := t ∈ seen_notifs s \/ t ∈ (notif_tag <$> ns) in
  let landed key := seen (tag key.1 key.2 TAG_KV) /\ seen (tag key.1 key.2 TAG_MAMBA) in
  wp (drain_injects monotonic mode (Ret (encode <$> ns)))
     (fun _ s' =>
        (landed key -> has_entry (pd_seg_hash p) s' = true /\ (key, p) ∉ scatter_pending s') /\
        (forall h, has_entry h s' = true -> has_entry h s = true \/
           exists key' p', (key', p') ∈ scatter_pending s /\ landed key' /\ pd_seg_hash p' = h))
     (fun _ _ => False) s.
Proof.
  intros Hm Hs Hns Hin seen landed. unfold drain_injects. apply wp_bind, wp_get.
  destruct (scatter_pending s) as [|x pend] eqn:Hpend; [by apply elem_of_nil in Hin|].
  rewrite <- Hpend in Hin |- *. clear x pend Hpend.
  apply wp_bind, wp_try, wp_bind. apply wp_ret. apply wp_bind.
  eapply wp_mono; [by apply notes_run| |done]. intros [] s1 (He & Hp & Hseen).
  apply wp_ret. cbn [negb]. apply wp_bind, wp_get. apply wp_bind. rewrite Hp.
  eapply wp_mono; [apply inject_all_delivers; [rewrite Hp; apply Hs|apply Hs]| |done].
  intros [] s2 [Hh Hq].
  assert (forall k, delivered s1 k <-> landed k) as Hl.
  { intros k. unfold delivered, landed, seen. by rewrite !Hseen. }
  unfold try_release_combines. apply wp_bind, wp_get.
  eapply wp_mono; [by apply scan_parked_spec| |done]. intros [] s3 (He3 & Hp3 & _).
  assert (forall h, has_entry h s3 = has_entry h s2) as Hh3 by (intros; unfold has_entry; by rewrite He3).
  assert (forall h, has_entry h s1 = has_entry h s) as Hh1 by (intros; unfold has_entry; by rewrite He).
  split.
  - intros Hk. rewrite Hh3, Hh. split.
    + right. exists key, p. by rewrite Hl.
    + intros Hin3%Hp3. apply Hq in Hin3 as [_ Hn]. apply Hn. rewrite Hl. split; [|done].
      by apply (list_elem_of_fmap_2' fst _ (key, p)).
  - intros h. rewrite Hh3, Hh, Hh1. intros [?|(k & q & ? & Hd & <-)]; [by left|].
    right. exists k, q. by rewrite <- Hl.
Qed.

(** ** Write pins *)

Definition lock_of s (i : nat) : Z := lock_ref (deref (eng s) i).

Lemma lock_update s i f :
  (i < length (heap (eng s)))%nat ->
  lock_of (set_eng (update_entry i f (eng s)) s) i = lock_ref (f (deref (eng s) i)).
Proof. intros Hi. unfold lock_of. cbn. by rewrite deref_update_eq. Qed.

Lemma reap_spec item i s :
  get_entry (wi_seg_hash item) s = Some i -> (i < length (heap (eng s)))%nat -> 0 < lock_of s i ->
  wp (reap_inflight item)
     (fun _ s' => lock_of s' i = lock_of s i - 1 /\
        write_inflight s' = list_remove item (write_inflight s)) (fun _ _ => False) s.
Proof.
  intros Hg Hi Hl. unfold reap_inflight, unlock_hash. apply wp_bind, wp_bind, wp_get. rewrite Hg.
  apply wp_on_eng, wp_modify, wp_modify. split; [|done].
  transitivity (lock_of (set_eng (update_entry i drop_lock (eng s)) s) i); [done|].
  rewrite lock_update by done. unfold drop_lock. fold (lock_of s i).
  rewrite (proj2 (Z.ltb_lt 0 (lock_of s i))) by done. done.
Qed.

Lemma poll_all_done l (s : S) :
  mfold (fun acc (_ : Z) => st ← of_outcome (Ret DONE); mret (acc ++ [st])) [] l s =
    (Ret (replicate (length l) DONE), s).
Proof.
  rewrite (mfold_pure _ (fun acc _ => acc ++ [DONE])) by done. do 2 f_equal.
  induction l as [|x l IH] using rev_ind; [done|].
  rewrite foldl_app, IH, length_app, replicate_add. done.
Qed.

(** The drain reaps a write all of whose handles are done. *)
Lemma drain_one_done item i s :
  get_entry (wi_seg_hash item) s = Some i -> (i < length (heap (eng s)))%nat -> 0 < lock_of s i ->
  wp (drain_one monotonic (fun _ => Ret DONE) item)
     (fun _ s' => lock_of s' i = lock_of s i - 1 /\
        write_inflight s' = list_remove item (write_inflight s)) (fun _ _ => False) s.
Proof.
  intros Hg Hi Hl. unfold drain_one. apply wp_bind, wp_try, wp_bind.
  unfold wp at 1. rewrite poll_all_done.
  apply wp_ret, wp_bind, wp_on_eng. unfold wp at 1, time_monotonic. cbv zeta.
  replace (forallb _ (replicate _ DONE)) with true.
  2:{ symmetry. apply forallb_forall. intros x [-> _]%list_elem_of_In%elem_of_replicate.
      by apply bool_decide_eq_true. }
  rewrite orb_true_r. cbn [negb]. set (s1 := set_eng _ s).
  exact (reap_spec item i s1 Hg Hi Hl).
Qed.

(** A peer that takes every write, in the asynchronous mode. *)
Definition accepts (agent : Agent) (h : Handle) : Prop :=
  sync_write agent = None /\ (forall e, exists o, send_kvcache agent h e = Ret o) /\
  forall e notif, exists hs, maybe_send_extra agent h e notif = Ret hs.

Lemma start_write_accepted agent h i room seg hash s :
  accepts agent h -> (i < length (heap (eng s)))%nat ->
  wp (start_write monotonic write_timeout agent h i room seg hash)
     (fun _ s' => lock_of s' i = lock_of s i + 1 /\ entries (eng s') = entries (eng s) /\
        length (heap (eng s')) = length (heap (eng s)) /\
        exists handles t, write_inflight s' =
          write_inflight s ++ [mkWrite handles hash room seg (t + write_timeout)])
     (fun _ _ => False) s.
Proof.
  intros (Hsync & Hkv & Hst) Hi. unfold start_write. rewrite Hsync.
  apply wp_bind, wp_on_eng, wp_modify. set (s1 := set_eng _ s).
  assert (lock_of s1 i = lock_of s i + 1) as Hl by (by apply lock_update).
  apply wp_bind. unfold fire_write. apply wp_bind, wp_get.
  destruct (Hkv (deref (eng s1) i)) as [hk ->]. apply wp_bind, wp_ret, wp_bind, wp_modify, wp_bind.
  edestruct Hst as [hs ->]. apply wp_ret, wp_ret, wp_bind, wp_on_eng.
  unfold wp at 1, time_monotonic. apply wp_modify.
  split; [done|]. split; [done|]. split; [cbn; by rewrite length_alter|]. by eexists _, _.
Qed.


(** A refused transfer leaks its pin.  When the send primitives raise
    while a finished segment is pushed to a handle that is already there, the
    push returns normally, the handle is consumed and no write is in flight,
    yet the segment's entry keeps the lock taken for the write: nothing will
    release it, so the entry can never be evicted again. *)
Theorem failed_push_leaks_pin agent r meta hd hash i s :
  index_wf (eng s) -> scatter_meta r = Some meta ->
  segment_hash_seq (origin_input_ids (base r)) = Ret hash -> get_entry hash s = Some i ->
  sm_combine_port meta <> Some port ->
  dict_get (sm_scatter_room meta, sm_seg_index meta) (scatter_handles s) = Some hd ->
  (forall e, exists x, send_kvcache agent hd e = Raise x) ->
  wp (maybe_push_after_prefill monotonic port mode scatter_timeout write_timeout agent r)
     (fun _ s' => lock_of s' i = lock_of s i + 1 /\ write_inflight s' = write_inflight s /\
        push_pending s' = push_pending s /\
        scatter_handles s' =
          dict_pop (sm_scatter_room meta, sm_seg_index meta) (scatter_handles s))
     (fun _ _ => False) s.
Proof.
  intros [_ Hw] Hm Hh Hg Hp Hd Hsend. destruct (Hw _ _ (dict_get_elem _ _ _ Hg)) as [Hi _].
  unfold maybe_push_after_prefill. rewrite Hm, Hh. apply wp_try, wp_bind, wp_ret.
  rewrite bool_decide_false by done. apply wp_bind, wp_get. rewrite Hd, Hg.
  apply wp_bind, wp_ret. apply wp_bind, wp_modify.
  unfold start_write, fire_write. apply wp_bind, wp_on_eng, wp_modify.
  apply wp_bind, wp_bind, wp_get. apply wp_bind. unfold of_outcome, wp.
  edestruct Hsend as [x ->]. split; [|done]. by apply lock_update.
Qed.

(** ** Billing *)

(** A segment's contribution to the cached tokens of a combine request. *)
Definition billed s (r : SReq) (item : CombineItem) : Z :=
  match dict_get (ci_room item, ci_seg_index item) (seg_recomputed s),
        pyget (segs_of (base r)) (ci_seg_index item) with
  | Some false, Some seg => seg.2 - seg.1
  | _, _ => 0
  end.

Lemma billed_ext s s' r item :
  dict_get (ci_room item, ci_seg_index item) (seg_recomputed s') =
    dict_get (ci_room item, ci_seg_index item) (seg_recomputed s) ->
  billed s' r item = billed s r item.
Proof. intros He. unfold billed. by rewrite He. Qed.

Lemma cached_step_spec r total item s :
  dict_wf (seg_recomputed s) -> is_Some (pyget (segs_of (base r)) (ci_seg_index item)) ->
  cached_step r total item s =
    (Ret (total + billed s r item),
     set_seg_recomputed (dict_pop (ci_room item, ci_seg_index item) (seg_recomputed s)) s).
Proof.
  intros Hw [seg Hseg]. unfold cached_step, billed, mbind, M_bind, get, modify. rewrite Hseg.
  destruct (dict_get _ (seg_recomputed s)) as [[]|]; cbn;
    [by rewrite Z.add_0_r|done|by rewrite Z.add_0_r].
Qed.

Lemma billing_loop r items : forall s total,
  dict_wf (seg_recomputed s) ->
  NoDup ((fun i => (ci_room i, ci_seg_index i)) <$> items) ->
  Forall (fun i => is_Some (pyget (segs_of (base r)) (ci_seg_index i))) items ->
  wp (mfold (cached_step r) total items)
     (fun n s' => n = total + zsum (billed s r <$> items) /\
        forall key, dict_get key (seg_recomputed s') =
          if decide (key ∈ ((fun i => (ci_room i, ci_seg_index i)) <$> items)) then None
          else dict_get key (seg_recomputed s))
     (fun _ _ => False) s.
Proof.
  induction items as [|item items IH]; intros s total Hw Hnd Hin.
  { apply wp_ret. cbn. split; [lia|]. intros key.
    by rewrite decide_False by apply not_elem_of_nil. }
  rewrite fmap_cons in Hnd. apply NoDup_cons in Hnd as [Hnin Hnd].
  apply Forall_cons in Hin as [Hi Hin]. cbn [mfold]. apply wp_bind. unfold wp at 1.
  rewrite cached_step_spec by done. cbv beta iota.
  set (key0 := (ci_room item, ci_seg_index item)) in *.
  eapply wp_mono; [apply IH| |done]; [cbn; by apply dict_pop_wf|done|done|].
  intros n s' [-> Hk]. split.
  - rewrite fmap_cons, zsum_cons. erewrite (list_fmap_ext _ (billed s r) items); [lia|].
    intros k x Hx. apply billed_ext. cbn. apply dict_get_pop_ne. intros Heq. apply Hnin.
    rewrite Heq. apply (list_elem_of_fmap_2' (fun i => (ci_room i, ci_seg_index i)) _ x); [|done].
    by eapply list_elem_of_lookup_2.
  - intros key. rewrite Hk. cbn [seg_recomputed set_seg_recomputed]. rewrite fmap_cons. fold key0.
    destruct (decide (key = key0)) as [->|Hne].
    + rewrite (decide_True _ _ (list_elem_of_here _ _)). case_decide; [done|].
      by apply dict_get_pop_eq.
    + rewrite dict_get_pop_ne by done.
      rewrite (decide_ext (key ∈ key0 :: _) (key ∈ ((fun i => (ci_room i, ci_seg_index i)) <$> items)))
        by (rewrite elem_of_cons; tauto). done.
Qed.

(** A combine request is billed exactly its cross-request hits: the
    cached-token count is the total length of the segments whose notification
    said they were not recomputed; segments without a notification count as
    recomputed; and the flags of the request's segments, and no others, are
    consumed. *)
Theorem combine_billing r s :
  dict_wf (seg_recomputed s) -> NoDup (combine_keys r) ->
  Forall (fun i => is_Some (pyget (segs_of (base r)) (ci_seg_index i))) (default [] (pic_combine r)) ->
  wp (pic_combine_cached_tokens r)
     (fun n s' => n = zsum (billed s r <$> default [] (pic_combine r)) /\
        forall key, dict_get key (seg_recomputed s') =
          if decide (key ∈ combine_keys r) then None else dict_get key (seg_recomputed s))
     (fun _ _ => False) s.
Proof.
  intros Hw Hnd Hin. eapply wp_mono; [by apply (billing_loop r _ s 0)| |done].
  intros n s' [-> Hk]. split; [lia|]. exact Hk.
Qed.

End protocol.

(** ** Admission order *)

Lemma two_keys_split {A} (key : A -> Z) l :
  (forall x, key x = 0 \/ key x = 1) -> StronglySorted (fun a b => key a <= key b) l ->
  l = filter (fun x => key x = 0) l ++ filter (fun x => key x = 1) l.
Proof.
  intros Hk. induction 1 as [|x l Hl IH Hx]; [done|]. rewrite !filter_cons.
  destruct (Hk x) as [H0|H1].
  - rewrite decide_True, decide_False by lia. cbn. by rewrite <- IH.
  - rewrite decide_False, decide_True by lia. rewrite (filter_none _ l).
    + cbn. f_equal. symmetry. apply filter_all. intros y Hy. rewrite Forall_forall in Hx.
      specialize (Hx _ Hy). destruct (Hk y); lia.
    + intros y Hy. rewrite Forall_forall in Hx. specialize (Hx _ Hy). cbn in Hx. lia.
Qed.

(** Combine requests go first and nobody else moves: the reordered
    waiting queue is the combine requests in arrival order followed by all
    other requests in arrival order. *)
Theorem partition_combine_first_stable q :
  partition_combine_first q =
    filter (fun r => is_pic_combine r = true) q ++ filter (fun r => is_pic_combine r = false) q.
Proof.
  unfold partition_combine_first. set (key := fun r => if is_pic_combine r then 0 else 1).
  rewrite (two_keys_split key (sort_key key q)).
  - rewrite !sort_key_stable. f_equal; apply list_filter_iff; intros r; unfold key;
      by destruct (is_pic_combine r).
  - intros r. unfold key. destruct (is_pic_combine r); lia.
  - apply sort_key_sorted.
Qed.

(** ** Witnesses *)

Lemma notif_round_trip_witness :
  wp (note_notif (mamba_notif 5 0 true [95; 48]))
     (fun _ s' => dict_get (5, 0) (seg_recomputed s') = Some true) (fun _ _ => False) xfer1.
Proof.
  eapply wp_mono; [apply (notif_round_trip 5 0 true [95; 48] xfer1)| |done].
  - eval_decide.
  - intros [] s' (Hg & _). exact Hg.
Defined.


Lemma landed_segment_cached_witness :
  wp (drain_injects demo_clock PREFILL (Ret (encode <$> [NotifKV 5 0; NotifMamba 5 0 true [95; 48]])))
     (fun _ s' => has_entry (segment_hash [1; 2]) s' = true) (fun _ _ => False) xfer1.
Proof.
  eapply wp_mono;
    [apply (landed_segment_cached demo_clock PREFILL [NotifKV 5 0; NotifMamba 5 0 true [95; 48]]
              (5, 0) (mkPending [4; 5] 2 2 (segment_hash [1; 2]) [1; 2]) xfer1)| |done].
  - reflexivity.
  - exact xfer1_ok.
  - constructor; [exact I|]. constructor; [unfold suffix_ok; eval_decide|constructor].
  - vm_compute. left.
  - intros [] s' [Hl _]. apply Hl. split; right; eval_decide.
Defined.

Definition pin_handle : Handle := mkHandle 5 0 [] [10; 11; 12] [3] [] (tag 5 0 TAG_KV) (tag 5 0 TAG_MAMBA).


Definition pushed_req : SReq :=
  mkSReq 2 (demo_req [7; 8; 9] [(0, 3)]) (Some (mkMeta (Some 30001) 5 0)) None [] false false None 0.

(** An agent whose peer is gone. *)
Definition deaf_agent : Agent :=
  mkAgent (fun _ _ => Raise RuntimeError) (fun _ _ _ => Ret []) None.

Lemma failed_push_leaks_pin_witness :
  wp (maybe_push_after_prefill demo_clock 30000 PREFILL 60 10 deaf_agent
        pushed_req)
     (fun _ s' => lock_of s' 0 = 1 /\ write_inflight s' = []) (fun _ _ => False)
     (set_scatter_handles [((5, 0), pin_handle)] xfer0).
Proof.
  eapply wp_mono;
    [apply (failed_push_leaks_pin demo_clock 30000 PREFILL 60 10 deaf_agent
              pushed_req (mkMeta (Some 30001) 5 0) pin_handle (segment_hash [7; 8; 9]) 0
              (set_scatter_handles [((5, 0), pin_handle)] xfer0))| |done].
  - exact (so_wf _ xfer0_ok).
  - reflexivity.
  - vm_compute. reflexivity.
  - vm_compute. reflexivity.
  - discriminate.
  - reflexivity.
  - intros e. exists RuntimeError. reflexivity.
  - intros [] s' (H1 & H2 & _). rewrite H1, H2. split; [vm_compute; reflexivity|reflexivity].
Defined.

(** Two tokens hit, three recomputed. *)
Lemma combine_billing_witness :
  wp (pic_combine_cached_tokens xfer_req) (fun n _ => n = 2) (fun _ _ => False)
     (set_seg_recomputed [((5, 0), false); ((5, 1), true)] xfer0).
Proof.
  eapply wp_mono;
    [apply (combine_billing xfer_req (set_seg_recomputed [((5, 0), false); ((5, 1), true)] xfer0))
    | |done].
  - unfold dict_wf. eval_decide.
  - eval_decide.
  - repeat constructor; eexists; reflexivity.
  - intros n s' [Hn _]. rewrite Hn. vm_compute. reflexivity.
Defined.
