(* ===== verification/Admission.v ===== *)
(** * Admission control of the scheduler (srt/managers/scheduler.py)

    The waiting queue is bounded: a request that arrives at a full queue is
    rejected, or, under priority scheduling, displaces the least preferred
    queued request when it is strictly preferred to it. *)

From S2P Require Import Prelude PyDict Allocator Policy Segmenter Engine ReqPool PICache.
From S2P Require Import PICacheFacts Scatter ScatterFacts Scenario TokenAllocator MambaAllocator.

(** ** The least preferred request *)

(** [y] is not after [x] in the lexicographic order. *)
Definition pair_le (y x : Z * Z) : Prop := pair_gt y x = false.

Lemma pair_gt_spec x y : pair_gt x y = true <-> y.1 < x.1 \/ (x.1 = y.1 /\ y.2 < x.2).
Proof. unfold pair_gt. rewrite orb_true_iff, andb_true_iff, !Z.ltb_lt, Z.eqb_eq. done. Qed.

Lemma pair_le_spec y x : pair_le y x <-> y.1 < x.1 \/ (y.1 = x.1 /\ y.2 <= x.2).
Proof.
  unfold pair_le. rewrite <- not_true_iff_false, pair_gt_spec. lia.
Qed.

Lemma max_by_app {A} (key : A -> Z * Z) l x :
  max_by key (l ++ [x]) =
    match max_by key l with
    | None => Some (len l, x)
    | Some b => if pair_gt (key x) (key b.2) then Some (len l, x) else Some b
    end.
Proof.
  unfold max_by, enumerate. fold (enum_from 0 (l ++ [x])) (enum_from 0 l).
  rewrite enum_from_app, foldl_app. cbn [foldl enum_from].
  rewrite enum_from_cons, Z.add_0_l. cbn [foldl zip zip_with enum_from snd].
  change (enum_from (len l + 1) []) with (@nil (Z * A)). cbn [foldl].
  by destruct (foldl _ _ _).
Qed.

Lemma max_by_spec {A} (key : A -> Z * Z) l :
  match max_by key l with
  | None => l = []
  | Some (i, x) => 0 <= i < len l /\ l !! Z.to_nat i = Some x /\
                   forall y, y ∈ l -> pair_le (key y) (key x)
  end.
Proof.
  induction l as [|z l IH] using rev_ind; [done|]. rewrite max_by_app, len_app.
  pose proof (len_nonneg l) as Hl. change (len [z]) with 1.
  assert ((l ++ [z]) !! Z.to_nat (len l) = Some z) as Hlast.
  { unfold len. rewrite Nat2Z.id. rewrite lookup_app_r, Nat.sub_diag by lia. done. }
  destruct (max_by key l) as [[i x]|]; cycle 1.
  - split; [lia|]. split; [done|]. subst l. intros y Hy.
    apply list_elem_of_singleton in Hy as ->. apply pair_le_spec. lia.
  - destruct IH as (Hi & Hx & Hmax). cbn [snd]. destruct (pair_gt (key z) (key x)) eqn:Hg.
    + split; [lia|]. split; [done|]. intros y [Hy|Hy]%elem_of_app.
      * specialize (Hmax _ Hy). rewrite pair_le_spec in *. apply pair_gt_spec in Hg. lia.
      * apply list_elem_of_singleton in Hy as ->. apply pair_le_spec. lia.
    + split; [lia|]. split; [by apply lookup_app_l_Some|]. intros y [Hy|Hy]%elem_of_app; [auto|].
      by apply list_elem_of_singleton in Hy as ->.
Qed.

Section admission.
Context {KV MB : Type}.
Implicit Types s : @Sched KV MB.

(** What admission does to the waiting queue and the abort notices. *)
Inductive admitted (q : QueueConfig) (t : Z) (r : SReq) s s' : Prop :=
| adm_appended :
    waiting_queue s' = waiting_queue s ++ [set_wait_queue_entry_time t r] ->
    aborted s' = aborted s -> admitted q t r s s'
| adm_rejected :
    waiting_queue s' = waiting_queue s -> aborted s' = aborted s ++ [rid r] ->
    admitted q t r s s'
| adm_displaced pre c post :
    enable_priority_scheduling q = true ->
    waiting_queue s = pre ++ c :: post ->
    waiting_queue s' = pre ++ post ++ [set_wait_queue_entry_time t r] ->
    aborted s' = aborted s ++ [rid c] ->
    (queue_key q r).1 < (queue_key q c).1 ->
    (forall y, y ∈ waiting_queue s -> pair_le (queue_key q y) (queue_key q c)) ->
    admitted q t r s s'.

(** Admission respects the queue limit and the priorities.  A request
    that reaches a bounded waiting queue is appended while there is room;
    otherwise it is rejected or, under priority scheduling, takes the place of
    a queued request, which is then the least preferred one (the newest of
    them) and strictly less preferred than the newcomer.  Exactly one abort
    notice goes out when the queue is full and the queue never grows beyond
    its limit. *)
Theorem admission_respects_limit q m t r s :
  max_queued_requests q = Some m -> 1 <= m ->
  (enable_priority_scheduling q = true ->
     Forall (fun x => is_Some (req_priority x)) (r :: waiting_queue s)) ->
  rid r ∉ (rid <$> waiting_queue s) ->
  wp (enqueue NULL q t r)
     (fun _ s' => admitted q t r s s' /\ len (waiting_queue s') <= Z.max m (len (waiting_queue s)))
     (fun _ _ => False) s.
Proof.
  intros Hm Hm1 Hprio Hrid. unfold enqueue, abort_on_queued_limit.
  apply wp_bind, wp_bind, wp_get. rewrite Hm. cbv zeta.
  destruct (Z.ltb_spec m (len (waiting_queue s) + 1)) as [Hfull|Hroom]; cbn [negb].
  2:{ apply wp_ret, wp_modify. split; [by apply adm_appended|]. cbn. rewrite len_app.
      change (len [_]) with 1. lia. }
  destruct (enable_priority_scheduling q) eqn:Hq.
  2:{ apply wp_bind, wp_modify, wp_ret, wp_ret. split; [by apply adm_rejected|]. cbn. lia. }
  rewrite (proj2 (forallb_forall _ _)).
  2:{ intros x Hx%list_elem_of_In. specialize (Hprio eq_refl). rewrite Forall_forall in Hprio.
      by apply bool_decide_eq_true, Hprio. }
  apply wp_bind, wp_ret, wp_bind.
  pose proof (max_by_spec (queue_key q) (waiting_queue s)) as Hmax.
  destruct (max_by _ _) as [[idx c]|].
  2:{ rewrite Hmax in Hfull. change (len (@nil SReq)) with 0 in Hfull. lia. }
  destruct Hmax as (Hi & Hc & Hmax). apply wp_ret.
  destruct (Z.ltb_spec (queue_key q r).1 (queue_key q c).1) as [Hlt|Hge].
  2:{ apply wp_bind, wp_modify, wp_ret, wp_ret. split; [by apply adm_rejected|]. cbn. lia. }
  apply wp_bind, wp_modify. apply wp_bind, wp_modify. apply wp_ret.
  assert (rid c <> rid r) as Hne.
  { intros He. apply Hrid. rewrite <- He. apply list_elem_of_fmap_2.
    by eapply list_elem_of_lookup_2. }
  rewrite (proj2 (Z.eqb_neq _ _) Hne). apply wp_modify.
  pose proof (take_drop_middle _ _ _ Hc) as Hsplit.
  assert (delete (Z.to_nat idx) (waiting_queue s) =
    take (Z.to_nat idx) (waiting_queue s) ++ drop (Datatypes.S (Z.to_nat idx)) (waiting_queue s))
    as Hdel by apply delete_take_drop.
  split.
  - eapply (adm_displaced _ _ _ _ _ _ c); [done|by rewrite Hsplit| |done|done|done].
    cbn. rewrite Hdel, <- app_assoc. done.
  - cbn. rewrite len_app, Hdel, len_app. change (len [_]) with 1.
    rewrite <- Hsplit at 3. rewrite !len_app, len_cons. lia.
Qed.

End admission.

(** A full queue of two; the newcomer has the better (smaller) priority. *)
Definition adm_req (i p t : Z) : SReq :=
  mkSReq i (demo_req [i] [(0, 1)]) None None [] false false (Some p) t.

Definition adm_queue : QueueConfig := mkQueue (Some 2) true true false.

Definition adm_state : xfer_sched :=
  set_waiting_queue [adm_req 1 5 10; adm_req 2 7 11] xfer0.

Lemma admission_respects_limit_witness :
  wp (enqueue NULL adm_queue 20 (adm_req 3 6 0))
     (fun _ s' => len (waiting_queue s') <= 2) (fun _ _ => False) adm_state.
Proof.
  eapply wp_mono;
    [apply (admission_respects_limit adm_queue 2 20 (adm_req 3 6 0) adm_state)| |done].
  - reflexivity.
  - lia.
  - intros _. repeat constructor; eexists; reflexivity.
  - eval_decide.
  - intros [] s' [_ Hl]. exact Hl.
Defined.
