(* ===== verification/InvariantChecker.v ===== *)
(** * The idle-time memory check (srt/managers/scheduler_components/invariant_checker.py)

    [check_pic_memory] adds up what the allocators, the index and the
    in-flight counters account for and compares it with the pool sizes.  The
    theorem says what its verdict means: the reported leak is exactly the
    number of slots that are neither free nor cached, less those the in-flight
    counter announces. *)

From S2P Require Import Prelude PyDict Allocator Policy Segmenter Engine ReqPool PICache.
From S2P Require Import PICacheFacts Scenario TokenAllocator MambaAllocator.

(** The counts of the message, and the verdict. *)
Record PICMemory := mkPICMemory {
  full_leaked : Z;
  mamba_leaked : Z;
  memory_leak : bool;
}.

Section checker.
Context {KV MB : Type} `{Allocator KV} `{Allocator MB}.
Implicit Types s : Engine KV MB.

(** [full_total] and [mamba_total] are the sizes of the two pools. *)
Definition check_pic_memory (full_total mamba_total : Z) s : PICMemory :=
  let full_available := available_size (kv s) in
  let full_in_entries := total_size s in
  let full_inflight := inflight_full_tokens s in
  let full_accounted := full_available + full_in_entries + full_inflight in
  let mamba_available := available_size (mamba s) in
  let mamba_in_entries := len (entries s) in
  let mamba_inflight := inflight_mamba_slots s in
  let mamba_accounted := mamba_available + mamba_in_entries + mamba_inflight in
  let full_leaked := full_total - full_accounted in
  let mamba_leaked := mamba_total - mamba_accounted in
  mkPICMemory full_leaked mamba_leaked ((0 <? full_leaked) || (3 <? mamba_leaked)).

Lemma total_size_entries s : total_size s = len (entries_kv s).
Proof.
  unfold total_size, cached_entries, entries_kv. rewrite <- list_fmap_compose.
  generalize (entries s). induction l as [|p l IH]; [done|].
  rewrite !fmap_cons, zsum_cons. cbn [concat]. rewrite len_app, IH. done.
Qed.

Lemma entries_mamba_len s : len (entries_mamba s) = len (entries s).
Proof. unfold entries_mamba, len. by rewrite length_fmap. Qed.

(** C25. The memory check means what it says.  When the slots of the two
    pools are split between the allocators, the index and some holders, the
    reported leaks are exactly the held slots that the in-flight counters do
    not announce: nothing is reported when the counters are right, every
    forgotten KV slot is, and Mamba slots are from the fourth on. *)
Theorem check_pic_memory_exact slots mslots held mheld s :
  alloc_ready (kv s) -> alloc_ready (mamba s) ->
  pool_slots (kv s) ++ entries_kv s ++ held ≡ₚ slots ->
  pool_slots (mamba s) ++ entries_mamba s ++ mheld ≡ₚ mslots ->
  let c := check_pic_memory (len slots) (len mslots) s in
  full_leaked c = len held - inflight_full_tokens s /\
  mamba_leaked c = len mheld - inflight_mamba_slots s /\
  (memory_leak c = true <->
     inflight_full_tokens s < len held \/ inflight_mamba_slots s + 3 < len mheld).
Proof.
  intros Hrk Hrm Hk Hm c.
  apply len_perm in Hk, Hm. rewrite !len_app in Hk, Hm.
  assert (full_leaked c = len held - inflight_full_tokens s) as Hf.
  { unfold c, check_pic_memory. cbn [full_leaked].
    rewrite (ready_slots _ Hrk), total_size_entries. lia. }
  assert (mamba_leaked c = len mheld - inflight_mamba_slots s) as Hl.
  { unfold c, check_pic_memory. cbn [mamba_leaked].
    rewrite (ready_slots _ Hrm), <- entries_mamba_len. lia. }
  split; [done|]. split; [done|].
  change (memory_leak c) with ((0 <? full_leaked c) || (3 <? mamba_leaked c)).
  rewrite orb_true_iff, !Z.ltb_lt, Hf, Hl. lia.
Qed.

End checker.

(** Three KV slots and one Mamba slot taken and cached, two more KV slots
    taken and forgotten. *)
Definition leak_demo : list Z * Z * demo_engine := demo_take 2 (demo_cache [7; 8; 9] demo0).

Lemma check_pic_memory_exact_witness :
  full_leaked (check_pic_memory 32 8 leak_demo.2) = 2 /\
  memory_leak (check_pic_memory 32 8 leak_demo.2) = true.
Proof.
  destruct (check_pic_memory_exact (seqZ 1 32) (seqZ 1 8) leak_demo.1.1 [leak_demo.1.2]
              leak_demo.2) as (Hf & _ & Hl).
  - vm_compute. split; [reflexivity|intros _; reflexivity].
  - vm_compute. reflexivity.
  - apply (bool_decide_unpack _). vm_compute. exact I.
  - apply (bool_decide_unpack _). vm_compute. exact I.
  - change (len (seqZ 1 32)) with 32 in *. change (len (seqZ 1 8)) with 8 in *.
    rewrite Hf, Hl. split; [vm_compute; reflexivity|]. left. vm_compute. reflexivity.
Defined.
