(* ===== verification/Paged.v ===== *)
(** * The page-granular KV allocator
      (srt/mem_cache/allocator/paged.py, srt/mem_cache/triton_ops/allocator.py)

    A free list of pages; a request's next tokens go first into the rest of
    its last page, then into fresh pages.  The device kernels compute this
    with one program per request; the reference [alloc_extend_naive] loops
    over the batch.  The theorems show both equal to the same position-wise
    specification and the allocator to hand out exactly the pages it drops
    from its list. *)

From S2P Require Import Prelude.

(** ** Device memory *)

(** A load of an in-range element; what an out-of-range load yields is never
    used when the batch is served. *)
Definition tl_load (l : list Z) (i : Z) : Z :=
  if 0 <=? i then default 0 (l !! Z.to_nat i) else 0.

(** The masked lanes that are on, each storing its value at its offset. *)
Definition tl_store (base : Z) (lanes : list (Z * Z)) (out : list Z) : list Z :=
  foldl (fun out ov => <[Z.to_nat (base + ov.1) := ov.2]> out) out lanes.

(** [tl.store(base + offs, f offs, mask=offs < bound)]. *)
Definition masked_store (base : Z) (offs : list Z) (f : Z -> Z) (bound : Z) (out : list Z)
    : list Z :=
  tl_store base ((fun o => (o, f o)) <$> filter (fun o => o < bound) offs) out.

Section kernels.
Variable page_size : Z.
(** What a lane masked out of a load holds, the same for every load. *)
Variable fill : Z.

(** Lanes [0 .. bs_upper - 1] of a load masked by [load_offset <= pid]. *)
Definition lanes (bs_upper pid : Z) (l : list Z) : list Z :=
  (fun o => if o <=? pid then tl_load l o else fill) <$> pyrange 0 bs_upper.

Definition pages_of (n : Z) : Z := (n + page_size - 1) / page_size.

Definition BLOCK_EXTEND : Z := 4096.

(** Parts 1 to 3 of a program: the rest of the old partial page, the new full
    pages in blocks, the new partial page. *)
Definition extend_parts (output_start_loc new_page_start_loc num_page_start_loc_self : Z)
    (pre_len seq_len last_loc : Z) (free_page out : list Z) : list Z :=
  let num_part1 := Z.min seq_len (pages_of pre_len * page_size) - pre_len in
  let out := masked_store output_start_loc (pyrange 0 page_size)
               (fun o => last_loc + 1 + o) num_part1 out in
  if pre_len + num_part1 =? seq_len then out
  else
    let num_part2 := seq_len / page_size * page_size - pages_of pre_len * page_size in
    let num_blocks := (num_part2 + BLOCK_EXTEND - 1) / BLOCK_EXTEND in
    let out := foldl (fun out block_id =>
      masked_store (output_start_loc + num_part1)
        (pyrange (block_id * BLOCK_EXTEND) (block_id * BLOCK_EXTEND + BLOCK_EXTEND))
        (fun o => tl_load free_page (new_page_start_loc + o / page_size) * page_size
                  + o mod page_size) num_part2 out) out (pyrange 0 num_blocks) in
    if pre_len + num_part1 + num_part2 =? seq_len then out
    else
      let num_part3 := seq_len - seq_len / page_size * page_size in
      let start_loc := tl_load free_page (new_page_start_loc + num_page_start_loc_self - 1) in
      masked_store (output_start_loc + num_part1 + num_part2) (pyrange 0 page_size)
        (fun o => start_loc * page_size + o) num_part3 out.

(** One program of the grid. *)
Definition alloc_extend_kernel (pre_lens seq_lens last_locs free_page : list Z) (bs_upper : Z)
    (out : list Z) (pid : Z) : list Z :=
  let seq_lanes := lanes bs_upper pid seq_lens in
  let pre_lanes := lanes bs_upper pid pre_lens in
  let seq_len := tl_load seq_lens pid in
  let pre_len := tl_load pre_lens pid in
  let extend_len := seq_len - pre_len in
  let output_start_loc := zsum (zip_with Z.sub seq_lanes pre_lanes) - extend_len in
  let num_page_start_loc_self := pages_of seq_len - pages_of pre_len in
  let sum_num_new_pages :=
    zsum (zip_with (fun x y => pages_of x - pages_of y) seq_lanes pre_lanes) in
  let new_page_start_loc := sum_num_new_pages - num_page_start_loc_self in
  extend_parts output_start_loc new_page_start_loc num_page_start_loc_self
    pre_len seq_len (tl_load last_locs pid) free_page out.

Definition alloc_decode_kernel (seq_lens last_locs free_page : list Z) (bs_upper : Z)
    (out : list Z) (pid : Z) : list Z :=
  let seq_lanes := lanes bs_upper pid seq_lens in
  let pre_lanes := zip_with (fun o x => if o <=? pid then x - 1 else x)
                     (pyrange 0 bs_upper) seq_lanes in
  let seq_len := tl_load seq_lens pid in
  let pre_len := seq_len - 1 in
  let num_page_start_loc_self := pages_of seq_len - pages_of pre_len in
  let sum_num_new_pages :=
    zsum (zip_with (fun x y => pages_of x - pages_of y) seq_lanes pre_lanes) in
  let new_page_start_loc := sum_num_new_pages - num_page_start_loc_self in
  if num_page_start_loc_self =? 0
  then tl_store pid [(0, tl_load last_locs pid + 1)] out
  else tl_store pid [(0, tl_load free_page new_page_start_loc * page_size)] out.

(** [out[a:b] = vals], a shape mismatch raises. *)
Definition slice_assign (a b : Z) (vals out : list Z) : outcome (list Z) :=
  if len vals =? Z.max 0 (b - a)
  then Ret (take (Z.to_nat a) out ++ vals ++ drop (Z.to_nat (a + len vals)) out)
  else Raise RuntimeError.

Definition cumsum_to (l : list Z) (i : Z) : Z := zsum (take (Z.to_nat (i + 1)) l).

(** The body of the loop of [alloc_extend_naive] on the scalars of request [i]. *)
Definition naive_parts (start_pos end_pos start_new_pages end_new_pages need_page : Z)
    (prefix_len seq_len last_loc : Z) (free_pages out : list Z) : outcome (list Z) :=
  let pos_in_page := pyrange 0 page_size in
  let num1 := Z.min seq_len (pages_of prefix_len * page_size) - prefix_len in
  match (if num1 =? 0 then Ret out
         else slice_assign start_pos (start_pos + num1)
                ((fun o => last_loc + 1 + o) <$> slice_to pos_in_page num1) out) with
  | Raise e => Raise e
  | Ret out =>
  if prefix_len + num1 =? seq_len then Ret out
  else
    let num2 := (seq_len / page_size - pages_of prefix_len) * page_size in
    match (if num2 =? 0 then Ret out
           else
             let pages := (fun p => p * page_size) <$>
               pyslice free_pages start_new_pages (end_new_pages - need_page) in
             slice_assign (start_pos + num1) (start_pos + num1 + num2)
               (concat ((fun p => Z.add p <$> pos_in_page) <$> pages)) out) with
    | Raise e => Raise e
    | Ret out =>
    if prefix_len + num1 + num2 =? seq_len then Ret out
    else
      let num3 := seq_len - seq_len / page_size * page_size in
      if num3 =? 0 then Ret out
      else slice_assign (end_pos - num3) end_pos
             ((fun o => tl_load free_pages (end_new_pages - 1) * page_size + o) <$>
                slice_to pos_in_page num3) out
    end
  end.

Definition naive_step (prefix_lens seq_lens last_loc free_pages : list Z) (i : Z) (out : list Z)
    : outcome (list Z) :=
  let extend_lens := zip_with Z.sub seq_lens prefix_lens in
  let num_new_pages := zip_with (fun s p => pages_of s - pages_of p) seq_lens prefix_lens in
  let num_full_new_pages := zip_with (fun s p => s / page_size - pages_of p) seq_lens prefix_lens in
  let need_page := zip_with Z.sub num_new_pages num_full_new_pages in
  let end_pos := cumsum_to extend_lens i in
  let start_pos := end_pos - tl_load extend_lens i in
  let end_new_pages := cumsum_to num_new_pages i in
  let start_new_pages := end_new_pages - tl_load num_new_pages i in
  naive_parts start_pos end_pos start_new_pages end_new_pages (tl_load need_page i)
    (tl_load prefix_lens i) (tl_load seq_lens i) (tl_load last_loc i) free_pages out.

Definition alloc_extend_naive (prefix_lens seq_lens last_loc free_pages out : list Z)
    : outcome (list Z) :=
  foldl (fun acc i => match acc with
                      | Raise e => Raise e
                      | Ret out => naive_step prefix_lens seq_lens last_loc free_pages i out
                      end) (Ret out) (pyrange 0 (len prefix_lens)).

(** ** The allocator *)

Definition get_num_new_pages (seq_lens prefix_lens : list Z) : Z :=
  zsum (zip_with (fun s p => pages_of s - pages_of p) seq_lens prefix_lens).
Definition get_num_new_pages_decode (seq_lens : list Z) : Z :=
  zsum ((fun s => if s mod page_size =? 1 then 1 else 0) <$> seq_lens).

Definition next_power_of_2 (n : Z) : Z := if 0 <? n then 2 ^ Z.log2_up n else 1.

Record Paged := mkPaged {
  num_pages : Z;
  need_sort : bool;
  free_pages : list Z;
  release_pages : list Z;
  is_not_in_free_group : bool;
  free_group : list (list Z);
}.

Definition set_pages (fp rp : list Z) (a : Paged) : Paged :=
  mkPaged (num_pages a) (need_sort a) fp rp (is_not_in_free_group a) (free_group a).

Definition paged_clear (a : Paged) : Paged :=
  mkPaged (num_pages a) (need_sort a) (pyrange 1 (num_pages a + 1)) [] true [].
Definition paged_init (size : Z) (need_sort : bool) : Paged :=
  paged_clear (mkPaged (size / page_size) need_sort [] [] true []).

Definition paged_merge (a : Paged) : Paged :=
  if 0 <? len (release_pages a)
  then set_pages (sort_Z (free_pages a ++ release_pages a)) [] a else a.

Definition paged_alloc (need_size : Z) (a : Paged) : option (list Z) * Paged :=
  let num := need_size / page_size in
  let a := if need_sort a && (len (free_pages a) <? num) then paged_merge a else a in
  if len (free_pages a) <? num then (None, a)
  else
    (Some (concat ((fun p => (fun o => p * page_size + o) <$> pyrange 0 page_size) <$>
             slice_to (free_pages a) num)),
     set_pages (slice_from (free_pages a) num) (release_pages a) a).

(** [torch.empty] holds whatever [garbage] holds. *)
Definition alloc_extend (garbage : list Z) (prefix_lens seq_lens last_loc : list Z)
    (extend_num_tokens : Z) (num_new_pages : option Z) (a : Paged) : option (list Z) * Paged :=
  let bs := len prefix_lens in
  let a := if need_sort a && (len (free_pages a) <? extend_num_tokens / page_size + bs + 1)
           then paged_merge a else a in
  let out := foldl (alloc_extend_kernel prefix_lens seq_lens last_loc (free_pages a)
                      (next_power_of_2 bs))
               (take (Z.to_nat extend_num_tokens) garbage) (pyrange 0 bs) in
  let num_new_pages := default (get_num_new_pages seq_lens prefix_lens) num_new_pages in
  if len (free_pages a) <? num_new_pages then (None, a)
  else (Some out, set_pages (slice_from (free_pages a) num_new_pages) (release_pages a) a).

Definition alloc_decode (garbage : list Z) (seq_lens last_loc : list Z) (a : Paged)
    : option (list Z) * Paged :=
  let bs := len seq_lens in
  let a := if need_sort a && (len (free_pages a) <? bs) then paged_merge a else a in
  let out := foldl (alloc_decode_kernel seq_lens last_loc (free_pages a) (next_power_of_2 bs))
               (take (Z.to_nat bs) garbage) (pyrange 0 bs) in
  let num_new_pages := get_num_new_pages_decode seq_lens in
  if len (free_pages a) <? num_new_pages then (None, a)
  else (Some out, set_pages (slice_from (free_pages a) num_new_pages) (release_pages a) a).

(** [torch.unique]: sorted, without duplicates. *)
Definition torch_unique (l : list Z) : list Z := sort_Z (remove_dups l).

Definition paged_free (free_index : list Z) (a : Paged) : Paged :=
  if len free_index =? 0 then a
  else if is_not_in_free_group a then
    let pages := torch_unique ((fun x => x / page_size) <$> free_index) in
    if need_sort a then set_pages (free_pages a) (pages ++ release_pages a) a
    else set_pages (pages ++ free_pages a) (release_pages a) a
  else mkPaged (num_pages a) (need_sort a) (free_pages a) (release_pages a) false
         (free_group a ++ [free_index]).

End kernels.
