(* ===== verification/PagedFacts.v ===== *)
(** * Facts on the page-granular allocator

    A request of [pre] cached and [seq] total tokens whose last token is in
    slot [last] gets, for each new position, the next slot of its last page
    or the same offset of a fresh page ([slot_ref]).  The device kernel and
    the reference loop both compute this. *)

From S2P Require Import Prelude Paged.

(** ** Splicing *)

Definition splice (s : Z) (vs out : list Z) : list Z :=
  take (Z.to_nat s) out ++ vs ++ drop (Z.to_nat (s + len vs)) out.

Lemma splice_nil s out : 0 <= s -> splice s [] out = out.
Proof.
  intros. unfold splice. rewrite len_nil, Z.add_0_r. cbn. apply take_drop.
Qed.

Lemma len_splice s vs out : 0 <= s -> s + len vs <= len out -> len (splice s vs out) = len out.
Proof.
  intros Hs Hl. pose proof (len_nonneg vs). unfold splice. rewrite !len_app. unfold len in *.
  rewrite length_take, length_drop. lia.
Qed.

Lemma splice_splice s vs ws out :
  0 <= s -> s + len vs + len ws <= len out ->
  splice (s + len vs) ws (splice s vs out) = splice s (vs ++ ws) out.
Proof.
  intros Hs Hl. pose proof (len_nonneg vs). pose proof (len_nonneg ws).
  unfold splice. rewrite len_app.
  assert (length (take (Z.to_nat s) out ++ vs) = Z.to_nat (s + len vs)) as Hlen.
  { rewrite length_app, length_take. unfold len in *. lia. }
  set (D := drop (Z.to_nat (s + len vs)) out).
  replace (take (Z.to_nat s) out ++ vs ++ D) with ((take (Z.to_nat s) out ++ vs) ++ D)
    by (by rewrite (assoc_L (++))).
  rewrite take_app_length' by done. rewrite drop_app_ge by (rewrite Hlen; unfold len in *; lia).
  rewrite Hlen. unfold D. rewrite drop_drop, <- !(assoc_L (++)).
  replace (Z.to_nat (s + len vs) + (Z.to_nat (s + len vs + len ws) - Z.to_nat (s + len vs)))%nat
    with (Z.to_nat (s + (len vs + len ws))) by lia. done.
Qed.

Lemma splice_next s s' vs ws out :
  s' = s + len vs -> 0 <= s -> s + len vs + len ws <= len out ->
  splice s' ws (splice s vs out) = splice s (vs ++ ws) out.
Proof. intros ->. apply splice_splice. Qed.

Lemma insert_splice s vs v out :
  0 <= s -> s + len vs < len out ->
  <[Z.to_nat (s + len vs) := v]> (splice s vs out) = splice s (vs ++ [v]) out.
Proof.
  intros Hs Hl. pose proof (len_nonneg vs).
  rewrite <- splice_splice by (change (len [v]) with 1; lia).
  assert (Z.to_nat (s + len vs) < length (splice s vs out))%nat as Hlt.
  { pose proof (len_splice s vs out Hs ltac:(lia)). unfold len in *. lia. }
  unfold splice at 2. change (len [v]) with 1.
  rewrite insert_take_drop by done. cbn [app].
  replace (Z.to_nat (s + len vs + 1)) with (Datatypes.S (Z.to_nat (s + len vs))) by lia. done.
Qed.

(** ** Stores over consecutive offsets *)

Lemma seqZ_snoc a n : 0 <= n -> seqZ a (n + 1) = seqZ a n ++ [a + n].
Proof. intros. rewrite seqZ_app by lia. done. Qed.

Lemma tl_store_seq base f a n out :
  0 <= base + a -> 0 <= n -> base + a + n <= len out ->
  tl_store base ((fun o => (o, f o)) <$> seqZ a n) out = splice (base + a) (f <$> seqZ a n) out.
Proof.
  intros Ha Hn. revert n Hn. apply (natlike_ind (fun n => base + a + n <= len out ->
    tl_store base ((fun o => (o, f o)) <$> seqZ a n) out = splice (base + a) (f <$> seqZ a n) out)).
  - intros _. rewrite seqZ_nil by lia. cbn. by rewrite splice_nil.
  - intros n Hn IH Hl. replace (Z.succ n) with (n + 1) by lia. rewrite seqZ_snoc by lia.
    rewrite !fmap_app. unfold tl_store in *. rewrite foldl_app, IH by lia. cbn.
    assert (len (f <$> seqZ a n) = n) as Hlen by (unfold len; rewrite length_fmap, length_seqZ; lia).
    rewrite <- insert_splice by (rewrite ?Hlen; lia). rewrite Hlen.
    by replace (base + a + n) with (base + (a + n)) by lia.
Qed.

Lemma filter_lt_pyrange a b m :
  filter (fun o => o < m) (pyrange a b) = pyrange a (Z.min b m).
Proof.
  unfold pyrange. destruct (Z.le_gt_cases b a) as [Hba|Hba].
  { by rewrite !seqZ_nil by lia. }
  remember (b - a) as n eqn:Hn. assert (0 <= n) as Hn0 by lia. clear Hba.
  replace b with (a + n) by lia. clear Hn b.
  revert n Hn0. apply (natlike_ind (fun n =>
    filter (fun o => o < m) (seqZ a n) = seqZ a (Z.min (a + n) m - a))).
  - by rewrite !seqZ_nil by lia.
  - intros n Hn IH. replace (Z.succ n) with (n + 1) by lia.
    rewrite seqZ_snoc, filter_app, IH by lia. rewrite filter_cons, filter_nil.
    case_decide.
    + rewrite !Z.min_l by lia. replace (a + (n + 1) - a) with (n + 1) by lia.
      rewrite seqZ_snoc by lia. by replace (a + n - a) with n by lia.
    + rewrite app_nil_r. f_equal. lia.
Qed.

Lemma masked_store_splice base a b f m out :
  a <= Z.min b m -> 0 <= base + a -> base + Z.min b m <= len out ->
  masked_store base (pyrange a b) f m out =
    splice (base + a) (f <$> pyrange a (Z.min b m)) out.
Proof.
  intros Ha Hb Hl. unfold masked_store. rewrite filter_lt_pyrange.
  unfold pyrange. apply tl_store_seq; lia.
Qed.

Lemma masked_store_none base a b f m out :
  m <= a \/ b <= a -> masked_store base (pyrange a b) f m out = out.
Proof.
  intros Hm. unfold masked_store. by rewrite filter_lt_pyrange, pyrange_empty by lia.
Qed.

Lemma len_fmap_pyrange (f : Z -> Z) a b : a <= b -> len (f <$> pyrange a b) = b - a.
Proof. intros. unfold len, pyrange. rewrite length_fmap, length_seqZ. lia. Qed.

(** The first [m] blocks of [B] offsets cover [0 .. min n (m * B) - 1]. *)
Lemma blocks_prefix base B f n out m :
  0 < B -> 0 <= base -> 0 <= n -> base + n <= len out -> 0 <= m -> m <= (n + B - 1) / B ->
  foldl (fun out k => masked_store base (pyrange (k * B) (k * B + B)) f n out) out (pyrange 0 m) =
  splice base (f <$> pyrange 0 (Z.min n (m * B))) out.
Proof.
  intros HB Hb Hn Hl Hm0. revert m Hm0.
  apply (natlike_ind (fun m => m <= (n + B - 1) / B ->
    foldl (fun out k => masked_store base (pyrange (k * B) (k * B + B)) f n out) out (pyrange 0 m) =
    splice base (f <$> pyrange 0 (Z.min n (m * B))) out)).
  { intros _. rewrite (pyrange_empty 0 0), (pyrange_empty 0 (Z.min n (0 * B))) by lia.
    cbn. by rewrite splice_nil. }
  intros m Hm0 IH Hle. replace (Z.succ m) with (m + 1) in * by lia.
  rewrite pyrange_snoc, foldl_app, IH by lia. cbn [foldl].
  assert (m * B < n) as Hmn.
  { pose proof (Z.div_mod (n + B - 1) B ltac:(lia)).
    pose proof (Z.mod_pos_bound (n + B - 1) B ltac:(lia)). nia. }
  rewrite (Z.min_r n (m * B)) by lia.
  pose proof (len_fmap_pyrange f 0 (m * B) ltac:(nia)) as Hlen. rewrite Z.sub_0_r in Hlen.
  rewrite masked_store_splice; [|nia|nia|rewrite len_splice; rewrite ?Hlen; nia].
  rewrite splice_next.
  - rewrite <- fmap_app, <- pyrange_app by nia. do 3 f_equal. nia.
  - lia.
  - done.
  - rewrite Hlen, len_fmap_pyrange by nia. lia.
Qed.

Lemma blocks_splice base B f n out :
  0 < B -> 0 <= base -> 0 <= n -> base + n <= len out ->
  foldl (fun out k => masked_store base (pyrange (k * B) (k * B + B)) f n out) out
    (pyrange 0 ((n + B - 1) / B)) =
  splice base (f <$> pyrange 0 n) out.
Proof.
  intros HB Hb Hn Hl. rewrite blocks_prefix; try done; [|apply Z.div_pos; lia].
  pose proof (Z.div_mod (n + B - 1) B ltac:(lia)).
  pose proof (Z.mod_pos_bound (n + B - 1) B ltac:(lia)). do 3 f_equal. nia.
Qed.

(** ** One request *)

Section request.
Context (page_size fill : Z) (Hps : 0 < page_size).
#[local] Abbreviation pages_of := (pages_of page_size).

Lemma pages_of_bound n : n <= pages_of n * page_size < n + page_size.
Proof.
  unfold Paged.pages_of. pose proof (Z.div_mod (n + page_size - 1) page_size ltac:(lia)).
  pose proof (Z.mod_pos_bound (n + page_size - 1) page_size Hps). nia.
Qed.

(** The slot of position [pos]: the last page goes on up to its end, then the
    [k]-th fresh page [page k] holds the [k]-th page after it. *)
Definition slot_ref (pre last : Z) (page : Z -> Z) (pos : Z) : Z :=
  if pos <? pages_of pre * page_size then last + 1 + (pos - pre)
  else page (pos / page_size - pages_of pre) * page_size + pos mod page_size.

Definition req_slots (pre seq last : Z) (page : Z -> Z) : list Z :=
  slot_ref pre last page <$> pyrange pre seq.

Lemma fmap_shift (f : Z -> Z) a n : f <$> pyrange a (a + n) = (fun o => f (a + o)) <$> pyrange 0 n.
Proof.
  unfold pyrange. replace (a + n - a) with n by lia. rewrite Z.sub_0_r.
  rewrite <- (Z.add_0_r a) at 1. rewrite <- fmap_add_seqZ, <- list_fmap_compose. done.
Qed.

Lemma fmap_pyrange_ext (f g : Z -> Z) a b :
  (forall x, a <= x < b -> f x = g x) -> f <$> pyrange a b = g <$> pyrange a b.
Proof.
  intros Hfg. apply list_fmap_ext. intros i x Hx. apply list_elem_of_lookup_2 in Hx.
  apply elem_of_pyrange in Hx. auto.
Qed.

(** The three ranges of a request that leaves its last page. *)
Lemma req_slots_split pre seq last page :
  0 <= pre -> pages_of pre * page_size < seq ->
  let c := pages_of pre * page_size in
  let f := seq / page_size * page_size in
  c <= f <= seq /\ seq - f < page_size /\
  req_slots pre seq last page =
    ((fun o => last + 1 + o) <$> pyrange 0 (c - pre)) ++
    ((fun o => page (o / page_size) * page_size + o mod page_size) <$> pyrange 0 (f - c)) ++
    ((fun o => page (seq / page_size - pages_of pre) * page_size + o) <$> pyrange 0 (seq - f)).
Proof.
  intros Hpre Hseq c f. pose proof (pages_of_bound pre) as Hc. fold c in Hc.
  pose proof (Z.div_mod seq page_size ltac:(lia)) as Hd.
  pose proof (Z.mod_pos_bound seq page_size Hps) as Hm.
  assert (pages_of pre <= seq / page_size) as Hle by (apply Z.div_le_lower_bound; lia).
  assert (c <= f <= seq) as Hf by (unfold c, f in *; nia).
  split; [done|]. split; [unfold f; lia|]. unfold req_slots.
  rewrite (pyrange_app pre c seq), (pyrange_app c f seq), !fmap_app by lia.
  f_equal; [|f_equal].
  - replace c with (pre + (c - pre)) at 1 by lia. rewrite fmap_shift.
    apply fmap_pyrange_ext. intros x Hx. unfold slot_ref. fold c.
    rewrite (proj2 (Z.ltb_lt _ _)) by lia. lia.
  - replace f with (c + (f - c)) at 1 by lia. rewrite fmap_shift.
    apply fmap_pyrange_ext. intros x Hx. unfold slot_ref. fold c.
    rewrite (proj2 (Z.ltb_ge _ _)) by lia. unfold c.
    rewrite (Z.add_comm _ x), Z.div_add, Z.mod_add by lia.
    by replace (x / page_size + pages_of pre - pages_of pre) with (x / page_size) by lia.
  - replace seq with (f + (seq - f)) at 1 by lia. rewrite fmap_shift.
    apply fmap_pyrange_ext. intros x Hx. unfold slot_ref. fold c.
    rewrite (proj2 (Z.ltb_ge _ _)) by lia. unfold f.
    rewrite (Z.add_comm _ x), Z.div_add, Z.mod_add by lia.
    rewrite Z.div_small, Z.mod_small by (unfold f in *; lia). done.
Qed.

Lemma req_slots_in_page pre seq last page :
  0 <= pre -> seq <= pages_of pre * page_size ->
  req_slots pre seq last page = (fun o => last + 1 + o) <$> pyrange 0 (seq - pre).
Proof.
  intros Hpre Hseq. unfold req_slots. replace seq with (pre + (seq - pre)) at 1 by lia.
  rewrite fmap_shift. apply fmap_pyrange_ext. intros x Hx. unfold slot_ref.
  rewrite (proj2 (Z.ltb_lt _ _)) by lia. lia.
Qed.

(** The device program writes exactly the request's slots into its range. *)
Lemma extend_parts_spec st ns pre seq last fp out :
  0 <= pre <= seq -> 0 <= st -> st + (seq - pre) <= len out ->
  extend_parts page_size st ns (pages_of seq - pages_of pre) pre seq last fp out =
    splice st (req_slots pre seq last (fun k => tl_load fp (ns + k))) out.
Proof.
  intros Hpre Hst Hl. pose proof (pages_of_bound pre) as Hc. unfold extend_parts.
  set (c := pages_of pre * page_size) in *.
  destruct (Z.le_gt_cases seq c) as [Hin|Hout].
  - rewrite Z.min_l by lia. rewrite (proj2 (Z.eqb_eq _ _)) by lia.
    rewrite req_slots_in_page by lia. rewrite masked_store_splice by lia.
    rewrite Z.add_0_r, (Z.min_r page_size) by lia. done.
  - destruct (req_slots_split pre seq last (fun k => tl_load fp (ns + k)) ltac:(lia) Hout)
      as (Hf & Hlt & Hsplit). rewrite Hsplit. fold c in Hf, Hlt |- *.
    set (f := seq / page_size * page_size) in *.
    rewrite Z.min_r by lia. rewrite (proj2 (Z.eqb_neq _ _)) by lia.
    rewrite masked_store_splice by lia. rewrite Z.add_0_r, (Z.min_r page_size) by lia.
    pose proof (len_fmap_pyrange (fun o => last + 1 + o) 0 (c - pre) ltac:(lia)) as Hl1.
    rewrite Z.sub_0_r in Hl1.
    rewrite blocks_splice; [|unfold BLOCK_EXTEND; lia|lia|lia|rewrite len_splice; lia].
    rewrite splice_next; [|lia|lia|rewrite Hl1, len_fmap_pyrange; lia].
    set (v12 := _ ++ _).
    assert (len v12 = f - pre) as Hl2 by (unfold v12; rewrite len_app, Hl1, len_fmap_pyrange; lia).
    destruct (Z.eqb_spec (pre + (c - pre) + (f - c)) seq) as [He|Hne].
    + rewrite (pyrange_empty 0 (seq - f)) by lia. rewrite fmap_nil, app_nil_r. done.
    + rewrite masked_store_splice; [|lia|lia|rewrite len_splice; lia].
      rewrite Z.add_0_r, (Z.min_r page_size) by lia.
      rewrite splice_next; [|lia|lia|rewrite Hl2, len_fmap_pyrange; lia].
      unfold v12. rewrite <- (assoc_L (++)).
      assert (pages_of seq = seq / page_size + 1) as Hpg.
      { pose proof (pages_of_bound seq). pose proof (Z.div_mod seq page_size ltac:(lia)).
        pose proof (Z.mod_pos_bound seq page_size Hps). unfold f in *. nia. }
      rewrite Hpg. by replace (ns + (seq / page_size + 1 - pages_of pre) - 1)
        with (ns + (seq / page_size - pages_of pre)) by lia.
Qed.

(** The reference loop's body does the same. *)

Lemma slice_assign_exact a b vs out :
  len vs = b - a -> slice_assign a b vs out = Ret (splice a vs out).
Proof.
  intros Hv. unfold slice_assign. pose proof (len_nonneg vs).
  rewrite (proj2 (Z.eqb_eq _ _)) by lia. done.
Qed.

(** [if n: out[a:a+n] = vs]. *)
Lemma assign_or_skip a b n vs out :
  b = a + n -> len vs = n -> 0 <= a ->
  (if n =? 0 then Ret out else slice_assign a b vs out) = Ret (splice a vs out).
Proof.
  intros -> Hv Ha. destruct (Z.eqb_spec n 0) as [He|Hne].
  - destruct vs as [|v vs]; [by rewrite splice_nil|]. rewrite len_cons in Hv.
    pose proof (len_nonneg vs). lia.
  - apply slice_assign_exact. lia.
Qed.

Lemma slice_to_pyrange n : 0 <= n <= page_size -> slice_to (pyrange 0 page_size) n = pyrange 0 n.
Proof.
  intros Hn. rewrite (pyrange_app 0 n page_size) by lia. unfold slice_to, pyidx.
  rewrite len_app. unfold len, pyrange. rewrite !length_seqZ. case_if; breflect; [lia|].
  apply take_app_length'. rewrite length_seqZ. lia.
Qed.

Lemma pyslice_loads fp s k :
  0 <= s -> 0 <= k -> s + k <= len fp ->
  pyslice fp s (s + k) = (fun j => tl_load fp (s + j)) <$> pyrange 0 k.
Proof.
  intros Hs Hk Hl. rewrite pyslice_in_range by lia.
  apply list_eq_same_length with (n := Z.to_nat k).
  - unfold pyrange. rewrite length_fmap, length_seqZ. lia.
  - rewrite length_take, length_drop. unfold len in *. lia.
  - intros i x y Hi Hx Hy. unfold pyrange in Hy. rewrite list_lookup_fmap in Hy.
    rewrite lookup_take, decide_True, lookup_drop in Hx by lia.
    apply fmap_Some in Hy as (z & Hz & ->). apply lookup_seqZ in Hz as [-> _].
    unfold tl_load. rewrite (proj2 (Z.leb_le _ _)) by lia.
    replace (Z.to_nat (s + (0 + Z.of_nat i))) with (Z.to_nat s + i)%nat by lia. by rewrite Hx.
Qed.

(** Whole pages, page by page and position by position. *)
Lemma full_pages (page : Z -> Z) k :
  0 <= k ->
  concat ((fun p => Z.add p <$> pyrange 0 page_size) <$> ((fun p => p * page_size) <$>
            (page <$> pyrange 0 k))) =
  (fun o => page (o / page_size) * page_size + o mod page_size) <$> pyrange 0 (k * page_size).
Proof.
  revert k. apply natlike_ind.
  - rewrite (pyrange_empty 0 0), (pyrange_empty 0 (0 * page_size)) by lia. done.
  - intros k Hk IH. replace (Z.succ k) with (k + 1) by lia.
    rewrite pyrange_snoc by lia. rewrite !fmap_app, concat_app, IH.
    rewrite (pyrange_app 0 (k * page_size) ((k + 1) * page_size)), fmap_app by nia. f_equal. cbn.
    rewrite app_nil_r. replace ((k + 1) * page_size) with (k * page_size + page_size) by lia.
    rewrite fmap_shift. apply fmap_pyrange_ext. intros x Hx.
    rewrite (Z.add_comm (k * page_size)), Z.div_add, Z.mod_add by lia.
    by rewrite (Z.div_small x), (Z.mod_small x) by lia.
Qed.

Lemma naive_parts_spec st sn pre seq last fp out :
  let self := pages_of seq - pages_of pre in
  0 <= pre <= seq -> 0 <= st -> st + (seq - pre) <= len out -> 0 <= sn -> sn + self <= len fp ->
  naive_parts page_size st (st + (seq - pre)) sn (sn + self)
    (self - (seq / page_size - pages_of pre)) pre seq last fp out =
    Ret (splice st (req_slots pre seq last (fun k => tl_load fp (sn + k))) out).
Proof.
  intros self Hpre Hst Hl Hsn Hfp. pose proof (pages_of_bound pre) as Hc. unfold naive_parts.
  set (c := pages_of pre * page_size) in *.
  destruct (Z.le_gt_cases seq c) as [Hin|Hout].
  - rewrite Z.min_l by lia. rewrite req_slots_in_page by lia.
    rewrite (proj2 (Z.eqb_eq (pre + (seq - pre)) seq)) by lia.
    rewrite slice_to_pyrange by lia.
    by rewrite assign_or_skip by (rewrite ?len_fmap_pyrange; lia).
  - destruct (req_slots_split pre seq last (fun k => tl_load fp (sn + k)) ltac:(lia) Hout)
      as (Hf & Hlt & Hsplit). rewrite Hsplit. fold c in Hf, Hlt |- *.
    set (f := seq / page_size * page_size) in *.
    rewrite Z.min_r by lia. rewrite (proj2 (Z.eqb_neq (pre + (c - pre)) seq)) by lia.
    rewrite slice_to_pyrange, assign_or_skip by (rewrite ?len_fmap_pyrange; lia).
    set (k := seq / page_size - pages_of pre).
    assert (k * page_size = f - c) as Hk by (unfold k, f, c; lia).
    assert (0 <= k <= self) as Hks.
    { pose proof (pages_of_bound seq). unfold self, k, f, c in *.
      assert (seq / page_size <= pages_of seq) by nia. nia. }
    replace (sn + self - (self - k)) with (sn + k) by lia.
    rewrite (pyslice_loads fp sn k), full_pages by lia. rewrite Hk.
    rewrite assign_or_skip by (rewrite ?len_fmap_pyrange; lia).
    rewrite splice_next; [|rewrite len_fmap_pyrange; lia|lia|rewrite !len_fmap_pyrange; lia].
    set (v12 := _ ++ _).
    assert (len v12 = f - pre) as Hl2 by (unfold v12; rewrite len_app, !len_fmap_pyrange; lia).
    destruct (Z.eqb_spec (pre + (c - pre) + (f - c)) seq) as [He|Hne].
    + rewrite (pyrange_empty 0 (seq - f)) by lia. rewrite fmap_nil, app_nil_r. done.
    + rewrite slice_to_pyrange, assign_or_skip by (rewrite ?len_fmap_pyrange; lia).
      rewrite splice_next; [|lia|lia|rewrite Hl2, len_fmap_pyrange; lia].
      unfold v12. rewrite <- (assoc_L (++)).
      assert (self = k + 1) as ->.
      { pose proof (pages_of_bound seq). pose proof (Z.div_mod seq page_size ltac:(lia)).
        pose proof (Z.mod_pos_bound seq page_size Hps). unfold self, k, f in *.
        enough (pages_of seq = seq / page_size + 1) by lia. nia. }
      by replace (sn + (k + 1) - 1) with (sn + k) by lia.
Qed.

End request.

(** ** A batch *)

Lemma zip_with_diag {A B C D} (g : B -> C -> D) (f : A -> B) (h : A -> C) l :
  zip_with g (f <$> l) (h <$> l) = (fun x => g (f x) (h x)) <$> l.
Proof. induction l as [|x l IH]; [done|]. csimpl. by rewrite IH. Qed.

Definition psum (h : Z -> Z) (i : Z) : Z := zsum (h <$> pyrange 0 i).

Lemma psum_succ h i : 0 <= i -> psum h (i + 1) = psum h i + h i.
Proof.
  intros Hi. unfold psum. rewrite pyrange_snoc, fmap_app, zsum_app by lia. cbn. lia.
Qed.

Lemma psum_0 h : psum h 0 = 0.
Proof. unfold psum. by rewrite pyrange_empty by lia. Qed.

Lemma psum_nonneg h i n : (forall j, 0 <= j < n -> 0 <= h j) -> 0 <= i <= n -> 0 <= psum h i.
Proof.
  intros Hh [Hi Hn]. revert i Hi Hn. apply (natlike_ind (fun i => i <= n -> 0 <= psum h i)).
  - intros _. by rewrite psum_0.
  - intros i Hi IH Hn. replace (Z.succ i) with (i + 1) by lia. rewrite psum_succ by lia.
    specialize (Hh i). lia.
Qed.

Lemma psum_mono h i j n :
  (forall k, 0 <= k < n -> 0 <= h k) -> 0 <= i <= j -> j <= n -> psum h i <= psum h j.
Proof.
  intros Hh [Hi Hij] Hn. remember (j - i) as d eqn:Hd. assert (0 <= d) as Hd0 by lia.
  replace j with (i + d) in * by lia. clear Hd Hij. revert d Hd0 Hn.
  apply (natlike_ind (fun d => i + d <= n -> psum h i <= psum h (i + d))).
  - intros _. by rewrite Z.add_0_r.
  - intros d Hd IH Hn. replace (i + Z.succ d) with ((i + d) + 1) by lia.
    rewrite psum_succ by lia. specialize (Hh (i + d)). lia.
Qed.

Lemma zip_loads (g : Z -> Z -> Z) l k :
  len l = len k -> zip_with g l k = (fun i => g (tl_load l i) (tl_load k i)) <$> pyrange 0 (len l).
Proof.
  intros Hl. assert (length l = length k) as Hn by (unfold len in *; lia).
  apply list_eq_same_length with (n := length l).
  - unfold pyrange, len. rewrite length_fmap, length_seqZ. lia.
  - rewrite length_zip_with. lia.
  - intros i x y Hi Hx Hy. apply lookup_zip_with_Some in Hx as (a & b & -> & Ha & Hb).
    unfold pyrange in Hy. rewrite list_lookup_fmap in Hy.
    apply fmap_Some in Hy as (z & Hz & ->). apply lookup_seqZ in Hz as [-> _].
    unfold tl_load. rewrite (proj2 (Z.leb_le _ _)) by lia. rewrite Z.add_0_l, Nat2Z.id.
    by rewrite Ha, Hb.
Qed.

Lemma psum_loads l : tl_load l <$> pyrange 0 (len l) = l.
Proof.
  apply list_eq_same_length with (n := length l).
  - done.
  - unfold pyrange, len. rewrite length_fmap, length_seqZ. lia.
  - intros i x y Hi Hx Hy. unfold pyrange in Hx. rewrite list_lookup_fmap in Hx.
    apply fmap_Some in Hx as (z & Hz & ->). apply lookup_seqZ in Hz as [-> _].
    unfold tl_load. rewrite (proj2 (Z.leb_le _ _)) by lia. rewrite Z.add_0_l, Nat2Z.id.
    by rewrite Hy.
Qed.

Lemma tl_load_fmap (h : Z -> Z) n i : 0 <= i < n -> tl_load (h <$> pyrange 0 n) i = h i.
Proof.
  intros Hi. unfold tl_load, pyrange. rewrite (proj2 (Z.leb_le _ _)) by lia.
  rewrite list_lookup_fmap, lookup_seqZ_lt by lia. cbn. f_equal. lia.
Qed.

Lemma cumsum_psum (h : Z -> Z) n i : 0 <= i < n -> cumsum_to (h <$> pyrange 0 n) i = psum h (i + 1).
Proof.
  intros Hi. unfold cumsum_to, psum. rewrite (pyrange_app 0 (i + 1) n), fmap_app by lia.
  rewrite take_app_length'; [done|]. unfold pyrange. rewrite length_fmap, length_seqZ. lia.
Qed.

Section batch.
Context (page_size fill : Z) (Hps : 0 < page_size).
Context (pre seq last fp : list Z).
#[local] Abbreviation pages_of := (pages_of page_size).

Definition ext (i : Z) : Z := tl_load seq i - tl_load pre i.
Definition new_pages (i : Z) : Z := pages_of (tl_load seq i) - pages_of (tl_load pre i).

(** The slots of request [i]: its fresh pages follow those of the requests
    before it in the free list. *)
Definition slots (i : Z) : list Z :=
  req_slots page_size (tl_load pre i) (tl_load seq i) (tl_load last i)
    (fun k => tl_load fp (psum new_pages i + k)).

Definition batch_slots : list Z := concat (slots <$> pyrange 0 (len pre)).

(** Prefixes within the sequences. *)
Definition batch_ok : Prop :=
  len seq = len pre /\ forall i, 0 <= i < len pre -> 0 <= tl_load pre i <= tl_load seq i.

Lemma pages_of_mono a b : a <= b -> pages_of a <= pages_of b.
Proof. intros. unfold Paged.pages_of. apply Z.div_le_mono; lia. Qed.

Lemma ext_nonneg i : batch_ok -> 0 <= i < len pre -> 0 <= ext i.
Proof. intros [_ Hok] Hi. specialize (Hok i Hi). unfold ext. lia. Qed.

Lemma new_pages_nonneg i : batch_ok -> 0 <= i < len pre -> 0 <= new_pages i.
Proof.
  intros [_ Hok] Hi. specialize (Hok i Hi). unfold new_pages.
  pose proof (pages_of_mono (tl_load pre i) (tl_load seq i) ltac:(lia)). lia.
Qed.

(** The masked reduction of a program is the prefix sum up to it. *)
Lemma lanes_sum (g : Z -> Z -> Z) bsu pid :
  g fill fill = 0 -> 0 <= pid < bsu ->
  zsum (zip_with g (lanes fill bsu pid seq) (lanes fill bsu pid pre)) =
    psum (fun i => g (tl_load seq i) (tl_load pre i)) (pid + 1).
Proof.
  intros Hg Hp. unfold lanes. rewrite zip_with_diag.
  rewrite (pyrange_app 0 (pid + 1) bsu), fmap_app, zsum_app by lia.
  rewrite (fmap_pyrange_ext _ (fun _ => 0) (pid + 1)).
  2:{ intros x Hx. by rewrite (proj2 (Z.leb_gt _ _)) by lia. }
  rewrite (fmap_pyrange_ext _ (fun i => g (tl_load seq i) (tl_load pre i)) 0).
  2:{ intros x Hx. by rewrite (proj2 (Z.leb_le _ _)) by lia. }
  assert (forall l : list Z, zsum ((fun _ => 0) <$> l) = 0) as ->; [|unfold psum; lia].
  induction l as [|x l IH]; [done|]. by rewrite fmap_cons, zsum_cons, IH.
Qed.

Lemma kernel_step bsu out pid :
  batch_ok -> 0 <= pid < len pre -> len pre <= bsu -> psum ext (len pre) <= len out ->
  alloc_extend_kernel page_size fill pre seq last fp bsu out pid =
    splice (psum ext pid) (slots pid) out.
Proof.
  intros Hok Hp Hb Hl. unfold alloc_extend_kernel.
  rewrite !lanes_sum by lia. change (fun i => tl_load seq i - tl_load pre i) with ext.
  change (fun i => pages_of (tl_load seq i) - pages_of (tl_load pre i)) with new_pages.
  rewrite !psum_succ by lia. fold (ext pid) (new_pages pid).
  replace (psum ext pid + ext pid - ext pid) with (psum ext pid) by lia.
  replace (psum new_pages pid + new_pages pid - new_pages pid) with (psum new_pages pid) by lia.
  pose proof (psum_nonneg ext pid (len pre) (fun i => ext_nonneg i Hok) ltac:(lia)).
  pose proof (psum_mono ext (pid + 1) (len pre) (len pre) (fun i => ext_nonneg i Hok)
    ltac:(lia) ltac:(lia)) as Hm. rewrite psum_succ in Hm by lia.
  destruct Hok as [_ Hok]. specialize (Hok pid Hp).
  apply extend_parts_spec; [done|done|done|]. unfold ext in Hm at 2. lia.
Qed.

Lemma naive_step_spec out i :
  batch_ok -> 0 <= i < len pre -> psum ext (len pre) <= len out ->
  psum new_pages (len pre) <= len fp ->
  naive_step page_size pre seq last fp i out = Ret (splice (psum ext i) (slots i) out).
Proof.
  intros Hok Hi Hl Hf. pose proof Hok as [Hlen Hin].
  unfold naive_step. rewrite !(zip_loads _ seq pre) by done. rewrite zip_with_diag.
  rewrite !cumsum_psum, !tl_load_fmap by lia.
  change (fun i => tl_load seq i - tl_load pre i) with ext.
  change (fun i => pages_of (tl_load seq i) - pages_of (tl_load pre i)) with new_pages.
  rewrite !psum_succ by lia. fold (ext i) (new_pages i).
  replace (psum ext i + ext i - ext i) with (psum ext i) by lia.
  replace (psum new_pages i + new_pages i - new_pages i) with (psum new_pages i) by lia.
  pose proof (psum_nonneg ext i (len pre) (fun i => ext_nonneg i Hok) ltac:(lia)).
  pose proof (psum_nonneg new_pages i (len pre) (fun i => new_pages_nonneg i Hok) ltac:(lia)).
  pose proof (psum_mono ext (i + 1) (len pre) (len pre) (fun i => ext_nonneg i Hok)
    ltac:(lia) ltac:(lia)) as Hm. rewrite psum_succ in Hm by lia.
  pose proof (psum_mono new_pages (i + 1) (len pre) (len pre) (fun i => new_pages_nonneg i Hok)
    ltac:(lia) ltac:(lia)) as Hm2. rewrite psum_succ in Hm2 by lia.
  specialize (Hin i Hi). apply naive_parts_spec; [done|done|done| |done|].
  - unfold ext in Hm at 2. lia.
  - unfold new_pages in Hm2 at 2. lia.
Qed.

Lemma len_slots i : batch_ok -> 0 <= i < len pre -> len (slots i) = ext i.
Proof.
  intros [_ Hok] Hi. specialize (Hok i Hi). unfold slots, req_slots. by rewrite len_fmap_pyrange by lia.
Qed.

Lemma len_slots_to m :
  batch_ok -> 0 <= m -> m <= len pre -> len (concat (slots <$> pyrange 0 m)) = psum ext m.
Proof.
  intros Hok Hm. revert m Hm. apply (natlike_ind (fun m => m <= len pre -> _ = _)).
  - intros _. rewrite pyrange_empty, psum_0 by lia. done.
  - intros m Hm IH Hle. replace (Z.succ m) with (m + 1) by lia.
    rewrite pyrange_snoc, fmap_app, concat_app, len_app, psum_succ, IH by lia.
    cbn. rewrite app_nil_r, len_slots by (done || lia). done.
Qed.

(** Programs that each splice their own range fill the output in order. *)
Lemma fold_slots (step : list Z -> Z -> list Z) out m :
  batch_ok ->
  (forall o i, 0 <= i < len pre -> len o = len out ->
     step o i = splice (psum ext i) (slots i) o) ->
  psum ext (len pre) <= len out -> 0 <= m -> m <= len pre ->
  foldl step out (pyrange 0 m) = splice 0 (concat (slots <$> pyrange 0 m)) out.
Proof.
  intros Hok Hstep Hl Hm. revert m Hm. apply (natlike_ind (fun m => m <= len pre ->
    foldl step out (pyrange 0 m) = splice 0 (concat (slots <$> pyrange 0 m)) out)).
  - intros _. rewrite pyrange_empty by lia. cbn. by rewrite splice_nil.
  - intros m Hm IH Hle. replace (Z.succ m) with (m + 1) by lia.
    pose proof (psum_mono ext (m + 1) (len pre) (len pre) (fun i => ext_nonneg i Hok)
      ltac:(lia) ltac:(lia)) as Hmono. rewrite psum_succ in Hmono by lia.
    pose proof (ext_nonneg m Hok ltac:(lia)).
    rewrite pyrange_snoc, foldl_app, IH by lia. cbn [foldl].
    rewrite Hstep by (lia || (apply len_splice; rewrite ?len_slots_to by (done || lia); lia)).
    rewrite splice_next.
    + rewrite fmap_app, concat_app. cbn. by rewrite app_nil_r.
    + rewrite len_slots_to by (done || lia). lia.
    + lia.
    + rewrite len_slots_to, len_slots by (done || lia). lia.
Qed.

Lemma kernel_batch bsu out :
  batch_ok -> len pre <= bsu -> psum ext (len pre) = len out ->
  foldl (alloc_extend_kernel page_size fill pre seq last fp bsu) out (pyrange 0 (len pre)) =
    batch_slots.
Proof.
  intros Hok Hb Hl. pose proof (len_nonneg pre).
  rewrite fold_slots; [|done| |lia|lia|lia].
  - unfold splice, batch_slots. rewrite len_slots_to, Hl by (done || lia).
    rewrite drop_ge by (unfold len; lia). cbn. by rewrite app_nil_r.
  - intros o i Hi Ho. apply kernel_step; lia || done.
Qed.

Lemma naive_batch out :
  batch_ok -> psum ext (len pre) = len out -> psum new_pages (len pre) <= len fp ->
  alloc_extend_naive page_size pre seq last fp out = Ret batch_slots.
Proof.
  intros Hok Hl Hf. pose proof (len_nonneg pre). unfold alloc_extend_naive.
  set (step := fun (acc : outcome (list Z)) i => _).
  assert (forall o i, 0 <= i < len pre -> len o = len out ->
    naive_step page_size pre seq last fp i o = Ret (splice (psum ext i) (slots i) o)) as Hstep.
  { intros o i Hi Ho. apply naive_step_spec; lia || done. }
  assert (forall m, 0 <= m -> m <= len pre -> foldl step (Ret out) (pyrange 0 m) =
    Ret (foldl (fun o i => splice (psum ext i) (slots i) o) out (pyrange 0 m))) as Hm.
  { apply (natlike_ind (fun m => m <= len pre -> _ = _)).
    - intros _. by rewrite pyrange_empty by lia.
    - intros m Hm IH Hle. replace (Z.succ m) with (m + 1) by lia.
      pose proof (psum_mono ext m (len pre) (len pre) (fun i => ext_nonneg i Hok)
        ltac:(lia) ltac:(lia)).
      rewrite pyrange_snoc, !foldl_app, IH by lia. cbn. apply Hstep; [lia|].
      rewrite fold_slots by (done || lia). apply len_splice; [lia|].
      rewrite len_slots_to by (done || lia). lia. }
  rewrite Hm by lia. f_equal. rewrite fold_slots by (done || lia).
  unfold splice, batch_slots. rewrite len_slots_to, Hl by (done || lia).
  rewrite drop_ge by (unfold len; lia). cbn. by rewrite app_nil_r.
Qed.

(** C23. The device kernel is the reference loop.  For every page size and
    every batch whose prefixes lie within its sequences, the grid of programs
    (each with its masked prefix sums and its loop over blocks of 4096
    offsets) and the sequential [alloc_extend_naive] fill the output with the
    same slots, whatever it held before: for each request, in order, the slot
    that the position-wise specification [slot_ref] gives to each new
    position. *)
Theorem extend_kernel_correct bsu out :
  batch_ok -> len pre <= bsu -> psum ext (len pre) = len out ->
  psum new_pages (len pre) <= len fp ->
  foldl (alloc_extend_kernel page_size fill pre seq last fp bsu) out (pyrange 0 (len pre)) =
    batch_slots /\
  alloc_extend_naive page_size pre seq last fp out = Ret batch_slots.
Proof. intros. split; [by apply kernel_batch|by apply naive_batch]. Qed.

(** ** No two tokens share a slot *)

(** The last page of request [i] is partly used. *)
Definition partial (i : Z) : Prop := tl_load pre i mod page_size <> 0.
Definition last_page (i : Z) : Z := tl_load last i / page_size.

(** What the caller guarantees: the last token sits where its position says,
    partly used pages are private and none of them is in the free list. *)
Record aligned : Prop := {
  al_last i : 0 <= i < len pre -> partial i ->
    (tl_load last i + 1) mod page_size = tl_load pre i mod page_size;
  al_private i j : 0 <= i < len pre -> 0 <= j < len pre -> partial i -> partial j ->
    last_page i = last_page j -> i = j;
  al_fresh i : 0 <= i < len pre -> partial i -> last_page i ∉ fp;
  al_nodup : NoDup fp;
}.

(** The page of position [pos] of request [i]. *)
Definition page_at (i pos : Z) : Z :=
  if pos <? pages_of (tl_load pre i) * page_size then last_page i
  else tl_load fp (psum new_pages i + (pos / page_size - pages_of (tl_load pre i))).

Definition slot_at (i pos : Z) : Z :=
  slot_ref page_size (tl_load pre i) (tl_load last i)
    (fun k => tl_load fp (psum new_pages i + k)) pos.

Lemma partial_of i pos :
  0 <= tl_load pre i <= pos -> pos < pages_of (tl_load pre i) * page_size -> partial i.
Proof.
  intros Hp Hlt Hz. unfold Paged.pages_of in Hlt.
  pose proof (Z.div_mod (tl_load pre i) page_size ltac:(lia)) as Hd. rewrite Hz in Hd.
  replace (tl_load pre i + page_size - 1)
    with (page_size - 1 + (tl_load pre i / page_size) * page_size) in Hlt by lia.
  rewrite Z.div_add, Z.div_small in Hlt by lia. lia.
Qed.

(** A slot is its position's offset in its position's page. *)
Lemma slot_at_page i pos :
  aligned -> 0 <= i < len pre -> 0 <= tl_load pre i <= pos ->
  slot_at i pos = page_at i pos * page_size + pos mod page_size.
Proof.
  intros Hal Hi Hp. unfold slot_at, slot_ref, page_at.
  destruct (Z.ltb_spec pos (pages_of (tl_load pre i) * page_size)) as [Hlt|Hge]; [|done].
  pose proof (partial_of i pos Hp Hlt) as Hpart.
  pose proof (al_last Hal i Hi Hpart) as Hl. unfold partial in Hpart. unfold last_page.
  pose proof (pages_of_bound page_size Hps (tl_load pre i)) as Hb.
  set (x := tl_load pre i) in *. set (l := tl_load last i) in *.
  pose proof (Z.div_mod x page_size ltac:(lia)) as Hx.
  pose proof (Z.mod_pos_bound x page_size Hps) as Hxm.
  pose proof (Z.div_mod (l + 1) page_size ltac:(lia)) as Hl1. rewrite Hl in Hl1.
  assert (pages_of x = x / page_size + 1) as Hpg by nia.
  assert (pos mod page_size = pos - x + x mod page_size) as ->.
  { symmetry. apply (Z.mod_unique_pos _ _ (x / page_size)); nia. }
  assert (l / page_size = (l + 1) / page_size) as ->; [|lia].
  symmetry. apply (Z.div_unique_pos _ _ _ (x mod page_size - 1)); lia.
Qed.

Definition old (i pos : Z) : Prop := pos < pages_of (tl_load pre i) * page_size.

Lemma old_page i pos :
  0 <= tl_load pre i <= pos -> old i pos -> pos / page_size = tl_load pre i / page_size.
Proof.
  intros Hp Ho. pose proof (pages_of_bound page_size Hps (tl_load pre i)) as Hb. unfold old in Ho.
  set (x := tl_load pre i) in *. pose proof (Z.div_mod x page_size ltac:(lia)) as Hx.
  pose proof (Z.mod_pos_bound x page_size Hps).
  assert (pages_of x < x / page_size + 2) as Hle by nia.
  assert (pages_of x * page_size <= (x / page_size + 1) * page_size) by nia.
  symmetry. apply (Z.div_unique_pos _ _ _ (pos - page_size * (x / page_size))); lia.
Qed.

Lemma new_index i pos :
  ~ old i pos -> pos < tl_load seq i ->
  0 <= pos / page_size - pages_of (tl_load pre i) < new_pages i.
Proof.
  intros Hn Hp. unfold old in Hn. unfold new_pages.
  pose proof (Z.div_le_lower_bound pos page_size (pages_of (tl_load pre i)) Hps ltac:(lia)).
  pose proof (pages_of_bound page_size Hps (tl_load seq i)).
  pose proof (Z.div_mod pos page_size ltac:(lia)). pose proof (Z.mod_pos_bound pos page_size Hps).
  assert (pos / page_size < pages_of (tl_load seq i)) by nia. lia.
Qed.

Lemma free_at_inj a b :
  NoDup fp -> 0 <= a < len fp -> 0 <= b < len fp -> tl_load fp a = tl_load fp b -> a = b.
Proof.
  intros Hnd Ha Hb Hab. unfold tl_load in Hab. rewrite !(proj2 (Z.leb_le _ _)) in Hab by lia.
  destruct (lookup_lt_is_Some_2 fp (Z.to_nat a)) as [x Hx]; [unfold len in *; lia|].
  destruct (lookup_lt_is_Some_2 fp (Z.to_nat b)) as [y Hy]; [unfold len in *; lia|].
  rewrite Hx, Hy in Hab. cbn in Hab. subst y.
  pose proof (NoDup_lookup _ _ _ _ Hnd Hx Hy). lia.
Qed.

Lemma free_at_elem a : 0 <= a < len fp -> tl_load fp a ∈ fp.
Proof.
  intros Ha. unfold tl_load. rewrite (proj2 (Z.leb_le _ _)) by lia.
  destruct (lookup_lt_is_Some_2 fp (Z.to_nat a)) as [x Hx]; [unfold len in *; lia|].
  rewrite Hx. by eapply list_elem_of_lookup_2.
Qed.

(** Offsets of different requests never meet. *)
Lemma psum_block_inj h n i j a b :
  (forall k, 0 <= k < n -> 0 <= h k) -> 0 <= i < n -> 0 <= j < n ->
  0 <= a < h i -> 0 <= b < h j -> psum h i + a = psum h j + b -> i = j /\ a = b.
Proof.
  intros Hh Hi Hj Ha Hb He.
  destruct (Z.lt_trichotomy i j) as [Hlt|[->|Hlt]]; [|lia|].
  - pose proof (psum_mono h (i + 1) j n Hh ltac:(lia) ltac:(lia)) as Hm.
    rewrite psum_succ in Hm by lia. lia.
  - pose proof (psum_mono h (j + 1) i n Hh ltac:(lia) ltac:(lia)) as Hm.
    rewrite psum_succ in Hm by lia. lia.
Qed.

Lemma slot_at_inj i j pos pos' :
  aligned -> batch_ok -> psum new_pages (len pre) <= len fp ->
  0 <= i < len pre -> 0 <= j < len pre ->
  tl_load pre i <= pos < tl_load seq i -> tl_load pre j <= pos' < tl_load seq j ->
  slot_at i pos = slot_at j pos' -> i = j /\ pos = pos'.
Proof.
  intros Hal Hok Hfp Hi Hj Hp Hp' He. pose proof Hok as [_ Hin].
  pose proof (Hin i Hi) as Hi0. pose proof (Hin j Hj) as Hj0.
  rewrite !slot_at_page in He by (done || lia).
  pose proof (Z.mod_pos_bound pos page_size Hps). pose proof (Z.mod_pos_bound pos' page_size Hps).
  assert (page_at i pos = page_at j pos' /\ pos mod page_size = pos' mod page_size) as [Hpg Hm]
    by (apply (Z.div_mod_unique page_size); lia).
  enough (i = j /\ pos / page_size = pos' / page_size) as [-> Hd].
  { split; [done|]. rewrite (Z.div_mod pos page_size), (Z.div_mod pos' page_size) by lia. congruence. }
  assert (forall k q, 0 <= k < len pre -> tl_load pre k <= q < tl_load seq k -> ~ old k q ->
    0 <= psum new_pages k + (q / page_size - pages_of (tl_load pre k)) < len fp) as Hrange.
  { intros k q Hk Hq Hn. pose proof (new_index k q Hn ltac:(lia)).
    pose proof (psum_nonneg new_pages k (len pre) (fun i => new_pages_nonneg i Hok) ltac:(lia)).
    pose proof (psum_mono new_pages (k + 1) (len pre) (len pre) (fun i => new_pages_nonneg i Hok)
      ltac:(lia) ltac:(lia)) as Hmono. rewrite psum_succ in Hmono by lia. lia. }
  unfold page_at in Hpg.
  destruct (Z.ltb_spec pos (pages_of (tl_load pre i) * page_size)) as [Ho|Ho];
    destruct (Z.ltb_spec pos' (pages_of (tl_load pre j) * page_size)) as [Ho'|Ho'].
  - assert (i = j) as ->.
    { apply (al_private Hal); [done|done| | |done];
        [apply (partial_of i pos)|apply (partial_of j pos')]; lia. }
    split; [done|]. rewrite (old_page j pos), (old_page j pos') by (done || lia). done.
  - exfalso. apply (al_fresh Hal i Hi (partial_of i pos ltac:(lia) Ho)). rewrite Hpg.
    apply free_at_elem, Hrange; unfold old; lia.
  - exfalso. apply (al_fresh Hal j Hj (partial_of j pos' ltac:(lia) Ho')). rewrite <- Hpg.
    apply free_at_elem, Hrange; unfold old; lia.
  - apply free_at_inj in Hpg; [|apply Hal|apply Hrange; unfold old; lia..].
    apply (psum_block_inj new_pages (len pre)) in Hpg as [-> ?]; try done.
    + split; [done|]. lia.
    + intros k Hk. by apply new_pages_nonneg.
    + apply new_index; unfold old; lia.
    + apply new_index; unfold old; lia.
Qed.

Lemma batch_slots_nodup :
  aligned -> batch_ok -> psum new_pages (len pre) <= len fp -> NoDup batch_slots.
Proof.
  intros Hal Hok Hfp.
  assert (batch_slots = pyrange 0 (len pre) ≫= slots) as ->.
  { unfold batch_slots. generalize (pyrange 0 (len pre)).
    induction l as [|x l IH]; [done|]. csimpl. by rewrite IH. }
  assert (forall i y, 0 <= i < len pre -> y ∈ slots i ->
    exists pos, tl_load pre i <= pos < tl_load seq i /\ y = slot_at i pos) as Hin.
  { intros i y Hi Hy. apply list_elem_of_fmap in Hy as (pos & -> & Hpos).
    apply elem_of_pyrange in Hpos. by exists pos. }
  apply NoDup_bind.
  - intros i j y Hi%elem_of_pyrange Hj%elem_of_pyrange Hyi Hyj.
    destruct (Hin i y Hi Hyi) as (pos & Hpos & ->). destruct (Hin j _ Hj Hyj) as (pos' & Hpos' & He).
    by apply slot_at_inj in He as [-> _].
  - intros i Hi%elem_of_pyrange. apply NoDup_fmap_2_strong; [|apply NoDup_seqZ].
    intros x y Hx%elem_of_pyrange Hy%elem_of_pyrange He.
    by apply (slot_at_inj i i x y) in He as [_ ?].
  - apply NoDup_seqZ.
Qed.

End batch.
