(* ===== verification/PagedAlloc.v ===== *)
(** * The page-granular allocator is exact

    Prefill and decode allocations hand out exactly the slots of the batch
    specification, whole-page allocation and release are inverse, and no page
    is lost. *)

From S2P Require Import Prelude Paged PagedFacts.

(** ** The allocator *)

Section alloc_extend.
Context (page_size fill : Z) (Hps : 0 < page_size).

Definition all_pages (a : Paged) : list Z := free_pages a ++ release_pages a.

Lemma paged_merge_pages a : all_pages (paged_merge a) ≡ₚ all_pages a.
Proof.
  unfold paged_merge, all_pages. case_if; [|done]. cbn. rewrite app_nil_r.
  unfold sort_Z. by rewrite sort_key_perm.
Qed.

Lemma paged_merge_release a : release_pages (paged_merge a) = [].
Proof.
  unfold paged_merge. case_if; [done|]. breflect. destruct (release_pages a) as [|x l] eqn:E; [done|].
  rewrite len_cons in *. pose proof (len_nonneg l). lia.
Qed.

Lemma next_power_of_2_ge n : n <= next_power_of_2 n.
Proof.
  unfold next_power_of_2. case_if; breflect; [|lia].
  destruct (Z.eq_dec n 1) as [->|]; [done|]. apply (Z.log2_up_spec n). lia.
Qed.

Lemma get_num_new_pages_psum pre seq :
  len seq = len pre -> get_num_new_pages page_size seq pre = psum (new_pages page_size pre seq) (len pre).
Proof. intros Hl. unfold get_num_new_pages, psum. rewrite zip_loads by done. by rewrite Hl. Qed.

(** Fresh pages against new tokens: one page more per request at most. *)
Lemma new_pages_bound pre seq m :
  batch_ok pre seq -> 0 <= m -> m <= len pre ->
  psum (new_pages page_size pre seq) m * page_size <= psum (ext pre seq) m + m * (page_size - 1).
Proof.
  intros [_ Hok] Hm. revert m Hm. apply (natlike_ind (fun m => m <= len pre -> _)).
  - intros _. rewrite !psum_0. lia.
  - intros m Hm IH Hle. replace (Z.succ m) with (m + 1) by lia. rewrite !psum_succ by lia.
    specialize (Hok m ltac:(lia)). specialize (IH ltac:(lia)). unfold new_pages at 2, ext at 2.
    pose proof (pages_of_bound page_size Hps (tl_load pre m)).
    pose proof (pages_of_bound page_size Hps (tl_load seq m)). nia.
Qed.

Lemma merge_bound pre seq :
  batch_ok pre seq ->
  psum (new_pages page_size pre seq) (len pre) <
    psum (ext pre seq) (len pre) / page_size + len pre + 1.
Proof.
  intros Hok. pose proof (len_nonneg pre).
  pose proof (new_pages_bound pre seq (len pre) Hok ltac:(lia) ltac:(lia)).
  set (n := psum (ext pre seq) (len pre)) in *.
  pose proof (Z.div_mod n page_size ltac:(lia)). pose proof (Z.mod_pos_bound n page_size Hps). nia.
Qed.

Lemma take_len_psum (garbage : list Z) n : 0 <= n <= len garbage -> len (take (Z.to_nat n) garbage) = n.
Proof. intros. unfold len in *. rewrite length_take. lia. Qed.

(** The state in which the pages are handed out. *)
Definition merged (pre : list Z) (n : Z) (a : Paged) : Paged :=
  if need_sort a && (len (free_pages a) <? n / page_size + len pre + 1) then paged_merge a else a.

Lemma merged_pages pre n a : all_pages (merged pre n a) ≡ₚ all_pages a.
Proof. unfold merged. case_if; [apply paged_merge_pages|done]. Qed.

(** C24. The allocator serves a prefill batch exactly.  It fails only when
    the batch needs more pages than it owns (given that released pages are
    merged on demand or absent), leaving its pages untouched; otherwise it
    returns the slots of [extend_kernel_correct], one per new token, takes
    exactly the fresh pages it used off its list and loses none; and when the
    callers' last slots are aligned and private, no two tokens of the batch
    share a slot. *)
Theorem alloc_extend_exact garbage pre seq last a :
  batch_ok pre seq -> let n := psum (ext pre seq) (len pre) in
  let total := psum (new_pages page_size pre seq) (len pre) in
  n <= len garbage -> need_sort a = true \/ release_pages a = [] ->
  match alloc_extend page_size fill garbage pre seq last n None a with
  | (None, a') => len (all_pages a) < total /\ all_pages a' ≡ₚ all_pages a
  | (Some out, a') =>
      let fp := free_pages (merged pre n a) in
      out = batch_slots page_size pre seq last fp /\ len out = n /\
      (exists taken, len taken = total /\ fp = taken ++ free_pages a' /\
         taken ++ all_pages a' ≡ₚ all_pages a) /\
      (aligned page_size pre last fp -> NoDup out)
  end.
Proof.
  intros Hok n total Hg Hns. pose proof Hok as [Hlen _]. pose proof (len_nonneg pre) as Hbs.
  assert (0 <= n) as Hn.
  { apply (psum_nonneg (ext pre seq) (len pre) (len pre)); [|lia]. intros. by apply ext_nonneg. }
  assert (0 <= total) as Ht.
  { apply (psum_nonneg _ (len pre) (len pre)); [|lia]. intros. by apply new_pages_nonneg. }
  unfold alloc_extend. cbv zeta. fold (merged pre n a). set (a1 := merged pre n a).
  rewrite (kernel_batch page_size fill Hps pre seq last (free_pages a1)) by
    (done || apply next_power_of_2_ge || (rewrite take_len_psum by lia; done)).
  cbn [default from_option id]. rewrite get_num_new_pages_psum by done. fold total.
  pose proof (merged_pages pre n a) as Hp. fold a1 in Hp.
  destruct (Z.ltb_spec (len (free_pages a1)) total) as [Hlt|Hge].
  - split; [|done]. rewrite <- (len_perm _ _ Hp). unfold all_pages.
    enough (release_pages a1 = []) as -> by (by rewrite app_nil_r).
    unfold a1, merged in *. pose proof (merge_bound pre seq Hok) as Hb. fold n total in Hb.
    destruct Hns as [Hs|Hr]; [|by case_if; [apply paged_merge_release|]].
    rewrite Hs in *. cbn [andb] in *. case_if; [apply paged_merge_release|]. breflect. lia.
  - split; [done|]. split.
    { unfold batch_slots. rewrite len_slots_to by (done || lia). done. }
    split.
    + exists (slice_to (free_pages a1) total). rewrite len_slice_to by lia. split; [done|].
      cbn [free_pages set_pages]. rewrite slice_to_from. split; [done|].
      rewrite <- Hp. unfold all_pages. cbn. rewrite (assoc_L (++)), slice_to_from. done.
    + intros Hal. by apply batch_slots_nodup.
Qed.

End alloc_extend.

(** ** Decoding *)

Section decode.
Context (page_size fill : Z) (Hps : 0 < page_size).
Context (seq last fp : list Z).
#[local] Abbreviation pages_of := (pages_of page_size).

(** A decode step extends every sequence by its last token. *)
Definition decode_pre : list Z := (fun s => s - 1) <$> seq.

Lemma len_decode_pre : len decode_pre = len seq.
Proof. unfold len, decode_pre. by rewrite length_fmap. Qed.

Lemma decode_pre_load i : 0 <= i < len seq -> tl_load decode_pre i = tl_load seq i - 1.
Proof.
  intros Hi. unfold tl_load, decode_pre. rewrite (proj2 (Z.leb_le _ _)) by lia.
  rewrite list_lookup_fmap.
  destruct (lookup_lt_is_Some_2 seq (Z.to_nat i)) as [x Hx]; [unfold len in *; lia|].
  by rewrite Hx.
Qed.

Definition nonempty_seqs : Prop := forall i, 0 <= i < len seq -> 1 <= tl_load seq i.

Lemma decode_ok : nonempty_seqs -> batch_ok decode_pre seq.
Proof.
  intros Hs. split; [by rewrite len_decode_pre|]. rewrite len_decode_pre. intros i Hi.
  rewrite decode_pre_load by done. specialize (Hs i Hi). lia.
Qed.

Lemma decode_ext i : 0 <= i < len seq -> ext decode_pre seq i = 1.
Proof. intros Hi. unfold ext. rewrite decode_pre_load by done. lia. Qed.

Lemma psum_ext f g n : (forall i, 0 <= i < n -> f i = g i) -> psum f n = psum g n.
Proof. intros Hfg. unfold psum. f_equal. by apply fmap_pyrange_ext. Qed.

Lemma psum_const n : 0 <= n -> psum (fun _ => 1) n = n.
Proof.
  revert n. apply (natlike_ind (fun n => psum (fun _ => 1) n = n)); [apply psum_0|].
  intros n Hn IH. replace (Z.succ n) with (n + 1) by lia. rewrite psum_succ by lia. lia.
Qed.

Lemma decode_psum_ext m : 0 <= m <= len seq -> psum (ext decode_pre seq) m = m.
Proof.
  intros Hm. rewrite (psum_ext _ (fun _ => 1)); [apply psum_const; lia|].
  intros i Hi. apply decode_ext. lia.
Qed.

Lemma decode_lanes_sum bsu pid :
  0 <= pid < len seq -> len seq <= bsu ->
  zsum (zip_with (fun x y => pages_of x - pages_of y) (lanes fill bsu pid seq)
          (zip_with (fun o x => if o <=? pid then x - 1 else x) (pyrange 0 bsu)
             (lanes fill bsu pid seq))) =
    psum (new_pages page_size decode_pre seq) (pid + 1).
Proof.
  intros Hp Hb. unfold lanes. rewrite <- (list_fmap_id (pyrange 0 bsu)) at 2.
  rewrite zip_with_diag, zip_with_diag. unfold id.
  rewrite (pyrange_app 0 (pid + 1) bsu), fmap_app, zsum_app by lia.
  rewrite (fmap_pyrange_ext _ (fun _ => 0) (pid + 1)).
  2:{ intros x Hx. rewrite (proj2 (Z.leb_gt _ _)) by lia. lia. }
  rewrite (fmap_pyrange_ext _ (new_pages page_size decode_pre seq) 0).
  2:{ intros x Hx. rewrite (proj2 (Z.leb_le _ _)) by lia. unfold new_pages.
      by rewrite decode_pre_load by lia. }
  assert (forall l : list Z, zsum ((fun _ => 0) <$> l) = 0) as ->; [|unfold psum; lia].
  induction l as [|x l IH]; [done|]. by rewrite fmap_cons, zsum_cons, IH.
Qed.

Lemma decode_step bsu out pid :
  nonempty_seqs -> 0 <= pid < len seq -> len seq <= bsu -> len seq <= len out ->
  alloc_decode_kernel page_size fill seq last fp bsu out pid =
    splice (psum (ext decode_pre seq) pid) (slots page_size decode_pre seq last fp pid) out.
Proof.
  intros Hs Hp Hb Ho. specialize (Hs pid Hp). unfold alloc_decode_kernel.
  rewrite decode_lanes_sum, psum_succ, decode_psum_ext by lia.
  unfold slots, req_slots. rewrite decode_pre_load by done.
  set (q := tl_load seq pid) in *.
  replace (pyrange (q - 1) q) with [q - 1]
    by (unfold pyrange; replace (q - (q - 1)) with 1 by lia; done).
  assert (new_pages page_size decode_pre seq pid = pages_of q - pages_of (q - 1)) as Hnp.
  { unfold new_pages. by rewrite decode_pre_load. }
  rewrite Hnp. set (d := pages_of q - pages_of (q - 1)) in *.
  replace (psum (new_pages page_size decode_pre seq) pid + d - d)
    with (psum (new_pages page_size decode_pre seq) pid) by lia.
  pose proof (pages_of_bound page_size Hps q). pose proof (pages_of_bound page_size Hps (q - 1)).
  assert (forall v, tl_store pid [(0, v)] out = splice pid [v] out) as Hstore.
  { intros v. unfold tl_store. cbn. rewrite Z.add_0_r.
    rewrite <- (splice_nil pid out) at 1 by lia. replace pid with (pid + len (@nil Z)) at 1
      by (rewrite len_nil; lia). rewrite insert_splice; [done|lia|rewrite len_nil; lia]. }
  cbn [fmap list_fmap]. unfold slot_ref.
  destruct (Z.ltb_spec (q - 1) (pages_of (q - 1) * page_size)) as [Hin|Hout].
  - assert (d = 0) as -> by (unfold d; nia). rewrite Z.eqb_refl, Hstore.
    do 2 f_equal. lia.
  - assert (pages_of (q - 1) * page_size = q - 1) as He by lia.
    assert (d <> 0) as Hd by (unfold d; intros ?; nia).
    rewrite (proj2 (Z.eqb_neq _ _) Hd), Hstore. do 2 f_equal.
    replace ((q - 1) / page_size) with (pages_of (q - 1))
      by (apply (Z.div_unique_pos _ _ _ 0); lia).
    replace ((q - 1) mod page_size) with 0 by (rewrite <- He, Z.mod_mul by lia; done).
    rewrite Z.sub_diag, !Z.add_0_r. done.
Qed.

Lemma decode_new_page i :
  1 < page_size -> 1 <= tl_load seq i -> 0 <= i < len seq ->
  (if tl_load seq i mod page_size =? 1 then 1 else 0) = new_pages page_size decode_pre seq i.
Proof.
  intros H1 Hs Hi. unfold new_pages. rewrite decode_pre_load by done. set (q := tl_load seq i) in *.
  unfold Paged.pages_of. replace (q - 1 + page_size - 1) with (q - 2 + 1 * page_size) by lia.
  replace (q + page_size - 1) with (q - 1 + 1 * page_size) by lia. rewrite !Z.div_add by lia.
  pose proof (Z.div_mod q page_size ltac:(lia)) as Hd.
  pose proof (Z.mod_pos_bound q page_size Hps) as Hm. set (r := q mod page_size) in *.
  destruct (Z.eqb_spec r 1) as [He|Hne].
  - assert ((q - 1) / page_size = q / page_size) as -> by
      (symmetry; apply (Z.div_unique_pos _ _ _ 0); lia).
    assert ((q - 2) / page_size = q / page_size - 1) as -> by
      (symmetry; apply (Z.div_unique_pos _ _ _ (page_size - 1)); lia). lia.
  - destruct (Z.eq_dec r 0) as [H0|H0].
    + assert ((q - 1) / page_size = q / page_size - 1) as -> by
        (symmetry; apply (Z.div_unique_pos _ _ _ (page_size - 1)); lia).
      assert ((q - 2) / page_size = q / page_size - 1) as -> by
        (symmetry; apply (Z.div_unique_pos _ _ _ (page_size - 2)); lia). lia.
    + assert ((q - 1) / page_size = q / page_size) as -> by
        (symmetry; apply (Z.div_unique_pos _ _ _ (r - 1)); lia).
      assert ((q - 2) / page_size = q / page_size) as -> by
        (symmetry; apply (Z.div_unique_pos _ _ _ (r - 2)); lia). lia.
Qed.

(** Decoding is extending by one.  The decode kernel fills its output
    with what the extend kernel's specification gives to prefixes one token
    short, and the decode page count agrees with it for every page size above
    one (for page size one it counts no page although every token needs
    one). *)
Theorem decode_is_extend bsu out :
  nonempty_seqs -> len seq <= bsu -> len out = len seq ->
  foldl (alloc_decode_kernel page_size fill seq last fp bsu) out (pyrange 0 (len seq)) =
    batch_slots page_size decode_pre seq last fp /\
  (1 < page_size ->
     get_num_new_pages_decode page_size seq =
       psum (new_pages page_size decode_pre seq) (len seq)) /\
  (page_size = 1 -> get_num_new_pages_decode page_size seq = 0).
Proof.
  intros Hs Hb Ho. pose proof (len_nonneg seq). split; [|split].
  - pose proof (decode_ok Hs) as Hok. rewrite <- len_decode_pre.
    rewrite (fold_slots page_size decode_pre seq last fp); [|done| |rewrite len_decode_pre|..].
    + unfold splice, batch_slots.
      rewrite len_slots_to by (done || rewrite len_decode_pre; lia).
      rewrite len_decode_pre, decode_psum_ext by lia.
      rewrite drop_ge by (unfold len in *; lia). cbn. by rewrite app_nil_r.
    + intros o i Hi Hlo. rewrite len_decode_pre in Hi. apply decode_step; lia || done.
    + rewrite decode_psum_ext; lia.
    + rewrite len_decode_pre. lia.
    + done.
  - intros H1. unfold get_num_new_pages_decode, psum. f_equal.
    rewrite <- (psum_loads seq) at 1. rewrite <- list_fmap_compose.
    apply fmap_pyrange_ext. intros i Hi. apply decode_new_page; auto.
  - intros ->. unfold get_num_new_pages_decode.
    generalize seq as l. induction l as [|x l IH]; [done|].
    by rewrite fmap_cons, zsum_cons, Z.mod_1_r, IH.
Qed.

End decode.

(** ** Whole pages *)

Section whole_pages.
Context (page_size : Z) (Hps : 0 < page_size).

Definition page_slots (pages : list Z) : list Z :=
  concat ((fun p => (fun o => p * page_size + o) <$> pyrange 0 page_size) <$> pages).

Lemma elem_of_page_slots x pages : x ∈ page_slots pages <-> x / page_size ∈ pages.
Proof.
  unfold page_slots. rewrite list_elem_of_In, in_concat. split.
  - intros (l & Hl & Hx). apply list_elem_of_In, list_elem_of_fmap in Hl as (p & -> & Hp).
    apply list_elem_of_In, list_elem_of_fmap in Hx as (o & -> & Ho%elem_of_pyrange).
    replace ((p * page_size + o) / page_size) with p; [done|].
    apply (Z.div_unique_pos _ _ _ o); lia.
  - intros Hp. eexists. split.
    + apply list_elem_of_In, list_elem_of_fmap. by eexists.
    + apply list_elem_of_In, list_elem_of_fmap. exists (x mod page_size). split.
      * pose proof (Z.div_mod x page_size ltac:(lia)). lia.
      * apply elem_of_pyrange. by apply Z.mod_pos_bound.
Qed.

Lemma unique_pages pages :
  NoDup pages -> torch_unique ((fun x => x / page_size) <$> page_slots pages) ≡ₚ pages.
Proof.
  intros Hnd. unfold torch_unique, sort_Z. rewrite sort_key_perm. apply NoDup_Permutation; [|done|].
  - apply NoDup_remove_dups.
  - intros p. rewrite elem_of_remove_dups, list_elem_of_fmap. split.
    + intros (x & -> & Hx). by apply elem_of_page_slots.
    + intros Hp. assert (p * page_size / page_size = p) as He by (apply Z.div_mul; lia).
      exists (p * page_size). split; [done|]. apply elem_of_page_slots. by rewrite He.
Qed.

Lemma len_page_slots pages : len (page_slots pages) = len pages * page_size.
Proof.
  induction pages as [|p pages IH]; [done|]. unfold page_slots in *. rewrite fmap_cons. cbn [concat].
  rewrite len_app, IH, len_fmap_pyrange, len_cons by lia. lia.
Qed.

(** Page allocation and release are inverse.  A request for [k] pages
    succeeds exactly when the allocator owns that many, returning all the
    slots of [k] pages it no longer owns, and freeing those slots gives the
    allocator back exactly its former pages. *)
Theorem paged_alloc_free k a :
  0 <= k -> NoDup (all_pages a) -> is_not_in_free_group a = true ->
  need_sort a = true \/ release_pages a = [] ->
  match paged_alloc page_size (k * page_size) a with
  | (None, a') => len (all_pages a) < k /\ all_pages a' ≡ₚ all_pages a
  | (Some out, a') =>
      len out = k * page_size /\ (forall x, x ∈ out -> x / page_size ∉ all_pages a') /\
      all_pages (paged_free page_size out a') ≡ₚ all_pages a
  end.
Proof.
  intros Hk Hnd Hg Hns. unfold paged_alloc. rewrite Z.div_mul by lia. cbv zeta.
  set (a1 := if need_sort a && (len (free_pages a) <? k) then paged_merge a else a).
  assert (all_pages a1 ≡ₚ all_pages a) as Hp by (unfold a1; case_if; [apply paged_merge_pages|done]).
  assert (is_not_in_free_group a1 = true) as Hg1.
  { unfold a1, paged_merge. repeat case_if; done. }
  destruct (Z.ltb_spec (len (free_pages a1)) k) as [Hlt|Hge].
  - split; [|done]. rewrite <- (len_perm _ _ Hp). unfold all_pages.
    enough (release_pages a1 = []) as -> by (by rewrite app_nil_r).
    unfold a1 in *. destruct Hns as [Hs|Hr]; [|by case_if; [apply paged_merge_release|]].
    rewrite Hs in *. cbn [andb] in *. case_if; [apply paged_merge_release|]. breflect. lia.
  - fold (page_slots (slice_to (free_pages a1) k)). set (taken := slice_to (free_pages a1) k).
    assert (len taken = k) as Ht by (apply len_slice_to; lia).
    set (a2 := set_pages _ _ a1).
    assert (taken ++ all_pages a2 ≡ₚ all_pages a) as Hsplit.
    { rewrite <- Hp. unfold all_pages, taken. cbn. by rewrite (assoc_L (++)), slice_to_from. }
    rewrite <- Hsplit in Hnd. apply NoDup_app in Hnd as (Hnt & Hdis & _).
    rewrite len_page_slots, Ht. split; [done|]. split.
    + intros x Hx%elem_of_page_slots. by apply Hdis.
    + unfold paged_free. rewrite len_page_slots, Ht.
      change (is_not_in_free_group a2) with (is_not_in_free_group a1). rewrite Hg1.
      destruct (Z.eqb_spec (k * page_size) 0) as [Hz|Hnz].
      { rewrite <- Hsplit. destruct taken as [|x l]; [done|]. rewrite len_cons in Ht.
        pose proof (len_nonneg l). nia. }
      pose proof (unique_pages taken Hnt) as Hu. cbv zeta.
      rewrite <- Hsplit. unfold all_pages in *.
      case_if; cbn; rewrite Hu; solve_Permutation.
Qed.

End whole_pages.

(** ** Witnesses *)

Lemma pages_ok : batch_ok [3; 8; 0] [9; 9; 2].
Proof.
  split; [reflexivity|]. intros i Hi. change (len [3; 8; 0]) with 3 in Hi.
  assert (i = 0 \/ i = 1 \/ i = 2) as [-> |[-> | ->]] by lia; vm_compute; split; discriminate.
Qed.

(** Pages of four slots: three requests with 6, 1 and 2 new tokens. *)
Lemma extend_kernel_correct_witness :
  batch_slots 4 [3; 8; 0] [9; 9; 2] [6; 15; 0] [5; 6; 7; 8] = [7; 20; 21; 22; 23; 24; 28; 32; 33] /\
  alloc_extend_naive 4 [3; 8; 0] [9; 9; 2] [6; 15; 0] [5; 6; 7; 8] (replicate 9 0) =
    Ret [7; 20; 21; 22; 23; 24; 28; 32; 33].
Proof.
  destruct (extend_kernel_correct 4 0 ltac:(lia) [3; 8; 0] [9; 9; 2] [6; 15; 0] [5; 6; 7; 8] 4
              (replicate 9 0)) as [Hk Hn].
  - exact pages_ok.
  - vm_compute. discriminate.
  - vm_compute. reflexivity.
  - vm_compute. discriminate.
  - assert (batch_slots 4 [3; 8; 0] [9; 9; 2] [6; 15; 0] [5; 6; 7; 8] =
      [7; 20; 21; 22; 23; 24; 28; 32; 33]) as Hb by (vm_compute; reflexivity).
    rewrite Hn, Hb. split; reflexivity.
Defined.

Definition page_demo : Paged := mkPaged 8 true [5; 6; 7; 8] [2] true [].

Lemma alloc_extend_exact_witness :
  match alloc_extend 4 0 (replicate 9 0) [3; 8; 0] [9; 9; 2] [6; 15; 0] 9 None page_demo with
  | (Some out, _) => len out = 9
  | (None, _) => False
  end.
Proof.
  pose proof (alloc_extend_exact 4 0 ltac:(lia) (replicate 9 0) [3; 8; 0] [9; 9; 2] [6; 15; 0]
    page_demo pages_ok) as Hx.
  change (psum (ext [3; 8; 0] [9; 9; 2]) (len [3; 8; 0])) with 9 in Hx.
  change (psum (new_pages 4 [3; 8; 0] [9; 9; 2]) (len [3; 8; 0])) with 4 in Hx.
  specialize (Hx ltac:(vm_compute; discriminate) (or_introl eq_refl)).
  destruct (alloc_extend 4 0 (replicate 9 0) [3; 8; 0] [9; 9; 2] [6; 15; 0] 9 None page_demo)
    as [[out|] a'].
  - destruct Hx as (_ & Hl & _). exact Hl.
  - destruct Hx as [Hl _]. change (len (all_pages page_demo)) with 5 in Hl. lia.
Defined.

Lemma decode_is_extend_witness :
  foldl (alloc_decode_kernel 4 0 [5; 7] [3; 13] [9; 6] 2) [0; 0] (pyrange 0 2) = [36; 14].
Proof.
  destruct (decode_is_extend 4 0 ltac:(lia) [5; 7] [3; 13] [9; 6] 2 [0; 0]) as [Hk _].
  - intros i Hi. change (len [5; 7]) with 2 in Hi.
    assert (i = 0 \/ i = 1) as [-> | ->] by lia; vm_compute; discriminate.
  - vm_compute. discriminate.
  - reflexivity.
  - change (len [5; 7]) with 2 in Hk. rewrite Hk. vm_compute. reflexivity.
Defined.

Lemma paged_alloc_free_witness :
  match paged_alloc 4 (5 * 4) page_demo with
  | (Some out, a') => all_pages (paged_free 4 out a') ≡ₚ all_pages page_demo
  | (None, _) => False
  end.
Proof.
  pose proof (paged_alloc_free 4 ltac:(lia) 5 page_demo) as Hx.
  specialize (Hx ltac:(lia) ltac:(apply (bool_decide_unpack _); vm_compute; exact I) eq_refl
    (or_introl eq_refl)).
  destruct (paged_alloc 4 (5 * 4) page_demo) as [[out|] a'].
  - destruct Hx as (_ & _ & Hp). exact Hp.
  - destruct Hx as [Hl _]. change (len (all_pages page_demo)) with 5 in Hl. lia.
Defined.
