(* ===== verification/RadixKey.v ===== *)
(** * Radix-tree keys (srt/mem_cache/radix_cache.py, class RadixKey)

    A key is a sequence of raw token ids seen either token by token or, for
    EAGLE speculative decoding, as overlapping bigrams; an [extra_key]
    (LoRA id, cache salt) names its namespace and [limit] caps the raw
    tokens without a copy.  [units] is the logical sequence the key stands
    for ([__iter__]); slicing, page alignment and matching are shown to act
    on it as the list operations do, and the galloping search of [match] is
    shown to find the longest common prefix in logarithmically many
    comparisons. *)

From S2P Require Import Prelude.

Record RadixKey := mkKey {
  key_token_ids : list Z;
  key_extra_key : option (list Z);
  key_is_bigram : bool;
  key_limit : option Z;
}.

(** What iteration yields: tokens, or pairs of adjacent tokens. *)
Inductive Unit_ := Tok (t : Z) | Bigram (t u : Z).

#[global] Instance Unit_eq_dec : EqDecision Unit_.
Proof. solve_decision. Defined.
#[global] Instance RadixKey_eq_dec : EqDecision RadixKey.
Proof. solve_decision. Defined.

Definition raw_len (k : RadixKey) : Z :=
  let n := len (key_token_ids k) in
  match key_limit k with
  | Some l => if l <? n then l else n
  | None => n
  end.

Definition raw_token_ids (k : RadixKey) : list Z :=
  let n := raw_len k in
  let t := key_token_ids k in
  if n =? len t then t else slice_to t n.

Definition key_len (k : RadixKey) : Z :=
  let n := raw_len k in
  if key_is_bigram k then (if 0 <? n then n - 1 else 0) else n.

Definition units_of (bigram : bool) (ts : list Z) : list Unit_ :=
  if bigram then zip_with Bigram ts (drop 1 ts) else Tok <$> ts.

(** [__iter__]: the first [raw_len] tokens, or their adjacent pairs. *)
Definition units (k : RadixKey) : list Unit_ :=
  units_of (key_is_bigram k) (take (Z.to_nat (raw_len k)) (key_token_ids k)).

(** [self[start:stop]]; the bounds go through [slice.indices]. *)
Definition key_slice (k : RadixKey) (s e : Z) : RadixKey :=
  let start := pyidx (key_len k) s in
  let stop := pyidx (key_len k) e in
  if key_is_bigram k then
    let raw := if start <? stop then pyslice (key_token_ids k) start (stop + 1) else [] in
    mkKey raw (key_extra_key k) true None
  else mkKey (pyslice (key_token_ids k) start stop) (key_extra_key k) false None.

(** [self[i]] for an integer: the one-unit key. *)
Definition key_getitem (k : RadixKey) (idx : Z) : outcome RadixKey :=
  let idx := if idx <? 0 then idx + key_len k else idx in
  if (idx <? 0) || (key_len k <=? idx) then Raise IndexError
  else Ret (key_slice k idx (idx + 1)).

Definition page_aligned (page_size : Z) (k : RadixKey) : RadixKey :=
  if page_size =? 1 then k
  else key_slice k 0 (key_len k / page_size * page_size).

Definition maybe_to_bigram_view (is_eagle : bool) (value : option (list Z)) (k : RadixKey)
    : RadixKey * option (list Z) :=
  if is_eagle && negb (key_is_bigram k) then
    let k := mkKey (key_token_ids k) (key_extra_key k) true (key_limit k) in
    (k, (fun v => slice_to v (key_len k)) <$> value)
  else (k, value).

(** The binary search of the window that holds the divergence; [None] when
    the fuel runs out. *)
Fixpoint match_bisect (fuel : nat) (t0 t1 : list Z) (lo hi : Z) : option Z :=
  match fuel with
  | O => None
  | S f =>
      if 1 <? hi - lo then
        let mid := (lo + hi) / 2 in
        if bool_decide (pyslice t0 lo mid = pyslice t1 lo mid)
        then match_bisect f t0 t1 mid hi
        else match_bisect f t0 t1 lo mid
      else Some lo
  end.

(** The galloping search: doubling windows from the front. *)
Fixpoint match_gallop (fuel bfuel : nat) (t0 t1 : list Z) (n lo step : Z) : option Z :=
  match fuel with
  | O => None
  | S f =>
      if lo <? n then
        let hi := if lo + step <? n then lo + step else n in
        if bool_decide (pyslice t0 lo hi = pyslice t1 lo hi)
        then match_gallop f bfuel t0 t1 n hi (step * 2)
        else match_bisect bfuel t0 t1 lo hi
      else Some n
  end.

(** Two more than the binary logarithm of the shorter key. *)
Definition match_fuel (n : Z) : nat := S (S (Z.to_nat (Z.log2 n))).

Definition matched_tokens (t0 t1 : list Z) : option Z :=
  let n := Z.min (len t0) (len t1) in
  match_gallop (match_fuel n) (match_fuel n) t0 t1 n 0 1.

(** [_check_compatible] and [match]. *)
Definition check_compatible (k other : RadixKey) : outcome unit :=
  if bool_decide (key_extra_key k = key_extra_key other) then Ret tt else Raise ValueError.

Definition key_match (k other : RadixKey) (page_size : Z) : outcome Z :=
  match check_compatible k other with
  | Raise e => Raise e
  | Ret _ =>
      match matched_tokens (key_token_ids k) (key_token_ids other) with
      | None => Raise OutOfFuel
      | Some m =>
          if key_is_bigram k then
            let matched := Z.max 0 (Z.min (Z.min (m - 1) (key_len k)) (key_len other)) in
            Ret (if 1 <? page_size then matched / page_size * page_size else matched)
          else
            let m := Z.min (Z.min m (key_len k)) (key_len other) in
            Ret (if page_size =? 1 then m else m / page_size * page_size)
      end
  end.

(** The dictionary key of the first page.  The source builds [t] or
    [(t, ...)], wrapped as [(extra_key, ...)] when there is one; a string
    never equals a token, so pairing the namespace with the page's units
    identifies the same keys.  A key without a full page (which indexing
    past the end would raise on) does not occur: keys are page aligned and
    tested for emptiness first. *)
Notation ChildKey := (option (list Z) * list Unit_)%type (only parsing).

Definition child_key (page_size : Z) (k : RadixKey) : ChildKey :=
  (key_extra_key k, take (Z.to_nat page_size) (units_of (key_is_bigram k) (key_token_ids k))).

(** ** The longest common prefix *)

Fixpoint lcp {A} `{EqDecision A} (l k : list A) : nat :=
  match l, k with
  | x :: l', y :: k' => if decide (x = y) then S (lcp l' k') else 0%nat
  | _, _ => 0%nat
  end.

Section lcp.
Context {A : Type} `{EqDecision A}.
Implicit Types l k : list A.

Lemma lcp_le l k : (lcp l k <= length l)%nat /\ (lcp l k <= length k)%nat.
Proof.
  revert k. induction l as [|x l IH]; intros [|y k]; cbn; try lia.
  case_decide; [|lia]. specialize (IH k). lia.
Qed.

(** The prefixes on which two lists agree are those up to [lcp]. *)
Lemma lcp_agree l k m :
  (m <= length l)%nat -> (m <= length k)%nat ->
  take m l = take m k <-> (m <= lcp l k)%nat.
Proof.
  revert l k. induction m as [|m IH]; intros [|x l] [|y k]; cbn; try (split; (done || lia)).
  intros Hl Hk. case_decide; subst.
  - rewrite <- Nat.succ_le_mono, <- IH by lia. split; [by intros [=]|by intros ->].
  - split; [congruence|lia].
Qed.

Lemma lcp_comm l k : lcp l k = lcp k l.
Proof.
  revert k. induction l as [|x l IH]; intros [|y k]; cbn; try done.
  repeat case_decide; congruence.
Qed.

Lemma lcp_self_app l k : lcp l (l ++ k) = length l.
Proof. induction l; cbn; [done|]. rewrite decide_True by done. congruence. Qed.

Lemma lcp_take l k m : lcp (take m l) k = Nat.min m (lcp l k).
Proof.
  revert l k. induction m as [|m IH]; intros [|x l] [|y k]; cbn; try done.
  case_decide; [|done]. by rewrite IH.
Qed.

End lcp.

Lemma lcp_fmap {A B} `{EqDecision A, EqDecision B} (f : A -> B) `{!Inj (=) (=) f} (l k : list A) :
  lcp (f <$> l) (f <$> k) = lcp l k.
Proof.
  revert k. induction l as [|x l IH]; intros [|y k]; cbn; try done.
  destruct (decide (x = y)) as [->|Hn].
  - rewrite decide_True by done. by rewrite IH.
  - rewrite decide_False; [done|]. intros ?; by apply Hn, (inj f).
Qed.

Lemma lcp_bigram (ts us : list Z) :
  lcp (units_of true ts) (units_of true us) = Nat.pred (lcp ts us).
Proof.
  revert us. induction ts as [|a [|b ts] IH]; intros [|c [|d us]];
    try (cbn; by repeat case_decide).
  change (units_of true (a :: b :: ts)) with (Bigram a b :: units_of true (b :: ts)).
  change (units_of true (c :: d :: us)) with (Bigram c d :: units_of true (d :: us)).
  cbn [lcp]. rewrite IH. cbn [lcp]. repeat case_decide; simplify_eq; done.
Qed.

#[global] Instance Tok_inj : Inj (=) (=) Tok.
Proof. by intros ?? [=]. Qed.

Lemma lcp_units_of b (ts us : list Z) :
  lcp (units_of b ts) (units_of b us) = if b then Nat.pred (lcp ts us) else lcp ts us.
Proof. destruct b; [apply lcp_bigram|]. unfold units_of. apply lcp_fmap, _. Qed.

(** ** The galloping search finds it *)

Section search.
Variables t0 t1 : list Z.
Let n : Z := Z.min (len t0) (len t1).
Let L : Z := Z.of_nat (lcp t0 t1).

Lemma match_bound : 0 <= L <= n.
Proof. subst L n. unfold len. pose proof (lcp_le t0 t1). lia. Qed.

(** Comparing a window that starts inside the common prefix decides
    whether it ends inside it. *)
Lemma match_window lo hi :
  0 <= lo <= L -> lo <= hi <= n ->
  pyslice t0 lo hi = pyslice t1 lo hi <-> hi <= L.
Proof.
  intros Hlo Hhi. subst L n. rewrite !pyslice_in_range by lia. unfold len in *.
  assert (Ha : take (Z.to_nat lo) t0 = take (Z.to_nat lo) t1) by (apply lcp_agree; lia).
  assert (Hs : forall t : list Z, take (Z.to_nat hi) t =
    take (Z.to_nat lo) t ++ take (Z.to_nat (hi - lo)) (drop (Z.to_nat lo) t)).
  { intros t. rewrite take_take_drop. f_equal. lia. }
  transitivity (take (Z.to_nat hi) t0 = take (Z.to_nat hi) t1).
  - rewrite !Hs, Ha. split; [by intros ->|]. by apply app_inv_head.
  - rewrite lcp_agree by lia. lia.
Qed.

(** A window no wider than [2 ^ f] is halved at most [f] times. *)
Lemma match_bisect_correct f lo hi :
  0 <= lo <= L -> L < hi <= n -> hi - lo <= 2 ^ Z.of_nat f ->
  match_bisect (S f) t0 t1 lo hi = Some L.
Proof.
  revert lo hi. induction f as [|f IH]; intros lo hi Hlo Hhi Hw.
  - cbn. rewrite (proj2 (Z.ltb_ge _ _)) by (cbn in Hw; lia). f_equal. cbn in Hw. lia.
  - cbn [match_bisect]. case_if; breflect; [|f_equal; lia].
    rewrite Nat2Z.inj_succ, Z.pow_succ_r in Hw by lia.
    pose proof (Z.div_mod (lo + hi) 2 ltac:(lia)). pose proof (Z.mod_pos_bound (lo + hi) 2 ltac:(lia)).
    case_if; breflect; rewrite match_window in * by lia; apply IH; lia.
Qed.

(** Windows double: [f] of them from [lo] cover [step * (2 ^ f - 1)]. *)
Lemma match_gallop_correct f bf lo step :
  0 <= lo <= L -> 1 <= step -> n <= lo + step * (2 ^ Z.of_nat f - 1) -> n <= 2 ^ Z.of_nat bf ->
  match_gallop (S f) (S bf) t0 t1 n lo step = Some L.
Proof.
  pose proof match_bound as HL.
  revert lo step. induction f as [|f IH]; intros lo step Hlo Hs Hf Hb.
  - cbn [match_gallop]. rewrite (proj2 (Z.ltb_ge _ _)) by (cbn in Hf; lia). f_equal.
    cbn in Hf. lia.
  - cbn [match_gallop]. case_if; breflect; [|f_equal; lia].
    rewrite Nat2Z.inj_succ, Z.pow_succ_r in Hf by lia.
    set (hi := if lo + step <? n then lo + step else n).
    assert (Hhi : lo < hi <= n /\ (hi = n \/ hi = lo + step)) by (subst hi; case_if; breflect; lia).
    case_if; breflect; rewrite match_window in * by lia.
    + apply IH; [lia|lia| |done].
      pose proof (Z.pow_pos_nonneg 2 (Z.of_nat f)). destruct Hhi as [_ [->| ->]]; nia.
    + apply match_bisect_correct; lia.
Qed.

End search.

Lemma log2_fuel n : 0 <= n -> n <= 2 ^ Z.of_nat (S (Z.to_nat (Z.log2 n))) - 1.
Proof.
  intros Hn. rewrite Nat2Z.inj_succ, Z2Nat.id by apply Z.log2_nonneg.
  destruct (decide (n = 0)) as [->|]; [done|]. pose proof (Z.log2_spec n). lia.
Qed.

Lemma matched_tokens_lcp t0 t1 : matched_tokens t0 t1 = Some (Z.of_nat (lcp t0 t1)).
Proof.
  unfold matched_tokens. cbv zeta. pose proof (len_nonneg t0). pose proof (len_nonneg t1).
  pose proof (log2_fuel (Z.min (len t0) (len t1)) ltac:(lia)).
  apply match_gallop_correct; lia.
Qed.

(** ** Keys as sequences of units *)

(** A cap is a length. *)
Definition key_wf (k : RadixKey) : Prop :=
  match key_limit k with Some l => 0 <= l | None => True end.

#[global] Instance key_wf_dec k : Decision (key_wf k).
Proof. unfold key_wf. destruct (key_limit k); apply _. Defined.

Lemma raw_len_bounds k : key_wf k -> 0 <= raw_len k <= len (key_token_ids k).
Proof.
  unfold key_wf, raw_len. pose proof (len_nonneg (key_token_ids k)).
  destruct (key_limit k); [case_if|]; breflect; lia.
Qed.

Lemma raw_token_ids_take k :
  key_wf k -> raw_token_ids k = take (Z.to_nat (raw_len k)) (key_token_ids k).
Proof.
  intros Hk. pose proof (raw_len_bounds k Hk). unfold raw_token_ids. case_if; breflect.
  - rewrite take_ge; [done|]. unfold len in *. lia.
  - unfold slice_to, pyidx. rewrite (proj2 (Z.ltb_ge _ _)) by lia. f_equal. lia.
Qed.

Lemma length_units_of b ts :
  length (units_of b ts) = if b then Nat.pred (length ts) else length ts.
Proof.
  destruct b; cbn; [|by rewrite length_fmap].
  rewrite length_zip_with, length_drop. lia.
Qed.

Lemma key_len_units k : key_wf k -> key_len k = len (units k).
Proof.
  intros Hk. pose proof (raw_len_bounds k Hk) as Hr.
  unfold key_len, units, len in *. rewrite length_units_of, length_take.
  destruct (key_is_bigram k); [case_if|]; breflect; lia.
Qed.

Lemma units_of_take b ts m :
  units_of b (take (if b then S m else m) ts) = take m (units_of b ts).
Proof.
  destruct b; cbn; [|by rewrite fmap_take].
  revert ts. induction m as [|m IH]; intros [|x [|y ts]]; try done.
  cbn [take drop zip_with]. f_equal. apply (IH (y :: ts)).
Qed.

Lemma units_of_drop b ts m : units_of b (drop m ts) = drop m (units_of b ts).
Proof.
  destruct b; cbn; [|by rewrite fmap_drop].
  revert ts. induction m as [|m IH]; intros [|x [|y ts]]; try done.
  - cbn. by rewrite !drop_nil.
  - apply (IH (y :: ts)).
Qed.

Lemma units_plain ts ek b : units (mkKey ts ek b None) = units_of b ts.
Proof. unfold units, raw_len, len. cbn [key_token_ids key_is_bigram key_limit]. by rewrite Nat2Z.id, firstn_all. Qed.

(** Slicing a key slices its units. *)
Lemma units_key_slice k a b :
  key_wf k -> 0 <= a <= b -> b <= key_len k ->
  units (key_slice k a b) = take (Z.to_nat (b - a)) (drop (Z.to_nat a) (units k)).
Proof.
  intros Hk Hab Hb. pose proof (raw_len_bounds k Hk) as Hr.
  assert (Hi : forall i, 0 <= i <= key_len k -> pyidx (key_len k) i = i).
  { intros i Hi. unfold pyidx. case_if; breflect; lia. }
  unfold key_slice. rewrite !Hi by lia. unfold units at 2. unfold key_len in Hb.
  destruct (key_is_bigram k) eqn:Eb; rewrite units_plain.
  - case_if; breflect; [|rewrite (Z.le_antisymm a b) by lia; rewrite Z.sub_diag; done].
    rewrite pyslice_in_range by (case_if; breflect; lia).
    replace (Z.to_nat (b + 1 - a)) with (S (Z.to_nat (b - a))) by lia.
    rewrite (units_of_take true), units_of_drop.
    replace (Z.to_nat (raw_len k)) with (S (Nat.pred (Z.to_nat (raw_len k)))) by (case_if; breflect; lia).
    rewrite (units_of_take true), skipn_firstn_comm, take_take. f_equal. case_if; breflect; lia.
  - rewrite pyslice_in_range by lia.
    rewrite (units_of_take false), units_of_drop, (units_of_take false), skipn_firstn_comm, take_take.
    f_equal. lia.
Qed.

Lemma key_wf_slice k a b : key_wf (key_slice k a b).
Proof. unfold key_slice, key_wf. by destruct (key_is_bigram k). Qed.

Lemma key_extra_slice k a b : key_extra_key (key_slice k a b) = key_extra_key k.
Proof. unfold key_slice. by destruct (key_is_bigram k). Qed.

Lemma key_bigram_slice k a b : key_is_bigram (key_slice k a b) = key_is_bigram k.
Proof. unfold key_slice. by destruct (key_is_bigram k). Qed.

Lemma key_len_slice k a b :
  key_wf k -> 0 <= a <= b -> b <= key_len k -> key_len (key_slice k a b) = b - a.
Proof.
  intros Hk Hab Hb. rewrite key_len_units by apply key_wf_slice.
  rewrite key_len_units in Hb by done. rewrite units_key_slice by (rewrite ?key_len_units; done).
  unfold len in *. rewrite length_take, length_drop. lia.
Qed.

(** The child key is the first page of units. *)
Lemma child_key_units ps k :
  key_wf k -> 0 <= ps <= key_len k ->
  child_key ps k = (key_extra_key k, take (Z.to_nat ps) (units k)).
Proof.
  intros Hk Hps. unfold child_key, units. f_equal. pose proof (raw_len_bounds k Hk).
  unfold key_len in Hps. destruct (key_is_bigram k) eqn:Eb.
  - destruct (decide (raw_len k <= 0)).
    + case_if; breflect; [lia|]. by replace (Z.to_nat ps) with 0%nat by lia.
    + replace (Z.to_nat (raw_len k)) with (S (Nat.pred (Z.to_nat (raw_len k)))) by lia.
      rewrite (units_of_take true), take_take. f_equal. case_if; breflect; lia.
  - rewrite (units_of_take false), take_take. f_equal. lia.
Qed.

(** [match] is the longest common prefix of the units, rounded down to
    whole pages. *)
Lemma key_match_lcp k k' ps :
  key_wf k -> key_wf k' -> key_extra_key k = key_extra_key k' ->
  key_is_bigram k = key_is_bigram k' -> 1 <= ps ->
  key_match k k' ps = Ret (Z.of_nat (lcp (units k) (units k')) / ps * ps).
Proof.
  intros Hk Hk' He Hb Hps.
  pose proof (raw_len_bounds k Hk) as Hr. pose proof (raw_len_bounds k' Hk') as Hr'.
  unfold key_match, check_compatible. rewrite bool_decide_true by done.
  rewrite matched_tokens_lcp. unfold units. rewrite <- Hb, lcp_units_of.
  set (m := lcp (key_token_ids k) (key_token_ids k')).
  assert (Hl : lcp (take (Z.to_nat (raw_len k)) (key_token_ids k))
                 (take (Z.to_nat (raw_len k')) (key_token_ids k'))
               = Nat.min (Z.to_nat (raw_len k)) (Nat.min (Z.to_nat (raw_len k')) m)).
  { rewrite lcp_take, lcp_comm, lcp_take, lcp_comm. done. }
  rewrite Hl. unfold key_len. rewrite <- Hb.
  destruct (key_is_bigram k); f_equal.
  - match goal with |- (if _ then ?a / _ * _ else _) = ?b / _ * _ =>
      replace b with a by (repeat case_if; breflect; lia) end.
    case_if; breflect; [done|]. replace ps with 1 by lia. by rewrite Z.div_1_r, Z.mul_1_r.
  - match goal with |- (if _ then ?a else _) = ?b / _ * _ => replace b with a by lia end.
    case_if; breflect; [|done]. subst ps. by rewrite Z.div_1_r, Z.mul_1_r.
Qed.

Lemma floor_le n ps : 0 <= n -> 1 <= ps -> 0 <= n / ps * ps <= n.
Proof.
  intros Hn Hps. pose proof (Z.mul_div_le n ps ltac:(lia)).
  pose proof (Z.div_pos n ps Hn ltac:(lia)). nia.
Qed.

Lemma units_page_aligned ps k :
  key_wf k -> 1 <= ps ->
  units (page_aligned ps k) = take (Z.to_nat (key_len k / ps * ps)) (units k).
Proof.
  intros Hk Hps. pose proof (key_len_units k Hk) as Hl. pose proof (len_nonneg (units k)).
  unfold page_aligned. case_if; breflect.
  - subst ps. rewrite Z.div_1_r, Z.mul_1_r, Hl. unfold len. by rewrite Nat2Z.id, firstn_all.
  - pose proof (floor_le (key_len k) ps). rewrite units_key_slice by (done || lia).
    by rewrite Z.sub_0_r.
Qed.

Lemma page_aligned_facts ps k :
  key_wf k -> 1 <= ps ->
  key_wf (page_aligned ps k) /\
  key_extra_key (page_aligned ps k) = key_extra_key k /\
  key_is_bigram (page_aligned ps k) = key_is_bigram k /\
  key_len (page_aligned ps k) = key_len k / ps * ps.
Proof.
  intros Hk Hps. unfold page_aligned. case_if; breflect.
  - subst. by rewrite Z.div_1_r, Z.mul_1_r.
  - pose proof (key_len_units k Hk). pose proof (len_nonneg (units k)).
    pose proof (floor_le (key_len k) ps).
    rewrite key_len_slice, key_extra_slice, key_bigram_slice by (done || lia).
    repeat split; [apply key_wf_slice|lia].
Qed.

(** Capping a key is truncating its tokens. *)
Lemma units_limit ts ek b l :
  0 <= l -> units (mkKey ts ek b (Some l)) = units (mkKey (slice_to ts l) ek b None).
Proof.
  intros Hl. rewrite units_plain. unfold units, raw_len, slice_to, pyidx.
  cbn [key_limit key_token_ids key_is_bigram]. rewrite (proj2 (Z.ltb_ge l 0)) by lia.
  f_equal. f_equal. case_if; breflect; lia.
Qed.

(** C31. The galloping search of [RadixKey.match] terminates: on token
    lists whose shorter one has [n] elements, [log2 n + 2] doubling windows
    followed by [log2 n + 2] halvings always suffice (more fuel never
    changes the result), and what it returns is the length of the longest
    common prefix. *)
Theorem match_terminates (t0 t1 : list Z) (f g : nat)
    (Hf : (match_fuel (Z.min (len t0) (len t1)) <= f)%nat)
    (Hg : (match_fuel (Z.min (len t0) (len t1)) <= g)%nat) :
  match_gallop f g t0 t1 (Z.min (len t0) (len t1)) 0 1 = Some (Z.of_nat (lcp t0 t1)).
Proof.
  pose proof (len_nonneg t0). pose proof (len_nonneg t1).
  pose proof (log2_fuel (Z.min (len t0) (len t1)) ltac:(lia)) as Hn.
  unfold match_fuel in *. destruct f as [|f], g as [|g]; try lia.
  apply match_gallop_correct; [lia|lia| |];
    (etrans; [exact Hn|]); rewrite ?Z.mul_1_l, ?Z.add_0_l.
  - apply Z.sub_le_mono_r, Z.pow_le_mono_r; lia.
  - etrans; [|apply (Z.pow_le_mono_r 2 (Z.of_nat (S (Z.to_nat (Z.log2 (Z.min (len t0) (len t1))))))); lia]. lia.
Qed.

Lemma match_terminates_witness :
  match_gallop 5 5 [1;2;3;4;5;6;9;8] [1;2;3;4;5;6;7] 7 0 1 = Some 6.
Proof.
  apply (match_terminates [1;2;3;4;5;6;9;8] [1;2;3;4;5;6;7] 5 5); vm_compute; lia.
Defined.

(** C32. [RadixKey.match] on page-aligned logical units: for keys of the
    same namespace and view it returns the length of the longest common
    prefix of the two unit sequences (tokens, or bigrams, within each key's
    [limit]) rounded down to whole pages; keys of different namespaces are
    refused with [ValueError]. *)
Theorem key_match_correct (k k' : RadixKey) (page_size : Z)
    (Hk : key_wf k) (Hk' : key_wf k') (Hb : key_is_bigram k = key_is_bigram k')
    (Hps : 1 <= page_size) :
  key_match k k' page_size =
    if decide (key_extra_key k = key_extra_key k')
    then Ret (Z.of_nat (lcp (units k) (units k')) / page_size * page_size)
    else Raise ValueError.
Proof.
  case_decide; [by apply key_match_lcp|].
  unfold key_match, check_compatible. by rewrite bool_decide_false.
Qed.

Lemma key_match_correct_witness :
  key_match (mkKey [5;6;7;8;9] (Some [120]) true None) (mkKey [5;6;7;8;1;1] (Some [120]) true (Some 5)) 2 = Ret 2 /\
  key_match (mkKey [5;6] None false None) (mkKey [5;6] (Some [120]) false None) 1 = Raise ValueError.
Proof.
  split.
  - rewrite (key_match_correct _ _ 2); vm_compute; (reflexivity || lia || discriminate || exact I).
  - rewrite (key_match_correct _ _ 1); vm_compute; (reflexivity || lia || discriminate || exact I).
Defined.
