(* ===== verification/RadixTree.v ===== *)
(** * The radix cache (srt/mem_cache/radix_cache.py, evict_policy.py)

    [TreeNode] objects are shared and mutated in place (requests keep a
    reference to their last node while the tree is split around it), so the
    nodes live in a store and refer to each other by identity, the position
    in [nodes]; a deleted node stays in the store, unreachable.  The KV
    allocator is any implementation of the allocator interface and
    [time.monotonic] a parameter read in order.  Host copies (HiCache), KV
    events and metrics are left out: without events a node's [hash_value]
    is only ever split. *)

From stdpp Require Import gmap.
From S2P Require Import Prelude PyDict Allocator RadixKey.

Record TreeNode := mkNode {
  tn_children : list (ChildKey * nat);
  tn_parent : option nat;
  tn_key : RadixKey;
  tn_value : option (list Z);
  tn_lock_ref : Z;
  tn_last_access_time : Z;
  tn_creation_time : Z;
  tn_hit_count : Z;
  tn_hash_value : option (list (list Z));
  tn_priority : Z;
}.

Definition set_tn_children v n := mkNode v (tn_parent n) (tn_key n) (tn_value n) (tn_lock_ref n)
  (tn_last_access_time n) (tn_creation_time n) (tn_hit_count n) (tn_hash_value n) (tn_priority n).
Definition set_tn_parent v n := mkNode (tn_children n) v (tn_key n) (tn_value n) (tn_lock_ref n)
  (tn_last_access_time n) (tn_creation_time n) (tn_hit_count n) (tn_hash_value n) (tn_priority n).
Definition set_tn_key v n := mkNode (tn_children n) (tn_parent n) v (tn_value n) (tn_lock_ref n)
  (tn_last_access_time n) (tn_creation_time n) (tn_hit_count n) (tn_hash_value n) (tn_priority n).
Definition set_tn_value v n := mkNode (tn_children n) (tn_parent n) (tn_key n) v (tn_lock_ref n)
  (tn_last_access_time n) (tn_creation_time n) (tn_hit_count n) (tn_hash_value n) (tn_priority n).
Definition set_tn_lock_ref v n := mkNode (tn_children n) (tn_parent n) (tn_key n) (tn_value n) v
  (tn_last_access_time n) (tn_creation_time n) (tn_hit_count n) (tn_hash_value n) (tn_priority n).
Definition set_tn_last_access_time v n := mkNode (tn_children n) (tn_parent n) (tn_key n)
  (tn_value n) (tn_lock_ref n) v (tn_creation_time n) (tn_hit_count n) (tn_hash_value n)
  (tn_priority n).
Definition set_tn_hit_count v n := mkNode (tn_children n) (tn_parent n) (tn_key n) (tn_value n)
  (tn_lock_ref n) (tn_last_access_time n) (tn_creation_time n) v (tn_hash_value n) (tn_priority n).
Definition set_tn_hash_value v n := mkNode (tn_children n) (tn_parent n) (tn_key n) (tn_value n)
  (tn_lock_ref n) (tn_last_access_time n) (tn_creation_time n) (tn_hit_count n) v (tn_priority n).
Definition set_tn_priority v n := mkNode (tn_children n) (tn_parent n) (tn_key n) (tn_value n)
  (tn_lock_ref n) (tn_last_access_time n) (tn_creation_time n) (tn_hit_count n) (tn_hash_value n) v.

Definition empty_key : RadixKey := mkKey [] None false None.

(** [TreeNode(priority=p)] built at time [now]. *)
Definition TreeNode_init (now p : Z) : TreeNode :=
  mkNode [] None empty_key None 0 now now 0 None p.

Definition evicted (n : TreeNode) : bool := bool_decide (tn_value n = None).

(** ** Eviction strategies (evict_policy.py)

    A priority is a number or a tuple of numbers: the list of its
    components, compared lexicographically. *)

Inductive EvictionStrategy :=
  | LRUStrategy | LFUStrategy | FIFOStrategy | MRUStrategy | FILOStrategy
  | PriorityStrategy | SLRUStrategy (protected_threshold : Z).

Definition get_priority (st : EvictionStrategy) (n : TreeNode) : list Z :=
  match st with
  | LRUStrategy => [tn_last_access_time n]
  | LFUStrategy => [tn_hit_count n; tn_last_access_time n]
  | FIFOStrategy => [tn_creation_time n]
  | MRUStrategy => [- tn_last_access_time n]
  | FILOStrategy => [- tn_creation_time n]
  | PriorityStrategy => [tn_priority n; tn_last_access_time n]
  | SLRUStrategy th =>
      [if th <=? tn_hit_count n then 1 else 0; tn_last_access_time n]
  end.

(** ASCII [str.lower] and the factory table of mem_cache/utils.py. *)
Definition lower (w : list Z) : list Z :=
  (fun c => if (65 <=? c) && (c <=? 90) then c + 32 else c) <$> w.

Definition EVICTION_POLICY_FACTORIES : list (list Z * EvictionStrategy) :=
  [([108;114;117], LRUStrategy); ([108;102;117], LFUStrategy); ([102;105;102;111], FIFOStrategy);
   ([109;114;117], MRUStrategy); ([102;105;108;111], FILOStrategy);
   ([112;114;105;111;114;105;116;121], PriorityStrategy); ([115;108;114;117], SLRUStrategy 2)].

Definition get_eviction_strategy (eviction_policy : list Z) : outcome EvictionStrategy :=
  match dict_get (lower eviction_policy) EVICTION_POLICY_FACTORIES with
  | Some st => Ret st
  | None => Raise ValueError
  end.

(** Lexicographic [<] on priorities. *)
Fixpoint lex_lt (a b : list Z) : bool :=
  match a, b with
  | _, [] => false
  | [], _ :: _ => true
  | x :: a', y :: b' => (x <? y) || ((x =? y) && lex_lt a' b')
  end.

Record RadixConfig := mkRadixConfig {
  rx_disable : bool;
  page_size : Z;
  is_eagle : bool;
  disable_finished_insert : bool;
  eviction_strategy : EvictionStrategy;
}.

Section radix.
Context {KV : Type} `{AllocatorOps KV}.

Record Radix := mkRadix {
  (** token_to_kv_pool_allocator *)
  rx_kv : KV;
  (** TreeNode objects, by identity *)
  nodes : list TreeNode;
  root_node : nat;
  evictable_size_ : Z;
  protected_size_ : Z;
  evictable_leaves : gset nat;
  (** readings of time.monotonic so far *)
  rx_clock_reads : nat;
}.

Implicit Types s : Radix.

Definition set_rx_kv v s := mkRadix v (nodes s) (root_node s) (evictable_size_ s)
  (protected_size_ s) (evictable_leaves s) (rx_clock_reads s).
Definition set_nodes v s := mkRadix (rx_kv s) v (root_node s) (evictable_size_ s)
  (protected_size_ s) (evictable_leaves s) (rx_clock_reads s).
Definition set_root_node v s := mkRadix (rx_kv s) (nodes s) v (evictable_size_ s)
  (protected_size_ s) (evictable_leaves s) (rx_clock_reads s).
Definition set_evictable_size v s := mkRadix (rx_kv s) (nodes s) (root_node s) v
  (protected_size_ s) (evictable_leaves s) (rx_clock_reads s).
Definition set_protected_size v s := mkRadix (rx_kv s) (nodes s) (root_node s)
  (evictable_size_ s) v (evictable_leaves s) (rx_clock_reads s).
Definition set_evictable_leaves v s := mkRadix (rx_kv s) (nodes s) (root_node s)
  (evictable_size_ s) (protected_size_ s) v (rx_clock_reads s).
Definition set_rx_clock_reads v s := mkRadix (rx_kv s) (nodes s) (root_node s)
  (evictable_size_ s) (protected_size_ s) (evictable_leaves s) v.

(** The object with identity [i]; references never dangle, the store only
    grows. *)
Definition node_at s (i : nat) : TreeNode := default (TreeNode_init 0 0) (nodes s !! i).
Definition upd (i : nat) (f : TreeNode -> TreeNode) s : Radix :=
  set_nodes (alter f i (nodes s)) s.
Definition new_node (n : TreeNode) s : nat * Radix :=
  (length (nodes s), set_nodes (nodes s ++ [n]) s).

(** The indices of a node whose value is present. *)
Definition val s (i : nat) : list Z := default [] (tn_value (node_at s i)).

Section ops.
Variable cfg : RadixConfig.
Variable monotonic : nat -> Z.

Definition rx_time : M Radix Z :=
  lift (fun s => (monotonic (rx_clock_reads s), set_rx_clock_reads (S (rx_clock_reads s)) s)).

Definition new_tree_node (p : Z) : M Radix nat :=
  now ← rx_time;
  now' ← rx_time;
  lift (new_node (mkNode [] None empty_key None 0 now now' 0 None p)).

(** [sys.maxsize] on a 64-bit build. *)
Definition maxsize : Z := 2 ^ 63 - 1.

Definition rx_reset : M Radix unit :=
  r ← new_tree_node (- maxsize);
  modify (set_root_node r);;
  modify (upd r (fun n => set_tn_hash_value (Some []) (set_tn_lock_ref 1
                            (set_tn_value (Some []) (set_tn_key empty_key n)))));;
  modify (set_evictable_size 0);;
  modify (set_protected_size 0);;
  modify (set_evictable_leaves ∅).

(** [_update_leaf_status]. *)
Definition update_leaf_status (i : nat) s : Radix :=
  let n := node_at s i in
  if evicted n || (0 <? tn_lock_ref n) then
    set_evictable_leaves (evictable_leaves s ∖ {[i]}) s
  else if existsb (fun c => negb (evicted (node_at s c))) (tn_children n).*2 then
    set_evictable_leaves (evictable_leaves s ∖ {[i]}) s
  else set_evictable_leaves ({[i]} ∪ evictable_leaves s) s.

Definition split_node_hash_value (hv : option (list (list Z))) (split_len : Z)
    : option (list (list Z)) * option (list (list Z)) :=
  match hv with
  | None => (None, None)
  | Some h =>
      let split_pages := if page_size cfg =? 1 then split_len else split_len / page_size cfg in
      (Some (slice_to h split_pages), Some (slice_from h split_pages))
  end.

(** [_split_node(key, child, split_len)]: [new_node -> child]. *)
Definition split_node (key : RadixKey) (child : nat) (split_len : Z) : M Radix nat :=
  s ← get;
  let c := node_at s child in
  nn ← new_tree_node (tn_priority c);
  modify (upd nn (set_tn_hit_count (tn_hit_count c)));;
  modify (upd nn (set_tn_children
    [(child_key (page_size cfg) (key_slice key split_len (key_len key)), child)]));;
  modify (upd nn (set_tn_parent (tn_parent c)));;
  modify (upd nn (set_tn_lock_ref (tn_lock_ref c)));;
  modify (upd nn (set_tn_key (key_slice (tn_key c) 0 split_len)));;
  v ← of_option TypeError (tn_value c);
  modify (upd nn (set_tn_value (Some (slice_to v split_len))));;
  modify (upd child (set_tn_parent (Some nn)));;
  modify (upd child (set_tn_key (key_slice (tn_key c) split_len (key_len (tn_key c)))));;
  modify (upd child (set_tn_value (Some (slice_from v split_len))));;
  p ← of_option TypeError (tn_parent c);
  modify (upd p (fun n => set_tn_children
    (dict_set (child_key (page_size cfg) key) nn (tn_children n)) n));;
  let '(hn, hc) := split_node_hash_value (tn_hash_value c) split_len in
  modify (upd nn (set_tn_hash_value hn));;
  modify (upd child (set_tn_hash_value hc));;
  mret nn.

(** The loop of [_match_prefix_helper]; every iteration consumes at least
    one unit of the key, so the key's length is fuel enough. *)
Fixpoint match_loop (fuel : nat) (access_time : Z) (value : list (list Z)) (node : nat)
    (key : RadixKey) (ck : ChildKey) : M Radix (list (list Z) * nat) :=
  match fuel with
  | O => raise OutOfFuel
  | S f =>
      s ← get;
      match (if 0 <? key_len key then dict_get ck (tn_children (node_at s node)) else None) with
      | None => mret (value, node)
      | Some child =>
          modify (upd child (set_tn_last_access_time access_time));;
          let ckey := tn_key (node_at s child) in
          prefix_len ← of_outcome (key_match ckey key (page_size cfg));
          if prefix_len <? key_len ckey then
            nn ← split_node ckey child prefix_len;
            s ← get;
            mret (value ++ [val s nn], nn)
          else
            let key' := key_slice key prefix_len (key_len key) in
            match_loop f access_time (value ++ [val s child]) child key'
              (if 0 <? key_len key' then child_key (page_size cfg) key' else ck)
      end
  end.

Definition match_prefix_helper (node : nat) (key : RadixKey) : M Radix (list (list Z) * nat) :=
  access_time ← rx_time;
  modify (upd node (set_tn_last_access_time access_time));;
  match_loop (S (Z.to_nat (key_len key))) access_time [] node key (child_key (page_size cfg) key).

Record RadixMatch := mkRadixMatch {
  rm_device_indices : list Z;
  rm_last_device_node : nat;
}.

Definition rx_match_prefix (key : RadixKey) : M Radix RadixMatch :=
  let key := (maybe_to_bigram_view (is_eagle cfg) None key).1 in
  s ← get;
  let empty := mkRadixMatch [] (root_node s) in
  if rx_disable cfg || (key_len key =? 0) then mret empty
  else
    let key := page_aligned (page_size cfg) key in
    if key_len key =? 0 then mret empty
    else
      r ← match_prefix_helper (root_node s) key;
      mret (mkRadixMatch (concat r.1) r.2).

Definition inc_hit_count (i : nat) (chunked : bool) s : Radix :=
  if chunked then s else upd i (fun n => set_tn_hit_count (tn_hit_count n + 1) n) s.

Definition raise_priority (p : Z) (n : TreeNode) : TreeNode :=
  set_tn_priority (Z.max (tn_priority n) p) n.

(** The loop of [_insert_helper]: the node reached, the rest of the key and
    of the value, the next child key and the matched length. *)
Fixpoint insert_loop (fuel : nat) (access_time prio : Z) (chunked : bool) (node : nat)
    (key : RadixKey) (value : list Z) (ck : ChildKey) (total_prefix_length : Z)
    : M Radix (nat * RadixKey * list Z * ChildKey * Z) :=
  match fuel with
  | O => raise OutOfFuel
  | S f =>
      s ← get;
      match (if 0 <? key_len key then dict_get ck (tn_children (node_at s node)) else None) with
      | None => mret (node, key, value, ck, total_prefix_length)
      | Some node =>
          modify (upd node (set_tn_last_access_time access_time));;
          let nkey := tn_key (node_at s node) in
          prefix_len ← of_outcome (key_match nkey key (page_size cfg));
          let key := key_slice key prefix_len (key_len key) in
          let value := slice_from value prefix_len in
          node ← (if prefix_len <? key_len nkey then
                    nn ← split_node nkey node prefix_len;
                    modify (upd nn (raise_priority prio));;
                    modify (inc_hit_count nn chunked);;
                    mret nn
                  else
                    modify (upd node (raise_priority prio));;
                    modify (inc_hit_count node chunked);;
                    mret node);
          insert_loop f access_time prio chunked node key value
            (if 0 <? key_len key then child_key (page_size cfg) key else ck)
            (total_prefix_length + prefix_len)
      end
  end.

(** The new leaf for the unmatched rest. *)
Definition insert_leaf (node : nat) (key : RadixKey) (value : list Z) (ck : ChildKey)
    (prio : Z) (chunked : bool) : M Radix unit :=
  nn ← new_tree_node prio;
  modify (upd nn (set_tn_parent (Some node)));;
  modify (upd nn (set_tn_key key));;
  modify (upd nn (set_tn_value (Some value)));;
  modify (inc_hit_count nn chunked);;
  modify (upd node (fun n => set_tn_children (dict_set ck nn (tn_children n)) n));;
  modify (fun s => set_evictable_size (evictable_size_ s + key_len key) s);;
  modify (update_leaf_status node);;
  modify (update_leaf_status nn).

Definition insert_helper (node : nat) (key : RadixKey) (value : list Z) (prio : option Z)
    (chunked : bool) : M Radix Z :=
  let prio := default 0 prio in
  access_time ← rx_time;
  modify (upd node (set_tn_last_access_time access_time));;
  modify (upd node (raise_priority prio));;
  if key_len key =? 0 then mret 0
  else
    r ← insert_loop (S (Z.to_nat (key_len key))) access_time prio chunked node key value
          (child_key (page_size cfg) key) 0;
    let '(node, key, value, ck, total_prefix_length) := r in
    (if 0 <? key_len key then insert_leaf node key value ck prio chunked else mret tt);;
    mret total_prefix_length.

(** [insert]: without a value the token ids stand in for the indices. *)
Definition rx_insert (key : RadixKey) (value : option (list Z)) (prio : option Z)
    (chunked : bool) : M Radix Z :=
  if rx_disable cfg then mret 0
  else
    let '(key, value) := maybe_to_bigram_view (is_eagle cfg) value key in
    let key := page_aligned (page_size cfg) key in
    let value := match value with
                 | Some v => slice_to v (key_len key)
                 | None => slice_to (key_token_ids key) (key_len key)
                 end in
    s ← get;
    insert_helper (root_node s) key value prio chunked.

(** The walk to the root of [inc_lock_ref]; a node is visited once, so the
    size of the store is fuel enough. *)
Fixpoint inc_lock_loop (fuel : nat) (node : nat) (delta : Z) : M Radix Z :=
  match fuel with
  | O => raise OutOfFuel
  | S f =>
      s ← get;
      if bool_decide (node = root_node s) then mret delta
      else
        let n := node_at s node in
        let l := key_len (tn_key n) in
        delta ← (if tn_lock_ref n =? 0 then
                   modify (fun s => set_evictable_size (evictable_size_ s - l) s);;
                   modify (fun s => set_protected_size (protected_size_ s + l) s);;
                   mret (delta - l)
                 else mret delta);
        modify (upd node (fun n => set_tn_lock_ref (tn_lock_ref n + 1) n));;
        modify (update_leaf_status node);;
        p ← of_option TypeError (tn_parent n);
        inc_lock_loop f p delta
  end.

Definition rx_inc_lock_ref (node : nat) : M Radix Z :=
  if rx_disable cfg then mret 0
  else s ← get; inc_lock_loop (S (length (nodes s))) node 0.

Fixpoint dec_lock_loop (fuel : nat) (node : nat) (delta : Z) : M Radix Z :=
  match fuel with
  | O => raise OutOfFuel
  | S f =>
      s ← get;
      if bool_decide (node = root_node s) then mret delta
      else
        let n := node_at s node in
        let l := key_len (tn_key n) in
        delta ← (if tn_lock_ref n =? 1 then
                   modify (fun s => set_evictable_size (evictable_size_ s + l) s);;
                   modify (fun s => set_protected_size (protected_size_ s - l) s);;
                   mret (delta + l)
                 else mret delta);
        modify (upd node (fun n => set_tn_lock_ref (tn_lock_ref n - 1) n));;
        modify (update_leaf_status node);;
        p ← of_option AssertionError (tn_parent n);
        dec_lock_loop f p delta
  end.

Definition rx_dec_lock_ref (node : nat) : M Radix Z :=
  if rx_disable cfg then mret 0
  else s ← get; dec_lock_loop (S (length (nodes s))) node 0.

(** [_delete_leaf]. *)
Definition delete_leaf (node : nat) : M Radix unit :=
  s ← get;
  let n := node_at s node in
  let key := child_key (page_size cfg) (tn_key n) in
  p ← of_option TypeError (tn_parent n);
  let v := dict_get key (tn_children (node_at s p)) in
  modify (upd p (fun m => set_tn_children (dict_pop key (tn_children m)) m));;
  assert_ (bool_decide (v = Some node));;
  modify (fun s => set_evictable_size (evictable_size_ s - key_len (tn_key n)) s);;
  modify (fun s => set_evictable_leaves (evictable_leaves s ∖ {[node]}) s);;
  modify (update_leaf_status p).

(** The eviction heap: a multiset of (priority, node); [heappop] takes a
    least element, ties on the priority going to [TreeNode.__lt__]. *)
Definition heap_lt s (a b : list Z * nat) : bool :=
  lex_lt a.1 b.1 ||
  (bool_decide (a.1 = b.1) &&
   (tn_last_access_time (node_at s a.2) <? tn_last_access_time (node_at s b.2))).

Fixpoint heap_pop s (x : list Z * nat) (h : list (list Z * nat))
    : (list Z * nat) * list (list Z * nat) :=
  match h with
  | [] => (x, [])
  | y :: h' =>
      let '(m, rest) := heap_pop s (if heap_lt s y x then y else x) h' in
      (m, (if heap_lt s y x then x else y) :: rest)
  end.

(** The eviction loop; each pass deletes a node, so the size of the store
    is fuel enough. *)
Fixpoint evict_loop (fuel : nat) (num_tokens num_evicted : Z) (h : list (list Z * nat))
    : M Radix Z :=
  match fuel with
  | O => raise OutOfFuel
  | S f =>
      match h with
      | [] => mret num_evicted
      | e :: h' =>
          if negb (num_evicted <? num_tokens) then mret num_evicted
          else
            s ← get;
            let '((_, x), rest) := heap_pop s e h' in
            let n := node_at s x in
            v ← of_option TypeError (tn_value n);
            modify (fun s => set_rx_kv (free v (rx_kv s)) s);;
            delete_leaf x;;
            p ← of_option TypeError (tn_parent n);
            s ← get;
            let m := node_at s p in
            let rest := if bool_decide (tn_children m = []) && (tn_lock_ref m =? 0)
                        then (get_priority (eviction_strategy cfg) m, p) :: rest
                        else rest in
            evict_loop f num_tokens (num_evicted + len v) rest
      end
  end.

Definition rx_evict (num_tokens : Z) : M Radix Z :=
  if rx_disable cfg then mret 0
  else
    s ← get;
    evict_loop (S (length (nodes s))) num_tokens 0
      ((fun i => (get_priority (eviction_strategy cfg) (node_at s i), i))
         <$> elements (evictable_leaves s)).

(** [_total_size_helper]: the stack of nodes still to visit. *)
Fixpoint total_size_loop (fuel : nat) s (stack : list nat) (total : Z) : outcome Z :=
  match fuel, stack with
  | _, [] => Ret total
  | O, _ => Raise OutOfFuel
  | S f, i :: stack =>
      let n := node_at s i in
      total_size_loop f s
        (rev (filter (fun c => negb (evicted (node_at s c))) (tn_children n).*2) ++ stack)
        (total + len (val s i))
  end.

Definition total_size s : outcome Z :=
  total_size_loop (S (length (nodes s))) s [root_node s] 0.

End ops.
End radix.

Arguments Radix KV : clear implicits.
