(* ===== verification/RadixShape.v ===== *)
(** * Structure of the radix tree

    The representation invariant of the radix cache: the live nodes form a
    tree under [parent]/[children], every node is filed in its parent under
    the first page of its key, lock counts add up, the size counters and
    the evictable leaves are exact.  [Desc] is the path semantics of the
    tree; it is deterministic and its prefixes are the cache's content. *)

From stdpp Require Import gmap.
From S2P Require Import Prelude PyDict Allocator RadixKey RadixTree.

Section shape.
Context {KV : Type} `{AllocatorOps KV}.
Variable cfg : RadixConfig.
Implicit Types s : Radix KV.

#[local] Abbreviation ps := (page_size cfg).

(** ** Node accessors *)

Definition chl s i := tn_children (node_at s i).
Definition par s i := tn_parent (node_at s i).
Definition nkey s i := tn_key (node_at s i).
Definition lck s i := tn_lock_ref (node_at s i).
Definition nunits s i := units (nkey s i).

(** States that agree on everything but access times, priorities, hit
    counts, hashes and the clock. *)
Record cosmetic s s' : Prop := mkCosmetic {
  cs_kv : rx_kv s' = rx_kv s;
  cs_len : length (nodes s') = length (nodes s);
  cs_root : root_node s' = root_node s;
  cs_ev : evictable_size_ s' = evictable_size_ s;
  cs_pr : protected_size_ s' = protected_size_ s;
  cs_lv : evictable_leaves s' = evictable_leaves s;
  cs_chl i : chl s' i = chl s i;
  cs_par i : par s' i = par s i;
  cs_key i : nkey s' i = nkey s i;
  cs_val i : tn_value (node_at s' i) = tn_value (node_at s i);
  cs_lck i : lck s' i = lck s i;
}.

#[global] Instance cosmetic_preorder : PreOrder cosmetic.
Proof.
  split; [by constructor|]. intros s1 s2 s3 [] []. constructor; intros; etrans; eauto.
Qed.

Lemma node_at_upd s i f j :
  (i < length (nodes s))%nat ->
  node_at (upd i f s) j = if decide (i = j) then f (node_at s j) else node_at s j.
Proof.
  intros Hi. unfold node_at, upd. cbn. rewrite list_lookup_alter.
  case_decide; [|done]. subst j. destruct (lookup_lt_is_Some_2 _ _ Hi) as [n ->]. done.
Qed.

(** [upd] outside the store does nothing. *)
Lemma upd_ge s i f : (length (nodes s) <= i)%nat -> upd i f s = s.
Proof.
  intros Hi. unfold upd.
  destruct s; unfold set_nodes; cbn in *. f_equal.
  apply list_eq. intros j. rewrite list_lookup_alter. case_decide; [|done]. subst j.
  by rewrite (lookup_ge_None_2 _ _ Hi).
Qed.

Definition cosmetic_update (f : TreeNode -> TreeNode) : Prop :=
  forall n, tn_children (f n) = tn_children n /\ tn_parent (f n) = tn_parent n /\
    tn_key (f n) = tn_key n /\ tn_value (f n) = tn_value n /\ tn_lock_ref (f n) = tn_lock_ref n.

Lemma cosmetic_upd s i f : cosmetic_update f -> cosmetic s (upd i f s).
Proof.
  intros Hf. destruct (decide (i < length (nodes s))%nat) as [Hi|Hi].
  - assert (Hn : forall j, node_at (upd i f s) j = if decide (i = j) then f (node_at s j) else node_at s j)
      by (intros; by apply node_at_upd).
    constructor; try done; [cbn; apply length_alter|..]; intros j;
      unfold chl, par, nkey, lck; rewrite Hn; case_decide; try done; apply Hf.
  - rewrite upd_ge by lia. done.
Qed.

Lemma cosmetic_clock s n : cosmetic s (set_rx_clock_reads n s).
Proof. by constructor. Qed.

Lemma cosmetic_inc_hit s i b : cosmetic s (inc_hit_count i b s).
Proof. destruct b; [done|]. by apply cosmetic_upd. Qed.

(** ** Paths *)

(** [Desc ek a us vs j]: from node [a], following the children filed under
    the pages of [us] in namespace [ek] ends exactly at node [j], over
    nodes whose indices are [vs]. *)
Inductive Desc s (ek : option (list Z)) : nat -> list Unit_ -> list Z -> nat -> Prop :=
  | Desc_nil a : Desc s ek a [] [] a
  | Desc_cons a c us vs j :
      dict_get (ek, take (Z.to_nat ps) (nunits s c)) (chl s a) = Some c ->
      Desc s ek c us vs j ->
      Desc s ek a (nunits s c ++ us) (val s c ++ vs) j.

Lemma Desc_app s ek a us vs b us' vs' j :
  Desc s ek a us vs b -> Desc s ek b us' vs' j -> Desc s ek a (us ++ us') (vs ++ vs') j.
Proof.
  induction 1 as [|a c us vs b Hc _ IH]; intros Hj; [done|].
  rewrite <- !app_assoc. econstructor; eauto.
Qed.

Lemma Desc_snoc s ek a us vs b c :
  Desc s ek a us vs b -> dict_get (ek, take (Z.to_nat ps) (nunits s c)) (chl s b) = Some c ->
  Desc s ek a (us ++ nunits s c) (vs ++ val s c) c.
Proof.
  intros Hd Hc. eapply Desc_app; [done|].
  rewrite <- (app_nil_r (nunits s c)), <- (app_nil_r (val s c)). econstructor; [done|constructor].
Qed.

Lemma Desc_ext s s' ek a us vs j :
  (forall i, chl s' i = chl s i) -> (forall i, nunits s' i = nunits s i) ->
  (forall i, val s' i = val s i) -> Desc s ek a us vs j -> Desc s' ek a us vs j.
Proof.
  intros Hc Hk Hv. induction 1 as [|a c us vs j Hd _ IH]; [constructor|].
  rewrite <- Hk, <- Hv. econstructor; [|done]. by rewrite Hk, Hc.
Qed.

Lemma cosmetic_units s s' i : cosmetic s s' -> nunits s' i = nunits s i.
Proof. intros Hc. unfold nunits. by rewrite (cs_key _ _ Hc). Qed.

Lemma cosmetic_val s s' i : cosmetic s s' -> val s' i = val s i.
Proof. intros Hc. unfold val. by rewrite (cs_val _ _ Hc). Qed.

Lemma cosmetic_Desc s s' ek a us vs j : cosmetic s s' -> Desc s ek a us vs j -> Desc s' ek a us vs j.
Proof.
  intros Hc. apply Desc_ext; intros i; [apply Hc|by apply cosmetic_units|by apply cosmetic_val].
Qed.

(** ** Content

    What the cache holds: [us] (whole pages) with the slots [vs] is cached
    in namespace [ek] when it is a prefix of a path from the root. *)

Definition content s (ek : option (list Z)) (us : list Unit_) (vs : list Z) : Prop :=
  exists U V j n, Desc s ek (root_node s) U V j /\ (n <= length U)%nat /\
    (ps | Z.of_nat n) /\ us = take n U /\ vs = take n V.

Lemma cosmetic_sym s s' : cosmetic s s' -> cosmetic s' s.
Proof. intros []. constructor; intros; by symmetry. Qed.

Lemma cosmetic_content s s' ek us vs :
  cosmetic s s' -> content s ek us vs <-> content s' ek us vs.
Proof.
  intros Hc. unfold content. rewrite (cs_root _ _ Hc).
  split; intros (U & V & j & n & Hd & ?); exists U, V, j, n;
    (split; [eapply cosmetic_Desc; [|exact Hd]; [done || by apply cosmetic_sym]|done]).
Qed.

(** ** The invariant

    [L] lists the live nodes below the root; [held] the nodes clients hold
    a lock on, with multiplicity.  A node's lock count is the number of
    holders of the node plus the counts of its children. *)

Definition klen s i := key_len (nkey s i).
Definition live s (L : list nat) i : Prop := i = root_node s \/ i ∈ L.
Definition held_count (i : nat) (held : list nat) : Z := Z.of_nat (count_occ Nat.eq_dec held i).
Definition child_locks s i : Z := zsum (lck s ∘ snd <$> chl s i).
Definition ev_size s i : Z := if lck s i =? 0 then klen s i else 0.
Definition pr_size s i : Z := if lck s i =? 0 then 0 else klen s i.

Record Inv s (L held : list nat) : Prop := mkInv {
  inv_nodup : NoDup L;
  inv_root_fresh : root_node s ∉ L;
  inv_root_bound : (root_node s < length (nodes s))%nat;
  inv_root_node : par s (root_node s) = None /\ lck s (root_node s) = 1 /\
                  tn_value (node_at s (root_node s)) = Some [];
  inv_bound i : i ∈ L -> (i < length (nodes s))%nat;
  inv_key i : i ∈ L -> key_wf (nkey s i) /\ key_is_bigram (nkey s i) = is_eagle cfg /\
                       0 < klen s i /\ (ps | klen s i);
  inv_val i : i ∈ L -> exists v, tn_value (node_at s i) = Some v /\ len v = klen s i;
  inv_par i : i ∈ L -> exists p, par s i = Some p /\
    (p = root_node s \/ p ∈ L /\ key_extra_key (nkey s i) = key_extra_key (nkey s p)) /\
    dict_get (child_key ps (nkey s i)) (chl s p) = Some i;
  inv_chl p : live s L p -> dict_wf (chl s p) /\
    forall k c, (k, c) ∈ chl s p -> c ∈ L /\ par s c = Some p /\ child_key ps (nkey s c) = k;
  inv_rank : exists rk : nat -> nat, forall i p, i ∈ L -> par s i = Some p -> (rk p < rk i)%nat;
  inv_held h : h ∈ held -> live s L h;
  inv_lock i : i ∈ L -> 0 <= lck s i /\ lck s i = held_count i held + child_locks s i;
  inv_ev : evictable_size_ s = zsum (ev_size s <$> L);
  inv_pr : protected_size_ s = zsum (pr_size s <$> L);
  inv_leaf i : i ∈ evictable_leaves s <-> i ∈ L /\ lck s i = 0 /\ chl s i = [];
}.

Lemma cosmetic_child_locks s s' i : cosmetic s s' -> child_locks s' i = child_locks s i.
Proof.
  intros Hc. unfold child_locks. rewrite (cs_chl _ _ Hc). f_equal.
  apply list_fmap_ext. intros ? [??] _. cbn. apply Hc.
Qed.

Lemma cosmetic_Inv s s' L held : cosmetic s s' -> Inv s L held -> Inv s' L held.
Proof.
  intros Hc [].
  assert (Hev : forall i, ev_size s' i = ev_size s i)
    by (intros; unfold ev_size, klen; by rewrite (cs_lck _ _ Hc), (cs_key _ _ Hc)).
  assert (Hpr : forall i, pr_size s' i = pr_size s i)
    by (intros; unfold pr_size, klen; by rewrite (cs_lck _ _ Hc), (cs_key _ _ Hc)).
  constructor; unfold live, klen in *; rewrite ?(cs_root _ _ Hc), ?(cs_len _ _ Hc);
    rewrite ?(cs_par _ _ Hc), ?(cs_lck _ _ Hc), ?(cs_val _ _ Hc), ?(cs_ev _ _ Hc), ?(cs_pr _ _ Hc),
      ?(cs_lv _ _ Hc); auto.
  - intros i. rewrite (cs_key _ _ Hc). auto.
  - intros i. rewrite (cs_val _ _ Hc), (cs_key _ _ Hc). auto.
  - intros i Hi. destruct (inv_par0 i Hi) as (p & ? & ? & ?). exists p.
    by rewrite (cs_par _ _ Hc), !(cs_key _ _ Hc), (cs_chl _ _ Hc).
  - intros p Hp. destruct (inv_chl0 p Hp) as [? Hk]. rewrite (cs_chl _ _ Hc). split; [done|].
    intros k c. rewrite (cs_par _ _ Hc), (cs_key _ _ Hc). auto.
  - destruct inv_rank0 as [rk Hrk]. exists rk. intros i p. rewrite (cs_par _ _ Hc). auto.
  - intros i. rewrite (cs_lck _ _ Hc), (cosmetic_child_locks s s' i Hc). auto.
  - rewrite inv_ev0. f_equal. by apply list_fmap_ext.
  - rewrite inv_pr0. f_equal. by apply list_fmap_ext.
  - intros i. rewrite (cs_lck _ _ Hc), (cs_chl _ _ Hc). auto.
Qed.

(** ** Consequences for keys and paths *)

Section facts.
Hypothesis Hps : 1 <= ps.
Context {s : Radix KV} {L held : list nat} (HI : Inv s L held).

Lemma klen_units i : i ∈ L -> klen s i = len (nunits s i).
Proof. intros Hi. apply key_len_units. by apply HI. Qed.

Lemma klen_page i : i ∈ L -> ps <= klen s i.
Proof. intros Hi. destruct (inv_key _ _ _ HI i Hi) as (_ & _ & ? & ?). by apply Z.divide_pos_le. Qed.

Lemma len_val i : i ∈ L -> len (val s i) = klen s i.
Proof. intros Hi. destruct (inv_val _ _ _ HI i Hi) as (v & Hv & Hl). unfold val. by rewrite Hv. Qed.

Lemma val_root : val s (root_node s) = [].
Proof. unfold val. by rewrite (proj2 (proj2 (inv_root_node _ _ _ HI))). Qed.

Lemma child_key_node i :
  i ∈ L -> child_key ps (nkey s i) = (key_extra_key (nkey s i), take (Z.to_nat ps) (nunits s i)).
Proof.
  intros Hi. destruct (inv_key _ _ _ HI i Hi) as (? & _ & _ & _).
  apply child_key_units; [done|]. pose proof (klen_page i Hi). unfold klen in *. lia.
Qed.

Lemma live_child a k c : live s L a -> dict_get k (chl s a) = Some c ->
  c ∈ L /\ par s c = Some a /\ child_key ps (nkey s c) = k.
Proof. intros Ha Hc. by apply (inv_chl _ _ _ HI a Ha), dict_get_elem. Qed.

Lemma child_extra a k c : live s L a -> dict_get k (chl s a) = Some c ->
  key_extra_key (nkey s c) = k.1 /\ take (Z.to_nat ps) (nunits s c) = k.2.
Proof.
  intros Ha Hc. destruct (live_child a k c Ha Hc) as (Hin & _ & Hk).
  rewrite child_key_node in Hk by done. by subst k.
Qed.

Lemma Desc_live ek a us vs j : live s L a -> Desc s ek a us vs j -> live s L j.
Proof.
  intros Ha Hd. induction Hd as [|a c us vs j Hc _ IH]; [done|].
  apply IH. right. by eapply live_child.
Qed.

(** Below a node, every live step consumes at least a page. *)
Lemma Desc_units ek a us vs j :
  live s L a -> Desc s ek a us vs j -> (ps | len us) /\ len vs = len us.
Proof.
  intros Ha Hd. induction Hd as [|a c us vs j Hc _ IH].
  { rewrite !len_nil. split; [apply Z.divide_0_r|done]. }
  destruct (live_child _ _ _ Ha Hc) as (Hin & _ & _).
  destruct IH as [? ?]; [by right|]. rewrite !len_app, len_val, <- klen_units by done.
  split; [|lia]. apply Z.divide_add_r; [|done]. by apply HI.
Qed.

Lemma take_page_app i (us : list Unit_) :
  i ∈ L -> take (Z.to_nat ps) (nunits s i ++ us) = take (Z.to_nat ps) (nunits s i).
Proof.
  intros Hi. pose proof (klen_page i Hi). rewrite klen_units in * by done.
  apply take_app_le. unfold len in *. lia.
Qed.

(** Determinism: a path that extends another by a page goes on through the
    child filed under that page. *)
Lemma Desc_next ek a us vs i us' vs' j page rest :
  live s L a -> Desc s ek a us vs i -> Desc s ek a us' vs' j ->
  us' = us ++ page ++ rest -> len page = ps ->
  exists c us2 vs2, dict_get (ek, page) (chl s i) = Some c /\ Desc s ek c us2 vs2 j /\
    us' = us ++ nunits s c ++ us2 /\ vs' = vs ++ val s c ++ vs2.
Proof.
  intros Ha Hi. revert us' vs'. induction Hi as [a|a c us vs i Hc Hi IH]; intros us' vs' Hj He Hp.
  - destruct Hj as [a|a c us' vs' j Hc Hj].
    { apply (f_equal len) in He. cbn in He. rewrite len_app in He.
      pose proof (len_nonneg rest). change (len (@nil Unit_)) with 0 in He. lia. }
    destruct (live_child _ _ _ Ha Hc) as (Hin & _ & _).
    exists c, us', vs'. repeat split; try done. replace page with (take (Z.to_nat ps) (nunits s c)); [done|].
    rewrite <- (take_page_app c us' Hin). cbn in He. rewrite He, take_app_le by (unfold len in *; lia).
    apply take_ge. unfold len in *. lia.
  - destruct (live_child _ _ _ Ha Hc) as (Hin & _ & _).
    destruct Hj as [a|a c' us' vs' j Hc' Hj].
    { symmetry in He. apply app_eq_nil in He as [_ He]. apply app_eq_nil in He as [-> _]. cbn in Hp. 
      change (len (@nil Unit_)) with 0 in Hp. lia. }
    destruct (live_child _ _ _ Ha Hc') as (Hin' & _ & _).
    assert (c' = c) as ->.
    { apply (f_equal (take (Z.to_nat ps))) in He.
      rewrite take_page_app, <- app_assoc, take_page_app in He by done.
      rewrite He in Hc'. congruence. }
    rewrite <- app_assoc in He. apply app_inv_head in He.
    destruct (IH (or_intror Hin) us' vs' Hj He Hp) as (d & us2 & vs2 & Hd & Hdj & -> & ->).
    exists d, us2, vs2. repeat split; try done; by rewrite <- app_assoc.
Qed.

Lemma Desc_last ek a us vs j :
  Desc s ek a us vs j -> (j = a /\ us = [] /\ vs = []) \/
  exists p us0 vs0, Desc s ek a us0 vs0 p /\
    dict_get (ek, take (Z.to_nat ps) (nunits s j)) (chl s p) = Some j /\
    us = us0 ++ nunits s j /\ vs = vs0 ++ val s j.
Proof.
  induction 1 as [|a c us vs j Hc Hd IH]; [by left|right].
  destruct IH as [(-> & -> & ->)|(p & us0 & vs0 & Hp & Hj & -> & ->)].
  - exists a, [], []. rewrite !app_nil_r. repeat split; [constructor|done].
  - exists p, (nunits s c ++ us0), (val s c ++ vs0).
    repeat split; [by constructor|done|by rewrite app_assoc..].
Qed.

(** A node has one path from the root. *)
Lemma Desc_path_unique ek us vs us' vs' j :
  Desc s ek (root_node s) us vs j -> Desc s ek (root_node s) us' vs' j ->
  us = us' /\ vs = vs'.
Proof.
  destruct (inv_rank _ _ _ HI) as [rk Hrk]. revert us vs us' vs'.
  assert (Hroot : live s L (root_node s)) by by left.
  remember (rk j) as r eqn:Hr. revert j Hr.
  induction (lt_wf r) as [r _ IH]; intros j -> us vs us' vs' Hd Hd'.
  destruct (Desc_last _ _ _ _ _ Hd) as [(-> & -> & ->)|(p & u & v & Hp & Hj & -> & ->)];
  destruct (Desc_last _ _ _ _ _ Hd') as [(E & -> & ->)|(p' & u' & v' & Hp' & Hj' & -> & ->)]; try done.
  - destruct (live_child p' _ _ (Desc_live _ _ _ _ _ Hroot Hp') Hj') as (Hin & _ & _).
    by destruct (inv_root_fresh _ _ _ HI).
  - subst j. destruct (live_child p _ _ (Desc_live _ _ _ _ _ Hroot Hp) Hj) as (Hin & _ & _).
    by destruct (inv_root_fresh _ _ _ HI).
  - destruct (live_child p _ _ (Desc_live _ _ _ _ _ Hroot Hp) Hj) as (Hin & Hpar & _).
    destruct (live_child p' _ _ (Desc_live _ _ _ _ _ Hroot Hp') Hj') as (_ & Hpar' & _).
    assert (p' = p) as -> by congruence.
    by destruct (IH (rk p) (Hrk _ _ Hin Hpar) p eq_refl u v u' v' Hp Hp') as [-> ->].
Qed.

(** Every live node below the root is reached in the namespace of its key. *)
Lemma Desc_exists j :
  j ∈ L -> exists us vs, Desc s (key_extra_key (nkey s j)) (root_node s) us vs j.
Proof.
  destruct (inv_rank _ _ _ HI) as [rk Hrk].
  remember (rk j) as r eqn:Hr. revert j Hr.
  induction (lt_wf r) as [r _ IH]; intros j -> Hj.
  destruct (inv_par _ _ _ HI j Hj) as (p & Hp & Hex & Hc).
  rewrite child_key_node in Hc by done.
  destruct Hex as [->|[Hin Hex]].
  - exists ([] ++ nunits s j), ([] ++ val s j). eapply Desc_snoc; [constructor|done].
  - destruct (IH (rk p) (Hrk _ _ Hj Hp) p eq_refl Hin) as (us & vs & Hd).
    rewrite <- Hex in Hd. eexists _, _. by eapply Desc_snoc.
Qed.

End facts.

End shape.
