(* ===== verification/RadixSplit.v ===== *)
(** * Splitting a node of the radix tree

    [_split_node] puts a new node above [child] that takes the first
    [split_len] units of its key.  The invariant is kept, every node keeps
    its path, and the only path that is new ends inside an old one. *)

From stdpp Require Import gmap.
From S2P Require Import Prelude PyDict Allocator RadixKey RadixTree RadixShape.

Section split.
Context {KV : Type} `{AllocatorOps KV}.
Variable cfg : RadixConfig.
Implicit Types s : Radix KV.

#[local] Abbreviation ps := (page_size cfg).

(** What the call leaves behind. *)
Record Split s s' (c p : nat) (sp : Z) : Prop := mkSplit {
  sp_kv : rx_kv s' = rx_kv s;
  sp_len : length (nodes s') = S (length (nodes s));
  sp_root : root_node s' = root_node s;
  sp_ev : evictable_size_ s' = evictable_size_ s;
  sp_pr : protected_size_ s' = protected_size_ s;
  sp_lv : evictable_leaves s' = evictable_leaves s;
  sp_new_chl : chl s' (length (nodes s)) =
    [(child_key ps (key_slice (nkey s c) sp (klen s c)), c)];
  sp_new_par : par s' (length (nodes s)) = Some p;
  sp_new_lck : lck s' (length (nodes s)) = lck s c;
  sp_new_key : nkey s' (length (nodes s)) = key_slice (nkey s c) 0 sp;
  sp_new_val : tn_value (node_at s' (length (nodes s))) = Some (slice_to (val s c) sp);
  sp_c_par : par s' c = Some (length (nodes s));
  sp_c_key : nkey s' c = key_slice (nkey s c) sp (klen s c);
  sp_c_val : tn_value (node_at s' c) = Some (slice_from (val s c) sp);
  sp_p_chl : chl s' p = dict_set (child_key ps (nkey s c)) (length (nodes s)) (chl s p);
  sp_old_chl i : i <> length (nodes s) -> i <> p -> chl s' i = chl s i;
  sp_old_lck i : i <> length (nodes s) -> lck s' i = lck s i;
  sp_old i : i <> length (nodes s) -> i <> c ->
    par s' i = par s i /\ nkey s' i = nkey s i /\ tn_value (node_at s' i) = tn_value (node_at s i);
}.

Lemma node_at_new s n j :
  node_at (new_node n s).2 j = if decide (j = length (nodes s)) then n else node_at s j.
Proof.
  unfold node_at, new_node. cbn. case_decide.
  - subst j. by rewrite lookup_app_r, Nat.sub_diag by lia.
  - destruct (decide (j < length (nodes s))%nat); [by rewrite lookup_app_l|].
    rewrite lookup_app_r by lia. rewrite (lookup_ge_None_2 (nodes s)) by lia.
    by destruct (j - length (nodes s))%nat as [|[]] eqn:E; [lia|..].
Qed.

Lemma len_upd s i f : length (nodes (upd i f s)) = length (nodes s).
Proof. apply length_alter. Qed.

Section run.
Variable monotonic : nat -> Z.

(** Building a node: the store grows by one, nothing else moves. *)
Lemma new_tree_node_spec s prio :
  exists s', new_tree_node monotonic prio s = (Ret (length (nodes s)), s') /\
    length (nodes s') = S (length (nodes s)) /\ root_node s' = root_node s /\
    rx_kv s' = rx_kv s /\ evictable_size_ s' = evictable_size_ s /\
    protected_size_ s' = protected_size_ s /\ evictable_leaves s' = evictable_leaves s /\
    (forall j, j <> length (nodes s) -> node_at s' j = node_at s j) /\
    exists t t', node_at s' (length (nodes s)) = mkNode [] None empty_key None 0 t t' 0 None prio.
Proof.
  eexists. split; [reflexivity|]. cbn. rewrite length_app. cbn.
  repeat split; [lia| |].
  - intros j Hj. unfold node_at. cbn. destruct (decide (j < length (nodes s))%nat);
      [by rewrite lookup_app_l|]. rewrite lookup_app_r by lia.
    rewrite (lookup_ge_None_2 (nodes s)) by lia.
    by destruct (j - length (nodes s))%nat as [|[]] eqn:E; [lia|..].
  - eexists _, _. unfold node_at. cbn. by rewrite lookup_app_r, Nat.sub_diag by lia.
Qed.

(** Read a node through the updates made since; [node_at] of the base state
    stays. *)
Ltac node_simp :=
  repeat (rewrite node_at_upd by (rewrite ?len_upd; lia));
  repeat match goal with
  | |- context [decide (?x = ?x)] => rewrite (decide_True (P := x = x)) by done
  | |- context [decide (?x = ?y)] => rewrite (decide_False (P := x = y)) by congruence
  end.

Lemma split_node_spec s c p v sp :
  (c < length (nodes s))%nat -> (p < length (nodes s))%nat -> c <> p ->
  par s c = Some p -> tn_value (node_at s c) = Some v ->
  exists s', split_node cfg monotonic (nkey s c) c sp s = (Ret (length (nodes s)), s') /\
    Split s s' c p sp.
Proof.
  intros Hc Hp Hcp Hpar Hv. unfold par in Hpar. unfold split_node, mbind, M_bind, get.
  destruct (new_tree_node_spec s (tn_priority (node_at s c)))
    as (s0 & -> & Hl & Hr & Hk & He & Hpr & Hlv & Hold & t & t' & Hnew).
  set (nn := length (nodes s)) in *. unfold modify, of_option. rewrite Hv, Hpar.
  destruct (split_node_hash_value cfg (tn_hash_value (node_at s c)) sp) as [hn hc].
  assert (Hcn : c <> nn) by (unfold nn; lia). assert (Hpn : p <> nn) by (unfold nn; lia).
  cbn -[upd]. eexists. split; [reflexivity|].
  match goal with |- Split _ ?st _ _ _ => set (sF := st) end.
  assert (Hbase : rx_kv sF = rx_kv s0 /\ length (nodes sF) = length (nodes s0) /\ root_node sF = root_node s0 /\
    evictable_size_ sF = evictable_size_ s0 /\ protected_size_ sF = protected_size_ s0 /\
    evictable_leaves sF = evictable_leaves s0) by (unfold sF; by rewrite !len_upd).
  assert (Fn : node_at sF nn = mkNode [(child_key ps (key_slice (nkey s c) sp (klen s c)), c)] (Some p)
      (key_slice (nkey s c) 0 sp) (Some (slice_to v sp)) (lck s c) t t' (tn_hit_count (node_at s c)) hn
      (tn_priority (node_at s c))).
  { unfold sF. node_simp. by rewrite Hnew. }
  assert (Fc : exists n, node_at sF c = n /\ tn_children n = chl s c /\ tn_parent n = Some nn /\
      tn_lock_ref n = lck s c /\ tn_key n = key_slice (nkey s c) sp (klen s c) /\
      tn_value n = Some (slice_from v sp)).
  { eexists. split; [unfold sF; node_simp; rewrite Hold by done; reflexivity|done]. }
  assert (Fp : node_at sF p = set_tn_children (dict_set (child_key ps (nkey s c)) nn (chl s p)) (node_at s p)).
  { unfold sF. node_simp. by rewrite Hold. }
  assert (Fo : forall i, i <> nn -> i <> c -> i <> p -> node_at sF i = node_at s i).
  { intros i ? ? ?. unfold sF. node_simp. by rewrite Hold. }
  clearbody sF. destruct Hbase as (B1 & B2 & B3 & B4 & B5 & B6).
  destruct Fc as (n & Fc & C1 & C2 & C3 & C4 & C5).
  assert (Hvs : val s c = v) by (unfold val; by rewrite Hv).
  constructor; fold nn; try congruence; unfold chl, par, lck, nkey; rewrite ?Fn, ?Fp, ?Fc, ?Hvs; try done.
  - intros i H1 H2. destruct (decide (i = c)) as [->|]; [by rewrite Fc|by rewrite Fo].
  - intros i H1. destruct (decide (i = c)) as [->|]; [by rewrite Fc|].
    destruct (decide (i = p)) as [->|]; [by rewrite Fp|by rewrite Fo].
  - intros i H1 H2. destruct (decide (i = p)) as [->|]; [by rewrite Fp|by rewrite Fo].
Qed.

End run.

(** ** Consequences *)

Hypothesis Hps : 1 <= ps.

Section after.
Context {s s' : Radix KV} {L held : list nat} {c p : nat} {sp : Z}.
Context (HI : Inv cfg s L held) (HS : Split s s' c p sp).
Context (Hc : c ∈ L) (Hpar : par s c = Some p) (Hsp : 0 < sp < klen s c) (Hal : (ps | sp)).

#[local] Abbreviation nn := (length (nodes s)).

Lemma split_parent : live s L p /\ dict_get (child_key ps (nkey s c)) (chl s p) = Some c /\
  (p = root_node s \/ p ∈ L /\ key_extra_key (nkey s c) = key_extra_key (nkey s p)).
Proof.
  destruct (inv_par _ _ _ _ HI c Hc) as (q & Hq & Hex & Hd). assert (q = p) as -> by congruence.
  split; [|done]. unfold live. naive_solver.
Qed.

Lemma split_fresh : nn ∉ L /\ nn <> root_node s /\ nn <> c /\ nn <> p /\ c <> p /\ c <> root_node s.
Proof.
  pose proof (inv_bound _ _ _ _ HI). pose proof (inv_root_bound _ _ _ _ HI).
  destruct split_parent as (Hp & _ & _). destruct (inv_rank _ _ _ _ HI) as [rk Hrk].
  pose proof (Hrk _ _ Hc Hpar). assert (p < nn)%nat by (destruct Hp as [->|Hp]; auto).
  repeat split; try (intros Hx; subst; specialize (H0 _ Hx)); try (intros ->); try lia.
  - specialize (H0 _ Hc). lia.
  - by apply (inv_root_fresh _ _ _ _ HI).
Qed.

Lemma split_klen : klen s' nn = sp /\ klen s' c = klen s c - sp /\
  forall i, i <> nn -> i <> c -> klen s' i = klen s i.
Proof.
  destruct (inv_key _ _ _ _ HI c Hc) as (Hwf & _ & _ & _).
  unfold klen. rewrite (sp_new_key _ _ _ _ _ HS), (sp_c_key _ _ _ _ _ HS). unfold klen in Hsp |- *.
  rewrite !key_len_slice by (done || lia). repeat split; [lia|].
  intros i H1 H2. by rewrite (proj1 (proj2 (sp_old _ _ _ _ _ HS i H1 H2))).
Qed.

Lemma split_units : nunits s' nn = take (Z.to_nat sp) (nunits s c) /\
  nunits s' c = drop (Z.to_nat sp) (nunits s c) /\
  forall i, i <> nn -> i <> c -> nunits s' i = nunits s i.
Proof.
  destruct (inv_key _ _ _ _ HI c Hc) as (Hwf & _ & _ & _).
  unfold nunits. rewrite (sp_new_key _ _ _ _ _ HS), (sp_c_key _ _ _ _ _ HS).
  unfold klen in Hsp |- *. rewrite !units_key_slice by (done || lia).
  repeat split.
  - by rewrite Z.sub_0_r.
  - apply take_ge. rewrite length_drop. rewrite key_len_units in * by done. unfold len. lia.
  - intros i H1 H2. by rewrite (proj1 (proj2 (sp_old _ _ _ _ _ HS i H1 H2))).
Qed.

Lemma split_val : val s' nn = take (Z.to_nat sp) (val s c) /\
  val s' c = drop (Z.to_nat sp) (val s c) /\
  forall i, i <> nn -> i <> c -> val s' i = val s i.
Proof.
  unfold val at 1 3 5. rewrite (sp_new_val _ _ _ _ _ HS), (sp_c_val _ _ _ _ _ HS). cbn.
  pose proof (len_val cfg HI c Hc).
  unfold slice_to, slice_from, pyidx. rewrite (proj2 (Z.ltb_ge sp 0)) by lia.
  rewrite Z.min_l by lia. repeat split.
  intros i H1 H2. unfold val. by rewrite (proj2 (proj2 (sp_old _ _ _ _ _ HS i H1 H2))).
Qed.

Lemma split_child_key :
  child_key ps (nkey s' nn) = child_key ps (nkey s c) /\
  child_key ps (nkey s' c) = child_key ps (key_slice (nkey s c) sp (klen s c)) /\
  key_extra_key (nkey s' nn) = key_extra_key (nkey s c) /\
  key_extra_key (nkey s' c) = key_extra_key (nkey s c).
Proof.
  destruct (inv_key _ _ _ _ HI c Hc) as (Hwf & _ & _ & _).
  assert (ps <= sp) by (apply Z.divide_pos_le; [lia|done]).
  destruct split_units as (Hu & _ & _). unfold nunits in Hu. destruct split_klen as (Hkl & _ & _).
  rewrite (sp_c_key _ _ _ _ _ HS), key_extra_slice.
  rewrite (child_key_units ps (nkey s' nn)), (child_key_units ps (nkey s c)).
  - rewrite Hu, (sp_new_key _ _ _ _ _ HS), key_extra_slice, take_take.
    replace (Z.to_nat ps `min` Z.to_nat sp)%nat with (Z.to_nat ps) by lia. done.
  - done.
  - unfold klen in Hsp. lia.
  - rewrite (sp_new_key _ _ _ _ _ HS). apply key_wf_slice.
  - unfold klen in Hkl. lia.
Qed.

Lemma split_child_locks i : i ∈ L -> child_locks s' i = child_locks s i.
Proof.
  intros Hi. destruct split_fresh as (Hn & _ & _ & Hnp & _ & _). destruct split_parent as (_ & Hd & _).
  assert (Hlck : forall k d, (k, d) ∈ chl s i -> lck s' d = lck s d).
  { intros k d Hin. apply (sp_old_lck _ _ _ _ _ HS). intros ->. apply Hn.
    eapply (inv_chl _ _ _ _ HI i); [by right|done]. }
  unfold child_locks. destruct (decide (i = p)) as [->|Hip].
  - rewrite (sp_p_chl _ _ _ _ _ HS).
    rewrite (zsum_perm _ _ (fmap_Permutation _ _ _ (dict_set_replace _ nn _ _ Hd))).
    rewrite (zsum_perm _ _ (fmap_Permutation _ _ _ (dict_pop_perm _ _ _ Hd))).
    rewrite !fmap_cons, !zsum_cons. cbn [compose snd]. rewrite (sp_new_lck _ _ _ _ _ HS).
    f_equal. f_equal. apply list_fmap_ext. intros j [k d] Hj. cbn. eapply Hlck, dict_pop_elem.
    by eapply list_elem_of_lookup_2.
  - rewrite (sp_old_chl _ _ _ _ _ HS) by (done || (intros ->; done)). f_equal.
    apply list_fmap_ext. intros j [k d] Hj. cbn. eapply Hlck. by eapply list_elem_of_lookup_2.
Qed.

(** The facts above, for the clauses of the invariant. *)
Ltac split_facts :=
  destruct split_fresh as (Hn & Hnr & Hnc & Hnp & Hcp & Hcr);
  destruct split_parent as (Hp & Hd & Hex); destruct split_klen as (Hkn & Hkc & Hko);
  destruct split_child_key as (Hckn & Hckc & Hen & Hec);
  destruct (inv_key _ _ _ _ HI c Hc) as (Hwf & Hbi & Hpos & Hdiv);
  pose proof (len_val cfg HI c Hc) as Hlv;
  assert (HinL : forall i, i ∈ L -> i <> nn) by (intros i ? ->; done);
  assert (Hlive : forall i, live s L i -> i <> nn) by (intros i [E|Hi]; [congruence|auto]).

Lemma split_inv_key :
  forall i, i ∈ nn :: L -> key_wf (nkey s' i) /\ key_is_bigram (nkey s' i) = is_eagle cfg /\
    0 < klen s' i /\ (ps | klen s' i).
Proof.
  split_facts. rewrite ?(sp_root _ _ _ _ _ HS).
  intros i Hi. destruct (decide (i = nn)) as [->|Hi1].
  { rewrite Hkn, (sp_new_key _ _ _ _ _ HS), key_bigram_slice.
    repeat split; [apply key_wf_slice|done|lia|done]. }
  destruct (decide (i = c)) as [->|Hi2].
  { rewrite Hkc, (sp_c_key _ _ _ _ _ HS), key_bigram_slice.
    repeat split; [apply key_wf_slice|done|lia|by apply Z.divide_sub_r]. }
  rewrite Hko by done. destruct (sp_old _ _ _ _ _ HS i) as (_ & -> & _); [done..|].
  apply HI. set_solver.
Qed.

Lemma split_inv_val :
  forall i, i ∈ nn :: L -> exists v, tn_value (node_at s' i) = Some v /\ len v = klen s' i.
Proof.
  split_facts. rewrite ?(sp_root _ _ _ _ _ HS).
  intros i Hi. destruct (decide (i = nn)) as [->|Hi1].
  { exists (slice_to (val s c) sp). split; [by apply (sp_new_val _ _ _ _ _ HS)|].
    rewrite len_slice_to, Hkn; lia. }
  destruct (decide (i = c)) as [->|Hi2].
  { exists (slice_from (val s c) sp). split; [by apply (sp_c_val _ _ _ _ _ HS)|].
    rewrite len_slice_from, Hkc; lia. }
  rewrite Hko by done. destruct (sp_old _ _ _ _ _ HS i) as (_ & _ & ->); [done..|].
  apply HI. set_solver.
Qed.

Lemma split_inv_par :
  forall i, i ∈ nn :: L -> exists q, par s' i = Some q /\
    (q = root_node s' \/ q ∈ nn :: L /\ key_extra_key (nkey s' i) = key_extra_key (nkey s' q)) /\
    dict_get (child_key ps (nkey s' i)) (chl s' q) = Some i.
Proof.
  split_facts. rewrite ?(sp_root _ _ _ _ _ HS).
  intros i Hi. destruct (decide (i = nn)) as [->|Hi1].
  { exists p. rewrite (sp_new_par _ _ _ _ _ HS), (sp_p_chl _ _ _ _ _ HS), Hckn, dict_get_set_eq, Hen.
    repeat split. destruct Hex as [->|[Hp' ->]]; [by left|right]. split; [set_solver|].
    by destruct (sp_old _ _ _ _ _ HS p) as (_ & -> & _). }
  destruct (decide (i = c)) as [->|Hi2].
  { exists nn. rewrite (sp_c_par _ _ _ _ _ HS), (sp_new_chl _ _ _ _ _ HS), Hckc, Hec, Hen.
    cbn [dict_get]. rewrite decide_True by done. repeat split. right. split; [left|done]. }
  assert (Hil : i ∈ L) by set_solver.
  destruct (inv_par _ _ _ _ HI i Hil) as (q & Hq & Hqx & Hqd). exists q.
  destruct (sp_old _ _ _ _ _ HS i) as (-> & -> & _); [done..|]. split; [done|].
  assert (q <> nn) by (apply Hlive; unfold live; naive_solver). split.
  + destruct Hqx as [->|[Hq' ->]]; [by left|right]. split; [by right|].
    destruct (decide (q = c)) as [->|]; [by rewrite Hec|].
    by destruct (sp_old _ _ _ _ _ HS q) as (_ & -> & _).
  + destruct (decide (q = p)) as [->|]; [|by rewrite (sp_old_chl _ _ _ _ _ HS)].
    rewrite (sp_p_chl _ _ _ _ _ HS), dict_get_set_ne; [done|]. intros E. rewrite <- E in Hqd. congruence.
Qed.

Lemma split_inv_chl :
  forall q, live s' (nn :: L) q -> dict_wf (chl s' q) /\
    forall k d, (k, d) ∈ chl s' q -> d ∈ nn :: L /\ par s' d = Some q /\ child_key ps (nkey s' d) = k.
Proof.
  split_facts. rewrite ?(sp_root _ _ _ _ _ HS).
  intros q Hq. destruct (decide (q = nn)) as [->|Hqn].
  { rewrite (sp_new_chl _ _ _ _ _ HS). split; [apply NoDup_singleton|].
    intros k d Hkd. apply list_elem_of_singleton in Hkd. injection Hkd as -> ->.
    split; [by right|]. split; [by apply (sp_c_par _ _ _ _ _ HS)|done]. }
  assert (Hql : live s L q) by (unfold live in *; rewrite (sp_root _ _ _ _ _ HS) in Hq; set_solver).
  destruct (inv_chl _ _ _ _ HI q Hql) as [Hw Hm].
  assert (Hold : forall k d, (k, d) ∈ chl s q -> d <> c ->
    d ∈ nn :: L /\ par s' d = Some q /\ child_key ps (nkey s' d) = k).
  { intros k d Hkd Hdc. destruct (Hm _ _ Hkd) as (? & ? & ?).
    destruct (sp_old _ _ _ _ _ HS d) as (-> & -> & _); [by apply HinL|done|].
    split; [by right|done]. }
  destruct (decide (q = p)) as [->|Hqp].
  + rewrite (sp_p_chl _ _ _ _ _ HS). split; [by apply dict_set_wf|].
    intros k d Hkd. destruct (dict_set_elem _ _ _ _ _ Hw Hkd) as [[-> ->]|[Hk Hkd']].
    * split; [left|]. split; [apply (sp_new_par _ _ _ _ _ HS)|done].
    * apply Hold; [done|]. intros ->. apply Hk. symmetry. by apply Hm.
  + rewrite (sp_old_chl _ _ _ _ _ HS) by done. split; [done|]. intros k d Hkd.
    apply Hold; [done|]. intros ->. apply Hm in Hkd as (_ & ? & _). congruence.
Qed.

Lemma split_inv_rank :
  exists rk : nat -> nat, forall i q, i ∈ nn :: L -> par s' i = Some q -> (rk q < rk i)%nat.
Proof.
  split_facts. rewrite ?(sp_root _ _ _ _ _ HS).
  destruct (inv_rank _ _ _ _ HI) as [rk Hrk].
  exists (fun i => if decide (i = nn) then (2 * rk c - 1)%nat else (2 * rk i)%nat).
  pose proof (Hrk _ _ Hc Hpar) as Hrc. intros i q Hi Hq.
  destruct (decide (i = nn)) as [->|Hi1].
  { rewrite (sp_new_par _ _ _ _ _ HS) in Hq. simplify_eq. rewrite decide_False by done. lia. }
  destruct (decide (i = c)) as [->|Hi2].
  { rewrite (sp_c_par _ _ _ _ _ HS) in Hq. simplify_eq. rewrite decide_True by done. lia. }
  assert (Hil : i ∈ L) by set_solver.
  destruct (sp_old _ _ _ _ _ HS i) as (Hpi & _ & _); [done..|]. rewrite Hpi in Hq.
  pose proof (Hrk _ _ Hil Hq). case_decide; [|lia]. subst q.
  destruct (inv_par _ _ _ _ HI i Hil) as (q' & Hq' & Hqx & _).
  exfalso. apply (Hlive nn); [|done]. unfold live. rewrite Hq in Hq'. naive_solver.
Qed.

Lemma split_inv_lock :
  forall i, i ∈ nn :: L -> 0 <= lck s' i /\ lck s' i = held_count i held + child_locks s' i.
Proof.
  split_facts. rewrite ?(sp_root _ _ _ _ _ HS).
  intros i Hi. apply elem_of_cons in Hi as [->|Hi].
  + rewrite (sp_new_lck _ _ _ _ _ HS). unfold child_locks. rewrite (sp_new_chl _ _ _ _ _ HS).
    cbn. rewrite (sp_old_lck _ _ _ _ _ HS c) by done. split; [by apply HI|].
    assert (held_count nn held = 0) as ->; [|lia].
    unfold held_count. rewrite (proj1 (count_occ_not_In _ _ _)); [done|].
    rewrite <- list_elem_of_In. intros Hh. by apply (Hlive nn (inv_held _ _ _ _ HI nn Hh)).
  + rewrite (sp_old_lck _ _ _ _ _ HS) by auto. rewrite split_child_locks by done. by apply HI.
Qed.

Lemma split_inv_ev :
  evictable_size_ s' = zsum (ev_size s' <$> nn :: L).
Proof.
  split_facts. rewrite ?(sp_root _ _ _ _ _ HS).
  rewrite (sp_ev _ _ _ _ _ HS), (inv_ev _ _ _ _ HI), fmap_cons, zsum_cons.
  rewrite (zsum_update (ev_size s') (ev_size s) L c); [|apply HI|done|].
  + unfold ev_size. rewrite (sp_new_lck _ _ _ _ _ HS), (sp_old_lck _ _ _ _ _ HS c), Hkn, Hkc by done.
    case_if; lia.
  + intros x Hx Hxc. unfold ev_size. by rewrite (sp_old_lck _ _ _ _ _ HS x), Hko by auto.
Qed.

Lemma split_inv_pr :
  protected_size_ s' = zsum (pr_size s' <$> nn :: L).
Proof.
  split_facts. rewrite ?(sp_root _ _ _ _ _ HS).
  rewrite (sp_pr _ _ _ _ _ HS), (inv_pr _ _ _ _ HI), fmap_cons, zsum_cons.
  rewrite (zsum_update (pr_size s') (pr_size s) L c); [|apply HI|done|].
  + unfold pr_size. rewrite (sp_new_lck _ _ _ _ _ HS), (sp_old_lck _ _ _ _ _ HS c), Hkn, Hkc by done.
    case_if; lia.
  + intros x Hx Hxc. unfold pr_size. by rewrite (sp_old_lck _ _ _ _ _ HS x), Hko by auto.
Qed.

Lemma split_inv_leaf :
  forall i, i ∈ evictable_leaves s' <-> i ∈ nn :: L /\ lck s' i = 0 /\ chl s' i = [].
Proof.
  split_facts. rewrite ?(sp_root _ _ _ _ _ HS).
  intros i. rewrite (sp_lv _ _ _ _ _ HS), (inv_leaf _ _ _ _ HI).
  destruct (decide (i = nn)) as [->|Hi1].
  { rewrite (sp_new_chl _ _ _ _ _ HS). split; [by intros []|by intros (_ & _ & ?)]. }
  rewrite (sp_old_lck _ _ _ _ _ HS), elem_of_cons by done.
  destruct (decide (i = p)) as [->|Hip].
  + assert (chl s p <> []) by (intros E; by rewrite E in Hd).
    assert (chl s' p <> []); [|naive_solver]. rewrite (sp_p_chl _ _ _ _ _ HS).
    intros E. assert (Hg := dict_get_set_eq (child_key ps (nkey s c)) nn (chl s p)). by rewrite E in Hg.
  + rewrite (sp_old_chl _ _ _ _ _ HS) by done. naive_solver.
Qed.

Lemma split_Inv : Inv cfg s' (nn :: L) held.
Proof.
  split_facts. constructor; auto using split_inv_key, split_inv_val, split_inv_par, split_inv_chl, split_inv_rank, split_inv_lock, split_inv_ev, split_inv_pr, split_inv_leaf;
    rewrite ?(sp_root _ _ _ _ _ HS), ?(sp_len _ _ _ _ _ HS).
  - constructor; [done|apply HI].
  - rewrite not_elem_of_cons. split; [done|apply HI].
  - pose proof (inv_root_bound _ _ _ _ HI). lia.
  - rewrite (sp_old_lck _ _ _ _ _ HS) by done.
    destruct (sp_old _ _ _ _ _ HS (root_node s)) as (-> & _ & ->); [done..|]. apply HI.
  - intros i Hi. apply elem_of_cons in Hi as [->|Hi]; [lia|].
    pose proof (inv_bound _ _ _ _ HI i Hi). lia.
  - intros h Hh. destruct (inv_held _ _ _ _ HI h Hh) as [->|?]; [by left; rewrite (sp_root _ _ _ _ _ HS)|].
    right. by right.
Qed.

(** Every path of the old tree is a path of the new one... *)
Lemma split_Desc_to ek a us vs j : live s L a -> Desc cfg s ek a us vs j -> Desc cfg s' ek a us vs j.
Proof.
  split_facts. destruct split_units as (Hun & Huc & Huo). destruct split_val as (Hvn & Hvc & Hvo).
  assert (ps <= sp) by (apply Z.divide_pos_le; [lia|done]).
  intros Ha Hj. induction Hj as [|a d us vs j Hda _ IH]; [constructor|].
  destruct (live_child cfg HI a _ _ Ha Hda) as (Hdl & Hdp & Hdk).
  specialize (IH (or_intror Hdl)). destruct (decide (d = c)) as [->|Hdc].
  - assert (a = p) as -> by congruence.
    rewrite <- (take_drop (Z.to_nat sp) (nunits s c)), <- (take_drop (Z.to_nat sp) (val s c)).
    rewrite <- !app_assoc, <- Hun, <- Huc, <- Hvn, <- Hvc.
    assert (ek = key_extra_key (nkey s c)) as ->.
    { destruct (child_extra cfg Hps HI p _ _ Hp Hda) as [-> _]. done. }
    constructor; [|constructor; [|done]].
    + rewrite (sp_p_chl _ _ _ _ _ HS), Hun, take_take, Hdk.
      replace (Z.to_nat ps `min` Z.to_nat sp)%nat with (Z.to_nat ps) by lia.
      apply dict_get_set_eq.
    + rewrite (sp_new_chl _ _ _ _ _ HS), <- Hckc, <- Hec.
      rewrite <- (child_key_node cfg Hps split_Inv c) by (by right).
      cbn. by rewrite decide_True.
  - rewrite <- Huo, <- Hvo by auto. constructor; [|done].
    rewrite Huo by auto. destruct (decide (a = p)) as [->|]; [|rewrite (sp_old_chl _ _ _ _ _ HS); auto].
    rewrite (sp_p_chl _ _ _ _ _ HS), dict_get_set_ne; [done|]. intros E. rewrite <- E in Hda. congruence.
Qed.

(** ... and every path of the new tree is a prefix of one of the old. *)
Lemma split_Desc_from ek a us vs j :
  Desc cfg s' ek a us vs j ->
  (live s L a -> exists us' vs' j', Desc cfg s ek a (us ++ us') (vs ++ vs') j') /\
  (a = nn -> exists us' vs' us'' vs'' j', Desc cfg s ek c us'' vs'' j' /\
     take (Z.to_nat sp) (nunits s c) ++ us ++ us' = nunits s c ++ us'' /\
     take (Z.to_nat sp) (val s c) ++ vs ++ vs' = val s c ++ vs'').
Proof.
  split_facts. destruct split_units as (Hun & Huc & Huo). destruct split_val as (Hvn & Hvc & Hvo).
  intros Hj. induction Hj as [a|a d us vs j Hda _ IH].
  { split; [intros _; exists [], [], a; constructor|]. intros ->.
    exists (drop (Z.to_nat sp) (nunits s c)), (drop (Z.to_nat sp) (val s c)), [], [], c.
    cbn [app]. rewrite !take_drop, !app_nil_r. repeat split; constructor. }
  split.
  - intros Ha. assert (Ha' : live s' (nn :: L) a).
    { unfold live in *. rewrite (sp_root _ _ _ _ _ HS). set_solver. }
    destruct (live_child cfg split_Inv a _ _ Ha' Hda) as (Hdl & Hdp & Hdk).
    destruct (decide (d = nn)) as [->|Hdn].
    + destruct (proj2 IH eq_refl) as (us' & vs' & us'' & vs'' & j' & Hc' & Hu & Hv).
      assert (a = p) as -> by (rewrite (sp_new_par _ _ _ _ _ HS) in Hdp; congruence).
      exists us', vs', j'. rewrite <- !app_assoc, Hun, Hvn, Hu, Hv. constructor; [|done].
      assert (ek = key_extra_key (nkey s' nn)) as ->.
      { destruct (child_extra cfg Hps split_Inv p _ _ Ha' Hda) as [-> _]. done. }
      rewrite Hen, <- (child_key_node cfg Hps HI c) by done. done.
    + apply elem_of_cons in Hdl as [?|Hdl]; [done|].
      assert (d <> c) by (intros ->; rewrite (sp_c_par _ _ _ _ _ HS) in Hdp; apply (Hlive a Ha); congruence).
      destruct (proj1 IH (or_intror Hdl)) as (us' & vs' & j' & Hd').
      exists us', vs', j'. rewrite <- !app_assoc, Huo, Hvo by done. constructor; [|done].
      rewrite Huo in Hda by done. destruct (decide (a = p)) as [->|].
      * rewrite (sp_p_chl _ _ _ _ _ HS) in Hda.
        destruct (decide (child_key ps (nkey s c) = (ek, take (Z.to_nat ps) (nunits s d)))) as [E|].
        { rewrite <- E, dict_get_set_eq in Hda. congruence. }
        by rewrite dict_get_set_ne in Hda.
      * rewrite (sp_old_chl _ _ _ _ _ HS) in Hda; auto.
  - intros ->. rewrite (sp_new_chl _ _ _ _ _ HS) in Hda. cbn in Hda. case_decide; [|done].
    simplify_eq. destruct (proj1 IH (or_intror Hc)) as (us' & vs' & j' & Hd').
    exists us', vs', (us ++ us'), (vs ++ vs'), j'. split; [done|].
    by rewrite Huc, Hvc, <- !app_assoc, !(app_assoc (take _ _)), !take_drop.
Qed.

Lemma split_content ek us vs : content cfg s ek us vs <-> content cfg s' ek us vs.
Proof.
  unfold content. rewrite (sp_root _ _ _ _ _ HS).
  assert (Hr : live s L (root_node s)) by by left.
  split; intros (U & V & j & n & Hd & Hn & Hdiv & -> & ->).
  - exists U, V, j, n. split; [by apply split_Desc_to|done].
  - destruct (proj1 (split_Desc_from _ _ _ _ _ Hd) Hr) as (U' & V' & j' & Hd').
    assert (len V = len U).
    { assert (Hr' : live s' (nn :: L) (root_node s)) by (left; by rewrite (sp_root _ _ _ _ _ HS)).
      by destruct (Desc_units cfg split_Inv _ _ _ _ _ Hr' Hd). }
    exists (U ++ U'), (V ++ V'), j', n. rewrite length_app, !take_app_le by (unfold len in *; lia).
    repeat split; (done || lia).
Qed.

(** The slots of the tree are the same. *)
Lemma split_slots : concat (val s' <$> nn :: L) ≡ₚ concat (val s <$> L).
Proof.
  split_facts. destruct split_val as (Hvn & Hvc & Hvo).
  destruct (list_elem_of_split _ _ Hc) as (l1 & l2 & ->).
  pose proof (inv_nodup _ _ _ _ HI) as Hnd. apply NoDup_app in Hnd as (_ & Hd1 & Hnd).
  apply NoDup_cons in Hnd as [Hc2 _].
  assert (He : forall l : list nat, (forall x, x ∈ l -> x <> c /\ x <> nn) -> val s' <$> l = val s <$> l).
  { intros l Hl. apply list_fmap_ext. intros j x Hx. apply list_elem_of_lookup_2, Hl in Hx as [??]. auto. }
  rewrite !fmap_cons, !fmap_app, !fmap_cons, Hvn, Hvc, !(He l1), !(He l2).
  - cbn [concat]. rewrite !concat_app. cbn [concat].
    rewrite <- (take_drop (Z.to_nat sp) (val s c)) at 3. solve_Permutation.
  - intros x Hx. split; [by intros ->|]. apply HinL. set_solver.
  - intros x Hx. split; [|apply HinL; set_solver]. intros ->. apply (Hd1 c Hx). left.
Qed.

End after.

End split.
