(* ===== verification/RadixOps.v ===== *)
(** * Lookup and insertion in the radix tree

    [match_prefix] returns the slots of the longest cached prefix and
    leaves the content as it was; [insert] adds exactly the pages of the
    key that were missing.  Both are shown to terminate, to keep the
    invariant and to refine the abstract prefix cache given by [content]. *)

From stdpp Require Import gmap.
From S2P Require Import Prelude PyDict Allocator RadixKey RadixTree RadixShape RadixSplit.

Section ops.
Context {KV : Type} `{AllocatorOps KV}.
Variable cfg : RadixConfig.
Variable monotonic : nat -> Z.
Implicit Types s : Radix KV.

#[local] Abbreviation ps := (page_size cfg).

Hypothesis Hps : 1 <= ps.

(** The keys the loops work on. *)
Definition good_key (k : RadixKey) : Prop :=
  key_wf k /\ key_is_bigram k = is_eagle cfg /\ (ps | key_len k).

Lemma good_key_slice k a :
  good_key k -> 0 <= a <= key_len k -> (ps | a) ->
  good_key (key_slice k a (key_len k)) /\
  units (key_slice k a (key_len k)) = drop (Z.to_nat a) (units k) /\
  key_len (key_slice k a (key_len k)) = key_len k - a.
Proof.
  intros (Hwf & Hb & Hd) Ha Hda. rewrite units_key_slice, key_len_slice by (done || lia).
  repeat split; [apply key_wf_slice|by rewrite key_bigram_slice| |].
  - rewrite key_len_slice by (done || lia). by apply Z.divide_sub_r.
  - apply take_ge. rewrite length_drop. rewrite key_len_units in * by done. unfold len. lia.
Qed.

Lemma floor_spec n : 0 <= n -> (ps | n / ps * ps) /\ 0 <= n / ps * ps <= n /\ n < n / ps * ps + ps.
Proof.
  intros Hn. split; [by apply Z.divide_mul_r, Z.divide_refl|].
  pose proof (floor_le n ps Hn Hps). pose proof (Z.mod_pos_bound n ps ltac:(lia)).
  pose proof (Z.div_mod n ps ltac:(lia)). lia.
Qed.

Lemma divide_gap a b : (ps | a) -> (ps | b) -> a < b -> a + ps <= b.
Proof.
  intros Ha Hb Hab. assert ((ps | b - a)) by by apply Z.divide_sub_r.
  assert (ps <= b - a) by (apply Z.divide_pos_le; [lia|done]). lia.
Qed.

(** ** States reached by lookups: nothing is lost *)

Record evolves s L s' L' (held : list nat) : Prop := mkEvolves {
  ev_inv : Inv cfg s' L' held;
  ev_root : root_node s' = root_node s;
  ev_sub i : i ∈ L -> i ∈ L';
  ev_desc ek a us vs j : live s L a -> Desc cfg s ek a us vs j -> Desc cfg s' ek a us vs j;
  ev_content ek us vs : content cfg s ek us vs <-> content cfg s' ek us vs;
  ev_slots : concat (val s' <$> L') ≡ₚ concat (val s <$> L);
  ev_kv : rx_kv s' = rx_kv s;
  ev_sizes : evictable_size_ s' = evictable_size_ s /\ protected_size_ s' = protected_size_ s;
  ev_lock i : i ∈ L -> lck s' i = lck s i;
}.

Lemma evolves_cosmetic s s' L held : Inv cfg s L held -> cosmetic s s' -> evolves s L s' L held.
Proof.
  intros HI Hc. constructor; try apply Hc; try done.
  - by eapply cosmetic_Inv.
  - intros. by eapply cosmetic_Desc.
  - intros. by apply cosmetic_content.
  - replace (val s' <$> L) with (val s <$> L); [done|].
    apply list_fmap_ext. intros. symmetry. by apply cosmetic_val.
  - split; apply Hc.
  - intros. apply Hc.
Qed.

Lemma evolves_trans s1 L1 s2 L2 s3 L3 held :
  evolves s1 L1 s2 L2 held -> evolves s2 L2 s3 L3 held -> evolves s1 L1 s3 L3 held.
Proof.
  intros E1 E2. constructor.
  - apply E2.
  - etrans; [apply E2|apply E1].
  - intros i Hi. by apply (ev_sub _ _ _ _ _ E2), (ev_sub _ _ _ _ _ E1).
  - intros ek a us vs j Ha Hd. apply E2; [|by apply E1].
    destruct Ha as [->|Ha]; [left; symmetry; apply E1|right; by apply (ev_sub _ _ _ _ _ E1)].
  - intros. rewrite (ev_content _ _ _ _ _ E1). apply E2.
  - etrans; [apply E2|apply E1].
  - etrans; [apply E2|apply E1].
  - destruct (ev_sizes _ _ _ _ _ E1), (ev_sizes _ _ _ _ _ E2). split; congruence.
  - intros i Hi. rewrite (ev_lock _ _ _ _ _ E2) by (by apply (ev_sub _ _ _ _ _ E1)). by apply (ev_lock _ _ _ _ _ E1).
Qed.

Lemma evolves_split s s' L held c p sp :
  Inv cfg s L held -> Split cfg s s' c p sp -> c ∈ L -> par s c = Some p ->
  0 < sp < klen s c -> (ps | sp) -> evolves s L s' (length (nodes s) :: L) held.
Proof.
  intros HI HS Hc Hp Hsp Hd. constructor; try apply HS.
  - by eapply split_Inv.
  - intros i. by right.
  - intros. by eapply (split_Desc_to cfg Hps HI HS).
  - intros. by eapply (split_content cfg Hps HI HS).
  - by eapply (split_slots cfg Hps HI HS).
  - split; apply HS.
  - intros i Hi. apply HS. intros ->. pose proof (inv_bound _ _ _ _ HI _ Hi). lia.
Qed.

(** No child goes on with the rest [K] of a key. *)
Definition stuck s (node : nat) (ek : option (list Z)) (K : list Unit_) : Prop :=
  K = [] \/ dict_get (ek, take (Z.to_nat ps) K) (chl s node) = None.

(** Where the walk is stuck, nothing longer is cached. *)
Lemma stuck_longest s L held ek U V node K us vs :
  Inv cfg s L held -> Desc cfg s ek (root_node s) U V node -> stuck s node ek K ->
  (ps | len K) -> content cfg s ek us vs -> us `prefix_of` U ++ K -> len us <= len U.
Proof.
  intros HI Hd Hst HK (U' & V' & j & n & Hd' & Hn & Hdn & -> & ->) Hpre.
  assert (Hr : live s L (root_node s)) by by left.
  destruct (Desc_units cfg HI _ _ _ _ _ Hr Hd) as [HdU _].
  destruct (Z.le_gt_cases (len (take n U')) (len U)) as [|Hgt]; [done|exfalso].
  assert (Hln : len (take n U') = Z.of_nat n) by (unfold len; rewrite length_take; lia).
  assert (Hdt : (ps | len (take n U'))) by by rewrite Hln.
  pose proof (divide_gap _ _ HdU Hdt Hgt) as Hgap.
  destruct Hpre as [rest Hpre].
  set (page := take (Z.to_nat ps) K).
  assert (HlK : ps <= len K).
  { apply (f_equal len) in Hpre. rewrite !len_app in Hpre. pose proof (len_nonneg rest).
    apply Z.divide_pos_le; [lia|done]. }
  assert (Hpage : U' = U ++ page ++ drop (length U + Z.to_nat ps) U').
  { rewrite <- (take_drop (length U + Z.to_nat ps) U') at 1. rewrite app_assoc. f_equal.
    transitivity (take (length U + Z.to_nat ps) (take n U')).
    { rewrite take_take. f_equal. unfold len in *. lia. }
    rewrite <- (take_app_le _ rest) by (unfold len in *; lia). rewrite <- Hpre.
    by rewrite take_app_add. }
  assert (Hlp : len page = ps) by (unfold page, len in *; rewrite length_take; lia).
  destruct (Desc_next cfg Hps HI _ _ _ _ _ _ _ _ _ _ Hr Hd Hd' Hpage Hlp) as (c & _ & _ & Hc & _).
  destruct Hst as [->|Hst]; [change (len (@nil Unit_)) with 0 in HlK; lia|].
  fold page in Hst. congruence.
Qed.

(** ** One step of the walk *)

(** The child filed under the key's first page shares at least that page;
    if it is not matched to its end, the next pages differ. *)
Lemma child_match s L held node key c :
  Inv cfg s L held -> live s L node -> good_key key -> 0 < key_len key ->
  dict_get (child_key ps key) (chl s node) = Some c ->
  exists P, key_match (nkey s c) key ps = Ret P /\ c ∈ L /\ par s c = Some node /\
    key_extra_key (nkey s c) = key_extra_key key /\
    0 < P /\ P <= klen s c /\ P <= key_len key /\ (ps | P) /\
    take (Z.to_nat P) (nunits s c) = take (Z.to_nat P) (units key) /\
    (P < klen s c -> P < key_len key ->
     take (Z.to_nat ps) (drop (Z.to_nat P) (nunits s c)) <>
     take (Z.to_nat ps) (drop (Z.to_nat P) (units key))).
Proof.
  intros HI Hn (Hwf & Hb & Hd) Hpos Hget.
  destruct (live_child cfg HI node _ _ Hn Hget) as (Hc & Hpar & Hck).
  destruct (inv_key _ _ _ _ HI c Hc) as (Hwf' & Hb' & Hpos' & Hd').
  assert (Hpk : ps <= key_len key) by (apply Z.divide_pos_le; done).
  assert (Hpc : ps <= klen s c) by (apply Z.divide_pos_le; done).
  rewrite (child_key_node cfg Hps HI c Hc), child_key_units in Hck by (done || lia).
  injection Hck as Hex Hpage.
  rewrite key_match_lcp by (done || congruence). fold (nunits s c).
  set (l := lcp (nunits s c) (units key)). unfold klen in *.
  rewrite key_len_units in Hpk, Hpc, Hpos, Hpos', Hd, Hd' by done.
  rewrite !key_len_units by done. fold (nunits s c) in *. unfold len in *.
  pose proof (lcp_le (nunits s c) (units key)) as Hle. fold l in Hle.
  assert (Hl : ps <= Z.of_nat l).
  { enough (Z.to_nat ps <= l)%nat by lia. apply lcp_agree; [lia..|done]. }
  destruct (floor_spec (Z.of_nat l) ltac:(lia)) as (Hfd & Hf & Hfu).
  assert (Hfp : 0 < Z.of_nat l / ps * ps).
  { pose proof (Z.div_le_lower_bound (Z.of_nat l) ps 1 ltac:(lia) ltac:(lia)). nia. }
  eexists. repeat split; try done; try lia.
  - apply lcp_agree; fold l; lia.
  - intros H1 H2 Hnext.
    assert (Hag : (Z.to_nat (Z.of_nat l / ps * ps) + Z.to_nat ps <= l)%nat); [|lia].
    pose proof (divide_gap _ _ Hfd Hd' H1). pose proof (divide_gap _ _ Hfd Hd H2).
    apply lcp_agree; [lia..|]. rewrite <- !take_take_drop, Hnext. f_equal.
    apply lcp_agree; fold l; lia.
Qed.

(** The walk enters a child matched to its end. *)
Lemma descend_full s L held ek U V node key c :
  Inv cfg s L held -> Desc cfg s ek (root_node s) U V node -> good_key key ->
  ek = key_extra_key key -> c ∈ L ->
  dict_get (child_key ps key) (chl s node) = Some c ->
  take (Z.to_nat (klen s c)) (nunits s c) = take (Z.to_nat (klen s c)) (units key) ->
  Desc cfg s ek (root_node s) (U ++ take (Z.to_nat (klen s c)) (units key)) (V ++ val s c) c.
Proof.
  intros HI Hd Hk -> Hc Hget Ht. rewrite <- Ht, (klen_units cfg HI c Hc).
  unfold len. rewrite Nat2Z.id, firstn_all. eapply Desc_snoc; [done|].
  destruct (child_extra cfg Hps HI node _ _ (Desc_live cfg HI _ _ _ _ _ (or_introl eq_refl) Hd) Hget)
    as [_ Hp]. rewrite Hp. by destruct (child_key ps key) as [e pg] eqn:E; injection E as <- <-.
Qed.

(** The walk splits a child matched only in part, and is stuck there. *)
Lemma descend_split s L held ek U V node key c P :
  Inv cfg s L held -> Desc cfg s ek (root_node s) U V node -> good_key key ->
  ek = key_extra_key key -> key_extra_key (nkey s c) = key_extra_key key -> c ∈ L ->
  par s c = Some node -> dict_get (child_key ps key) (chl s node) = Some c ->
  0 < P < klen s c -> P <= key_len key -> (ps | P) ->
  take (Z.to_nat P) (nunits s c) = take (Z.to_nat P) (units key) ->
  (P < key_len key -> take (Z.to_nat ps) (drop (Z.to_nat P) (nunits s c)) <>
     take (Z.to_nat ps) (drop (Z.to_nat P) (units key))) ->
  exists s', split_node cfg monotonic (nkey s c) c P s = (Ret (length (nodes s)), s') /\
    evolves s L s' (length (nodes s) :: L) held /\
    Desc cfg s' ek (root_node s') (U ++ take (Z.to_nat P) (units key))
      (V ++ val s' (length (nodes s))) (length (nodes s)) /\
    stuck s' (length (nodes s)) ek (drop (Z.to_nat P) (units key)).
Proof.
  intros HI Hd (Hwf & Hb & Hdk) Hek Hex Hc Hpar Hget HP HPk HdP Ht Hne.
  assert (Hnode : live s L node) by (eapply (Desc_live cfg HI); [by left|done]).
  destruct (inv_val _ _ _ _ HI c Hc) as (v & Hv & _).
  assert (Hcn : c <> node).
  { intros ->. destruct (inv_rank _ _ _ _ HI) as [rk Hrk]. pose proof (Hrk _ _ Hc Hpar). lia. }
  assert (Hnb : (node < length (nodes s))%nat).
  { destruct Hnode as [->|?]; [apply HI|by eapply (inv_bound _ _ _ _ HI)]. }
  destruct (split_node_spec cfg monotonic s c node v P) as (s' & Hrun & HS);
    [by eapply (inv_bound _ _ _ _ HI)|done..|].
  exists s'. split; [done|].
  pose proof (evolves_split s s' L held c node P HI HS Hc Hpar HP HdP) as Hev.
  assert (HP1 : 0 < P < klen s c) by lia.
  destruct (split_units cfg HI HS Hc HP1) as (Hun & Huc & _).
  destruct (split_child_key cfg Hps HI HS Hc HP1 HdP) as (Hckn & Hckc & Hen & Hec).
  destruct (live_child cfg HI node _ _ Hnode Hget) as (_ & _ & Hckk).
  split; [done|]. split.
  - rewrite <- Ht, <- Hun. rewrite (sp_root _ _ _ _ _ _ HS). eapply Desc_snoc.
    { apply (ev_desc _ _ _ _ _ Hev); [by left|done]. }
    rewrite (sp_p_chl _ _ _ _ _ _ HS).
    assert (Hin : length (nodes s) ∈ length (nodes s) :: L) by left.
    replace ek with (key_extra_key (nkey s' (length (nodes s)))) by congruence.
    rewrite <- (child_key_node cfg Hps (ev_inv _ _ _ _ _ Hev) _ Hin), Hckn. apply dict_get_set_eq.
  - destruct (decide (P < key_len key)) as [Hlt|]; cycle 1.
    { left. apply drop_ge. rewrite key_len_units in * by done. unfold len in *. lia. }
    right. rewrite (sp_new_chl _ _ _ _ _ _ HS), <- Hckc. cbn [dict_get]. rewrite decide_False; [done|].
    assert (Hin : c ∈ length (nodes s) :: L) by by right.
    rewrite (child_key_node cfg Hps (ev_inv _ _ _ _ _ Hev) _ Hin), Huc.
    intros E. injection E as _ E. by apply Hne.
Qed.

(** ** The lookup loop *)

Lemma match_loop_correct held fuel t s L value node key ck U :
  Inv cfg s L held -> good_key key -> key_len key < Z.of_nat fuel ->
  (0 < key_len key -> ck = child_key ps key) ->
  Desc cfg s (key_extra_key key) (root_node s) U (concat value) node ->
  exists value' node' s' L' U' K,
    match_loop cfg monotonic fuel t value node key ck s = (Ret (value', node'), s') /\
    evolves s L s' L' held /\
    Desc cfg s' (key_extra_key key) (root_node s') (U ++ U') (concat value') node' /\
    units key = U' ++ K /\ stuck s' node' (key_extra_key key) K.
Proof.
  revert s L value node key ck U.
  induction fuel as [|fuel IH]; intros s L value node key ck U HI Hk Hfuel Hck Hd;
    pose proof Hk as (Hwf & Hb & Hdk); pose proof (key_len_units key Hwf) as Hlen;
    pose proof (len_nonneg (units key)); [lia|].
  assert (Hnode : live s L node) by (eapply (Desc_live cfg HI); [by left|done]).
  cbn [match_loop]. unfold mbind, M_bind, get. fold (chl s node).
  assert (Hstop : stuck s node (key_extra_key key) (units key) ->
    exists value' node' s' L' U' K, (Ret (value, node), s) = (Ret (value', node'), s') /\
    evolves s L s' L' held /\
    Desc cfg s' (key_extra_key key) (root_node s') (U ++ U') (concat value') node' /\
    units key = U' ++ K /\ stuck s' node' (key_extra_key key) K).
  { intros Hst. exists value, node, s, L, [], (units key). rewrite app_nil_r.
    split; [done|]. split; [by apply evolves_cosmetic|done]. }
  destruct (0 <? key_len key) eqn:Hpos; breflect; cycle 1.
  { apply Hstop. left. apply nil_length_inv. unfold len in *. lia. }
  rewrite (Hck Hpos).
  destruct (dict_get (child_key ps key) (chl s node)) as [c|] eqn:Hget; cycle 1.
  { apply Hstop. right. rewrite child_key_units in Hget; [done..|].
    split; [lia|]. by apply Z.divide_pos_le. }
  clear Hstop.
  set (s1 := upd c (set_tn_last_access_time t) s).
  assert (Hcos : cosmetic s s1) by by apply cosmetic_upd.
  assert (HI1 : Inv cfg s1 L held) by by eapply cosmetic_Inv.
  assert (Hd1 : Desc cfg s1 (key_extra_key key) (root_node s1) U (concat value) node).
  { rewrite (cs_root _ _ Hcos). by eapply cosmetic_Desc. }
  assert (Hn1 : live s1 L node) by (eapply (Desc_live cfg HI1); [by left|done]).
  rewrite <- (cs_chl _ _ Hcos) in Hget.
  destruct (child_match s1 L held node key c HI1 Hn1 Hk Hpos Hget)
    as (P & Hm & Hc & Hpar & Hex & HP0 & HPc & HPk & HPd & Ht & Hne).
  unfold modify, of_outcome. cbn [fst snd]. fold s1. fold (nkey s c).
  rewrite <- (cs_key _ _ Hcos c), Hm. fold (klen s1 c).
  rewrite <- (cosmetic_val _ _ c Hcos).
  assert (Hev1 : evolves s L s1 L held) by by apply evolves_cosmetic.
  destruct (P <? klen s1 c) eqn:Hlt; breflect.
  - destruct (descend_split s1 L held _ _ _ _ _ _ P HI1 Hd1 Hk eq_refl Hex Hc Hpar Hget
      ltac:(lia) HPk HPd Ht (Hne Hlt)) as (s2 & -> & Hev & Hd2 & Hst).
    eexists _, _, s2, _, (take (Z.to_nat P) (units key)), (drop (Z.to_nat P) (units key)).
    split; [reflexivity|]. rewrite concat_app. cbn [concat]. rewrite app_nil_r, take_drop.
    split; [by eapply evolves_trans|done].
  - assert (P = klen s1 c) as -> by lia.
    destruct (good_key_slice key (klen s1 c) Hk ltac:(lia) HPd) as (Hgk & Hu & Hl).
    assert (Hext : key_extra_key (key_slice key (klen s1 c) (key_len key)) = key_extra_key key)
      by apply key_extra_slice.
    edestruct (IH s1 L (value ++ [val s1 c]) c (key_slice key (klen s1 c) (key_len key)))
      as (value' & node' & s' & L' & U' & K & Hrun & Hev & Hd' & HuK & Hst); [done|done|lia| | |].
    + instantiate (1 := if 0 <? key_len (key_slice key (klen s1 c) (key_len key))
        then child_key ps (key_slice key (klen s1 c) (key_len key)) else child_key ps key).
      intros Hp'. by rewrite (proj2 (Z.ltb_lt _ _) Hp').
    + rewrite Hext, concat_app. cbn [concat]. rewrite app_nil_r.
      by apply (descend_full s1 L held _ U _ node key c).
    + rewrite Hext in *. eexists _, _, s', L', (take (Z.to_nat (klen s1 c)) (units key) ++ U'), K.
      split; [exact Hrun|]. split; [by eapply evolves_trans|]. split; [by rewrite app_assoc|].
      split; [|done]. rewrite <- app_assoc, <- HuK, Hu. by rewrite take_drop.
Qed.

(** ** [match_prefix] *)

(** The key a lookup or an insertion works on: bigram view when the cache
    is for EAGLE, then whole pages. *)
Definition query_key (key : RadixKey) : RadixKey :=
  page_aligned ps (maybe_to_bigram_view (is_eagle cfg) None key).1.

(** A caller's key: its cap is a length and it is a bigram view only in an
    EAGLE cache. *)
Definition client_key (key : RadixKey) : Prop :=
  key_wf key /\ (key_is_bigram key = true -> is_eagle cfg = true).

Lemma bigram_view_key v key : (maybe_to_bigram_view (is_eagle cfg) v key).1 =
  if is_eagle cfg && negb (key_is_bigram key)
  then mkKey (key_token_ids key) (key_extra_key key) true (key_limit key) else key.
Proof. unfold maybe_to_bigram_view. by case_if. Qed.

Lemma query_key_good key :
  client_key key -> good_key (query_key key) /\ key_extra_key (query_key key) = key_extra_key key.
Proof.
  intros [Hwf Hb]. unfold query_key. rewrite bigram_view_key.
  set (k := if is_eagle cfg && negb (key_is_bigram key)
    then mkKey (key_token_ids key) (key_extra_key key) true (key_limit key) else key).
  assert (Hk : key_wf k /\ key_extra_key k = key_extra_key key /\ key_is_bigram k = is_eagle cfg).
  { subst k. destruct (is_eagle cfg), (key_is_bigram key) eqn:E; cbn; naive_solver. }
  destruct Hk as (Hk & He & Hkb). destruct (page_aligned_facts ps k Hk Hps) as (? & ? & ? & Hl).
  repeat split; [done|congruence| |congruence]. rewrite Hl. by apply Z.divide_mul_r, Z.divide_refl.
Qed.

(** [vs] are the slots of the longest cached prefix of [K]. *)
Definition longest s (ek : option (list Z)) (K : list Unit_) (vs : list Z) : Prop :=
  content cfg s ek (take (length vs) K) vs /\
  forall us vs', content cfg s ek us vs' -> us `prefix_of` K -> len us <= len vs.

Lemma Desc_content s L held ek U V j :
  Inv cfg s L held -> Desc cfg s ek (root_node s) U V j -> content cfg s ek U V.
Proof.
  intros HI Hd. destruct (Desc_units cfg HI _ _ _ _ _ (or_introl eq_refl) Hd) as [Hdiv Hl].
  exists U, V, j, (length U). unfold len in Hl.
  replace (take (length U) V) with V by (rewrite take_ge; [done|lia]).
  rewrite firstn_all. repeat split; done.
Qed.

(** A walk that ends stuck has found the longest prefix. *)
Lemma stuck_is_longest s L held ek U V K node :
  Inv cfg s L held -> Desc cfg s ek (root_node s) U V node -> stuck s node ek K ->
  (ps | len (U ++ K)) -> longest s ek (U ++ K) V.
Proof.
  intros HI Hd Hst Hdiv.
  destruct (Desc_units cfg HI _ _ _ _ _ (or_introl eq_refl) Hd) as [HdU Hl].
  assert (Hn : length V = length U) by (unfold len in Hl; lia).
  split.
  - rewrite Hn, take_app_le, firstn_all by lia. by eapply Desc_content.
  - intros us vs' Hc Hpre. rewrite Hl. eapply stuck_longest; eauto.
    rewrite len_app in Hdiv. by apply (Z.divide_add_cancel_r _ (len U)).
Qed.

Lemma longest_ext s s' ek K vs :
  (forall us ws, content cfg s ek us ws <-> content cfg s' ek us ws) ->
  longest s ek K vs -> longest s' ek K vs.
Proof.
  intros Hc [H1 H2]. split; [by apply Hc|]. intros us vs' Hx. eapply H2. by apply Hc.
Qed.

Lemma rx_match_prefix_spec s L held key :
  Inv cfg s L held -> client_key key -> rx_disable cfg = false ->
  exists r s' L', rx_match_prefix cfg monotonic key s = (Ret r, s') /\
    evolves s L s' L' held /\
    longest s (key_extra_key key) (units (query_key key)) (rm_device_indices r) /\
    Desc cfg s' (key_extra_key key) (root_node s')
      (take (length (rm_device_indices r)) (units (query_key key)))
      (rm_device_indices r) (rm_last_device_node r).
Proof.
  intros HI Hk Hdis. destruct (query_key_good key Hk) as [Hg Hex].
  pose proof Hg as (Hwf & _ & Hdiv). pose proof (key_len_units _ Hwf) as Hlen.
  unfold rx_match_prefix, mbind, M_bind, get. rewrite Hdis. cbn [orb].
  fold (query_key key).
  assert (Hempty : units (query_key key) = [] ->
    exists r s' L', (Ret (mkRadixMatch [] (root_node s)), s) = (Ret r, s') /\
    evolves s L s' L' held /\
    longest s (key_extra_key key) (units (query_key key)) (rm_device_indices r) /\
    Desc cfg s' (key_extra_key key) (root_node s')
      (take (length (rm_device_indices r)) (units (query_key key)))
      (rm_device_indices r) (rm_last_device_node r)).
  { intros Hnil. exists (mkRadixMatch [] (root_node s)), s, L. split; [done|].
    split; [by apply evolves_cosmetic|]. rewrite Hnil. cbn. split; [|constructor].
    split; [eapply (Desc_content _ _ _ _ _ _ (root_node s) HI); constructor|].
    intros us vs' _ Hpre. apply prefix_nil_inv in Hpre as ->. done. }
  assert (H0 : key_len (query_key key) = 0 -> units (query_key key) = []).
  { intros E. apply nil_length_inv. unfold len in *. lia. }
  case_if.
  { apply Hempty, H0. unfold query_key. breflect.
    destruct Hk as [Hkw _].
    assert (Hk' : key_wf (maybe_to_bigram_view (is_eagle cfg) None key).1).
    { rewrite bigram_view_key. by case_if. }
    destruct (page_aligned_facts ps _ Hk' Hps) as (_ & _ & _ & ->). by rewrite Heqb. }
  case_if; breflect; [by apply Hempty, H0|]. clear Hempty.
  unfold match_prefix_helper, rx_time, lift, modify, mbind, M_bind. cbn -[match_loop upd].
  set (t := monotonic _). set (s0 := set_rx_clock_reads _ s).
  set (s1 := upd (root_node s) (set_tn_last_access_time t) s0).
  assert (Hcos : cosmetic s s1).
  { transitivity s0; [apply cosmetic_clock|by apply cosmetic_upd]. }
  pose proof (evolves_cosmetic _ _ _ _ HI Hcos) as Hev1.
  edestruct (match_loop_correct held (S (Z.to_nat (key_len (query_key key)))) t s1 L []
    (root_node s) (query_key key) (child_key ps (query_key key)) [])
    as (value' & node' & s' & L' & U' & K & Hrun & Hev & Hd & HuK & Hst).
  - apply Hev1.
  - done.
  - pose proof (len_nonneg (units (query_key key))). lia.
  - done.
  - change (root_node s1) with (root_node s). constructor.
  - rewrite Hrun. exists (mkRadixMatch (concat value') node'), s', L'. split; [done|]. cbn.
    rewrite Hex in *. cbn [app] in Hd.
    pose proof (evolves_trans _ _ _ _ _ _ _ Hev1 Hev) as Hevt.
    destruct (Desc_units cfg (ev_inv _ _ _ _ _ Hev) _ _ _ _ _ (or_introl eq_refl) Hd) as [_ HlU].
    split; [done|]. split.
    + eapply longest_ext; [intros; symmetry; apply Hevt|]. rewrite HuK.
      eapply stuck_is_longest; [apply Hev|done|done|]. by rewrite <- HuK, <- Hlen.
    + rewrite HuK, take_app_le, take_ge by (unfold len in *; lia). done.
Qed.

End ops.
