(* ===== verification/RadixInsert.v ===== *)
(** * Insertion into the radix tree

    The walk of [_insert_helper] ends where [match_prefix] would end; the
    unmatched rest of the key becomes one new leaf.  The cached content
    grows by exactly the prefixes of the inserted key, and the returned
    length is that of the prefix that was cached before. *)

From stdpp Require Import gmap.
From S2P Require Import Prelude PyDict Allocator RadixKey RadixTree RadixShape RadixSplit RadixOps.

Section insert.
Context {KV : Type} `{AllocatorOps KV}.
Variable cfg : RadixConfig.
Implicit Types s : Radix KV.

#[local] Abbreviation ps := (page_size cfg).

(** ** The walk *)

Section walk.
Variable monotonic : nat -> Z.
Hypothesis Hps : 1 <= ps.

(** The node the walk goes on from after one step: the child itself or the
    new node that splits it, with the rest of the key. *)
Lemma insert_step s L held U V node key c P t prio chunked :
  Inv cfg s L held -> Desc cfg s (key_extra_key key) (root_node s) U V node ->
  good_key cfg key -> 0 < key_len key -> dict_get (child_key ps key) (chl s node) = Some c ->
  key_match (nkey s c) key ps = Ret P ->
  exists node' s' L' V',
    (if P <? klen s c then
       nn ← split_node cfg monotonic (nkey s c) c P;
       modify (upd nn (raise_priority prio));; modify (inc_hit_count nn chunked);; mret nn
     else
       modify (upd c (raise_priority prio));; modify (inc_hit_count c chunked);; mret c)
      (upd c (set_tn_last_access_time t) s) = (Ret node', s') /\
    evolves cfg s L s' L' held /\ 0 < P <= key_len key /\ (ps | P) /\
    Desc cfg s' (key_extra_key key) (root_node s')
      (U ++ take (Z.to_nat P) (units key)) (V ++ V') node'.
Proof.
  intros HI Hd Hk Hpos Hget Hm.
  set (s1 := upd c (set_tn_last_access_time t) s).
  assert (Hcos : cosmetic s s1) by by apply cosmetic_upd.
  pose proof (evolves_cosmetic cfg _ _ _ _ HI Hcos) as Hev1. pose proof (ev_inv _ _ _ _ _ _ Hev1) as HI1.
  assert (Hd1 : Desc cfg s1 (key_extra_key key) (root_node s1) U V node).
  { rewrite (cs_root _ _ Hcos). by eapply cosmetic_Desc. }
  assert (Hn1 : live s1 L node) by (eapply (Desc_live cfg HI1); [by left|done]).
  rewrite <- (cs_chl _ _ Hcos) in Hget. rewrite <- (cs_key _ _ Hcos) in Hm.
  destruct (child_match cfg Hps s1 L held node key c HI1 Hn1 Hk Hpos Hget)
    as (P' & Hm' & Hc & Hpar & Hex & HP0 & HPc & HPk & HPd & Ht & Hne).
  assert (P' = P) as -> by congruence.
  unfold klen. rewrite <- (cs_key _ _ Hcos). fold (klen s1 c).
  destruct (P <? klen s1 c) eqn:Hlt; breflect; unfold mbind, M_bind, modify.
  - destruct (descend_split cfg monotonic Hps s1 L held _ _ _ _ _ _ P HI1 Hd1 Hk eq_refl Hex Hc Hpar
      Hget ltac:(lia) HPk HPd Ht (Hne Hlt)) as (s2 & -> & Hev & Hd2 & Hst).
    set (nn := length (nodes s1)) in *.
    assert (Hcos2 : cosmetic s2 (inc_hit_count nn chunked (upd nn (raise_priority prio) s2))).
    { transitivity (upd nn (raise_priority prio) s2); [by apply cosmetic_upd|apply cosmetic_inc_hit]. }
    eexists nn, _, _, _. split; [reflexivity|].
    split; [|split; [lia|split; [done|rewrite (cs_root _ _ Hcos2); by eapply cosmetic_Desc]]].
    eapply evolves_trans; [done|]. eapply evolves_trans; [done|].
    eapply evolves_cosmetic; [apply Hev|done].
  - assert (P = klen s1 c) as -> by lia.
    assert (Hcos2 : cosmetic s1 (inc_hit_count c chunked (upd c (raise_priority prio) s1))).
    { transitivity (upd c (raise_priority prio) s1); [by apply cosmetic_upd|apply cosmetic_inc_hit]. }
    eexists c, _, L, _. split; [reflexivity|].
    split; [|split; [lia|split; [done|rewrite (cs_root _ _ Hcos2); eapply cosmetic_Desc; [done|]]]].
    + eapply evolves_trans; [done|]. by eapply evolves_cosmetic.
    + by apply (descend_full cfg Hps s1 L held _ U _ node key c).
Qed.

Lemma insert_loop_correct held fuel t prio chunked s L node key value ck tot U V :
  Inv cfg s L held -> good_key cfg key -> key_len key < Z.of_nat fuel ->
  (0 < key_len key -> ck = child_key ps key) -> len value = key_len key ->
  Desc cfg s (key_extra_key key) (root_node s) U V node ->
  exists node' key' value' ck' s' L' U' V',
    insert_loop cfg monotonic fuel t prio chunked node key value ck tot s =
      (Ret (node', key', value', ck', tot + len U'), s') /\
    evolves cfg s L s' L' held /\
    Desc cfg s' (key_extra_key key) (root_node s') (U ++ U') (V ++ V') node' /\
    units key = U' ++ units key' /\ stuck cfg s' node' (key_extra_key key) (units key') /\
    good_key cfg key' /\ key_extra_key key' = key_extra_key key /\
    value' = drop (length U') value /\ (0 < key_len key' -> ck' = child_key ps key').
Proof.
  revert s L node key value ck tot U V.
  induction fuel as [|fuel IH]; intros s L node key value ck tot U V HI Hk Hfuel Hck Hv Hd;
    pose proof Hk as (Hwf & Hb & Hdk); pose proof (key_len_units key Hwf) as Hlen;
    pose proof (len_nonneg (units key)); [lia|].
  cbn [insert_loop]. rewrite (bind_run get _ s s s) by done. fold (chl s node).
  destruct (if 0 <? key_len key then dict_get ck (chl s node) else None) as [c|] eqn:Hget; cycle 1.
  { exists node, key, value, ck, s, L, [], []. rewrite !app_nil_r. change (len (@nil Unit_)) with 0.
    rewrite Z.add_0_r. split; [done|]. split; [by apply evolves_cosmetic|]. split; [done|].
    split; [done|]. split; [|done].
    destruct (0 <? key_len key) eqn:Hpos; breflect.
    - right. rewrite (Hck Hpos), child_key_units in Hget; [done..|].
      split; [lia|]. by apply Z.divide_pos_le.
    - left. apply nil_length_inv. unfold len in *. lia. }
  destruct (0 <? key_len key) eqn:Hpos; [|done]. breflect. rewrite (Hck Hpos) in Hget.
  destruct (child_match cfg Hps s L held node key c) as (P & Hm & _); [done| |done..|].
  { eapply (Desc_live cfg HI); [by left|done]. }
  destruct (insert_step s L held U V node key c P t prio chunked HI Hd Hk Hpos Hget Hm)
    as (n1 & s1 & L1 & V1 & Hrun & Hev & HP & HPd & Hd1).
  destruct (good_key_slice cfg key P Hk ltac:(lia) HPd) as (Hgk & Hu & Hl).
  set (key1 := key_slice key P (key_len key)) in *.
  assert (Hex : key_extra_key key1 = key_extra_key key) by apply key_extra_slice.
  assert (Hv1 : slice_from value P = drop (Z.to_nat P) value).
  { unfold slice_from, pyidx. rewrite (proj2 (Z.ltb_ge P 0)) by lia. f_equal. lia. }
  destruct (IH s1 L1 n1 key1 (slice_from value P)
    (if 0 <? key_len key1 then child_key ps key1 else ck) (tot + P) (U ++ take (Z.to_nat P) (units key)) (V ++ V1))
    as (n2 & key2 & v2 & ck2 & s2 & L2 & U2 & V2 & Hrun2 & Hev2 & Hd2 & Hu2 & Hst & Hgk2 & Hex2 & Hv2 & Hck2).
  { apply Hev. } { done. } { lia. }
  { intros Hp'. by rewrite (proj2 (Z.ltb_lt _ _) Hp'). }
  { rewrite len_slice_from; lia. } { by rewrite Hex. }
  rewrite Hex in *.
  assert (HlP : length (take (Z.to_nat P) (units key)) = Z.to_nat P)
    by (rewrite length_take; unfold len in *; lia).
  exists n2, key2, v2, ck2, s2, L2, (take (Z.to_nat P) (units key) ++ U2), (V1 ++ V2).
  split.
  { rewrite bind_modify. fold (nkey s c). rewrite Hm, (bind_run (of_outcome _) _ _ P _ eq_refl).
    fold (klen s c) key1. rewrite (bind_run _ _ _ _ _ Hrun), Hrun2. f_equal. f_equal. f_equal.
    rewrite len_app. unfold len at 2. rewrite HlP. lia. }
  split; [by eapply evolves_trans|]. rewrite <- !app_assoc in Hd2.
  split; [by rewrite ?app_assoc in *|]. rewrite <- app_assoc, <- Hu2, Hu, take_drop.
  split; [done|]. split; [done|]. split; [done|]. split; [done|]. split; [|done]. rewrite Hv2, Hv1, drop_drop, length_app, HlP. done.
Qed.

End walk.

(** ** The new leaf *)

(** [lv] are the evictable leaves it leaves. *)
Record Leaf s s' (node : nat) (key : RadixKey) (value : list Z) (lv : gset nat) : Prop := mkLeaf {
  lf_kv : rx_kv s' = rx_kv s;
  lf_len : length (nodes s') = S (length (nodes s));
  lf_root : root_node s' = root_node s;
  lf_ev : evictable_size_ s' = evictable_size_ s + key_len key;
  lf_pr : protected_size_ s' = protected_size_ s;
  lf_lv : evictable_leaves s' = lv;
  lf_new_chl : chl s' (length (nodes s)) = [];
  lf_new_par : par s' (length (nodes s)) = Some node;
  lf_new_lck : lck s' (length (nodes s)) = 0;
  lf_new_key : nkey s' (length (nodes s)) = key;
  lf_new_val : tn_value (node_at s' (length (nodes s))) = Some value;
  lf_node_chl : chl s' node = dict_set (child_key ps key) (length (nodes s)) (chl s node);
  lf_old_chl i : i <> length (nodes s) -> i <> node -> chl s' i = chl s i;
  lf_old i : i <> length (nodes s) -> par s' i = par s i /\ nkey s' i = nkey s i /\
    tn_value (node_at s' i) = tn_value (node_at s i) /\ lck s' i = lck s i;
}.

(** [update_leaf_status] on a node with a child whose value is present, and
    on an unlocked node without children. *)
Lemma update_leaf_status_parent s i k c :
  (k, c) ∈ chl s i -> evicted (node_at s c) = false ->
  update_leaf_status i s = set_evictable_leaves (evictable_leaves s ∖ {[i]}) s.
Proof.
  intros Hin Hc. unfold update_leaf_status. case_if; [done|].
  rewrite (proj2 (existsb_exists _ _)); [done|]. exists c. rewrite Hc. split; [|done].
  rewrite <- list_elem_of_In. by apply (list_elem_of_fmap_2 snd _ (k, c)).
Qed.

Lemma update_leaf_status_leaf s i :
  evicted (node_at s i) = false -> lck s i = 0 -> chl s i = [] ->
  update_leaf_status i s = set_evictable_leaves ({[i]} ∪ evictable_leaves s) s.
Proof.
  unfold lck, chl. intros He Hl Hc. unfold update_leaf_status. by rewrite He, Hl, Hc.
Qed.

(** The node is built and linked. *)
Lemma insert_leaf_link monotonic s node key value prio chunked :
  (node < length (nodes s))%nat ->
  exists s4, insert_leaf monotonic node key value (child_key ps key) prio chunked s =
      (Ret tt, update_leaf_status (length (nodes s)) (update_leaf_status node s4)) /\
    Leaf s s4 node key value (evictable_leaves s).
Proof.
  intros Hn. unfold insert_leaf, mbind, M_bind.
  destruct (new_tree_node_spec monotonic s prio)
    as (s0 & -> & Hl & Hr & Hk & He & Hpr & Hlv & Hold & t & t' & Hnew).
  set (nn := length (nodes s)) in *. unfold modify. eexists. split; [reflexivity|].
  set (s1 := upd nn _ (upd nn _ (upd nn _ s0))).
  assert (Hcos : cosmetic s1 (inc_hit_count nn chunked s1)) by apply cosmetic_inc_hit.
  assert (Hnn : node_at s1 nn = mkNode [] (Some node) key (Some value) 0 t t' 0 None prio).
  { subst s1. repeat (rewrite node_at_upd by (rewrite ?len_upd; lia)).
    rewrite !decide_True by done. by rewrite Hnew. }
  assert (Ho1 : forall i, i <> nn -> node_at s1 i = node_at s i).
  { intros i Hi. subst s1. repeat (rewrite node_at_upd by (rewrite ?len_upd; lia)).
    rewrite !decide_False by done. by apply Hold. }
  assert (Hl1 : length (nodes s1) = S nn) by (subst s1; by rewrite !len_upd).
  assert (Hg : rx_kv s1 = rx_kv s /\ root_node s1 = root_node s /\ evictable_size_ s1 = evictable_size_ s /\
    protected_size_ s1 = protected_size_ s /\ evictable_leaves s1 = evictable_leaves s) by done.
  clearbody s1. set (s2 := inc_hit_count nn chunked s1) in *. clearbody s2.
  pose proof (cs_len _ _ Hcos) as Hl2. set (f := fun n => set_tn_children _ n).
  assert (H3 : forall i, node_at (upd node f s2) i = if decide (node = i) then f (node_at s2 i) else node_at s2 i).
  { intros i. apply node_at_upd. lia. }
  destruct Hg as (Hg1 & Hg2 & Hg3 & Hg4 & Hg5).
  pose proof (cs_chl _ _ Hcos) as Hc1. pose proof (cs_par _ _ Hcos) as Hc2.
  pose proof (cs_key _ _ Hcos) as Hc3. pose proof (cs_val _ _ Hcos) as Hc4.
  pose proof (cs_lck _ _ Hcos) as Hc5. unfold chl, par, nkey, lck in *.
  constructor; unfold chl, par, nkey, lck; cbn -[upd]; change (nodes (upd node f s2)) with (alter f node (nodes s2));
    rewrite ?length_alter, ?Hl2, ?Hl1; try done;
    try (intros i Hi); try (intros Hi'); change (node_at (set_evictable_size ?v ?st) ?k) with (node_at st k);
    rewrite ?H3; repeat case_decide; subst; try lia; cbn;
    rewrite ?Hc1, ?Hc2, ?Hc3, ?Hc4, ?Hc5, ?Hnn, ?Ho1 by lia; try done.
  all: try (fold nn; by rewrite Hnn).
  - by rewrite (cs_kv _ _ Hcos).
  - by rewrite (cs_root _ _ Hcos).
  - by rewrite (cs_ev _ _ Hcos), Hg3.
  - by rewrite (cs_pr _ _ Hcos).
  - by rewrite (cs_lv _ _ Hcos).
Qed.

Lemma insert_leaf_spec monotonic s node key value prio chunked :
  (node < length (nodes s))%nat ->
  exists s', insert_leaf monotonic node key value (child_key ps key) prio chunked s = (Ret tt, s') /\
    Leaf s s' node key value ({[length (nodes s)]} ∪ (evictable_leaves s ∖ {[node]})).
Proof.
  intros Hn. destruct (insert_leaf_link monotonic s node key value prio chunked Hn) as (s4 & -> & HL).
  eexists. split; [reflexivity|]. set (nn := length (nodes s)) in *.
  pose proof (lf_new_val _ _ _ _ _ _ HL) as Hv. fold nn in Hv.
  assert (Hev : evicted (node_at s4 nn) = false) by (unfold evicted; by rewrite Hv).
  rewrite (update_leaf_status_parent s4 node (child_key ps key) nn); [|..|done].
  2: { rewrite (lf_node_chl _ _ _ _ _ _ HL). apply dict_get_elem, dict_get_set_eq. }
  rewrite update_leaf_status_leaf; [|done|apply HL|apply HL].
  constructor; try apply HL. cbn. by rewrite (lf_lv _ _ _ _ _ _ HL).
Qed.

Section after.
Hypothesis Hps : 1 <= ps.
Context {s s' : Radix KV} {L held : list nat} {node : nat} {key : RadixKey} {value : list Z}.
Context {U : list Unit_} {V : list Z}.
Context (HI : Inv cfg s L held)
  (HL : Leaf s s' node key value ({[length (nodes s)]} ∪ (evictable_leaves s ∖ {[node]}))).
Context (Hd : Desc cfg s (key_extra_key key) (root_node s) U V node).
Context (Hk : good_key cfg key) (Hpos : 0 < key_len key) (Hv : len value = key_len key).
Context (Hst : stuck cfg s node (key_extra_key key) (units key)).

#[local] Abbreviation nn := (length (nodes s)).

Lemma leaf_node : live s L node /\ dict_get (child_key ps key) (chl s node) = None /\
  ps <= key_len key /\
  (node = root_node s \/ node ∈ L /\ key_extra_key key = key_extra_key (nkey s node)).
Proof.
  assert (Hr : live s L (root_node s)) by by left.
  pose proof (Desc_live cfg HI _ _ _ _ _ Hr Hd) as Hn. destruct Hk as (Hwf & _ & Hdiv).
  assert (ps <= key_len key) by by apply Z.divide_pos_le.
  split; [done|]. split; [|split; [done|]].
  - rewrite child_key_units by (done || lia). destruct Hst as [E|]; [|done].
    rewrite key_len_units, E in Hpos by done. change (len (@nil Unit_)) with 0 in Hpos. lia.
  - destruct (Desc_last cfg _ _ _ _ _ Hd) as [(-> & _)|(p & us0 & vs0 & Hp & Hc & _)]; [by left|right].
    pose proof (Desc_live cfg HI _ _ _ _ _ Hr Hp) as Hpl.
    destruct (live_child cfg HI p _ _ Hpl Hc) as (? & _). split; [done|].
    by destruct (child_extra cfg Hps HI p _ _ Hpl Hc) as [-> _].
Qed.

Lemma leaf_fresh : nn ∉ L /\ nn <> root_node s /\ nn <> node /\ forall i, live s L i -> i <> nn.
Proof.
  pose proof (inv_bound _ _ _ _ HI) as Hb. pose proof (inv_root_bound _ _ _ _ HI) as Hrb.
  assert (Hlv : forall i, live s L i -> i <> nn).
  { intros i [->|Hi]; [lia|]. pose proof (Hb i Hi). lia. }
  split; [intros Hx; by apply (Hlv nn (or_intror Hx))|]. split; [lia|]. split; [|done].
  intros E. apply (Hlv node); [apply leaf_node|done].
Qed.

(** Old nodes are as they were. *)
Lemma leaf_old i : i <> nn -> par s' i = par s i /\ nkey s' i = nkey s i /\ val s' i = val s i /\
  lck s' i = lck s i /\ klen s' i = klen s i /\ nunits s' i = nunits s i /\
  tn_value (node_at s' i) = tn_value (node_at s i).
Proof.
  intros Hi. destruct (lf_old _ _ _ _ _ _ HL i Hi) as (Hp & Hkk & Hvv & Hl).
  unfold val, klen, nunits. by rewrite Hp, Hkk, Hvv, Hl.
Qed.

Lemma leaf_chl_elem q k d : live s L q -> (k, d) ∈ chl s' q ->
  (q = node /\ k = child_key ps key /\ d = nn) \/ (k, d) ∈ chl s q.
Proof.
  intros Hq Hkd. destruct leaf_fresh as (_ & _ & _ & Hf).
  destruct (decide (q = node)) as [->|]; [|right; rewrite (lf_old_chl _ _ _ _ _ _ HL) in Hkd; auto].
  rewrite (lf_node_chl _ _ _ _ _ _ HL) in Hkd.
  destruct (dict_set_elem _ _ _ _ _ (proj1 (inv_chl _ _ _ _ HI node Hq)) Hkd) as [[-> ->]|[_ ?]]; auto.
Qed.

Lemma leaf_chl_wf q : live s' (nn :: L) q -> dict_wf (chl s' q) /\
  forall k d, (k, d) ∈ chl s' q -> d ∈ nn :: L /\ par s' d = Some q /\ child_key ps (nkey s' d) = k.
Proof.
  intros Hq. destruct leaf_fresh as (Hn & _ & _ & Hf).
  destruct (decide (q = nn)) as [->|Hqn].
  { rewrite (lf_new_chl _ _ _ _ _ _ HL). split; [constructor|]. by intros k d ?%not_elem_of_nil. }
  assert (Hql : live s L q) by (unfold live in *; rewrite (lf_root _ _ _ _ _ _ HL) in Hq; set_solver).
  destruct (inv_chl _ _ _ _ HI q Hql) as [Hw Hm]. split.
  - destruct (decide (q = node)) as [->|]; [|by rewrite (lf_old_chl _ _ _ _ _ _ HL)].
    rewrite (lf_node_chl _ _ _ _ _ _ HL). by apply dict_set_wf.
  - intros k d Hkd. destruct (leaf_chl_elem q k d Hql Hkd) as [(-> & -> & ->)|Hold].
    + split; [left|]. rewrite (lf_new_par _ _ _ _ _ _ HL), (lf_new_key _ _ _ _ _ _ HL). done.
    + destruct (Hm _ _ Hold) as (Hdl & Hp & Hck).
      destruct (leaf_old d) as (-> & -> & _); [by intros ->|]. split; [by right|done].
Qed.

Lemma leaf_child_locks i : i ∈ L -> child_locks s' i = child_locks s i.
Proof.
  intros Hi. destruct leaf_fresh as (Hn & _ & _ & Hf). destruct leaf_node as (_ & Hget & _).
  assert (Hlck : forall k d, (k, d) ∈ chl s i -> lck s' d = lck s d).
  { intros k d Hin. apply (leaf_old d). intros ->. apply Hn.
    eapply (inv_chl _ _ _ _ HI i); [by right|done]. }
  unfold child_locks. destruct (decide (i = node)) as [->|Hip].
  - rewrite (lf_node_chl _ _ _ _ _ _ HL), dict_set_fresh by done.
    rewrite fmap_app, zsum_app. cbn. rewrite (lf_new_lck _ _ _ _ _ _ HL).
    rewrite (zsum_ext_in (lck s' ∘ snd) (lck s ∘ snd)); [lia|]. intros [k d] Hj. by eapply Hlck.
  - rewrite (lf_old_chl _ _ _ _ _ _ HL) by (done || (intros ->; done)).
    apply zsum_ext_in. intros [k d] Hj. by eapply Hlck.
Qed.

Lemma leaf_sizes (f : Radix KV -> nat -> Z) :
  (forall i, i <> nn -> f s' i = f s i) ->
  zsum (f s' <$> nn :: L) = f s' nn + zsum (f s <$> L).
Proof.
  intros Hf. rewrite fmap_cons, zsum_cons. f_equal. apply zsum_ext_in. intros i Hi. apply Hf.
  intros ->. by destruct leaf_fresh as (? & _).
Qed.

Lemma leaf_par i : i ∈ nn :: L -> exists q, par s' i = Some q /\
  (q = root_node s' \/ q ∈ nn :: L /\ key_extra_key (nkey s' i) = key_extra_key (nkey s' q)) /\
  dict_get (child_key ps (nkey s' i)) (chl s' q) = Some i.
Proof.
  destruct leaf_fresh as (Hn & Hnr & Hnn & Hf). destruct leaf_node as (Hnl & Hget & _ & Hex).
  intros Hi. rewrite (lf_root _ _ _ _ _ _ HL). apply elem_of_cons in Hi as [->|Hi].
  - exists node. rewrite (lf_new_par _ _ _ _ _ _ HL), (lf_new_key _ _ _ _ _ _ HL), (lf_node_chl _ _ _ _ _ _ HL).
    split; [done|]. split; [|apply dict_get_set_eq].
    destruct Hex as [->|[? ->]]; [by left|right]. split; [by right|].
    by destruct (leaf_old node) as (_ & -> & _).
  - destruct (inv_par _ _ _ _ HI i Hi) as (q & Hq & Hqx & Hqd). exists q.
    destruct (leaf_old i) as (-> & -> & _); [by apply Hf; right|]. split; [done|].
    assert (Hql : live s L q) by (unfold live; naive_solver). split.
    + destruct Hqx as [->|[Hq' ->]]; [by left|right]. split; [by right|].
      by destruct (leaf_old q) as (_ & -> & _); [apply Hf|].
    + destruct (decide (q = node)) as [->|]; [|by rewrite (lf_old_chl _ _ _ _ _ _ HL) by (done || by apply Hf)].
      rewrite (lf_node_chl _ _ _ _ _ _ HL), dict_get_set_ne; [done|]. intros E. rewrite <- E in Hqd. congruence.
Qed.

Lemma leaf_rank : exists rk : nat -> nat, forall i p, i ∈ nn :: L -> par s' i = Some p -> (rk p < rk i)%nat.
Proof.
  destruct leaf_fresh as (Hn & Hnr & Hnn & Hf).
  destruct (inv_rank _ _ _ _ HI) as [rk Hrk].
  exists (fun i => if decide (i = nn) then S (rk node) else rk i). intros i p Hi Hp.
  apply elem_of_cons in Hi as [->|Hi].
  - rewrite (lf_new_par _ _ _ _ _ _ HL) in Hp. simplify_eq. rewrite decide_False, decide_True by done. lia.
  - destruct (leaf_old i) as (Hpi & _); [by apply Hf; right|]. rewrite Hpi in Hp.
    destruct (inv_par _ _ _ _ HI i Hi) as (q & Hq & Hqx & _). assert (q = p) as -> by congruence.
    rewrite !decide_False; [by eapply Hrk|by apply Hf; right|]. apply Hf. unfold live. naive_solver.
Qed.

Lemma leaf_Inv : Inv cfg s' (nn :: L) held.
Proof.
  destruct leaf_fresh as (Hn & Hnr & Hnn & Hf). destruct leaf_node as (Hnl & Hget & _ & Hex).
  assert (Hkn : klen s' nn = key_len key) by (unfold klen; by rewrite (lf_new_key _ _ _ _ _ _ HL)).
  constructor; auto using leaf_par, leaf_rank, leaf_chl_wf;
    rewrite ?(lf_root _ _ _ _ _ _ HL), ?(lf_len _ _ _ _ _ _ HL).
  - constructor; [done|apply HI].
  - rewrite not_elem_of_cons. split; [done|apply HI].
  - pose proof (inv_root_bound _ _ _ _ HI). lia.
  - destruct (leaf_old (root_node s)) as (-> & _ & _ & -> & _ & _ & ->); [done|]. apply HI.
  - intros i Hi. apply elem_of_cons in Hi as [->|Hi]; [lia|].
    pose proof (inv_bound _ _ _ _ HI i Hi). lia.
  - intros i Hi. apply elem_of_cons in Hi as [->|Hi].
    + rewrite Hkn, (lf_new_key _ _ _ _ _ _ HL). destruct Hk as (? & ? & ?). done.
    + destruct (leaf_old i) as (_ & -> & _ & _ & -> & _); [by apply Hf; right|]. by apply HI.
  - intros i Hi. apply elem_of_cons in Hi as [->|Hi].
    + exists value. rewrite Hkn. by rewrite (lf_new_val _ _ _ _ _ _ HL).
    + destruct (leaf_old i) as (_ & _ & _ & _ & -> & _ & ->); [by apply Hf; right|]. by apply HI.
  - intros h Hh. destruct (inv_held _ _ _ _ HI h Hh) as [->|?]; [by left; rewrite (lf_root _ _ _ _ _ _ HL)|].
    right. by right.
  - intros i Hi. apply elem_of_cons in Hi as [->|Hi].
    + rewrite (lf_new_lck _ _ _ _ _ _ HL). unfold child_locks. rewrite (lf_new_chl _ _ _ _ _ _ HL).
      split; [lia|]. cbn. unfold held_count. rewrite (proj1 (count_occ_not_In _ _ _)); [done|].
      rewrite <- list_elem_of_In. intros Hh. by apply (Hf nn (inv_held _ _ _ _ HI nn Hh)).
    + destruct (leaf_old i) as (_ & _ & _ & -> & _); [by apply Hf; right|].
      rewrite leaf_child_locks by done. by apply HI.
  - rewrite (leaf_sizes ev_size), (lf_ev _ _ _ _ _ _ HL), (inv_ev _ _ _ _ HI).
    + unfold ev_size. rewrite (lf_new_lck _ _ _ _ _ _ HL), Hkn. cbn. lia.
    + intros i Hi. unfold ev_size. by destruct (leaf_old i Hi) as (_ & _ & _ & -> & -> & _).
  - rewrite (leaf_sizes pr_size), (lf_pr _ _ _ _ _ _ HL), (inv_pr _ _ _ _ HI).
    + unfold pr_size. rewrite (lf_new_lck _ _ _ _ _ _ HL). done.
    + intros i Hi. unfold pr_size. by destruct (leaf_old i Hi) as (_ & _ & _ & -> & -> & _).
  - intros i. rewrite (lf_lv _ _ _ _ _ _ HL), elem_of_union, elem_of_difference, !elem_of_singleton.
    rewrite (inv_leaf _ _ _ _ HI), elem_of_cons. destruct (decide (i = nn)) as [->|Hi].
    { rewrite (lf_new_lck _ _ _ _ _ _ HL), (lf_new_chl _ _ _ _ _ _ HL). naive_solver. }
    destruct (leaf_old i Hi) as (_ & _ & _ & -> & _). destruct (decide (i = node)) as [->|Hin].
    + assert (chl s' node <> []); [|naive_solver]. rewrite (lf_node_chl _ _ _ _ _ _ HL).
      intros E. assert (Hg := dict_get_set_eq (child_key ps key) nn (chl s node)). by rewrite E in Hg.
    + rewrite (lf_old_chl _ _ _ _ _ _ HL) by done. naive_solver.
Qed.

Lemma leaf_Desc_to ek a us vs j : live s L a -> Desc cfg s ek a us vs j -> Desc cfg s' ek a us vs j.
Proof.
  destruct leaf_fresh as (_ & _ & _ & Hf). destruct leaf_node as (_ & Hget & _).
  intros Ha Hj. induction Hj as [|a d us vs j Hda _ IH]; [constructor|].
  destruct (live_child cfg HI a _ _ Ha Hda) as (Hdl & _). specialize (IH (or_intror Hdl)).
  destruct (leaf_old d) as (_ & _ & <- & _ & _ & <- & _); [by apply Hf; right|]. constructor; [|done].
  destruct (leaf_old d) as (_ & _ & _ & _ & _ & -> & _); [by apply Hf; right|].
  destruct (decide (a = node)) as [->|]; [|rewrite (lf_old_chl _ _ _ _ _ _ HL); auto].
  rewrite (lf_node_chl _ _ _ _ _ _ HL), dict_get_set_ne; [done|]. intros E. rewrite <- E in Hda. congruence.
Qed.

Lemma leaf_Desc_from ek a us vs j :
  live s L a -> Desc cfg s' ek a us vs j ->
  Desc cfg s ek a us vs j \/
  (ek = key_extra_key key /\ exists us0 vs0, Desc cfg s ek a us0 vs0 node /\
     us = us0 ++ units key /\ vs = vs0 ++ value).
Proof.
  destruct leaf_fresh as (Hn & _ & _ & Hf). destruct leaf_node as (Hnl & Hget & _).
  intros Ha Hj. induction Hj as [a|a d us vs j Hda Hdj IH]; [left; constructor|].
  assert (Ha' : live s' (nn :: L) a).
  { unfold live in *. rewrite (lf_root _ _ _ _ _ _ HL). set_solver. }
  destruct (leaf_chl_elem a _ _ Ha (dict_get_elem _ _ _ Hda)) as [(-> & Hek & ->)|Hold].
  - right. split.
    { destruct (child_extra cfg Hps leaf_Inv node _ _ Ha' Hda) as [Hx _].
      rewrite (lf_new_key _ _ _ _ _ _ HL) in Hx. done. }
    exists [], []. split; [constructor|]. unfold nunits, val.
    rewrite (lf_new_key _ _ _ _ _ _ HL), (lf_new_val _ _ _ _ _ _ HL). cbn [app default].
    inversion Hdj as [|? c ? ? ? Hc]; subst; [by rewrite !app_nil_r|].
    by rewrite (lf_new_chl _ _ _ _ _ _ HL) in Hc.
  - destruct (inv_chl _ _ _ _ HI a Ha) as [Hw Hm]. destruct (Hm _ _ Hold) as (Hdl & _).
    destruct (leaf_old d) as (_ & _ & Hvd & _ & _ & Hud & _); [by apply Hf; right|].
    rewrite Hud in Hold. rewrite Hud, Hvd. apply (dict_elem_get _ _ _ Hw) in Hold.
    destruct (IH (or_intror Hdl)) as [IH'|(-> & us0 & vs0 & Hd0 & -> & ->)]; [left; by constructor|right].
    split; [done|]. exists (nunits s d ++ us0), (val s d ++ vs0).
    split; [by constructor|]. by rewrite <- !app_assoc.
Qed.

Lemma leaf_path : Desc cfg s' (key_extra_key key) (root_node s') (U ++ units key) (V ++ value) nn.
Proof.
  rewrite (lf_root _ _ _ _ _ _ HL).
  replace (units key) with (nunits s' nn) by (unfold nunits; by rewrite (lf_new_key _ _ _ _ _ _ HL)).
  replace value with (val s' nn) by (unfold val; by rewrite (lf_new_val _ _ _ _ _ _ HL)).
  eapply Desc_snoc; [apply leaf_Desc_to; [by left|done]|].
  assert (Hin : nn ∈ nn :: L) by left. pose proof (child_key_node cfg Hps leaf_Inv nn Hin) as Hck.
  rewrite (lf_new_key _ _ _ _ _ _ HL) in Hck. rewrite <- Hck, (lf_node_chl _ _ _ _ _ _ HL).
  apply dict_get_set_eq.
Qed.

(** The content grows by the prefixes of the new path. *)
Lemma leaf_content ek us vs :
  content cfg s' ek us vs <->
  content cfg s ek us vs \/
  (ek = key_extra_key key /\ exists n, (n <= length (U ++ units key))%nat /\ (ps | Z.of_nat n) /\
     us = take n (U ++ units key) /\ vs = take n (V ++ value)).
Proof.
  assert (Hr : live s L (root_node s)) by by left. split.
  - intros (U' & V' & j & n & Hd' & Hn & Hdiv & -> & ->). rewrite (lf_root _ _ _ _ _ _ HL) in Hd'.
    destruct (leaf_Desc_from _ _ _ _ _ Hr Hd') as [Hold|(-> & us0 & vs0 & Hd0 & -> & ->)].
    + left. by exists U', V', j, n.
    + right. destruct (Desc_path_unique cfg HI _ _ _ _ _ _ Hd0 Hd) as [-> ->].
      split; [done|]. by exists n.
  - intros [(U' & V' & j & n & Hd' & Hn)|(-> & n & Hn & Hdiv & -> & ->)].
    + exists U', V', j, n. split; [|done]. rewrite (lf_root _ _ _ _ _ _ HL). by apply leaf_Desc_to.
    + exists (U ++ units key), (V ++ value), nn, n. split; [apply leaf_path|done].
Qed.

Lemma leaf_slots : concat (val s' <$> nn :: L) = value ++ concat (val s <$> L).
Proof.
  rewrite fmap_cons. cbn [concat]. f_equal; [unfold val; by rewrite (lf_new_val _ _ _ _ _ _ HL)|].
  f_equal. apply list_fmap_ext. intros j i Hi. apply list_elem_of_lookup_2 in Hi. apply leaf_old.
  intros ->. by destruct leaf_fresh as (? & _).
Qed.

End after.

(** ** [insert] *)

(** What inserting the pages [K] with slots [v] in namespace [ek] does,
    where [V] are the slots [K] had before. *)
Record Inserted s L s' L' (held : list nat) (ek : option (list Z)) (K : list Unit_) (v V : list Z)
    : Prop := mkInserted {
  is_inv : Inv cfg s' L' held;
  is_root : root_node s' = root_node s;
  is_kv : rx_kv s' = rx_kv s;
  is_sub i : i ∈ L -> i ∈ L';
  is_desc ek' a us vs j : live s L a -> Desc cfg s ek' a us vs j -> Desc cfg s' ek' a us vs j;
  is_longest : longest cfg s ek K V;
  is_slots : concat (val s' <$> L') ≡ₚ drop (length V) v ++ concat (val s <$> L);
  is_ev : evictable_size_ s' = evictable_size_ s + (len K - len V);
  is_pr : protected_size_ s' = protected_size_ s;
  is_path : exists j, Desc cfg s' ek (root_node s') K (V ++ drop (length V) v) j;
  is_content ek' us vs : content cfg s' ek' us vs <-> content cfg s ek' us vs \/
    (ek' = ek /\ exists n, (n <= length K)%nat /\ (ps | Z.of_nat n) /\
       us = take n K /\ vs = take n (V ++ drop (length V) v));
}.

(** The prefixes of a cached path are cached. *)
Lemma content_prefix s L held ek U V j n :
  Inv cfg s L held -> Desc cfg s ek (root_node s) U V j -> (n <= length U)%nat -> (ps | Z.of_nat n) ->
  content cfg s ek (take n U) (take n V).
Proof. intros HI Hd Hn Hdiv. by exists U, V, j, n. Qed.

Section helper.
Variable monotonic : nat -> Z.
Hypothesis Hps : 1 <= ps.

(** The whole key was cached already. *)
Lemma Inserted_nothing s L s1 L1 held key v V1 node :
  evolves cfg s L s1 L1 held -> good_key cfg key -> len v = key_len key ->
  Desc cfg s1 (key_extra_key key) (root_node s1) (units key) V1 node ->
  Inserted s L s1 L1 held (key_extra_key key) (units key) v V1.
Proof.
  intros He (Hwf & _ & Hdiv) Hv Hd. pose proof (key_len_units key Hwf) as Hlen.
  destruct (Desc_units cfg (ev_inv _ _ _ _ _ _ He) _ _ _ _ _ (or_introl eq_refl) Hd) as [_ HlV].
  assert (Hnil : drop (length V1) v = []) by (apply drop_ge; unfold len in *; lia).
  assert (Hst : stuck cfg s1 node (key_extra_key key) []) by by left.
  pose proof (stuck_is_longest cfg Hps _ _ _ _ _ _ _ _ (ev_inv _ _ _ _ _ _ He) Hd Hst) as Hlo.
  rewrite app_nil_r in Hlo. specialize (Hlo ltac:(by rewrite <- Hlen)).
  constructor; rewrite ?Hnil, ?app_nil_r; try apply He.
  - eapply longest_ext; [|exact Hlo]. intros. symmetry. apply He.
  - destruct (ev_sizes _ _ _ _ _ _ He). lia.
  - by exists node.
  - intros ek' us vs. rewrite <- (ev_content _ _ _ _ _ _ He). split; [by left|].
    intros [?|(-> & n & Hn & Hdn & -> & ->)]; [done|]. apply (ev_content _ _ _ _ _ _ He).
    eapply content_prefix; eauto. apply He.
Qed.

(** The rest [key'] of the key became a leaf below [node]. *)
Lemma Inserted_leaf s L s1 L1 s2 held key key' v V1 U1 node :
  evolves cfg s L s1 L1 held -> good_key cfg key -> good_key cfg key' -> len v = key_len key ->
  key_extra_key key' = key_extra_key key -> units key = U1 ++ units key' -> 0 < key_len key' ->
  Desc cfg s1 (key_extra_key key) (root_node s1) U1 V1 node ->
  stuck cfg s1 node (key_extra_key key) (units key') ->
  Leaf s1 s2 node key' (drop (length U1) v)
    ({[length (nodes s1)]} ∪ (evictable_leaves s1 ∖ {[node]})) ->
  Inserted s L s2 (length (nodes s1) :: L1) held (key_extra_key key) (units key) v V1.
Proof.
  intros He (Hwf & _ & Hdiv) Hk' Hv Hex Hu Hpos Hd Hst HL. pose proof (ev_inv _ _ _ _ _ _ He) as HI.
  pose proof (key_len_units key Hwf) as Hlen. pose proof Hk' as (Hwf' & _ & _).
  pose proof (key_len_units key' Hwf') as Hlen'.
  destruct (Desc_units cfg HI _ _ _ _ _ (or_introl eq_refl) Hd) as [_ HlV].
  assert (HnV : length V1 = length U1) by (unfold len in HlV; lia).
  assert (HlK : len (units key) = len U1 + len (units key')) by (by rewrite Hu, len_app).
  assert (Hv' : len (drop (length U1) v) = key_len key').
  { unfold len in *. rewrite length_drop. lia. }
  rewrite <- Hex in Hd, Hst |- *.
  constructor; rewrite ?HnV.
  - by apply (leaf_Inv Hps HI HL Hd).
  - rewrite (lf_root _ _ _ _ _ _ HL). apply He.
  - rewrite (lf_kv _ _ _ _ _ _ HL). apply He.
  - intros i Hi. right. by apply (ev_sub _ _ _ _ _ _ He).
  - intros ek' a us vs j Ha Hj. apply (leaf_Desc_to Hps HI HL Hd); try done.
    + destruct Ha as [->|Ha]; [left; symmetry; apply He|right; by apply (ev_sub _ _ _ _ _ _ He)].
    + by apply (ev_desc _ _ _ _ _ _ He).
  - eapply longest_ext; [intros; symmetry; apply He|]. rewrite Hu.
    eapply stuck_is_longest; [done..|]. by rewrite <- Hu, <- Hlen.
  - rewrite (leaf_slots Hps HI HL Hd) by done. by rewrite (ev_slots _ _ _ _ _ _ He).
  - rewrite (lf_ev _ _ _ _ _ _ HL). destruct (ev_sizes _ _ _ _ _ _ He). lia.
  - rewrite (lf_pr _ _ _ _ _ _ HL). apply He.
  - eexists. rewrite Hu. by apply (leaf_path Hps HI HL Hd).
  - intros ek' us vs. rewrite (leaf_content Hps HI HL Hd) by done. rewrite <- Hu.
    by rewrite (ev_content _ _ _ _ _ _ He).
Qed.

Lemma insert_helper_spec s L held key v prio chunked :
  Inv cfg s L held -> good_key cfg key -> len v = key_len key ->
  exists s' L' V,
    insert_helper cfg monotonic (root_node s) key v prio chunked s = (Ret (len V), s') /\
    Inserted s L s' L' held (key_extra_key key) (units key) v V.
Proof.
  intros HI Hk Hv. pose proof Hk as (Hwf & _ & Hdiv). pose proof (key_len_units key Hwf) as Hlen.
  unfold insert_helper. rewrite (bind_run (rx_time monotonic) _ _ _ _ eq_refl), !bind_modify.
  set (t := monotonic _). set (s0 := upd _ _ (upd _ _ _)).
  assert (Hcos : cosmetic s s0).
  { subst s0. etrans; [|by apply cosmetic_upd]. etrans; [|by apply cosmetic_upd]. apply cosmetic_clock. }
  pose proof (evolves_cosmetic cfg _ _ _ _ HI Hcos) as Hev0.
  assert (Hd0 : Desc cfg s0 (key_extra_key key) (root_node s0) [] [] (root_node s)).
  { rewrite (cs_root _ _ Hcos). constructor. }
  case_if; breflect.
  { assert (Hnil : units key = []) by (apply nil_length_inv; unfold len in *; lia).
    exists s0, L, []. split; [done|]. eapply Inserted_nothing; [done..|]. by rewrite Hnil. }
  destruct (insert_loop_correct monotonic Hps held (S (Z.to_nat (key_len key))) t (default 0 prio)
    chunked s0 L (root_node s) key v (child_key ps key) 0 [] [])
    as (n2 & key2 & v2 & ck2 & s2 & L2 & U2 & V2 & Hrun & Hev & Hd & Hu & Hst & Hk2 & Hex & Hv2 & Hck).
  { apply Hev0. } { done. } { pose proof (len_nonneg (units key)). lia. } { done. } { done. } { done. }
  rewrite (bind_run _ _ _ _ _ Hrun). cbn [app] in Hd.
  pose proof (evolves_trans cfg _ _ _ _ _ _ _ Hev0 Hev) as Hevt.
  pose proof (ev_inv _ _ _ _ _ _ Hev) as HI2.
  destruct (Desc_units cfg HI2 _ _ _ _ _ (or_introl eq_refl) Hd) as [_ HlV].
  replace (0 + len U2) with (len V2) by lia.
  pose proof Hk2 as (Hwf2 & _ & _). pose proof (key_len_units key2 Hwf2) as Hlen2.
  case_if; breflect; cycle 1.
  { assert (Hnil : units key2 = []) by (apply nil_length_inv; unfold len in *; lia).
    exists s2, L2, V2. split; [done|]. eapply Inserted_nothing; [done..|]. by rewrite Hu, Hnil, app_nil_r. }
  assert (Hnode : (n2 < length (nodes s2))%nat).
  { destruct (Desc_live cfg HI2 _ _ _ _ _ (or_introl eq_refl) Hd) as [->|?]; [apply HI2|by apply (inv_bound _ _ _ _ HI2)]. }
  rewrite (Hck Heqb0).
  destruct (insert_leaf_spec monotonic s2 n2 key2 v2 (default 0 prio) chunked Hnode) as (s3 & Hrun3 & HL).
  rewrite (bind_run _ _ _ _ _ Hrun3). exists s3, (length (nodes s2) :: L2), V2. split; [done|].
  subst v2. by apply (Inserted_leaf s L s2 L2 s3 held key key2 v V2 U2 n2).
Qed.

(** [insert] of a caller's key with at least as many slots as the key has
    whole pages of units. *)
Definition insert_slots (key : RadixKey) (v : list Z) : list Z :=
  take (Z.to_nat (key_len (query_key cfg key))) v.

Lemma rx_insert_spec s L held key v prio chunked :
  Inv cfg s L held -> client_key cfg key -> rx_disable cfg = false ->
  key_len (query_key cfg key) <= len v ->
  exists s' L' V, rx_insert cfg monotonic key (Some v) prio chunked s = (Ret (len V), s') /\
    Inserted s L s' L' held (key_extra_key key) (units (query_key cfg key)) (insert_slots key v) V.
Proof.
  intros HI Hk Hdis Hv. destruct (query_key_good cfg Hps key Hk) as [Hg Hex].
  pose proof Hg as (Hwf & _ & _). pose proof (key_len_units _ Hwf) as Hlen.
  pose proof (len_nonneg (units (query_key cfg key))) as Hnn.
  unfold rx_insert. rewrite Hdis.
  destruct (maybe_to_bigram_view (is_eagle cfg) (Some v) key) as [k1 v1] eqn:Hb.
  assert (Hk1 : k1 = (maybe_to_bigram_view (is_eagle cfg) None key).1).
  { apply (f_equal fst) in Hb. cbn in Hb. by rewrite <- Hb, !bigram_view_key. }
  assert (Hkw : key_wf k1).
  { rewrite Hk1, bigram_view_key. destruct Hk as [? _]. by case_if. }
  assert (Hle : key_len (query_key cfg key) <= key_len k1).
  { unfold query_key. rewrite <- Hk1. destruct (page_aligned_facts ps k1 Hkw Hps) as (_ & _ & _ & ->).
    apply floor_le; [|done]. rewrite key_len_units by done. apply len_nonneg. }
  assert (Hv1 : exists w, v1 = Some w /\ slice_to w (key_len (query_key cfg key)) = insert_slots key v).
  { unfold maybe_to_bigram_view in Hb. unfold insert_slots.
    assert (Hsl : forall (w : list Z) n, 0 <= n -> slice_to w n = take (Z.to_nat n) w).
    { intros w n Hn. unfold slice_to, pyidx. rewrite (proj2 (Z.ltb_ge n 0)) by lia.
      destruct (Z.le_ge_cases n (len w)); [by rewrite Z.min_l by lia|].
      rewrite Z.min_r by lia. rewrite !take_ge by (unfold len in *; lia). done. }
    case_if; injection Hb as <- <-; eexists; (split; [done|]); rewrite !Hsl by lia; [|done].
    rewrite take_take. f_equal. lia. }
  destruct Hv1 as (w & -> & Hw). subst k1. fold (query_key cfg key). rewrite Hw.
  rewrite (bind_run get _ s s s) by done.
  destruct (insert_helper_spec s L held (query_key cfg key) (insert_slots key v) prio chunked HI Hg)
    as (s' & L' & V & Hrun & HIn).
  - unfold insert_slots, len in *. rewrite length_take. lia.
  - exists s', L', V. rewrite Hex in HIn. done.
Qed.

End helper.

End insert.
