(* ===== verification/RadixLock.v ===== *)
(** * Locks in the radix tree

    [inc_lock_ref] and [dec_lock_ref] walk from a node to the root and move
    every node on the way between the evictable and the protected side.  A
    client that holds a node keeps its whole path locked; the counters and
    the evictable leaves stay exact. *)

From stdpp Require Import gmap.
From S2P Require Import Prelude PyDict Allocator RadixKey RadixTree RadixShape.

Section locks.
Context {KV : Type} `{AllocatorOps KV}.
Variable cfg : RadixConfig.
Implicit Types s : Radix KV.

#[local] Abbreviation ps := (page_size cfg).

(** The path from a node up to the root, the root excluded. *)
Inductive chain s : nat -> list nat -> Prop :=
  | chain_root : chain s (root_node s) []
  | chain_up j p l : j <> root_node s -> par s j = Some p -> chain s p l -> chain s j (j :: l).

Lemma chain_ext s s' j l :
  root_node s' = root_node s -> (forall i, par s' i = par s i) -> chain s j l -> chain s' j l.
Proof.
  intros Hr Hp. induction 1 as [|j p l Hj Hpar _ IH]; [rewrite <- Hr; constructor|].
  econstructor; [by rewrite Hr|by rewrite Hp|done].
Qed.

Section chains.
Context {s : Radix KV} {L held : list nat} (HI : Inv cfg s L held).

Lemma chain_exists j : live s L j -> exists l, chain s j l.
Proof.
  destruct (inv_rank _ _ _ _ HI) as [rk Hrk].
  remember (rk j) as r eqn:Hr. revert j Hr.
  induction (lt_wf r) as [r _ IH]; intros j -> [->|Hj]; [exists []; constructor|].
  destruct (inv_par _ _ _ _ HI j Hj) as (p & Hp & Hpl & _).
  assert (j <> root_node s) by (intros ->; by apply (inv_root_fresh _ _ _ _ HI)).
  destruct (IH (rk p) (Hrk _ _ Hj Hp) p eq_refl) as [l Hl]; [unfold live; naive_solver|].
  exists (j :: l). by econstructor.
Qed.

Lemma chain_live j l : live s L j -> chain s j l -> NoDup l /\ (forall i, i ∈ l -> i ∈ L).
Proof.
  destruct (inv_rank _ _ _ _ HI) as [rk Hrk]. intros Hj Hc.
  enough (NoDup l /\ (forall i, i ∈ l -> i ∈ L /\ (rk i <= rk j)%nat)) by naive_solver.
  induction Hc as [|j p l Hn Hpar _ IH]; [split; [constructor|set_solver]|].
  destruct Hj as [?|Hj]; [done|].
  destruct (inv_par _ _ _ _ HI j Hj) as (q & Hq & Hql & _). assert (q = p) as -> by congruence.
  destruct IH as [Hnd Hin]; [unfold live; naive_solver|]. pose proof (Hrk _ _ Hj Hpar) as Hlt. split.
  - constructor; [|done]. intros Hx. apply Hin in Hx as [_ ?]. lia.
  - intros i [->|Hi]%elem_of_cons; [done|]. apply Hin in Hi as [? ?]. split; [done|lia].
Qed.

Lemma chain_length j l : live s L j -> chain s j l -> (length l < length (nodes s))%nat.
Proof.
  intros Hj Hc. destruct (chain_live j l Hj Hc) as [Hnd Hin].
  pose proof (inv_root_bound _ _ _ _ HI) as Hrb.
  assert (Hsub : root_node s :: l ⊆+ seq 0 (length (nodes s))).
  { apply NoDup_submseteq.
    - constructor; [|done]. intros Hr. by apply (inv_root_fresh _ _ _ _ HI), Hin.
    - intros i [->|Hi]%elem_of_cons; apply elem_of_seq; [lia|].
      pose proof (inv_bound _ _ _ _ HI i (Hin i Hi)). lia. }
  apply submseteq_length in Hsub. rewrite length_seq in Hsub. cbn in Hsub. lia.
Qed.

(** A node is filed exactly once, in its parent. *)
Lemma filed_once i j : live s L i -> j ∈ L ->
  zsum ((fun e => if decide (e.2 = j) then 1 else 0) <$> chl s i) =
  if decide (par s j = Some i) then 1 else 0.
Proof.
  intros Hi Hj. destruct (inv_chl _ _ _ _ HI i Hi) as [Hw Hm].
  set (f := fun e : ChildKey * nat => if decide (e.2 = j) then 1 else 0).
  assert (Hz : forall d : list (ChildKey * nat), (forall e, e ∈ d -> e.2 <> j) -> zsum (f <$> d) = 0).
  { induction d as [|e d IH]; intros Hd; [done|]. rewrite fmap_cons, zsum_cons, IH by (intros; apply Hd; by right).
    unfold f. rewrite decide_False; [done|]. apply Hd. left. }
  case_decide as Hp; cycle 1.
  { apply Hz. intros [k c] Hin E. cbn in E. subst c. by destruct (Hm _ _ Hin) as (_ & ? & _). }
  destruct (inv_par _ _ _ _ HI j Hj) as (q & Hq & _ & Hget). assert (q = i) as -> by congruence.
  rewrite (zsum_perm _ _ (fmap_Permutation f _ _ (dict_pop_perm _ _ _ Hget))), fmap_cons, zsum_cons.
  rewrite Hz; [unfold f; cbn; rewrite decide_True by done; lia|].
  intros [k c] Hin E. cbn in E. subst c. destruct (Hm _ _ (dict_pop_elem _ _ _ _ Hin)) as (_ & _ & Hk).
  apply (dict_elem_get _ _ _ (dict_pop_wf _ _ Hw)) in Hin. subst k. by rewrite dict_get_pop_eq in Hin.
Qed.

Definition on (l : list nat) (i : nat) : Z := if decide (i ∈ l) then 1 else 0.

(** On a chain every node but the first has one child on the chain. *)
Lemma chain_children j l i : live s L j -> chain s j l -> i ∈ L ->
  zsum (on l ∘ snd <$> chl s i) = on l i - (if decide (i = j) then 1 else 0).
Proof.
  intros Hj Hc Hi. assert (Hir : i <> root_node s) by (intros ->; by apply (inv_root_fresh _ _ _ _ HI)).
  induction Hc as [|j p l Hn Hpar Hc IH].
  - rewrite decide_False by done. unfold on. rewrite decide_False by (apply not_elem_of_nil).
    induction (chl s i) as [|e d IHd]; [done|]. rewrite fmap_cons, zsum_cons, IHd. cbn.
    unfold on. rewrite decide_False by (apply not_elem_of_nil). done.
  - destruct Hj as [?|Hj]; [done|].
    destruct (inv_par _ _ _ _ HI j Hj) as (q & Hq & Hql & _). assert (q = p) as -> by congruence.
    assert (Hp : live s L p) by (unfold live; naive_solver).
    destruct (chain_live j (j :: l)) as [Hnd _]; [by right|by econstructor|].
    apply NoDup_cons in Hnd as [Hjl _].
    assert (Hon : forall k, on (j :: l) k = on l k + if decide (k = j) then 1 else 0).
    { intros k. unfold on. destruct (decide (k = j)) as [->|].
      - rewrite decide_True by left. by rewrite decide_False.
      - destruct (decide (k ∈ l)); [rewrite decide_True by (by right); lia|].
        rewrite decide_False by set_solver. lia. }
    transitivity (zsum (on l ∘ snd <$> chl s i) + zsum ((fun e => if decide (e.2 = j) then 1 else 0) <$> chl s i)).
    { generalize (chl s i). intros d. induction d as [|e d IHd]; [done|].
      rewrite !fmap_cons, !zsum_cons, IHd. cbn. rewrite Hon. lia. }
    rewrite IH, filed_once, Hon by (done || by right).
    repeat case_decide; simplify_eq; try lia; congruence.
Qed.

End chains.

(** ** Changing the locks along a chain *)

Record relocked s s' (l : list nat) (d : Z) : Prop := mkRelocked {
  rl_kv : rx_kv s' = rx_kv s;
  rl_len : length (nodes s') = length (nodes s);
  rl_root : root_node s' = root_node s;
  rl_chl i : chl s' i = chl s i;
  rl_par i : par s' i = par s i;
  rl_key i : nkey s' i = nkey s i;
  rl_val i : tn_value (node_at s' i) = tn_value (node_at s i);
  rl_lck i : lck s' i = lck s i + d * on l i;
  rl_ev : evictable_size_ s' = evictable_size_ s + zsum ((fun i => ev_size s' i - ev_size s i) <$> l);
  rl_pr : protected_size_ s' = protected_size_ s + zsum ((fun i => pr_size s' i - pr_size s i) <$> l);
  rl_leaf i : i ∈ evictable_leaves s' <->
    if decide (i ∈ l) then lck s' i = 0 /\ chl s i = [] else i ∈ evictable_leaves s;
}.

Lemma zsum_list_update (f g : nat -> Z) (L l : list nat) :
  NoDup L -> NoDup l -> (forall i, i ∈ l -> i ∈ L) -> (forall i, i ∈ L -> i ∉ l -> f i = g i) ->
  zsum (f <$> L) = zsum (g <$> L) + zsum ((fun i => f i - g i) <$> l).
Proof.
  intros HL Hl Hin. revert f. induction Hl as [|j l Hj Hl IH]; intros f Hout.
  { cbn. rewrite Z.add_0_r. apply zsum_ext_in. intros i Hi. apply Hout; [done|apply not_elem_of_nil]. }
  set (h := fun i => if decide (i = j) then g i else f i).
  assert (Hhf : forall i, i <> j -> h i = f i) by (intros; unfold h; by rewrite decide_False).
  rewrite (zsum_update f h L j); [|done|apply Hin; left|intros; by rewrite Hhf].
  rewrite (IH ltac:(intros; apply Hin; by right) h).
  - rewrite fmap_cons, zsum_cons.
    rewrite (zsum_ext_in (fun i => h i - g i) (fun i => f i - g i) l);
      [|intros i Hi; rewrite Hhf; [done|by intros ->]].
    unfold h. rewrite decide_True by done. lia.
  - intros i Hi Hil. unfold h. case_decide; [done|]. apply Hout; [done|set_solver].
Qed.

Lemma relocked_trans s s1 s2 j l d :
  j ∉ l -> relocked s s1 [j] d -> relocked s1 s2 l d -> relocked s s2 (j :: l) d.
Proof.
  intros Hj R1 R2.
  assert (Hl1 : forall i, i ∈ l -> lck s1 i = lck s i).
  { intros i Hi. rewrite (rl_lck _ _ _ _ R1). unfold on. rewrite decide_False; [lia|].
    intros ->%list_elem_of_singleton. done. }
  assert (Hl2 : lck s2 j = lck s1 j).
  { rewrite (rl_lck _ _ _ _ R2). unfold on. rewrite decide_False by done. lia. }
  assert (Hk1 : forall i, klen s1 i = klen s i) by (intros; unfold klen; by rewrite (rl_key _ _ _ _ R1)).
  assert (Hk2 : forall i, klen s2 i = klen s1 i) by (intros; unfold klen; by rewrite (rl_key _ _ _ _ R2)).
  constructor; try (intros; etrans; [apply R2|apply R1]).
  - intros i. rewrite (rl_lck _ _ _ _ R2), (rl_lck _ _ _ _ R1). unfold on.
    repeat case_decide; set_unfold; try lia; naive_solver.
  - rewrite (rl_ev _ _ _ _ R2), (rl_ev _ _ _ _ R1), !fmap_cons, !zsum_cons.
    rewrite (zsum_ext_in (fun i => ev_size s2 i - ev_size s1 i) (fun i => ev_size s2 i - ev_size s i) l);
      [|intros i Hi; unfold ev_size; by rewrite Hl1, Hk1].
    assert (ev_size s2 j = ev_size s1 j) as -> by (unfold ev_size; by rewrite Hl2, Hk2).
    rewrite fmap_nil. change (zsum []) with 0. lia.
  - rewrite (rl_pr _ _ _ _ R2), (rl_pr _ _ _ _ R1), !fmap_cons, !zsum_cons.
    rewrite (zsum_ext_in (fun i => pr_size s2 i - pr_size s1 i) (fun i => pr_size s2 i - pr_size s i) l);
      [|intros i Hi; unfold pr_size; by rewrite Hl1, Hk1].
    assert (pr_size s2 j = pr_size s1 j) as -> by (unfold pr_size; by rewrite Hl2, Hk2).
    rewrite fmap_nil. change (zsum []) with 0. lia.
  - intros i. pose proof (rl_leaf _ _ _ _ R1 i) as H1. pose proof (rl_leaf _ _ _ _ R2 i) as H2.
    rewrite (rl_chl _ _ _ _ R1) in H2. rewrite H2. clear H2.
    destruct (decide (i ∈ l)) as [Hi|Hi].
    { by rewrite (decide_True (P := i ∈ j :: l)) by (by right). }
    destruct (decide (i = j)) as [->|Hij].
    + rewrite (decide_True (P := j ∈ j :: l)) by left. rewrite H1, Hl2.
      by rewrite (decide_True (P := j ∈ [j])) by left.
    + rewrite (decide_False (P := i ∈ j :: l)) by (by intros [?|?]%elem_of_cons). rewrite H1.
      by rewrite (decide_False (P := i ∈ [j])) by (by intros ?%list_elem_of_singleton).
Qed.

Lemma relocked_nil s d : relocked s s [] d.
Proof.
  constructor; try done; try (cbn; lia).
  intros i. unfold on. rewrite decide_False by apply not_elem_of_nil. lia.
Qed.

(** The invariant after a lock is taken or given back on [j]. *)
Lemma relocked_Inv s s' L held held' j l d :
  Inv cfg s L held -> live s L j -> chain s j l -> relocked s s' l d ->
  (forall i, i ∈ L -> 0 <= lck s' i) ->
  (forall i, i ∈ L -> held_count i held' = held_count i held + d * (if decide (i = j) then 1 else 0)) ->
  (forall h, h ∈ held' -> live s L h) -> Inv cfg s' L held'.
Proof.
  intros HI Hj Hc R Hnn Hcnt Hheld. destruct (chain_live HI j l Hj Hc) as [Hnd Hin].
  constructor; unfold live, klen in *; rewrite ?(rl_root _ _ _ _ R), ?(rl_len _ _ _ _ R); try apply HI; auto.
  - rewrite (rl_par _ _ _ _ R), (rl_val _ _ _ _ R), (rl_lck _ _ _ _ R). unfold on.
    rewrite decide_False by (intros Hx; by apply (inv_root_fresh _ _ _ _ HI), Hin).
    rewrite Z.mul_0_r, Z.add_0_r. apply HI.
  - intros i. rewrite (rl_key _ _ _ _ R). apply HI.
  - intros i. rewrite (rl_val _ _ _ _ R), (rl_key _ _ _ _ R). apply HI.
  - intros i Hi. destruct (inv_par _ _ _ _ HI i Hi) as (p & ? & ? & ?). exists p.
    by rewrite (rl_par _ _ _ _ R), !(rl_key _ _ _ _ R), (rl_chl _ _ _ _ R).
  - intros p Hp. destruct (inv_chl _ _ _ _ HI p Hp) as [? Hk]. rewrite (rl_chl _ _ _ _ R). split; [done|].
    intros k c. rewrite (rl_par _ _ _ _ R), (rl_key _ _ _ _ R). auto.
  - destruct (inv_rank _ _ _ _ HI) as [rk Hrk]. exists rk. intros i p. rewrite (rl_par _ _ _ _ R). auto.
  - intros i Hi. split; [auto|]. destruct (inv_lock _ _ _ _ HI i Hi) as [_ Hl].
    rewrite (rl_lck _ _ _ _ R), Hl, Hcnt by done.
    assert (child_locks s' i = child_locks s i + d * zsum (on l ∘ snd <$> chl s i)) as ->.
    { unfold child_locks. rewrite (rl_chl _ _ _ _ R). generalize (chl s i). intros e.
      induction e as [|[k c] e IHe]; [cbn; lia|]. rewrite !fmap_cons, !zsum_cons, IHe. cbn.
      rewrite (rl_lck _ _ _ _ R). lia. }
    rewrite (chain_children HI j l i Hj Hc Hi). lia.
  - rewrite (rl_ev _ _ _ _ R), (inv_ev _ _ _ _ HI).
    rewrite (zsum_list_update (ev_size s') (ev_size s) L l); [done|apply HI|done|done|].
    intros i _ Hil. unfold ev_size, klen. rewrite (rl_lck _ _ _ _ R), (rl_key _ _ _ _ R). unfold on.
    rewrite decide_False by done. by rewrite Z.mul_0_r, Z.add_0_r.
  - rewrite (rl_pr _ _ _ _ R), (inv_pr _ _ _ _ HI).
    rewrite (zsum_list_update (pr_size s') (pr_size s) L l); [done|apply HI|done|done|].
    intros i _ Hil. unfold pr_size, klen. rewrite (rl_lck _ _ _ _ R), (rl_key _ _ _ _ R). unfold on.
    rewrite decide_False by done. by rewrite Z.mul_0_r, Z.add_0_r.
  - intros i. rewrite (rl_leaf _ _ _ _ R), (rl_chl _ _ _ _ R). case_decide as Hil; [naive_solver|].
    rewrite (inv_leaf _ _ _ _ HI), (rl_lck _ _ _ _ R). unfold on. rewrite decide_False by done.
    by rewrite Z.mul_0_r, Z.add_0_r.
Qed.

(** ** One node of the walk *)

Lemma update_leaf_status_exact s i :
  evicted (node_at s i) = false -> 0 <= lck s i ->
  (forall k c, (k, c) ∈ chl s i -> evicted (node_at s c) = false) ->
  exists lv, update_leaf_status i s = set_evictable_leaves lv s /\
    forall x, x ∈ lv <-> if decide (x = i) then lck s i = 0 /\ chl s i = [] else x ∈ evictable_leaves s.
Proof.
  intros He Hl Hc. unfold update_leaf_status. rewrite He. fold (lck s i) (chl s i). cbn [orb].
  destruct (0 <? lck s i) eqn:Hp; breflect.
  { eexists. split; [done|]. intros x. case_decide; set_solver by lia. }
  destruct (chl s i) as [|[k c] d] eqn:Hd.
  - eexists. split; [done|]. intros x. case_decide; [|set_solver]. subst. split; [split; [lia|done]|set_solver].
  - cbn [fmap list_fmap existsb snd]. rewrite (Hc k c) by left. cbn. eexists. split; [done|].
    intros x. case_decide; set_solver.
Qed.

Lemma update_leaf_status_ev s i : evictable_size_ (update_leaf_status i s) = evictable_size_ s.
Proof. unfold update_leaf_status. by repeat case_if. Qed.

(** What the walk needs of the nodes it visits. *)
Definition walkable s (lo : Z) (i : nat) : Prop :=
  (i < length (nodes s))%nat /\ evicted (node_at s i) = false /\ lo <= lck s i /\
  forall k c, (k, c) ∈ chl s i -> evicted (node_at s c) = false.

(** Adding [d] to the lock of [j] and updating the counters by [de]. *)
Lemma relock_one s j d de :
  walkable s 0 j -> 0 <= lck s j + d ->
  de = (if lck s j + d =? 0 then klen s j else 0) - (if lck s j =? 0 then klen s j else 0) ->
  relocked s (update_leaf_status j (upd j (fun n => set_tn_lock_ref (tn_lock_ref n + d) n)
    (set_protected_size (protected_size_ s - de) (set_evictable_size (evictable_size_ s + de) s)))) [j] d.
Proof.
  intros (Hb & He & Hl & Hc) Hd Hde.
  set (s0 := set_protected_size _ _). set (s1 := upd j _ s0).
  assert (Hn : forall i, node_at s1 i = if decide (j = i)
    then set_tn_lock_ref (tn_lock_ref (node_at s i) + d) (node_at s i) else node_at s i).
  { intros i. unfold s1. by rewrite node_at_upd by done. }
  assert (Hev : forall i, evicted (node_at s1 i) = evicted (node_at s i)).
  { intros i. rewrite Hn. by case_decide. }
  assert (Hchl : forall i, chl s1 i = chl s i) by (intros i; unfold chl; rewrite Hn; by case_decide).
  assert (Hlck : forall i, lck s1 i = lck s i + d * on [j] i).
  { intros i. unfold lck, on. rewrite Hn. repeat case_decide; cbn; set_unfold; try lia; naive_solver. }
  assert (Hlj : lck s1 j = lck s j + d).
  { rewrite Hlck. unfold on. rewrite decide_True by (by apply list_elem_of_singleton). lia. }
  destruct (update_leaf_status_exact s1 j) as (lv & -> & Hlv).
  { by rewrite Hev. } { lia. } { intros k c. rewrite Hchl, Hev. apply Hc. }
  assert (Hkl : forall i, klen s1 i = klen s i).
  { intros i. unfold klen, nkey. rewrite Hn. by case_decide. }
  constructor; try done.
  - cbn. apply length_alter.
  - intros i. unfold par. change (node_at (set_evictable_leaves lv s1) i) with (node_at s1 i).
    rewrite Hn. by case_decide.
  - intros i. unfold nkey. change (node_at (set_evictable_leaves lv s1) i) with (node_at s1 i).
    rewrite Hn. by case_decide.
  - intros i. change (node_at (set_evictable_leaves lv s1) i) with (node_at s1 i).
    rewrite Hn. by case_decide.
  - cbn. change (ev_size (set_evictable_leaves lv s1) j) with (ev_size s1 j).
    unfold ev_size. rewrite Hlj, Hkl. lia.
  - cbn. change (pr_size (set_evictable_leaves lv s1) j) with (pr_size s1 j).
    unfold pr_size. rewrite Hlj, Hkl. repeat case_if; lia.
  - intros i. change (lck (set_evictable_leaves lv s1) i) with (lck s1 i). cbn [evictable_leaves set_evictable_leaves].
    rewrite Hlv, Hchl. destruct (decide (i = j)) as [->|].
    + by rewrite decide_True by (by apply list_elem_of_singleton).
    + rewrite decide_False; [done|]. by intros ->%list_elem_of_singleton.
Qed.

Lemma walkable_relocked s s' l d lo i :
  relocked s s' l d -> i ∉ l -> walkable s lo i -> walkable s' lo i.
Proof.
  intros R Hi (Hb & He & Hl & Hc). unfold walkable, evicted in *.
  rewrite (rl_len _ _ _ _ R), (rl_val _ _ _ _ R), (rl_lck _ _ _ _ R), (rl_chl _ _ _ _ R).
  unfold on. rewrite decide_False by done. repeat split; [done|done|lia|].
  intros k c Hkc. rewrite (rl_val _ _ _ _ R). by eapply Hc.
Qed.

Lemma inc_lock_loop_spec fuel s j l delta :
  chain s j l -> NoDup l -> (length l < fuel)%nat -> (forall i, i ∈ l -> walkable s 0 i) ->
  exists s', inc_lock_loop fuel j delta s =
      (Ret (delta + (evictable_size_ s' - evictable_size_ s)), s') /\ relocked s s' l 1.
Proof.
  revert s j l delta. induction fuel as [|fuel IH]; intros s j l delta Hc Hnd Hf Hw; [lia|].
  cbn [inc_lock_loop]. rewrite (bind_run get _ s s s) by done.
  destruct Hc as [|j p l Hj Hpar Hc].
  { rewrite bool_decide_true by done. exists s. split; [|apply relocked_nil].
    unfold mret, M_ret. do 2 f_equal. lia. }
  rewrite bool_decide_false by done. apply NoDup_cons in Hnd as [Hjl Hnd].
  pose proof (Hw j ltac:(left)) as Hwj. pose proof Hwj as (Hb & He & Hl & _).
  fold (lck s j) (nkey s j) (klen s j) (par s j). rewrite Hpar.
  set (de := if lck s j =? 0 then - klen s j else 0).
  set (s1 := update_leaf_status j (upd j (fun n => set_tn_lock_ref (tn_lock_ref n + 1) n)
    (set_protected_size (protected_size_ s - de) (set_evictable_size (evictable_size_ s + de) s)))).
  assert (R1 : relocked s s1 [j] 1).
  { apply relock_one; [done|lia|]. subst de. repeat case_if; breflect; lia. }
  destruct (IH s1 p l (delta + de)) as (s' & Hrun & R2); [|done|cbn in Hf; lia| |].
  { eapply chain_ext; [apply R1|apply R1|done]. }
  { intros i Hi. eapply walkable_relocked; [done|by intros ->%list_elem_of_singleton|]. apply Hw. by right. }
  exists s'. split; [|by eapply relocked_trans].
  transitivity (inc_lock_loop fuel p (delta + de) s1).
  - subst s1 de. destruct (lck s j =? 0).
    + rewrite Z.add_opp_r, Z.sub_opp_r, Z.add_opp_r. reflexivity.
    + rewrite !Z.add_0_r, Z.sub_0_r. by destruct s.
  - rewrite Hrun. do 2 f_equal.
    assert (evictable_size_ s1 = evictable_size_ s + de); [|lia].
    unfold s1. by rewrite update_leaf_status_ev.
Qed.

Lemma dec_lock_loop_spec fuel s j l delta :
  chain s j l -> NoDup l -> (length l < fuel)%nat -> (forall i, i ∈ l -> walkable s 1 i) ->
  exists s', dec_lock_loop fuel j delta s =
      (Ret (delta + (evictable_size_ s' - evictable_size_ s)), s') /\ relocked s s' l (-1).
Proof.
  revert s j l delta. induction fuel as [|fuel IH]; intros s j l delta Hc Hnd Hf Hw; [lia|].
  cbn [dec_lock_loop]. rewrite (bind_run get _ s s s) by done.
  destruct Hc as [|j p l Hj Hpar Hc].
  { rewrite bool_decide_true by done. exists s. split; [|apply relocked_nil].
    unfold mret, M_ret. do 2 f_equal. lia. }
  rewrite bool_decide_false by done. apply NoDup_cons in Hnd as [Hjl Hnd].
  pose proof (Hw j ltac:(left)) as Hwj. pose proof Hwj as (Hb & He & Hl & Hch).
  fold (lck s j) (nkey s j) (klen s j) (par s j). rewrite Hpar.
  set (de := if lck s j =? 1 then klen s j else 0).
  set (s1 := update_leaf_status j (upd j (fun n => set_tn_lock_ref (tn_lock_ref n + -1) n)
    (set_protected_size (protected_size_ s - de) (set_evictable_size (evictable_size_ s + de) s)))).
  assert (R1 : relocked s s1 [j] (-1)).
  { apply relock_one; [split; [done|]; split; [done|]; split; [lia|done]|lia|]. subst de. repeat case_if; breflect; lia. }
  destruct (IH s1 p l (delta + de)) as (s' & Hrun & R2); [|done|cbn in Hf; lia| |].
  { eapply chain_ext; [apply R1|apply R1|done]. }
  { intros i Hi. eapply walkable_relocked; [done|by intros ->%list_elem_of_singleton|]. apply Hw. by right. }
  exists s'. split; [|by eapply relocked_trans].
  transitivity (dec_lock_loop fuel p (delta + de) s1).
  - subst s1 de. destruct (lck s j =? 1).
    + reflexivity.
    + rewrite !Z.add_0_r, Z.sub_0_r. by destruct s.
  - rewrite Hrun. do 2 f_equal.
    assert (evictable_size_ s1 = evictable_size_ s + de); [|lia].
    unfold s1. by rewrite update_leaf_status_ev.
Qed.

(** ** [inc_lock_ref] and [dec_lock_ref] *)

Lemma Inv_walkable s L held i : Inv cfg s L held -> i ∈ L -> walkable s (lck s i) i.
Proof.
  intros HI Hi. assert (Hev : forall j, j ∈ L -> evicted (node_at s j) = false).
  { intros j Hj. destruct (inv_val _ _ _ _ HI j Hj) as (v & Hv & _). unfold evicted. by rewrite Hv. }
  split; [by apply (inv_bound _ _ _ _ HI)|]. split; [by apply Hev|]. split; [lia|].
  intros k c Hkc. apply Hev. by eapply (inv_chl _ _ _ _ HI i (or_intror Hi)).
Qed.

Lemma walkable_mono s lo lo' i : lo' <= lo -> walkable s lo i -> walkable s lo' i.
Proof. intros Hle (? & ? & ? & ?). split; [done|]. split; [done|]. split; [lia|done]. Qed.

Lemma held_count_cons i j held :
  held_count i (j :: held) = held_count i held + (if decide (i = j) then 1 else 0).
Proof. unfold held_count. cbn. destruct (Nat.eq_dec j i), (decide (i = j)); subst; try done; lia. Qed.

Lemma inc_lock_ref_spec s L held j :
  Inv cfg s L held -> live s L j -> rx_disable cfg = false ->
  exists s' l, rx_inc_lock_ref cfg j s = (Ret (evictable_size_ s' - evictable_size_ s), s') /\
    chain s j l /\ relocked s s' l 1 /\ Inv cfg s' L (j :: held).
Proof.
  intros HI Hj Hdis. destruct (chain_exists HI j Hj) as [l Hc].
  destruct (chain_live HI j l Hj Hc) as [Hnd Hin]. pose proof (chain_length HI j l Hj Hc) as Hlen.
  unfold rx_inc_lock_ref. rewrite Hdis, (bind_run get _ s s s) by done.
  destruct (inc_lock_loop_spec (S (length (nodes s))) s j l 0 Hc Hnd ltac:(lia)) as (s' & Hrun & R).
  { intros i Hi. eapply walkable_mono; [|by eapply Inv_walkable, Hin].
    by apply (inv_lock _ _ _ _ HI), Hin. }
  exists s', l. split; [done|]. split; [done|]. split; [done|].
  eapply (relocked_Inv s s' L held _ j l 1); try done.
  - intros i Hi. rewrite (rl_lck _ _ _ _ R). destruct (inv_lock _ _ _ _ HI i Hi) as [? _].
    unfold on. case_decide; lia.
  - intros i Hi. rewrite held_count_cons. lia.
  - intros h [->|Hh]%elem_of_cons; [done|]. by apply (inv_held _ _ _ _ HI).
Qed.

(** A lock on a node locks its ancestors. *)
Lemma child_locks_ge s L held i k c : Inv cfg s L held -> live s L i ->
  (k, c) ∈ chl s i -> lck s c <= child_locks s i.
Proof.
  intros HI Hi Hkc. destruct (inv_chl _ _ _ _ HI i Hi) as [_ Hm]. unfold child_locks.
  assert (Hnn : forall k c, (k, c) ∈ chl s i -> 0 <= lck s c).
  { intros k' c' Hin. apply (inv_lock _ _ _ _ HI). by eapply Hm. }
  clear Hm. induction (chl s i) as [|[k' c'] d IH]; [by apply not_elem_of_nil in Hkc|].
  rewrite fmap_cons, zsum_cons. cbn [compose snd].
  assert (Hd : 0 <= zsum (lck s ∘ snd <$> d)).
  { clear IH Hkc. induction d as [|[k2 c2] d IHd]; [done|]. rewrite fmap_cons, zsum_cons. cbn.
    pose proof (Hnn k2 c2 ltac:(right; left)). assert (0 <= zsum (lck s ∘ snd <$> d)); [|lia].
    apply IHd. intros k3 c3 Hin. apply (Hnn k3). apply elem_of_cons in Hin as [->|?]; [left|right; by right]. }
  apply elem_of_cons in Hkc as [[= -> ->]|Hkc]; [lia|].
  pose proof (Hnn k' c' ltac:(left)). pose proof (IH Hkc ltac:(intros; eapply Hnn; by right)). lia.
Qed.

Lemma chain_locked s L held j l i : Inv cfg s L held -> live s L j -> chain s j l ->
  (j <> root_node s -> 1 <= lck s j) -> i ∈ l -> 1 <= lck s i.
Proof.
  intros HI Hj Hc. induction Hc as [|j p l Hn Hpar Hc IH]; intros Hl; [by intros ?%not_elem_of_nil|].
  intros [->|Hi]%elem_of_cons; [by apply Hl|]. destruct Hj as [?|Hj]; [done|].
  destruct (inv_par _ _ _ _ HI j Hj) as (q & Hq & Hql & Hget). assert (q = p) as -> by congruence.
  assert (Hp : live s L p) by (unfold live; naive_solver). apply IH; [done| |done].
  intros Hpr. destruct Hp as [?|HpL]; [done|]. destruct (inv_lock _ _ _ _ HI p HpL) as [_ ->].
  pose proof (child_locks_ge s L held p _ j HI (or_intror HpL) (dict_get_elem _ _ _ Hget)).
  specialize (Hl Hn). unfold held_count. lia.
Qed.

Lemma held_locked s L held j : Inv cfg s L held -> j ∈ held -> j <> root_node s -> 1 <= lck s j.
Proof.
  intros HI Hj Hr. destruct (inv_held _ _ _ _ HI j Hj) as [?|HjL]; [done|].
  destruct (inv_lock _ _ _ _ HI j HjL) as [_ ->].
  assert (1 <= held_count j held).
  { unfold held_count. apply list_elem_of_In, (count_occ_In Nat.eq_dec) in Hj. lia. }
  assert (0 <= child_locks s j); [|lia].
  destruct (chl s j) as [|[k c] d] eqn:Hd; [unfold child_locks; by rewrite Hd|].
  assert (Hkc : (k, c) ∈ chl s j) by (rewrite Hd; left).
  pose proof (child_locks_ge s L held j k c HI (or_intror HjL) Hkc).
  assert (Hc : c ∈ L) by (by eapply (inv_chl _ _ _ _ HI j (or_intror HjL))).
  destruct (inv_lock _ _ _ _ HI c Hc). lia.
Qed.

Lemma dec_lock_ref_spec s L held j :
  Inv cfg s L (j :: held) -> rx_disable cfg = false ->
  exists s' l, rx_dec_lock_ref cfg j s = (Ret (evictable_size_ s' - evictable_size_ s), s') /\
    chain s j l /\ relocked s s' l (-1) /\ Inv cfg s' L held.
Proof.
  intros HI Hdis. assert (Hj : live s L j) by (apply (inv_held _ _ _ _ HI); left).
  destruct (chain_exists HI j Hj) as [l Hc].
  destruct (chain_live HI j l Hj Hc) as [Hnd Hin]. pose proof (chain_length HI j l Hj Hc) as Hlen.
  unfold rx_dec_lock_ref. rewrite Hdis, (bind_run get _ s s s) by done.
  assert (H1 : forall i, i ∈ l -> 1 <= lck s i).
  { intros i Hi. apply (chain_locked s L (j :: held) j l i HI Hj Hc); [|done].
    intros Hr. apply (held_locked s L (j :: held) j HI ltac:(left) Hr). }
  destruct (dec_lock_loop_spec (S (length (nodes s))) s j l 0 Hc Hnd ltac:(lia)) as (s' & Hrun & R).
  { intros i Hi. eapply walkable_mono; [|by eapply Inv_walkable, Hin]. auto. }
  exists s', l. split; [done|]. split; [done|]. split; [done|].
  eapply (relocked_Inv s s' L (j :: held) _ j l (-1)); try done.
  - intros i Hi. rewrite (rl_lck _ _ _ _ R). destruct (inv_lock _ _ _ _ HI i Hi) as [? _].
    unfold on. case_decide as Hil; [specialize (H1 i Hil)|]; lia.
  - intros i Hi. rewrite held_count_cons. lia.
  - intros h Hh. apply (inv_held _ _ _ _ HI). by right.
Qed.

(** Locks do not move what is cached. *)
Lemma relocked_Desc s s' l d ek a us vs j :
  relocked s s' l d -> Desc cfg s ek a us vs j <-> Desc cfg s' ek a us vs j.
Proof.
  intros R. split; apply Desc_ext; intros i;
    unfold nunits, val; rewrite ?(rl_chl _ _ _ _ R), ?(rl_key _ _ _ _ R), ?(rl_val _ _ _ _ R); done.
Qed.

End locks.
