(* ===== verification/RadixEvict.v ===== *)
(** * Eviction from the radix tree

    [evict] deletes unlocked leaves, least priority first, until enough
    tokens are freed or nothing evictable is left; a parent that becomes a
    leaf joins the heap.  The invariant is kept, the slots of deleted nodes
    go back to the allocator, and no path to a locked node is touched. *)

From stdpp Require Import gmap.
From S2P Require Import Prelude PyDict Allocator RadixKey RadixTree RadixShape RadixLock.

Section evict.
Context {KV : Type} `{Allocator KV}.
Variable cfg : RadixConfig.
Implicit Types s : Radix KV.

#[local] Abbreviation ps := (page_size cfg).

(** ** Deleting a leaf *)

Record Deleted s s' (x p : nat) : Prop := mkDeleted {
  dl_kv : rx_kv s' = rx_kv s;
  dl_len : length (nodes s') = length (nodes s);
  dl_root : root_node s' = root_node s;
  dl_ev : evictable_size_ s' = evictable_size_ s - klen s x;
  dl_pr : protected_size_ s' = protected_size_ s;
  dl_p_chl : chl s' p = dict_pop (child_key ps (nkey s x)) (chl s p);
  dl_chl i : i <> p -> chl s' i = chl s i;
  dl_par i : par s' i = par s i;
  dl_key i : nkey s' i = nkey s i;
  dl_val i : tn_value (node_at s' i) = tn_value (node_at s i);
  dl_lck i : lck s' i = lck s i;
  dl_leaf i : i ∈ evictable_leaves s' <->
    if decide (i = p) then lck s p = 0 /\ chl s' p = [] else i <> x /\ i ∈ evictable_leaves s;
}.

Lemma delete_leaf_spec s x p :
  par s x = Some p -> dict_get (child_key ps (nkey s x)) (chl s p) = Some x ->
  walkable s 0 p -> dict_wf (chl s p) ->
  exists s', delete_leaf cfg x s = (Ret tt, s') /\ Deleted s s' x p.
Proof.
  intros Hpar Hget (Hb & He & Hl & Hc) Hw. unfold delete_leaf.
  rewrite (bind_run get _ s s s) by done. fold (par s x) (nkey s x) (klen s x).
  rewrite Hpar, (bind_run (of_option _ _) _ s p s) by done. rewrite bind_modify.
  fold (chl s p). rewrite Hget.
  rewrite bool_decide_true by done. rewrite (bind_run (assert_ true) _ _ tt _ eq_refl), !bind_modify.
  set (s1 := upd p _ s). set (s3 := set_evictable_leaves _ _).
  assert (Hn : forall i, node_at s3 i = if decide (p = i)
    then set_tn_children (dict_pop (child_key ps (nkey s x)) (tn_children (node_at s i))) (node_at s i)
    else node_at s i).
  { intros i. change (node_at s3 i) with (node_at s1 i). unfold s1. by rewrite node_at_upd by done. }
  assert (Hev : forall i, evicted (node_at s3 i) = evicted (node_at s i)).
  { intros i. rewrite Hn. by case_decide. }
  assert (Hlp : lck s3 p = lck s p) by (unfold lck; rewrite Hn; by case_decide).
  assert (Hcp : chl s3 p = dict_pop (child_key ps (nkey s x)) (chl s p)).
  { unfold chl. by rewrite Hn, decide_True by done. }
  destruct (update_leaf_status_exact s3 p) as (lv & Hlv & Hx).
  { by rewrite Hev. } { lia. }
  { intros k c. rewrite Hcp, Hev. intros Hkc%dict_pop_elem. by eapply Hc. }
  exists (set_evictable_leaves lv s3). split; [by unfold modify; rewrite Hlv|].
  constructor; try done; unfold chl, par, nkey, lck; try (intros i);
    change (node_at (set_evictable_leaves lv s3) ?k) with (node_at s3 k).
  - cbn. apply length_alter.
  - intros Hi. rewrite Hn. by rewrite decide_False by done.
  - rewrite Hn. by case_decide.
  - rewrite Hn. by case_decide.
  - rewrite Hn. by case_decide.
  - rewrite Hn. by case_decide.
  - change (evictable_leaves (set_evictable_leaves lv s3)) with lv. rewrite Hx. fold (lck s p) (chl s3 p).
    rewrite Hlp. case_decide; [done|]. cbn. set_solver.
Qed.

Section after.
Context {s s' : Radix KV} {L held : list nat} {x p : nat}.
Context (HI : Inv cfg s L held) (HD : Deleted s s' x p).
Context (Hx : x ∈ L) (Hpar : par s x = Some p) (Hlock : lck s x = 0) (Hleaf : chl s x = []).

#[local] Abbreviation L' := (filter (fun i => i <> x) L).

Lemma del_perm : L ≡ₚ x :: L'.
Proof.
  pose proof (inv_nodup _ _ _ _ HI) as Hnd. clear - Hnd Hx.
  induction Hnd as [|y l Hy Hnd IH]; [by apply not_elem_of_nil in Hx|].
  apply elem_of_cons in Hx as [<-|Hin].
  - rewrite filter_cons_False by naive_solver. rewrite filter_all; [done|]. by intros i Hi ->.
  - rewrite filter_cons_True by (by intros ->). rewrite IH at 1 by done. apply Permutation_swap.
Qed.

Lemma del_facts : live s L p /\ x <> p /\ x <> root_node s /\
  dict_get (child_key ps (nkey s x)) (chl s p) = Some x /\ x ∉ held /\
  (forall i, live s L i -> i <> x -> live s L' i).
Proof.
  destruct (inv_par _ _ _ _ HI x Hx) as (q & Hq & Hex & Hget). assert (q = p) as -> by congruence.
  destruct (inv_rank _ _ _ _ HI) as [rk Hrk]. pose proof (Hrk _ _ Hx Hpar).
  assert (Hxr : x <> root_node s) by (intros ->; by apply (inv_root_fresh _ _ _ _ HI)).
  split; [unfold live; naive_solver|]. split; [intros ->; lia|]. split; [done|]. split; [done|]. split.
  - intros Hh. pose proof (held_locked cfg s L held x HI Hh Hxr). lia.
  - intros i [->|Hi] Hix; [by left|right]. by apply list_elem_of_filter.
Qed.

Lemma del_child_locks i : i ∈ L -> child_locks s' i = child_locks s i.
Proof.
  intros Hi. destruct del_facts as (_ & _ & _ & Hget & _). unfold child_locks.
  assert (He : forall d, lck s' ∘ snd <$> d = lck s ∘ snd <$> (d : list (ChildKey * nat))).
  { intros d. apply list_fmap_ext. intros ? [k c] _. cbn. apply HD. }
  rewrite He. destruct (decide (i = p)) as [->|]; [|by rewrite (dl_chl _ _ _ _ HD)].
  rewrite (dl_p_chl _ _ _ _ HD).
  rewrite (zsum_perm _ _ (fmap_Permutation (lck s ∘ snd) _ _ (dict_pop_perm _ _ _ Hget))).
  rewrite fmap_cons, zsum_cons. cbn. lia.
Qed.

Lemma del_chl_elem q k c : (k, c) ∈ chl s' q -> (k, c) ∈ chl s q.
Proof.
  destruct (decide (q = p)) as [->|]; [|by rewrite (dl_chl _ _ _ _ HD)].
  rewrite (dl_p_chl _ _ _ _ HD). apply dict_pop_elem.
Qed.

Lemma del_chl_not q k : live s L q -> (k, x) ∉ chl s' q.
Proof.
  intros Hq Hkx. destruct del_facts as (_ & _ & _ & Hget & _).
  destruct (inv_chl _ _ _ _ HI q Hq) as [Hw Hm].
  destruct (Hm _ _ (del_chl_elem _ _ _ Hkx)) as (_ & Hpx & Hk). assert (q = p) as -> by congruence.
  rewrite (dl_p_chl _ _ _ _ HD) in Hkx. apply (dict_elem_get _ _ _ (dict_pop_wf _ _ Hw)) in Hkx.
  subst k. by rewrite dict_get_pop_eq in Hkx.
Qed.

Lemma del_chl_wf q : live s' L' q -> dict_wf (chl s' q) /\
  forall k c, (k, c) ∈ chl s' q -> c ∈ L' /\ par s' c = Some q /\ child_key ps (nkey s' c) = k.
Proof.
  intros Hq. assert (Hql : live s L q).
  { destruct Hq as [->|Hq]; [left; apply HD|right]. by apply list_elem_of_filter in Hq as [_ ?]. }
  destruct (inv_chl _ _ _ _ HI q Hql) as [Hw Hm]. split.
  - destruct (decide (q = p)) as [->|]; [|by rewrite (dl_chl _ _ _ _ HD)].
    rewrite (dl_p_chl _ _ _ _ HD). by apply dict_pop_wf.
  - intros k c Hkc. destruct (Hm _ _ (del_chl_elem _ _ _ Hkc)) as (Hc & ? & ?).
    rewrite (dl_par _ _ _ _ HD), (dl_key _ _ _ _ HD). split; [|done]. apply list_elem_of_filter. split; [|done].
    intros ->. by eapply del_chl_not.
Qed.

Lemma del_par i : i ∈ L' -> exists q, par s' i = Some q /\
  (q = root_node s' \/ q ∈ L' /\ key_extra_key (nkey s' i) = key_extra_key (nkey s' q)) /\
  dict_get (child_key ps (nkey s' i)) (chl s' q) = Some i.
Proof.
  destruct del_facts as (_ & Hxp & _ & Hget & _).
  intros [Hix Hi]%list_elem_of_filter. destruct (inv_par _ _ _ _ HI i Hi) as (q & Hq & Hqx & Hqd).
  exists q. rewrite (dl_par _ _ _ _ HD), !(dl_key _ _ _ _ HD), (dl_root _ _ _ _ HD). split; [done|]. split.
  - destruct Hqx as [->|[HqL ?]]; [by left|right]. split; [|done]. apply list_elem_of_filter. split; [|done].
    intros ->. by rewrite Hleaf in Hqd.
  - destruct (decide (q = p)) as [->|]; [|by rewrite (dl_chl _ _ _ _ HD)].
    rewrite (dl_p_chl _ _ _ _ HD), dict_get_pop_ne; [done|]. intros E. rewrite <- E in Hqd. congruence.
Qed.

Lemma del_sizes (f : Radix KV -> nat -> Z) :
  (forall i, f s' i = f s i) -> zsum (f s <$> L) = f s x + zsum (f s' <$> L').
Proof.
  intros Hf. rewrite (zsum_perm _ _ (fmap_Permutation (f s) _ _ del_perm)), fmap_cons, zsum_cons.
  f_equal. apply zsum_ext_in. intros. by rewrite Hf.
Qed.

Lemma del_Inv : Inv cfg s' L' held.
Proof.
  destruct del_facts as (Hp & Hxp & Hxr & Hget & Hxh & Hlv).
  assert (HinL : forall i, i ∈ L' -> i ∈ L) by (by intros i [_ ?]%list_elem_of_filter).
  constructor; auto using del_par, del_chl_wf; unfold live, klen in *;
    rewrite ?(dl_root _ _ _ _ HD), ?(dl_len _ _ _ _ HD), ?(dl_par _ _ _ _ HD), ?(dl_lck _ _ _ _ HD),
      ?(dl_val _ _ _ _ HD); try apply HI.
  - apply NoDup_filter, HI.
  - intros Hr. by apply (inv_root_fresh _ _ _ _ HI), HinL.
  - intros i Hi. by apply (inv_bound _ _ _ _ HI), HinL.
  - intros i Hi. rewrite (dl_key _ _ _ _ HD). by apply (inv_key _ _ _ _ HI), HinL.
  - intros i Hi. rewrite (dl_key _ _ _ _ HD), (dl_val _ _ _ _ HD). by apply (inv_val _ _ _ _ HI), HinL.
  - destruct (inv_rank _ _ _ _ HI) as [rk Hrk]. exists rk. intros i q Hi. rewrite (dl_par _ _ _ _ HD). auto.
  - intros h Hh. apply Hlv; [by apply (inv_held _ _ _ _ HI)|].
    by intros ->.
  - intros i Hi. rewrite (dl_lck _ _ _ _ HD), del_child_locks by auto. by apply (inv_lock _ _ _ _ HI), HinL.
  - rewrite (dl_ev _ _ _ _ HD), (inv_ev _ _ _ _ HI), (del_sizes ev_size).
    + unfold ev_size at 1. rewrite Hlock. cbn. unfold klen. lia.
    + intros i. unfold ev_size, klen. by rewrite (dl_lck _ _ _ _ HD), (dl_key _ _ _ _ HD).
  - rewrite (dl_pr _ _ _ _ HD), (inv_pr _ _ _ _ HI), (del_sizes pr_size).
    + unfold pr_size at 1. rewrite Hlock. cbn. lia.
    + intros i. unfold pr_size, klen. by rewrite (dl_lck _ _ _ _ HD), (dl_key _ _ _ _ HD).
  - intros i. rewrite (dl_leaf _ _ _ _ HD), (dl_lck _ _ _ _ HD), list_elem_of_filter. case_decide as Hip.
    + subst i. destruct Hp as [->|HpL]; [|naive_solver].
      split; [|intros [[_ ?] _]; by destruct (inv_root_fresh _ _ _ _ HI)].
      intros [Hz _]. destruct (inv_root_node _ _ _ _ HI) as (_ & H1 & _). lia.
    + rewrite (dl_chl _ _ _ _ HD), (inv_leaf _ _ _ _ HI) by done. naive_solver.
Qed.

Lemma del_Desc_from ek a us vs j : live s L a -> Desc cfg s' ek a us vs j -> Desc cfg s ek a us vs j.
Proof.
  assert (Hu : forall i, nunits s' i = nunits s i) by (intros; unfold nunits; by rewrite (dl_key _ _ _ _ HD)).
  assert (Hv : forall i, val s' i = val s i) by (intros; unfold val; by rewrite (dl_val _ _ _ _ HD)).
  intros Ha Hd. induction Hd as [|a d us vs j Hda _ IH]; [constructor|].
  apply dict_get_elem, del_chl_elem in Hda. destruct (inv_chl _ _ _ _ HI a Ha) as [Hw Hm].
  destruct (Hm _ _ Hda) as (HdL & _). rewrite Hu, Hv in *. constructor; [|by apply IH; right].
  by apply dict_elem_get.
Qed.

Lemma del_Desc_to ek a us vs j : live s L a -> j <> x -> Desc cfg s ek a us vs j -> Desc cfg s' ek a us vs j.
Proof.
  assert (Hu : forall i, nunits s' i = nunits s i) by (intros; unfold nunits; by rewrite (dl_key _ _ _ _ HD)).
  assert (Hv : forall i, val s' i = val s i) by (intros; unfold val; by rewrite (dl_val _ _ _ _ HD)).
  destruct del_facts as (_ & _ & _ & Hget & _).
  intros Ha Hj Hd. induction Hd as [|a d us vs j Hda Hdj IH]; [constructor|].
  destruct (live_child cfg HI a _ _ Ha Hda) as (HdL & _).
  assert (Hdx : d <> x).
  { intros ->. inversion Hdj as [|? c ? ? ? Hc]; subst; [done|]. by rewrite Hleaf in Hc. }
  rewrite <- Hu, <- Hv. constructor; [|by apply IH; [right|]]. rewrite Hu.
  destruct (decide (a = p)) as [->|]; [|by rewrite (dl_chl _ _ _ _ HD)].
  rewrite (dl_p_chl _ _ _ _ HD), dict_get_pop_ne; [done|]. intros E. rewrite <- E in Hda. congruence.
Qed.

Lemma del_slots : concat (val s <$> L) ≡ₚ val s x ++ concat (val s' <$> L').
Proof.
  assert (Hv : val s' <$> L' = val s <$> L').
  { apply list_fmap_ext. intros ? i _. unfold val. by rewrite (dl_val _ _ _ _ HD). }
  rewrite Hv. etrans; [apply concat_perm, fmap_Permutation, del_perm|]. by rewrite fmap_cons.
Qed.

End after.
(** ** The loop *)

(** A state that [n] tokens were evicted from. *)
Record shrinks s L s' L' (held : list nat) (n : Z) : Prop := mkShrinks {
  sh_inv : Inv cfg s' L' held;
  sh_nonneg : 0 <= n;
  sh_root : root_node s' = root_node s;
  sh_sub i : i ∈ L' -> i ∈ L;
  sh_locked i : i ∈ L -> 0 < lck s i -> i ∈ L';
  sh_lck i : lck s' i = lck s i;
  sh_desc ek us vs j : Desc cfg s' ek (root_node s') us vs j -> Desc cfg s ek (root_node s) us vs j;
  sh_keep ek us vs j : live s' L' j -> Desc cfg s ek (root_node s) us vs j ->
    Desc cfg s' ek (root_node s') us vs j;
  sh_conserve : pool_slots (rx_kv s') ++ concat (val s' <$> L') ≡ₚ
                pool_slots (rx_kv s) ++ concat (val s <$> L);
  sh_ev : evictable_size_ s' = evictable_size_ s - n;
  sh_pr : protected_size_ s' = protected_size_ s;
}.

Lemma shrinks_refl s L held : Inv cfg s L held -> shrinks s L s L held 0.
Proof. intros HI. constructor; (done || lia). Qed.

Lemma shrinks_trans s L s1 L1 s2 L2 held n m :
  shrinks s L s1 L1 held n -> shrinks s1 L1 s2 L2 held m -> shrinks s L s2 L2 held (n + m).
Proof.
  intros A B. constructor.
  - apply B.
  - pose proof (sh_nonneg _ _ _ _ _ _ A). pose proof (sh_nonneg _ _ _ _ _ _ B). lia.
  - rewrite (sh_root _ _ _ _ _ _ B). apply A.
  - intros i Hi. by apply (sh_sub _ _ _ _ _ _ A), (sh_sub _ _ _ _ _ _ B).
  - intros i Hi Hl. apply (sh_locked _ _ _ _ _ _ B); [by apply (sh_locked _ _ _ _ _ _ A)|].
    by rewrite (sh_lck _ _ _ _ _ _ A).
  - intros i. rewrite (sh_lck _ _ _ _ _ _ B). apply A.
  - intros ek us vs j Hd. by apply (sh_desc _ _ _ _ _ _ A), (sh_desc _ _ _ _ _ _ B).
  - intros ek us vs j Hj Hd. apply (sh_keep _ _ _ _ _ _ B); [done|]. apply (sh_keep _ _ _ _ _ _ A); [|done].
    destruct Hj as [->|Hj]; [left; apply B|right; by apply (sh_sub _ _ _ _ _ _ B)].
  - etrans; [apply (sh_conserve _ _ _ _ _ _ B)|apply (sh_conserve _ _ _ _ _ _ A)].
  - rewrite (sh_ev _ _ _ _ _ _ B), (sh_ev _ _ _ _ _ _ A). lia.
  - rewrite (sh_pr _ _ _ _ _ _ B). apply A.
Qed.

(** Giving slots back to the allocator leaves the tree alone. *)
Lemma Inv_kv s L held a : Inv cfg s L held -> Inv cfg (set_rx_kv a s) L held.
Proof. by intros []. Qed.

Lemma Desc_kv s a ek i us vs j : Desc cfg (set_rx_kv a s) ek i us vs j <-> Desc cfg s ek i us vs j.
Proof. split; apply Desc_ext; done. Qed.

Lemma shrinks_delete s s' L held x p :
  Inv cfg s L held -> x ∈ L -> par s x = Some p -> lck s x = 0 -> chl s x = [] ->
  Deleted (set_rx_kv (free (val s x) (rx_kv s)) s) s' x p ->
  shrinks s L s' (filter (fun i => i <> x) L) held (len (val s x)).
Proof.
  intros HI Hx Hpar Hl Hc HD. set (s0 := set_rx_kv _ s) in *.
  assert (HI0 : Inv cfg s0 L held) by by apply Inv_kv.
  assert (Hr : live s0 L (root_node s0)) by by left.
  constructor.
  - by apply (del_Inv HI0 HD).
  - apply len_nonneg.
  - apply HD.
  - by intros i [_ ?]%list_elem_of_filter.
  - intros i Hi Hli. apply list_elem_of_filter. split; [|done]. intros ->. lia.
  - apply HD.
  - intros ek us vs j Hd. apply (del_Desc_from HI0 HD) in Hd; [|left; apply HD].
    rewrite (dl_root _ _ _ _ HD) in Hd. by apply Desc_kv in Hd.
  - intros ek us vs j Hj Hd. rewrite (dl_root _ _ _ _ HD).
    apply (del_Desc_to HI0 HD Hx Hpar Hl Hc); [done| |by apply Desc_kv].
    intros ->. destruct Hj as [E|Hj]; [|by apply list_elem_of_filter in Hj as [? _]].
    rewrite (dl_root _ _ _ _ HD) in E. apply (inv_root_fresh _ _ _ _ HI0). by rewrite <- E.
  - rewrite (dl_kv _ _ _ _ HD). cbn. rewrite free_conserves.
    pose proof (del_slots HI0 HD Hx) as Hs. change (concat (val s0 <$> L)) with (concat (val s <$> L)) in Hs.
    rewrite Hs. change (val s0 x) with (val s x). solve_Permutation.
  - rewrite (dl_ev _ _ _ _ HD). rewrite (len_val cfg HI x Hx). done.
  - apply HD.
Qed.

(** The heap holds the evictable leaves, once each. *)
Definition heap_of s (h : list (list Z * nat)) : Prop :=
  NoDup h.*2 /\ forall i, i ∈ h.*2 <-> i ∈ evictable_leaves s.

Lemma heap_pop_perm s x h : (heap_pop s x h).1 :: (heap_pop s x h).2 ≡ₚ x :: h.
Proof.
  revert x. induction h as [|y h IH]; intros x; [done|]. cbn.
  destruct (heap_lt s y x).
  - specialize (IH y). destruct (heap_pop s y h) as [m rest]. cbn in *.
    by rewrite Permutation_swap, IH.
  - specialize (IH x). destruct (heap_pop s x h) as [m rest]. cbn in *.
    rewrite Permutation_swap, IH. apply Permutation_swap.
Qed.

Lemma live_walkable s L held i : Inv cfg s L held -> live s L i -> walkable s 0 i.
Proof.
  intros HI [->|Hi].
  - destruct (inv_root_node _ _ _ _ HI) as (_ & Hl & Hv). split; [apply HI|]. unfold evicted. rewrite Hv.
    split; [done|]. split; [lia|]. intros k c Hkc.
    destruct (inv_chl _ _ _ _ HI (root_node s) (or_introl eq_refl)) as [_ Hm].
    destruct (Hm _ _ Hkc) as (Hc & _). destruct (inv_val _ _ _ _ HI c Hc) as (v & -> & _). done.
  - eapply walkable_mono; [|by eapply Inv_walkable]. by apply (inv_lock _ _ _ _ HI).
Qed.

(** The heap after a deletion. *)
Lemma heap_of_delete s s' L held x p e h rest prio :
  Inv cfg s L held -> Deleted s s' x p -> x ∈ L -> par s x = Some p -> lck s x = 0 -> chl s x = [] ->
  heap_of s (e :: h) -> (prio, x) :: rest ≡ₚ e :: h ->
  forall pr, heap_of s' (if bool_decide (chl s' p = []) && (lck s' p =? 0) then (pr, p) :: rest else rest).
Proof.
  intros HI HD Hx Hpar Hl Hc [Hnd Hh] Hp pr.
  destruct (inv_par _ _ _ _ HI x Hx) as (q & Hq & _ & Hget). assert (q = p) as -> by congruence.
  assert (Hxp : x <> p).
  { intros ->. destruct (inv_rank _ _ _ _ HI) as [rk Hrk]. pose proof (Hrk _ _ Hx Hpar). lia. }
  assert (Hp2 : x :: rest.*2 ≡ₚ (e :: h).*2) by (by rewrite <- Hp).
  rewrite <- Hp2 in Hnd. apply NoDup_cons in Hnd as [Hxr Hndr].
  assert (Hin : forall i, i ∈ rest.*2 <-> i <> x /\ i ∈ evictable_leaves s).
  { intros i. rewrite <- (Hh i), <- Hp2, elem_of_cons. split; [|naive_solver].
    intros Hi. split; [by intros ->|by right]. }
  assert (Hpn : p ∉ evictable_leaves s).
  { rewrite (inv_leaf _ _ _ _ HI). intros (_ & _ & E). by rewrite E in Hget. }
  case_if; breflect; (split; [try done|]).
  - rewrite fmap_cons. constructor; [|done]. rewrite Hin. naive_solver.
  - intros i. rewrite fmap_cons, elem_of_cons, Hin, (dl_leaf _ _ _ _ HD). cbn.
    rewrite <- (dl_lck _ _ _ _ HD p). case_decide; naive_solver.
  - intros i. rewrite Hin, (dl_leaf _ _ _ _ HD), <- (dl_lck _ _ _ _ HD p). case_decide as Hip; [|done].
    subst i. split; [naive_solver|]. intros [E1 E2]. apply andb_false_iff in Heqb as [?|?]; breflect; done.
Qed.

(** Nothing evictable is left once there is no evictable leaf. *)
Lemma no_leaf_no_evictable s L held :
  Inv cfg s L held -> (forall i, i ∉ evictable_leaves s) -> evictable_size_ s = 0.
Proof.
  intros HI Hno. rewrite (inv_ev _ _ _ _ HI).
  assert (Hall : forall i, i ∈ L -> lck s i <> 0).
  { destruct (inv_rank _ _ _ _ HI) as [rk Hrk].
    assert (Hmax : exists m, forall i, i ∈ L -> (rk i <= m)%nat).
    { clear. induction L as [|y l [m Hm]]; [exists 0%nat; by intros i ?%not_elem_of_nil|].
      exists (Nat.max m (rk y)). intros i [->|Hi]%elem_of_cons; [lia|]. specialize (Hm i Hi). lia. }
    destruct Hmax as [m Hm]. intros i Hi. remember (m - rk i)%nat as r eqn:Er. revert i Hi Er.
    induction (lt_wf r) as [r _ IH]; intros i Hi -> Hz.
    destruct (chl s i) as [|[k c] d] eqn:Hd; [by apply (Hno i), (inv_leaf _ _ _ _ HI)|].
    assert (Hkc : (k, c) ∈ chl s i) by (rewrite Hd; left).
    destruct (inv_chl _ _ _ _ HI i (or_intror Hi)) as [_ Hmm]. destruct (Hmm _ _ Hkc) as (Hc & Hpc & _).
    pose proof (Hrk _ _ Hc Hpc). pose proof (Hm c Hc).
    apply (IH (m - rk c)%nat ltac:(lia) c Hc eq_refl).
    pose proof (child_locks_ge cfg s L held i k c HI (or_intror Hi) Hkc).
    destruct (inv_lock _ _ _ _ HI i Hi) as [_ Hli]. destruct (inv_lock _ _ _ _ HI c Hc) as [? _].
    unfold held_count in Hli. lia. }
  transitivity (zsum ((fun _ : nat => 0) <$> L)).
  - apply zsum_ext_in. intros i Hi. unfold ev_size. rewrite (proj2 (Z.eqb_neq _ _)); [done|]. by apply Hall.
  - clear. induction L as [|y l IH]; [done|]. by rewrite fmap_cons, zsum_cons, IH.
Qed.

Lemma evict_loop_spec fuel nt num s L held h :
  Inv cfg s L held -> heap_of s h -> (length L < fuel)%nat ->
  exists n s' L', evict_loop cfg fuel nt num h s = (Ret (num + n), s') /\
    shrinks s L s' L' held n /\ (nt <= num + n \/ evictable_size_ s' = 0).
Proof.
  revert num s L h. induction fuel as [|fuel IH]; intros num s L h HI Hh Hf; [lia|].
  cbn [evict_loop]. destruct h as [|e h].
  { exists 0, s, L. rewrite Z.add_0_r. split; [done|]. split; [by apply shrinks_refl|right].
    eapply no_leaf_no_evictable; [done|]. intros i Hi. apply Hh in Hi. by apply not_elem_of_nil in Hi. }
  case_if; breflect.
  { exists 0, s, L. rewrite Z.add_0_r. split; [done|]. split; [by apply shrinks_refl|left; lia]. }
  rewrite (bind_run get _ s s s) by done. pose proof (heap_pop_perm s e h) as Hpp.
  destruct (heap_pop s e h) as [[prio x] rest] eqn:Hpop. cbn [fst snd] in Hpp.
  assert (Hxl : x ∈ evictable_leaves s).
  { apply Hh. rewrite <- Hpp, fmap_cons. left. }
  apply (inv_leaf _ _ _ _ HI) in Hxl as (Hx & Hl & Hc).
  destruct (inv_val _ _ _ _ HI x Hx) as (v & Hv & _).
  destruct (inv_par _ _ _ _ HI x Hx) as (p & Hpar & Hpl & Hget).
  assert (Hp : live s L p) by (unfold live; naive_solver).
  assert (v = val s x) as -> by (unfold val; by rewrite Hv).
  rewrite Hv, (bind_run (of_option _ _) _ s (val s x) s) by done. rewrite bind_modify.
  set (s0 := set_rx_kv (free (val s x) (rx_kv s)) s).
  assert (HI0 : Inv cfg s0 L held) by by apply Inv_kv.
  destruct (delete_leaf_spec s0 x p) as (s1 & Hrun & HD); [done|done|by eapply live_walkable| |].
  { by apply (inv_chl _ _ _ _ HI p). }
  rewrite (bind_run _ _ _ _ _ Hrun). fold (par s x). rewrite Hpar.
  rewrite (bind_run (of_option _ _) _ s1 p s1), (bind_run get _ s1 s1 s1) by done. fold (chl s1 p) (lck s1 p).
  pose proof (shrinks_delete s s1 L held x p HI Hx Hpar Hl Hc HD) as Hsh.
  assert (Hlen : (length (filter (fun i => i <> x) L) < fuel)%nat).
  { pose proof (Permutation_length (del_perm HI Hx)) as E. cbn in E. lia. }
  destruct (IH (num + len (val s x)) s1 _ _ (sh_inv _ _ _ _ _ _ Hsh)
    (heap_of_delete s0 s1 L held x p e h rest prio HI0 HD Hx Hpar Hl Hc Hh Hpp (get_priority (eviction_strategy cfg) (node_at s1 p))) Hlen)
    as (n & s' & L' & Hrun' & Hsh' & Hdone).
  exists (len (val s x) + n), s', L'. rewrite Z.add_assoc. split; [exact Hrun'|].
  split; [by eapply shrinks_trans|done].
Qed.

Lemma rx_evict_spec s L held num_tokens :
  Inv cfg s L held -> rx_disable cfg = false ->
  exists n s' L', rx_evict cfg num_tokens s = (Ret n, s') /\
    shrinks s L s' L' held n /\ (num_tokens <= n \/ evictable_size_ s' = 0).
Proof.
  intros HI Hdis. unfold rx_evict. rewrite Hdis, (bind_run get _ s s s) by done.
  apply evict_loop_spec; [done| |].
  - split.
    + rewrite <- list_fmap_compose. cbn. rewrite list_fmap_id. apply NoDup_elements.
    + intros i. rewrite <- list_fmap_compose. cbn. rewrite list_fmap_id. apply elem_of_elements.
  - assert (Hsub : L ⊆+ seq 0 (length (nodes s))).
    { apply NoDup_submseteq; [apply HI|]. intros i Hi. apply elem_of_seq.
      pose proof (inv_bound _ _ _ _ HI i Hi). lia. }
    apply submseteq_length in Hsub. rewrite length_seq in Hsub. lia.
Qed.

End evict.
