(* ===== verification/RadixReq.v ===== *)
(** * Requests and the radix cache

    [cache_finished_req] and [cache_unfinished_req] of
    srt/mem_cache/radix_cache.py with the [Req] fields and methods they use
    (srt/managers/schedule_batch.py): the request's slots enter the tree,
    duplicates and unaligned tails go back to the allocator, and the lock
    moves to the node that now covers the request. *)

From stdpp Require Import gmap.
From S2P Require Import Prelude PyDict Allocator Engine ReqPool RadixKey RadixTree.

Record RadixReq := mkRadixReq {
  rr_origin_input_ids : list Z;
  rr_output_ids : list Z;
  rr_full_untruncated_fill_ids : list Z;
  rr_fill_len : Z;
  rr_req_pool_idx : Z;
  rr_extra_key : option (list Z);
  rr_priority : option Z;
  rr_reasoning_tokens : Z;
  rr_kv_committed_len : Z;
  rr_kv_committed_freed : bool;
  rr_cache_protected_len : Z;
  rr_prefix_indices : list Z;
  rr_last_node : option nat;
}.

Definition set_rr_kv_committed_freed v r := mkRadixReq (rr_origin_input_ids r) (rr_output_ids r)
  (rr_full_untruncated_fill_ids r) (rr_fill_len r) (rr_req_pool_idx r) (rr_extra_key r)
  (rr_priority r) (rr_reasoning_tokens r) (rr_kv_committed_len r) v (rr_cache_protected_len r)
  (rr_prefix_indices r) (rr_last_node r).
Definition set_rr_cache_protected_len v r := mkRadixReq (rr_origin_input_ids r) (rr_output_ids r)
  (rr_full_untruncated_fill_ids r) (rr_fill_len r) (rr_req_pool_idx r) (rr_extra_key r)
  (rr_priority r) (rr_reasoning_tokens r) (rr_kv_committed_len r) (rr_kv_committed_freed r) v
  (rr_prefix_indices r) (rr_last_node r).
Definition set_rr_prefix_indices v r := mkRadixReq (rr_origin_input_ids r) (rr_output_ids r)
  (rr_full_untruncated_fill_ids r) (rr_fill_len r) (rr_req_pool_idx r) (rr_extra_key r)
  (rr_priority r) (rr_reasoning_tokens r) (rr_kv_committed_len r) (rr_kv_committed_freed r)
  (rr_cache_protected_len r) v (rr_last_node r).
Definition set_rr_last_node v r := mkRadixReq (rr_origin_input_ids r) (rr_output_ids r)
  (rr_full_untruncated_fill_ids r) (rr_fill_len r) (rr_req_pool_idx r) (rr_extra_key r)
  (rr_priority r) (rr_reasoning_tokens r) (rr_kv_committed_len r) (rr_kv_committed_freed r)
  (rr_cache_protected_len r) (rr_prefix_indices r) v.

(** [get_fill_ids]. *)
Definition get_fill_ids (r : RadixReq) : list Z :=
  slice_to (rr_full_untruncated_fill_ids r) (rr_fill_len r).

(** [_refresh_fill_ids]; whether the array is [origin_input_ids] itself is
    the flag [aliased]. *)
Definition refresh_fill_ids (aliased : bool) (r : RadixReq) : list Z :=
  let n_have_output := len (rr_full_untruncated_fill_ids r) - len (rr_origin_input_ids r) in
  if negb aliased && (0 <=? n_have_output) && (n_have_output <=? len (rr_output_ids r))
  then rr_full_untruncated_fill_ids r ++ slice_from (rr_output_ids r) n_have_output
  else rr_origin_input_ids r ++ rr_output_ids r.

(** [_cache_commit_len] and [pop_committed_kv_cache]. *)
Definition cache_commit_len (strip_thinking_cache : bool) (r : RadixReq) : Z :=
  if strip_thinking_cache && (0 <? rr_reasoning_tokens r)
  then Z.min (rr_kv_committed_len r) (len (rr_origin_input_ids r))
  else rr_kv_committed_len r.

Definition pop_committed_kv_cache {S} (strip : bool) (r : RadixReq) : M S (Z * RadixReq) :=
  assert_ (negb (rr_kv_committed_freed r));;
  let r := set_rr_kv_committed_freed true r in
  mret (cache_commit_len strip r, r).

Section req.
Context {KV : Type} `{AllocatorOps KV}.
Variable cfg : RadixConfig.
Variable strip_thinking_cache : bool.
Variable monotonic : nat -> Z.

(** The tree with its allocator, and the request-to-token table. *)
Record RadixEngine := mkRadixEngine {
  re_tree : Radix KV;
  re_pool : ReqToTokenPool;
}.

Definition set_re_tree v s := mkRadixEngine v (re_pool s).
Definition set_re_pool v s := mkRadixEngine (re_tree s) v.

Definition on_tree {A} (m : M (Radix KV) A) : M RadixEngine A := zoom re_tree set_re_tree m.
Definition rx_free (slots : list Z) : M RadixEngine unit :=
  on_tree (modify (fun t => set_rx_kv (free slots (rx_kv t)) t)).

(** [self.req_to_token_pool.req_to_token[req.req_pool_idx, :n]]. *)
Definition read_row (r : RadixReq) (n : Z) : M RadixEngine (list Z) :=
  s ← get;
  row ← of_option IndexError (pyget (req_to_token (re_pool s)) (rr_req_pool_idx r));
  mret (slice_to row n).

(** [RadixKey(token_ids, req.extra_key, is_bigram=self.is_eagle).page_aligned(...)]. *)
Definition req_key (token_ids : list Z) (r : RadixReq) : RadixKey :=
  page_aligned (page_size cfg) (mkKey token_ids (rr_extra_key r) (is_eagle cfg) None).

Definition rx_cache_finished_req (r : RadixReq) (is_insert : bool) : M RadixEngine RadixReq :=
  let is_insert := if disable_finished_insert cfg then false else is_insert in
  nr ← pop_committed_kv_cache strip_thinking_cache r;
  let '(kv_committed_len, r) := nr in
  if rx_disable cfg then
    kv_indices ← read_row r kv_committed_len;
    rx_free kv_indices;;
    mret r
  else
    let token_ids := slice_to (rr_origin_input_ids r ++ rr_output_ids r) kv_committed_len in
    kv_indices ← read_row r (len token_ids);
    let radix_key := req_key token_ids r in
    let klen := key_len radix_key in
    let values := slice_to kv_indices klen in
    (if is_insert then
       prefix_len ← on_tree (rx_insert cfg monotonic radix_key (Some values)
                               (Some (default 0 (rr_priority r))) false);
       rx_free (pyslice kv_indices (rr_cache_protected_len r) prefix_len)
     else rx_free (pyslice kv_indices (rr_cache_protected_len r) klen));;
    rx_free (slice_from kv_indices klen);;
    (match rr_last_node r with
     | Some n => _ ← on_tree (rx_dec_lock_ref cfg n); mret tt
     | None => mret tt
     end);;
    mret r.

Definition rx_cache_unfinished_req (r : RadixReq) (chunked : bool) : M RadixEngine RadixReq :=
  if rx_disable cfg then mret r
  else
    let token_ids := get_fill_ids r in
    kv_indices ← read_row r (len token_ids);
    let radix_key := req_key token_ids r in
    let values := slice_to kv_indices (key_len radix_key) in
    new_prefix_len ← on_tree (rx_insert cfg monotonic radix_key (Some values)
                                (Some (default 0 (rr_priority r))) chunked);
    rx_free (pyslice kv_indices (rr_cache_protected_len r) new_prefix_len);;
    m ← on_tree (rx_match_prefix cfg monotonic radix_key);
    let new_indices := rm_device_indices m in
    assert_ (len new_indices =? key_len radix_key);;
    zoom re_pool set_re_pool
      (pool_write (rr_req_pool_idx r) (rr_cache_protected_len r) (len new_indices)
         (slice_from new_indices (rr_cache_protected_len r)));;
    let r := set_rr_cache_protected_len (len new_indices) r in
    old ← of_option TypeError (rr_last_node r);
    _ ← on_tree (rx_dec_lock_ref cfg old);
    _ ← on_tree (rx_inc_lock_ref cfg (rm_last_device_node m));
    (** [kv_indices] is a view of the row, read again after the write. *)
    kv_indices ← read_row r (len token_ids);
    let r := set_rr_prefix_indices
               (if len new_indices <? len kv_indices
                then new_indices ++ slice_from kv_indices (len new_indices)
                else new_indices) r in
    mret (set_rr_last_node (Some (rm_last_device_node m)) r).

End req.

Arguments RadixEngine KV : clear implicits.
