(* ===== verification/RadixReqFacts.v ===== *)
(** * What caching a request does to its slots

    The proofs for [cache_unfinished_req] and [cache_finished_req]: with
    the tree's invariant and the request's lock on the path that covers its
    first [cache_protected_len] units, every slot of the request ends up in
    exactly one place (the tree, the allocator, or the request again). *)

From stdpp Require Import gmap.
From S2P Require Import Prelude PyDict Allocator Engine ReqPool ReqPoolFacts RadixKey RadixTree RadixShape RadixSplit.
From S2P Require Import RadixOps RadixInsert RadixLock RadixEvict RadixReq.

Section facts.
Context {KV : Type} `{Allocator KV}.
Variable cfg : RadixConfig.
Variable monotonic : nat -> Z.
Implicit Types t : Radix KV.

#[local] Abbreviation ps := (page_size cfg).
Hypothesis Hps : 1 <= ps.

(** The slots of the tree's live nodes. *)
Definition cached t (L : list nat) : list Z := concat (val t <$> L).

(** What is cached for a prefix is determined. *)
Lemma Desc_take_det t L held ek a U V j U' V' j' n :
  Inv cfg t L held -> live t L a -> Desc cfg t ek a U V j -> Desc cfg t ek a U' V' j' ->
  (ps | Z.of_nat n) -> (n <= length U)%nat -> (n <= length U')%nat -> take n U = take n U' ->
  take n V = take n V'.
Proof.
  intros HI Ha Hd. revert U' V' n. induction Hd as [a|a c U V j Hc Hd IH]; intros U' V' n Hd' Hdiv Hn Hn' He.
  { cbn in Hn. by replace n with 0%nat by lia. }
  destruct (decide (n = 0%nat)) as [->|Hn0]; [done|].
  assert (Hpn : ps <= Z.of_nat n) by (apply Z.divide_pos_le; [lia|done]).
  destruct Hd' as [a|a c' U' V' j' Hc' Hd']; [cbn in Hn'; lia|].
  destruct (live_child cfg HI a _ _ Ha Hc) as (Hin & _ & _).
  destruct (live_child cfg HI a _ _ Ha Hc') as (Hin' & _ & _).
  assert (c' = c) as ->.
  { apply (f_equal (take (Z.to_nat ps))) in He. rewrite !take_take in He.
    replace (Z.to_nat ps `min` n)%nat with (Z.to_nat ps) in He by lia.
    rewrite !(take_page_app cfg Hps HI) in He by done. rewrite <- He in Hc'. congruence. }
  pose proof (klen_units cfg HI c Hin) as Hku. pose proof (len_val cfg HI c Hin) as Hkv.
  destruct (inv_key _ _ _ _ HI c Hin) as (_ & _ & _ & Hkd). unfold len in *.
  destruct (decide (n <= length (nunits t c))%nat).
  - by rewrite !take_app_le by lia.
  - replace n with (length (val t c) + (n - length (val t c)))%nat by lia.
    rewrite !take_app_add. f_equal. rewrite length_app in Hn, Hn'. apply (IH (or_intror Hin) U'); try done; try lia.
    + replace (Z.of_nat (n - length (val t c))) with (Z.of_nat n - klen t c) by lia.
      by apply Z.divide_sub_r.
    + replace n with (length (nunits t c) + (n - length (val t c)))%nat in He by lia.
      rewrite !take_app_add in He. by apply app_inv_head in He.
Qed.

Lemma content_det t L held ek us vs vs' :
  Inv cfg t L held -> content cfg t ek us vs -> content cfg t ek us vs' -> vs = vs'.
Proof.
  intros HI (U & V & j & n & Hd & Hn & Hdiv & -> & ->) (U' & V' & j' & n' & Hd' & Hn' & Hdiv' & He & ->).
  assert (n' = n) as ->.
  { apply (f_equal length) in He. rewrite !length_take in He. lia. }
  by eapply Desc_take_det; [done|left|..].
Qed.

(** ** The request's key *)

Lemma req_key_facts ids r :
  let k := req_key cfg ids r in
  client_key cfg k /\ key_extra_key k = rr_extra_key r /\ good_key cfg k /\
  units (query_key cfg k) = units k /\ key_len (query_key cfg k) = key_len k /\
  0 <= key_len k <= len ids.
Proof.
  cbv zeta. unfold req_key. set (k0 := mkKey ids (rr_extra_key r) (is_eagle cfg) None).
  assert (Hw0 : key_wf k0) by done.
  destruct (page_aligned_facts ps k0 Hw0 Hps) as (Hw & He & Hb & Hl).
  set (k := page_aligned ps k0) in *. change (key_is_bigram k0) with (is_eagle cfg) in Hb.
  assert (Hdiv : (ps | key_len k)) by (rewrite Hl; by apply Z.divide_mul_r, Z.divide_refl).
  assert (Hq : query_key cfg k = page_aligned ps k).
  { unfold query_key. rewrite bigram_view_key, Hb. by destruct (is_eagle cfg). }
  assert (Hfl : key_len k / ps * ps = key_len k).
  { destruct Hdiv as [q ->]. by rewrite Z.div_mul by lia. }
  assert (Hnn : 0 <= key_len k0 <= len ids).
  { unfold k0, key_len, raw_len. cbn. pose proof (len_nonneg ids). repeat case_if; breflect; lia. }
  rewrite Hq. destruct (page_aligned_facts ps k Hw Hps) as (_ & _ & _ & ->).
  rewrite (units_page_aligned ps k Hw Hps), Hfl. pose proof (floor_le (key_len k0) ps).
  split; [split; [done|by rewrite Hb]|]. split; [done|]. split; [done|]. split; [|split; [done|lia]].
  apply take_ge. rewrite key_len_units by done. unfold len. lia.
Qed.

(** Inserting the request's slots, seen from its protected prefix. *)
Lemma protected_le t L held ek K V W prot j :
  Inv cfg t L held -> longest cfg t ek K V -> Desc cfg t ek (root_node t) (take prot K) W j ->
  (prot <= length K)%nat -> Z.of_nat prot <= len V.
Proof.
  intros HI [_ Hmax] Hd Hp.
  specialize (Hmax _ _ (Desc_content cfg _ _ _ _ _ _ _ HI Hd)).
  replace (len (take prot K)) with (Z.of_nat prot) in Hmax by (unfold len; rewrite length_take; lia).
  apply Hmax. by exists (drop prot K); rewrite take_drop.
Qed.

Lemma longest_len t L held ek K V :
  Inv cfg t L held -> longest cfg t ek K V -> (length V <= length K)%nat.
Proof.
  intros HI [(U & V' & j & n & Hd & Hn & _ & HK & ->) _].
  destruct (Desc_units cfg HI _ _ _ _ _ (or_introl eq_refl) Hd) as [_ Hl].
  apply (f_equal length) in HK. rewrite !length_take in HK. rewrite !length_take. unfold len in Hl. lia.
Qed.

(** The three places a request's slots go to. *)
Lemma slots_split (row : list Z) (prot m k : Z) :
  0 <= prot <= m -> m <= k -> k <= len row ->
  pyslice row prot (len row) =
  pyslice row prot m ++ drop (Z.to_nat m) (slice_to row k) ++ slice_from row k.
Proof.
  intros Hp Hm Hk.
  assert (drop (Z.to_nat m) (slice_to row k) = pyslice row m k) as ->.
  { rewrite pyslice_in_range by lia. unfold slice_to, pyidx. rewrite (proj2 (Z.ltb_ge k 0)) by lia.
    rewrite Z.min_l by lia. rewrite skipn_firstn_comm. f_equal. lia. }
  assert (slice_from row k = pyslice row k (len row)) as ->.
  { rewrite pyslice_in_range by lia. unfold slice_from, pyidx. rewrite (proj2 (Z.ltb_ge k 0)) by lia.
    rewrite Z.min_l by lia. symmetry. apply take_ge. rewrite length_drop. unfold len. lia. }
  rewrite !pyslice_app by lia. done.
Qed.

(** Running tree operations inside the engine. *)
Lemma on_tree_run {A} (m : M (Radix KV) A) (s : RadixEngine KV) a t :
  m (re_tree s) = (Ret a, t) -> on_tree m s = (Ret a, set_re_tree t s).
Proof. intros Hm. unfold on_tree, zoom. by rewrite Hm. Qed.

Lemma rx_free_run slots (s : RadixEngine KV) :
  rx_free slots s = (Ret tt, set_re_tree (set_rx_kv (free slots (rx_kv (re_tree s))) (re_tree s)) s).
Proof. done. Qed.

Lemma read_row_run r n (s : RadixEngine KV) row :
  row_at (re_pool s) (rr_req_pool_idx r) = Some row ->
  read_row r n s = (Ret (slice_to row n), s).
Proof.
  intros Hr. unfold read_row. rewrite (bind_run get _ s s s) by done. by rewrite (row_at_pyget _ _ _ Hr).
Qed.

(** The state after the insertion of a request's slots. *)
Lemma insert_request t L held ids r W j prio chunked (kv_indices : list Z) :
  let k := req_key cfg ids r in
  let values := slice_to kv_indices (key_len k) in
  Inv cfg t L held -> rx_disable cfg = false -> len kv_indices = len ids ->
  0 <= rr_cache_protected_len r <= key_len k ->
  Desc cfg t (rr_extra_key r) (root_node t) (take (Z.to_nat (rr_cache_protected_len r)) (units k)) W j ->
  exists t' L' V, rx_insert cfg monotonic k (Some values) prio chunked t = (Ret (len V), t') /\
    Inserted cfg t L t' L' held (rr_extra_key r) (units k) values V /\
    rr_cache_protected_len r <= len V <= key_len k /\
    pyslice kv_indices (rr_cache_protected_len r) (len V) ++ cached t' L' ++ slice_from kv_indices (key_len k)
      ≡ₚ cached t L ++ pyslice kv_indices (rr_cache_protected_len r) (len kv_indices).
Proof.
  cbv zeta. intros HI Hdis Hlen Hprot HW.
  destruct (req_key_facts ids r) as (Hck & Hex & Hgk & Hu & Hkl & Hbnd).
  set (k := req_key cfg ids r) in *. pose proof Hgk as (Hwf & _ & _).
  pose proof (key_len_units k Hwf) as Hlk.
  assert (Hlv : len (slice_to kv_indices (key_len k)) = key_len k) by (apply len_slice_to; lia).
  destruct (rx_insert_spec cfg monotonic Hps t L held k (slice_to kv_indices (key_len k)) prio chunked HI Hck Hdis)
    as (t' & L' & V & Hrun & HIn); [lia|].
  assert (Hsl : insert_slots cfg k (slice_to kv_indices (key_len k)) = slice_to kv_indices (key_len k)).
  { unfold insert_slots. apply take_ge. unfold len in *. lia. }
  rewrite Hsl, Hu, Hex in HIn. exists t', L', V. split; [done|]. split; [done|].
  pose proof (longest_len t L held _ _ _ HI (is_longest _ _ _ _ _ _ _ _ _ _ HIn)) as HlV.
  pose proof (protected_le t L held _ _ V W (Z.to_nat (rr_cache_protected_len r)) j HI
    (is_longest _ _ _ _ _ _ _ _ _ _ HIn) HW) as Hpl.
  specialize (Hpl ltac:(unfold len in *; lia)).
  assert (HV : rr_cache_protected_len r <= len V <= key_len k) by (unfold len in *; lia).
  split; [done|].
  rewrite (slots_split kv_indices (rr_cache_protected_len r) (len V) (key_len k)) by lia.
  unfold cached. rewrite (is_slots _ _ _ _ _ _ _ _ _ _ HIn).
  replace (Z.to_nat (len V)) with (length V) by (unfold len; lia). solve_Permutation.
Qed.

(** Giving the lock back. *)
Lemma dec_lock_request (s : RadixEngine KV) L held j :
  Inv cfg (re_tree s) L (j :: held) -> rx_disable cfg = false ->
  exists d t', on_tree (rx_dec_lock_ref cfg j) s = (Ret d, set_re_tree t' s) /\
    Inv cfg t' L held /\ rx_kv t' = rx_kv (re_tree s) /\ cached t' L = cached (re_tree s) L /\
    root_node t' = root_node (re_tree s) /\
    forall ek a us vs i, Desc cfg (re_tree s) ek a us vs i <-> Desc cfg t' ek a us vs i.
Proof.
  intros HI Hdis. destruct (dec_lock_ref_spec cfg _ L held j HI Hdis) as (t' & l & Hrun & _ & R & HI').
  eexists _, t'. split; [by apply on_tree_run|]. split; [done|]. split; [apply R|].
  split; [|split; [apply R|intros; by eapply relocked_Desc]].
  unfold cached. f_equal. apply list_fmap_ext. intros. unfold val. by rewrite (rl_val _ _ _ _ R).
Qed.

(** Moving the lock from [j] to [n]. *)
Lemma move_lock_request (s : RadixEngine KV) L held j n :
  Inv cfg (re_tree s) L (j :: held) -> rx_disable cfg = false -> live (re_tree s) L n ->
  exists d e t5 t', on_tree (rx_dec_lock_ref cfg j) s = (Ret d, set_re_tree t5 s) /\
    on_tree (rx_inc_lock_ref cfg n) (set_re_tree t5 s) = (Ret e, set_re_tree t' s) /\
    Inv cfg t' L (n :: held) /\ rx_kv t' = rx_kv (re_tree s) /\ cached t' L = cached (re_tree s) L /\
    root_node t' = root_node (re_tree s) /\
    forall ek a us vs i, Desc cfg (re_tree s) ek a us vs i <-> Desc cfg t' ek a us vs i.
Proof.
  intros HI Hdis Hn. destruct (dec_lock_request s L held j HI Hdis)
    as (d & t5 & Hrun5 & HI5 & Hkv5 & Hca5 & Hr5 & Hd5).
  assert (Hn5 : live t5 L n) by (unfold live in *; by rewrite Hr5).
  destruct (inc_lock_ref_spec cfg t5 L held n HI5 Hn5 Hdis) as (t6 & l & Hrun6 & _ & R & HI6).
  eexists d, _, t5, t6. split; [done|]. split; [by apply (on_tree_run _ (set_re_tree t5 s))|]. split; [done|].
  split; [by rewrite (rl_kv _ _ _ _ R)|]. split; [|split].
  - rewrite <- Hca5. unfold cached. f_equal. apply list_fmap_ext. intros. unfold val.
    by rewrite (rl_val _ _ _ _ R).
  - by rewrite (rl_root _ _ _ _ R).
  - intros. rewrite Hd5. apply (relocked_Desc cfg _ _ _ _ _ _ _ _ _ R).
Qed.

(** The request before it is cached: its row, its key and its lock. *)
Record cacheable (s : RadixEngine KV) L held ids r (row : list Z) j W : Prop := mkCacheable {
  cq_inv : Inv cfg (re_tree s) L (j :: held);
  cq_last : rr_last_node r = Some j;
  cq_row : row_at (re_pool s) (rr_req_pool_idx r) = Some row;
  cq_len : len ids <= len row;
  cq_prot : 0 <= rr_cache_protected_len r <= key_len (req_key cfg ids r);
  cq_path : Desc cfg (re_tree s) (rr_extra_key r) (root_node (re_tree s))
    (take (Z.to_nat (rr_cache_protected_len r)) (units (req_key cfg ids r))) W j;
}.

Lemma pyslice_of_prefix (row : list Z) a n :
  0 <= a <= n -> n <= len row ->
  pyslice row a n = pyslice (slice_to row n) a (len (slice_to row n)).
Proof.
  intros Ha Hn. rewrite !pyslice_in_range by (rewrite ?len_slice_to; lia). rewrite len_slice_to by lia.
  unfold slice_to, pyidx. rewrite (proj2 (Z.ltb_ge n 0)), Z.min_l by lia.
  rewrite skipn_firstn_comm, take_take. f_equal. lia.
Qed.

Lemma slice_from_prefix (row : list Z) a n :
  0 <= a <= n -> n <= len row -> slice_from (slice_to row n) a = pyslice row a n.
Proof.
  intros Ha Hn. rewrite (pyslice_of_prefix row) by done.
  rewrite pyslice_in_range by (rewrite ?len_slice_to; lia).
  unfold slice_from, pyidx. rewrite (proj2 (Z.ltb_ge a 0)) by lia.
  rewrite Z.min_l by (rewrite len_slice_to; lia). symmetry. apply take_ge.
  rewrite length_drop. unfold len. lia.
Qed.

(** Insertion or not, what the request does not need any more is freed. *)
Definition finish_branch (k : RadixKey) (prot : Z) (kvi : list Z) (prio : option Z) (is_insert : bool)
    : M (RadixEngine KV) unit :=
  if is_insert then
    prefix_len ← on_tree (rx_insert cfg monotonic k (Some (slice_to kvi (key_len k))) prio false);
    rx_free (pyslice kvi prot prefix_len)
  else rx_free (pyslice kvi prot (key_len k)).

Lemma finish_branch_run (s : RadixEngine KV) L held ids r row j W kvi prio is_insert :
  let k := req_key cfg ids r in
  rx_disable cfg = false -> cacheable s L held ids r row j W -> len kvi = len ids ->
  exists t1 L1, finish_branch k (rr_cache_protected_len r) kvi prio is_insert s = (Ret tt, set_re_tree t1 s) /\
    Inv cfg t1 L1 (j :: held) /\
    pool_slots (rx_kv t1) ++ cached t1 L1 ++ slice_from kvi (key_len k) ≡ₚ
      pool_slots (rx_kv (re_tree s)) ++ cached (re_tree s) L ++ pyslice kvi (rr_cache_protected_len r) (len kvi).
Proof.
  cbv zeta. intros Hdis [HI Hlast Hrow Hlrow Hprot HW] Hkvi.
  destruct (req_key_facts ids r) as (_ & _ & _ & _ & _ & Hbnd).
  unfold finish_branch. destruct is_insert.
  - destruct (insert_request (re_tree s) L (j :: held) ids r W j prio false kvi
      HI Hdis Hkvi Hprot HW) as (t1 & L1 & V & Hrun & HIn & HV & Hperm).
    eexists _, L1. split.
    { rewrite (bind_run _ _ _ _ _ (on_tree_run _ s _ _ Hrun)). rewrite rx_free_run. reflexivity. }
    cbn. split; [apply Inv_kv, HIn|]. rewrite free_conserves, (is_kv _ _ _ _ _ _ _ _ _ _ HIn).
    change (cached (set_rx_kv ?a ?b) L1) with (cached b L1). rewrite <- Hperm. solve_Permutation.
  - eexists _, L. split; [reflexivity|]. cbn. split; [by apply Inv_kv|].
    rewrite free_conserves. change (cached (set_rx_kv ?a ?b) L) with (cached b L).
    set (k := req_key cfg ids r) in *.
    rewrite (slots_split kvi (rr_cache_protected_len r) (key_len k) (key_len k)) by lia.
    rewrite (drop_ge (slice_to kvi (key_len k))); [solve_Permutation|].
    pose proof (len_slice_to kvi (key_len k) ltac:(lia)). unfold len in *. lia.
Qed.

Lemma finished_conserves (s : RadixEngine KV) L held strip r row j W is_insert :
  let ids := slice_to (rr_origin_input_ids r ++ rr_output_ids r) (cache_commit_len strip r) in
  rx_disable cfg = false -> rr_kv_committed_freed r = false -> cacheable s L held ids r row j W ->
  exists s' L', rx_cache_finished_req cfg strip monotonic r is_insert s =
      (Ret (set_rr_kv_committed_freed true r), s') /\
    Inv cfg (re_tree s') L' held /\ re_pool s' = re_pool s /\
    pool_slots (rx_kv (re_tree s')) ++ cached (re_tree s') L' ≡ₚ
      pool_slots (rx_kv (re_tree s)) ++ cached (re_tree s) L ++
      pyslice row (rr_cache_protected_len r) (len ids).
Proof.
  cbv zeta. intros Hdis Hfr Hcq. pose proof Hcq as [HI Hlast Hrow Hlrow Hprot HW].
  set (ids := slice_to _ _) in *. destruct (req_key_facts ids r) as (_ & _ & _ & _ & _ & Hbnd).
  unfold rx_cache_finished_req.
  rewrite (bind_run (pop_committed_kv_cache strip r) _ s
    (cache_commit_len strip r, set_rr_kv_committed_freed true r) s)
    by (unfold pop_committed_kv_cache; by rewrite Hfr).
  rewrite Hdis. set (r' := set_rr_kv_committed_freed true r).
  change (slice_to (rr_origin_input_ids r' ++ rr_output_ids r') (cache_commit_len strip r)) with ids.
  rewrite (bind_run _ _ _ _ _ (read_row_run r' (len ids) s row Hrow)).
  change (req_key cfg ids r') with (req_key cfg ids r).
  pose proof (len_nonneg ids). rewrite (pyslice_of_prefix row) by lia. set (kvi := slice_to row (len ids)).
  assert (Hkvi : len kvi = len ids) by (apply len_slice_to; lia).
  destruct (finish_branch_run s L held ids r row j W kvi (Some (default 0 (rr_priority r)))
    (if disable_finished_insert cfg then false else is_insert) Hdis Hcq Hkvi) as (t1 & L1 & Hb & HI1 & Hperm).
  rewrite (bind_run _ _ _ _ _ Hb), (bind_run _ _ _ _ _ (rx_free_run _ _)).
  change (rr_last_node r') with (rr_last_node r). rewrite Hlast. set (s2 := set_re_tree _ _).
  assert (HI2 : Inv cfg (re_tree s2) L1 (j :: held)) by by apply Inv_kv.
  destruct (dec_lock_request s2 L1 held j HI2 Hdis) as (d & t3 & Hrun & HI3 & Hkv & Hca & _).
  exists (set_re_tree t3 s2), L1. split.
  { rewrite (bind_run _ _ _ tt (set_re_tree t3 s2)); [done|]. by rewrite (bind_run _ _ _ _ _ Hrun). }
  cbn [re_tree set_re_tree re_pool]. split; [done|]. split; [done|].
  rewrite Hkv, Hca, <- Hperm. cbn. rewrite free_conserves.
  change (cached (set_rx_kv ?a ?b) L1) with (cached b L1). solve_Permutation.
Qed.

(** Matching the key just inserted finds all of it. *)
Lemma match_after_insert t L t1 L1 a held ids r values V :
  let k := req_key cfg ids r in
  Inv cfg t L held -> rx_disable cfg = false -> len values = key_len k ->
  Inserted cfg t L t1 L1 held (rr_extra_key r) (units k) values V ->
  exists m t2 L2, rx_match_prefix cfg monotonic k (set_rx_kv a t1) = (Ret m, t2) /\
    rm_device_indices m = V ++ drop (length V) values /\
    evolves cfg (set_rx_kv a t1) L1 t2 L2 held /\
    Desc cfg t2 (rr_extra_key r) (root_node t2) (units k) (V ++ drop (length V) values)
      (rm_last_device_node m) /\ len (V ++ drop (length V) values) = key_len k.
Proof.
  cbv zeta. intros HI0 Hdis Hv HIn. pose proof (is_inv _ _ _ _ _ _ _ _ _ _ HIn) as HI1.
  destruct (req_key_facts ids r) as (Hck & Hex & Hgk & Hu & Hkl & Hbnd).
  set (k := req_key cfg ids r) in *. pose proof Hgk as (Hwf & _ & _).
  pose proof (key_len_units k Hwf) as Hlk. assert (HI1' : Inv cfg (set_rx_kv a t1) L1 held) by by apply Inv_kv.
  destruct (rx_match_prefix_spec cfg monotonic Hps (set_rx_kv a t1) L1 held k HI1' Hck Hdis)
    as (m & t2 & L2 & Hrun & Hev & Hlo & Hd). rewrite Hex, Hu in Hlo, Hd.
  destruct (is_path _ _ _ _ _ _ _ _ _ _ HIn) as [jx Hpath].
  assert (Hpath' : Desc cfg (set_rx_kv a t1) (rr_extra_key r) (root_node (set_rx_kv a t1)) (units k)
    (V ++ drop (length V) values) jx) by by apply Desc_kv.
  pose proof (Desc_content cfg _ _ _ _ _ _ _ HI1' Hpath') as Hc.
  destruct (Desc_units cfg HI1' _ _ _ _ _ (or_introl eq_refl) Hpath') as [_ HlX].
  pose proof (longest_len _ _ _ _ _ _ HI1' Hlo) as Hle. destruct Hlo as [Hlc Hmax].
  specialize (Hmax _ _ Hc (reflexivity _)).
  rewrite take_ge in Hlc, Hd by (unfold len in *; lia).
  assert (rm_device_indices m = V ++ drop (length V) values) as E by (by eapply content_det).
  exists m, t2, L2. rewrite <- E in *. split; [done|]. split; [done|]. split; [done|]. split; [done|]. lia.
Qed.

(** The request's row is rewritten from the protected prefix on. *)
Lemma rewrite_row (s : RadixEngine KV) idx prot kl row X :
  row_at (re_pool s) idx = Some row -> 0 <= prot <= kl -> kl <= len row -> len X = kl ->
  len (drop (Z.to_nat prot) X) = kl - prot /\
  zoom re_pool set_re_pool (pool_write idx prot kl (slice_from X prot)) s =
    (Ret tt, set_re_pool (written (re_pool s) idx prot kl row (drop (Z.to_nat prot) X)) s).
Proof.
  intros Hrow Hp Hk HX. assert (HlX : len (drop (Z.to_nat prot) X) = kl - prot) by (unfold len in *; rewrite length_drop; lia).
  split; [done|]. assert (HXd : slice_from X prot = drop (Z.to_nat prot) X).
  { unfold slice_from, pyidx. rewrite (proj2 (Z.ltb_ge prot 0)) by lia. f_equal. lia. }
  unfold zoom. rewrite HXd, (pool_write_exact _ _ _ _ row); try done; lia.
Qed.

Lemma written_tail (row : list Z) prot kl ys n :
  0 <= prot <= kl -> kl <= n -> n <= len row -> len ys = kl - prot ->
  let row' := take (Z.to_nat prot) row ++ ys ++ drop (Z.to_nat kl) row in
  len row' = len row /\ slice_from (slice_to row' n) kl = pyslice row kl n.
Proof.
  intros Hp Hk Hn Hy row'. assert (Hl : len row' = len row) by (apply len_written; lia). split; [done|].
  rewrite <- (splice_read_ne row prot kl ys); [|lia|lia|lia|lia|lia|right; lia]. fold row'. by apply slice_from_prefix; lia.
Qed.

Lemma unfinished_conserves (s : RadixEngine KV) L held r row j W chunked :
  let ids := get_fill_ids r in
  let k := req_key cfg ids r in
  let prot := rr_cache_protected_len r in
  rx_disable cfg = false -> cacheable s L held ids r row j W ->
  exists r' s' L' X n', rx_cache_unfinished_req cfg monotonic r chunked s = (Ret r', s') /\
    rr_last_node r' = Some n' /\ rr_cache_protected_len r' = key_len k /\
    Inv cfg (re_tree s') L' (n' :: held) /\
    Desc cfg (re_tree s') (rr_extra_key r) (root_node (re_tree s')) (units k) X n' /\
    row_at (re_pool s') (rr_req_pool_idx r) =
      Some (take (Z.to_nat prot) row ++ (to_int32 <$> drop (Z.to_nat prot) X) ++
            drop (Z.to_nat (key_len k)) row) /\
    rr_prefix_indices r' = X ++ pyslice row (key_len k) (len ids) /\
    pool_slots (rx_kv (re_tree s')) ++ cached (re_tree s') L' ++ pyslice row (key_len k) (len ids) ≡ₚ
      pool_slots (rx_kv (re_tree s)) ++ cached (re_tree s) L ++ pyslice row prot (len ids).
Proof.
  cbv zeta. intros Hdis Hcq. pose proof Hcq as [HI Hlast Hrow Hlrow Hprot HW].
  set (ids := get_fill_ids r) in *. destruct (req_key_facts ids r) as (_ & _ & _ & _ & _ & Hbnd).
  unfold rx_cache_unfinished_req. rewrite Hdis. fold ids.
  rewrite (bind_run _ _ _ _ _ (read_row_run r (len ids) s row Hrow)).
  pose proof (len_nonneg ids). set (kvi := slice_to row (len ids)).
  assert (Hkvi : len kvi = len ids) by (apply len_slice_to; lia).
  destruct (insert_request (re_tree s) L (j :: held) ids r W j (Some (default 0 (rr_priority r))) chunked kvi
    HI Hdis Hkvi Hprot HW) as (t1 & L1 & V & Hrun & HIn & HV & Hperm).
  rewrite (bind_run _ _ _ _ _ (on_tree_run _ s _ _ Hrun)), (bind_run _ _ _ _ _ (rx_free_run _ _)).
  set (s2 := set_re_tree _ (set_re_tree t1 s)).
  set (a := free (pyslice kvi (rr_cache_protected_len r) (len V)) (rx_kv t1)).
  destruct (match_after_insert (re_tree s) L t1 L1 a (j :: held) ids r _ V HI Hdis
    (len_slice_to kvi (key_len (req_key cfg ids r)) ltac:(lia)) HIn)
    as (m & t2 & L2 & Hrun2 & Hdev & Hev & Hd2 & HlX).
  set (X := V ++ _) in *.
  rewrite (bind_run _ _ _ _ _ (on_tree_run _ s2 _ _ Hrun2)), Hdev, HlX, Z.eqb_refl.
  rewrite (bind_run (assert_ true) _ _ tt _ eq_refl).
  set (k := req_key cfg ids r) in *. set (prot := rr_cache_protected_len r) in *.
  set (s3 := set_re_tree t2 s2).
  destruct (rewrite_row s3 (rr_req_pool_idx r) prot (key_len k) row X Hrow ltac:(lia) ltac:(lia) ltac:(lia)) as [HlXd Hw].
  rewrite (bind_run _ _ _ _ _ Hw). clear Hw. set (s4 := set_re_pool _ s3).
  set (r1 := set_rr_cache_protected_len _ r). change (rr_last_node r1) with (rr_last_node r).
  rewrite Hlast, (bind_run (of_option TypeError (Some j)) _ _ j _ eq_refl).
  assert (Hlive : live t2 L2 (rm_last_device_node m)).
  { eapply (Desc_live cfg (ev_inv _ _ _ _ _ _ Hev)); [left; reflexivity|exact Hd2]. }
  destruct (move_lock_request s4 L2 held j _ (ev_inv _ _ _ _ _ _ Hev) Hdis Hlive)
    as (d & e & t5 & t6 & Hrun5 & Hrun6 & HI6 & Hkv6 & Hca6 & Hroot6 & Hd6).
  rewrite (bind_run _ _ _ _ _ Hrun5), (bind_run _ _ _ _ _ Hrun6).
  set (row' := take (Z.to_nat prot) row ++ (to_int32 <$> drop (Z.to_nat prot) X) ++ drop (Z.to_nat (key_len k)) row).
  assert (Hrow' : row_at (written (re_pool s) (rr_req_pool_idx r) prot (key_len k) row (drop (Z.to_nat prot) X))
    (rr_req_pool_idx r) = Some row') by by apply row_at_written.
  rewrite (bind_run _ _ _ _ _ (read_row_run r1 (len ids) (set_re_tree t6 s4) row' Hrow')).
  destruct (written_tail row prot (key_len k) (to_int32 <$> drop (Z.to_nat prot) X) (len ids)) as [Hlrow' Htail];
    [lia|lia|lia|rewrite len_map; lia|]. fold row' in Hlrow', Htail.
  rewrite Htail, len_slice_to by lia.
  eexists _, _, L2, X, _. split; [reflexivity|]. split; [done|]. split; [done|]. split; [exact HI6|].
  split.
  { change (Desc cfg t6 (rr_extra_key r) (root_node t6) (units k) X (rm_last_device_node m)).
    rewrite Hroot6. by apply Hd6. }
  split; [exact Hrow'|]. split.
  - cbn. case_if; breflect; [done|]. rewrite pyslice_in_range by lia.
    replace (len ids - key_len k) with 0 by lia. cbn. by rewrite app_nil_r.
  - change (pool_slots (rx_kv t6) ++ cached t6 L2 ++ pyslice row (key_len k) (len ids) ≡ₚ
      pool_slots (rx_kv (re_tree s)) ++ cached (re_tree s) L ++ pyslice row prot (len ids)).
    rewrite (pyslice_of_prefix row prot) by lia. fold kvi. rewrite <- Hperm.
    assert (slice_from kvi (key_len k) = pyslice row (key_len k) (len ids)) as ->.
    { unfold kvi. apply slice_from_prefix; lia. }
    rewrite Hkv6, Hca6. change (re_tree s4) with t2. rewrite (ev_kv _ _ _ _ _ _ Hev).
    cbn [rx_kv set_rx_kv]. unfold a. rewrite free_conserves, (is_kv _ _ _ _ _ _ _ _ _ _ HIn).
    rewrite (ev_slots _ _ _ _ _ _ Hev : cached t2 L2 ≡ₚ cached t1 L1). solve_Permutation.
Qed.

End facts.
