(* ===== verification/RadixCache.v ===== *)
(** * The radix cache refines a prefix cache

    The client's view: a cache state is a set of cached prefixes
    ([content]), [match_prefix] is a longest-prefix query on it, [insert]
    adds the prefixes of a key, [evict] only forgets unlocked ones, and the
    slots of requests are neither lost nor duplicated. *)

From stdpp Require Import gmap.
From S2P Require Import Prelude PyDict Allocator TokenAllocator Engine ReqPool ReqPoolFacts.
From S2P Require Import RadixKey RadixTree RadixShape RadixSplit RadixOps RadixInsert RadixLock.
From S2P Require Import RadixEvict RadixReq RadixReqFacts.

Section cache.
Context {KV : Type} `{Allocator KV}.
Implicit Types s : Radix KV.

(** A state of the cache whose clients hold locks on the nodes [held]. *)
Definition radix_ok cfg s (held : list nat) : Prop := exists L, Inv cfg s L held.

(** ** The empty cache *)

Lemma reset_ok cfg monotonic (s0 : Radix KV) :
  exists s, rx_reset monotonic s0 = (Ret tt, s) /\ Inv cfg s [] [] /\ rx_kv s = rx_kv s0.
Proof.
  unfold rx_reset. destruct (new_tree_node_spec monotonic s0 (- maxsize))
    as (s1 & Hrun & Hl & Hr & Hk & He & Hpr & Hlv & Hold & t & t' & Hnew).
  rewrite (bind_run _ _ _ _ _ Hrun), !bind_modify. eexists. split; [reflexivity|]. split; [|done].
  set (nn := length (nodes s0)) in *.
  match goal with |- Inv _ ?st _ _ => set (s := st) end.
  assert (Hn : node_at s nn = mkNode [] None empty_key (Some []) 1 t t' 0 (Some []) (- maxsize)).
  { change (node_at s nn) with (node_at (upd nn (fun n => set_tn_hash_value (Some []) (set_tn_lock_ref 1
      (set_tn_value (Some []) (set_tn_key empty_key n)))) (set_root_node nn s1)) nn).
    rewrite node_at_upd by (cbn; lia). rewrite decide_True by done.
    change (node_at (set_root_node nn s1) nn) with (node_at s1 nn). by rewrite Hnew. }
  change (root_node s) with nn in *.
  constructor; change (root_node s) with nn; unfold par, lck, chl; rewrite ?Hn; try done;
    try (by intros i ?%not_elem_of_nil).
  - constructor.
  - apply not_elem_of_nil.
  - cbn. rewrite length_alter. lia.
  - intros p [->|?%not_elem_of_nil]; [|done]. change (root_node s) with nn. rewrite Hn. split; [constructor|].
    by intros k c ?%not_elem_of_nil.
  - exists (fun _ => 0%nat). by intros i p ?%not_elem_of_nil.
  - intros i. cbn. split; [set_solver|]. by intros (?%not_elem_of_nil & _).
Qed.

Lemma empty_content cfg s held ek us vs : Inv cfg s [] held -> content cfg s ek us vs <-> us = [] /\ vs = [].
Proof.
  intros HI. split.
  - intros (U & V & j & n & Hd & _ & _ & -> & ->). inversion Hd as [|? c ? ? ? Hc]; subst; [by rewrite !take_nil|].
    destruct (live_child cfg HI _ _ _ (or_introl eq_refl) Hc) as (?%not_elem_of_nil & _). done.
  - intros [-> ->]. exists [], [], (root_node s), 0%nat.
    repeat split; [constructor|done|apply Z.divide_0_r].
Qed.

(** States reached by insertions are well formed. *)
Lemma insert_ok cfg monotonic s held key v prio chunked :
  1 <= page_size cfg -> rx_disable cfg = false -> radix_ok cfg s held -> client_key cfg key ->
  key_len (query_key cfg key) <= len v ->
  radix_ok cfg (rx_insert cfg monotonic key (Some v) prio chunked s).2 held.
Proof.
  intros Hps Hdis [L HI] Hk Hv.
  destruct (rx_insert_spec cfg monotonic Hps s L held key v prio chunked HI Hk Hdis Hv)
    as (s' & L' & V & Hrun & HIn). rewrite Hrun. exists L'. apply HIn.
Qed.

Lemma lock_ok cfg s held n :
  rx_disable cfg = false -> (exists L, Inv cfg s L held /\ live s L n) ->
  radix_ok cfg (rx_inc_lock_ref cfg n s).2 (n :: held).
Proof.
  intros Hdis (L & HI & Hn). destruct (inc_lock_ref_spec cfg s L held n HI Hn Hdis) as (s' & l & Hrun & _ & _ & HI').
  rewrite Hrun. by exists L.
Qed.

(** C26. [match_prefix] refines a longest-prefix query.  On any cache state
    that satisfies the invariant and any key, it returns without raising
    the slots of the longest cached prefix of the key's whole pages, and a
    last node whose path is that prefix; the cached content, the locks, the
    allocator and the size counters are unchanged (a split only refines the
    tree), and the invariant holds again. *)
Theorem radix_match_refines cfg monotonic s held key
    (Hps : 1 <= page_size cfg) (Hdis : rx_disable cfg = false)
    (Hok : radix_ok cfg s held) (Hkey : client_key cfg key) :
  exists r s', rx_match_prefix cfg monotonic key s = (Ret r, s') /\
    longest cfg s (key_extra_key key) (units (query_key cfg key)) (rm_device_indices r) /\
    Desc cfg s' (key_extra_key key) (root_node s')
      (take (length (rm_device_indices r)) (units (query_key cfg key)))
      (rm_device_indices r) (rm_last_device_node r) /\
    (forall ek us vs, content cfg s' ek us vs <-> content cfg s ek us vs) /\
    radix_ok cfg s' held /\ rx_kv s' = rx_kv s /\
    evictable_size_ s' = evictable_size_ s /\ protected_size_ s' = protected_size_ s.
Proof.
  destruct Hok as [L HI].
  destruct (rx_match_prefix_spec cfg monotonic Hps s L held key HI Hkey Hdis) as (r & s' & L' & Hrun & Hev & Hlo & Hd).
  exists r, s'. split; [done|]. split; [done|]. split; [done|]. split; [intros; symmetry; apply Hev|].
  split; [exists L'; apply Hev|]. split; apply Hev.
Qed.

(** C27. [insert] refines adding the prefixes of a key.  It returns the
    length of the prefix [V] that was cached before; afterwards exactly the
    old content and the whole-page prefixes of the key are cached, the old
    pages with the slots they had and the new ones with the given slots; a
    following [match_prefix] of the same key therefore finds all of it.
    The evictable size grows by the pages added and every node keeps its
    path. *)
Theorem radix_insert_refines cfg monotonic s held key v prio chunked
    (Hps : 1 <= page_size cfg) (Hdis : rx_disable cfg = false)
    (Hok : radix_ok cfg s held) (Hkey : client_key cfg key)
    (Hv : key_len (query_key cfg key) <= len v) :
  let K := units (query_key cfg key) in
  exists V s', rx_insert cfg monotonic key (Some v) prio chunked s = (Ret (len V), s') /\
    longest cfg s (key_extra_key key) K V /\
    (forall ek us vs, content cfg s' ek us vs <-> content cfg s ek us vs \/
      (ek = key_extra_key key /\ exists n, (n <= length K)%nat /\ (page_size cfg | Z.of_nat n) /\
         us = take n K /\ vs = take n (V ++ drop (length V) v))) /\
    longest cfg s' (key_extra_key key) K (V ++ drop (length V) (take (length K) v)) /\
    (forall ek us vs j, Desc cfg s ek (root_node s) us vs j -> Desc cfg s' ek (root_node s') us vs j) /\
    radix_ok cfg s' held /\ rx_kv s' = rx_kv s /\
    evictable_size_ s' = evictable_size_ s + (len K - len V) /\
    protected_size_ s' = protected_size_ s.
Proof.
  cbv zeta. destruct Hok as [L HI]. destruct (query_key_good cfg Hps key Hkey) as [(Hwf & _ & _) _].
  pose proof (key_len_units _ Hwf) as HlK.
  destruct (rx_insert_spec cfg monotonic Hps s L held key v prio chunked HI Hkey Hdis Hv)
    as (s' & L' & V & Hrun & HIn). set (K := units (query_key cfg key)) in *.
  assert (Hins : insert_slots cfg key v = take (length K) v).
  { unfold insert_slots. f_equal. unfold len in *. lia. }
  rewrite Hins in HIn. destruct (is_path _ _ _ _ _ _ _ _ _ _ HIn) as [jx Hpath].
  pose proof (longest_len cfg s L held _ _ _ HI (is_longest _ _ _ _ _ _ _ _ _ _ HIn)) as HlV.
  exists V, s'. split; [done|]. split; [apply HIn|]. split.
  { intros ek us vs. rewrite (is_content _ _ _ _ _ _ _ _ _ _ HIn). f_equiv. f_equiv. f_equiv. intros n.
    split; intros (Hn & Hd & -> & ->); repeat split; try done.
    all: rewrite skipn_firstn_comm; destruct (decide (n <= length V)%nat); [by rewrite !take_app_le by lia|].
    all: replace n with (length V + (n - length V))%nat by lia; rewrite !take_app_add; f_equal.
    all: rewrite take_take; f_equal; lia. }
  split.
  { split.
    - destruct (Desc_units cfg (is_inv _ _ _ _ _ _ _ _ _ _ HIn) _ _ _ _ _ (or_introl eq_refl) Hpath) as [_ HlX].
      rewrite take_ge by (unfold len in *; lia). eapply Desc_content; [apply HIn|exact Hpath].
    - intros us vs' _ [x ->].
      destruct (Desc_units cfg (is_inv _ _ _ _ _ _ _ _ _ _ HIn) _ _ _ _ _ (or_introl eq_refl) Hpath) as [_ HlX].
      rewrite HlX, len_app. pose proof (len_nonneg x). lia. }
  split.
  { intros ek us vs j Hd. rewrite (is_root _ _ _ _ _ _ _ _ _ _ HIn).
    apply (is_desc _ _ _ _ _ _ _ _ _ _ HIn); [by left|done]. }
  split; [exists L'; apply HIn|]. split; [apply HIn|]. split; apply HIn.
Qed.

(** C28. [evict] is exact.  It returns the number of tokens it freed, which
    is at least the number asked for unless nothing evictable is left; the
    evictable size falls by that number and the protected size stays; the
    slots of the deleted nodes are back in the allocator (allocator and
    tree together hold what they held); nothing new is cached, and every
    path to a node that a client holds is still there with its slots. *)
Theorem radix_evict_correct cfg s L held num_tokens
    (Hdis : rx_disable cfg = false) (HI : Inv cfg s L held) :
  exists n s' L', rx_evict cfg num_tokens s = (Ret n, s') /\ Inv cfg s' L' held /\
    0 <= n /\ (num_tokens <= n \/ evictable_size_ s' = 0) /\
    evictable_size_ s' = evictable_size_ s - n /\ protected_size_ s' = protected_size_ s /\
    pool_slots (rx_kv s') ++ cached s' L' ≡ₚ pool_slots (rx_kv s) ++ cached s L /\
    (forall ek us vs, content cfg s' ek us vs -> content cfg s ek us vs) /\
    (forall h ek us vs, h ∈ held -> Desc cfg s ek (root_node s) us vs h ->
       Desc cfg s' ek (root_node s') us vs h).
Proof.
  destruct (rx_evict_spec cfg s L held num_tokens HI Hdis) as (n & s' & L' & Hrun & Hsh & Hdone).
  exists n, s', L'. split; [done|]. split; [apply Hsh|]. split; [apply Hsh|]. split; [done|].
  split; [apply Hsh|]. split; [apply Hsh|]. split; [apply Hsh|]. split.
  - intros ek us vs (U & V & j & m & Hd & Hm). exists U, V, j, m. split; [by apply (sh_desc _ _ _ _ _ _ _ Hsh)|done].
  - intros h ek us vs Hh Hd. apply (sh_keep _ _ _ _ _ _ _ Hsh); [|done].
    destruct (decide (h = root_node s)) as [->|Hr]; [left; symmetry; apply Hsh|right].
    destruct (inv_held _ _ _ _ HI h Hh) as [?|HL]; [done|]. apply (sh_locked _ _ _ _ _ _ _ Hsh); [done|].
    pose proof (held_locked cfg s L held h HI Hh Hr). lia.
Qed.

(** C29. Caching an unfinished request loses no slot.  When the request's
    lock is on the node that covers its first [cache_protected_len] units,
    [cache_unfinished_req] returns (its assertion holds), the lock has
    moved to the node that covers all whole pages of the key, the row and
    [prefix_indices] hold that path's slots followed by the unaligned rest,
    and allocator, tree and the request's private slots together hold what
    they held before. *)
Theorem radix_unfinished_conserves cfg monotonic (s : RadixEngine KV) L held r row j W chunked
    (Hps : 1 <= page_size cfg) (Hdis : rx_disable cfg = false)
    (Hreq : cacheable cfg s L held (get_fill_ids r) r row j W) :
  let ids := get_fill_ids r in
  let k := req_key cfg ids r in
  let prot := rr_cache_protected_len r in
  exists r' (s' : RadixEngine KV) L' X n', rx_cache_unfinished_req cfg monotonic r chunked s = (Ret r', s') /\
    rr_last_node r' = Some n' /\ rr_cache_protected_len r' = key_len k /\
    Inv cfg (re_tree s') L' (n' :: held) /\
    Desc cfg (re_tree s') (rr_extra_key r) (root_node (re_tree s')) (units k) X n' /\
    row_at (re_pool s') (rr_req_pool_idx r) =
      Some (take (Z.to_nat prot) row ++ (to_int32 <$> drop (Z.to_nat prot) X) ++
            drop (Z.to_nat (key_len k)) row) /\
    rr_prefix_indices r' = X ++ pyslice row (key_len k) (len ids) /\
    pool_slots (rx_kv (re_tree s')) ++ cached (re_tree s') L' ++ pyslice row (key_len k) (len ids) ≡ₚ
      pool_slots (rx_kv (re_tree s)) ++ cached (re_tree s) L ++ pyslice row prot (len ids).
Proof. by apply (unfinished_conserves cfg monotonic Hps s L held r row j W). Qed.

(** C30. Caching a finished request returns all of its slots: with or
    without insertion, what was private to the request is afterwards either
    in the tree or free, its lock is given back and the invariant holds. *)
Theorem radix_finished_conserves cfg monotonic (s : RadixEngine KV) L held strip r row j W is_insert
    (Hps : 1 <= page_size cfg) (Hdis : rx_disable cfg = false)
    (Hfreed : rr_kv_committed_freed r = false)
    (Hreq : cacheable cfg s L held
       (slice_to (rr_origin_input_ids r ++ rr_output_ids r) (cache_commit_len strip r)) r row j W) :
  let ids := slice_to (rr_origin_input_ids r ++ rr_output_ids r) (cache_commit_len strip r) in
  exists (s' : RadixEngine KV) L', rx_cache_finished_req cfg strip monotonic r is_insert s =
      (Ret (set_rr_kv_committed_freed true r), s') /\
    Inv cfg (re_tree s') L' held /\ re_pool s' = re_pool s /\
    pool_slots (rx_kv (re_tree s')) ++ cached (re_tree s') L' ≡ₚ
      pool_slots (rx_kv (re_tree s)) ++ cached (re_tree s) L ++
      pyslice row (rr_cache_protected_len r) (len ids).
Proof. by apply (finished_conserves cfg monotonic Hps s L held strip r row j W). Qed.

(** Holding the root changes nothing. *)
Lemma hold_root cfg s L held : Inv cfg s L held -> Inv cfg s L (root_node s :: held).
Proof.
  intros HI. apply (relocked_Inv cfg s s L held _ (root_node s) [] 1); try done.
  - by left.
  - constructor.
  - apply relocked_nil.
  - intros i Hi. by apply (inv_lock _ _ _ _ HI).
  - intros i Hi. rewrite held_count_cons. lia.
  - intros h [->|Hh]%elem_of_cons; [by left|]. by apply (inv_held _ _ _ _ HI).
Qed.

End cache.

(** ** A concrete cache

    Pages of two tokens, LRU eviction and a pool of 32 slots of which ten
    are handed out; two prompts that share their first page are inserted. *)

Definition rx_demo_cfg : RadixConfig := mkRadixConfig false 2 false false LRUStrategy.
Definition rx_demo_clock (n : nat) : Z := Z.of_nat n.

Definition rx_demo0 : Radix TokenToKVPoolAllocator :=
  (rx_reset rx_demo_clock (mkRadix (alloc 10 (token_alloc_init 32 false)).2 [] 0 0 0 ∅ 0)).2.

Definition rx_demo_key (ids : list Z) : RadixKey := mkKey ids None false None.
Definition rx_demo1 : Radix TokenToKVPoolAllocator :=
  (rx_insert rx_demo_cfg rx_demo_clock (rx_demo_key [1;2;3;4;5;6;7]) (Some [1;2;3;4;5;6]) None false rx_demo0).2.
Definition rx_demo2 : Radix TokenToKVPoolAllocator :=
  (rx_insert rx_demo_cfg rx_demo_clock (rx_demo_key [1;2;8;9]) (Some [7;8;9;10]) None false rx_demo1).2.

Lemma rx_demo0_ok : Inv rx_demo_cfg rx_demo0 [] [].
Proof.
  destruct (reset_ok rx_demo_cfg rx_demo_clock
    (mkRadix (alloc 10 (token_alloc_init 32 false)).2 [] 0 0 0 ∅ 0)) as (s & Hrun & HI & _).
  unfold rx_demo0. by rewrite Hrun.
Qed.

Lemma rx_demo_client ids : client_key rx_demo_cfg (rx_demo_key ids).
Proof. by split. Qed.

Lemma rx_demo1_ok : radix_ok rx_demo_cfg rx_demo1 [].
Proof.
  apply insert_ok; [done|done|exists []; apply rx_demo0_ok|apply rx_demo_client|by vm_compute].
Qed.

Lemma rx_demo2_ok : radix_ok rx_demo_cfg rx_demo2 [].
Proof. apply insert_ok; [done|done|apply rx_demo1_ok|apply rx_demo_client|by vm_compute]. Qed.

Lemma radix_match_refines_witness :
  exists r s', rx_match_prefix rx_demo_cfg rx_demo_clock (rx_demo_key [1;2;8;9;0]) rx_demo2 = (Ret r, s') /\
    rm_device_indices r = [1;2;9;10] /\ radix_ok rx_demo_cfg s' [].
Proof.
  destruct (radix_match_refines rx_demo_cfg rx_demo_clock rx_demo2 [] (rx_demo_key [1;2;8;9;0]))
    as (r & s' & Hrun & _ & _ & _ & Hok & _).
  - done.
  - done.
  - apply rx_demo2_ok.
  - apply rx_demo_client.
  - exists r, s'. split; [exact Hrun|]. split; [|exact Hok].
    assert (Hc : (rx_match_prefix rx_demo_cfg rx_demo_clock (rx_demo_key [1;2;8;9;0]) rx_demo2).1
      = Ret (mkRadixMatch [1;2;9;10] 3)) by (vm_compute; reflexivity).
    rewrite Hrun in Hc. injection Hc as ->. done.
Defined.


Lemma radix_insert_refines_witness :
  exists V s', rx_insert rx_demo_cfg rx_demo_clock (rx_demo_key [1;2;8;9]) (Some [7;8;9;10]) None false rx_demo1
      = (Ret (len V), s') /\ len V = 2 /\
    longest rx_demo_cfg s' None (Tok <$> [1;2;8;9]) (V ++ drop (length V) [7;8;9;10]).
Proof.
  destruct (radix_insert_refines rx_demo_cfg rx_demo_clock rx_demo1 [] (rx_demo_key [1;2;8;9]) [7;8;9;10] None false)
    as (V & s' & Hrun & _ & _ & Hlo & _).
  - done.
  - done.
  - apply rx_demo1_ok.
  - apply rx_demo_client.
  - by vm_compute.
  - exists V, s'. split; [exact Hrun|]. split; [|exact Hlo].
    assert (Hc : (rx_insert rx_demo_cfg rx_demo_clock (rx_demo_key [1;2;8;9]) (Some [7;8;9;10]) None false rx_demo1).1
      = Ret 2) by (vm_compute; reflexivity).
    rewrite Hrun in Hc. by injection Hc.
Defined.

(** With a lock on the first prompt's last node (identity 1), six evictable
    tokens asked for and two evictable: the second prompt's own page goes. *)
Lemma radix_evict_correct_witness :
  exists n s', rx_evict rx_demo_cfg 6 (rx_inc_lock_ref rx_demo_cfg 1 rx_demo2).2 = (Ret n, s') /\
    n = 2 /\ evictable_size_ s' = 0 /\ radix_ok rx_demo_cfg s' [1%nat].
Proof.
  assert (Hok : radix_ok rx_demo_cfg (rx_inc_lock_ref rx_demo_cfg 1 rx_demo2).2 [1%nat]).
  { apply lock_ok; [done|]. destruct rx_demo2_ok as [L HI]. exists L. split; [done|].
    assert (Hd : exists us vs, Desc rx_demo_cfg rx_demo2 None (root_node rx_demo2) us vs 1).
    { eexists _, _. eapply (Desc_cons _ _ _ _ 2); [vm_compute; reflexivity|].
      eapply (Desc_cons _ _ _ _ 1); [vm_compute; reflexivity|constructor]. }
    destruct Hd as (us & vs & Hd).
    eapply Desc_live; [exact HI|by left|exact Hd]. }
  destruct Hok as [L HI].
  destruct (radix_evict_correct rx_demo_cfg (rx_inc_lock_ref rx_demo_cfg 1 rx_demo2).2 L [1%nat] 6)
    as (n & s' & L' & Hrun & HI' & _ & Hdone & _).
  - done.
  - exact HI.
  - exists n, s'. split; [exact Hrun|].
    assert (Hc : (rx_evict rx_demo_cfg 6 (rx_inc_lock_ref rx_demo_cfg 1 rx_demo2).2).1 = Ret 2)
      by (vm_compute; reflexivity).
    rewrite Hrun in Hc. injection Hc as ->. split; [done|].
    split; [destruct Hdone; [lia|done]|by exists L'].
Defined.

(** A request in row 1 that holds the root, with three tokens cached as one
    page and a tail. *)
Definition rx_demo_req : RadixReq :=
  mkRadixReq [4;5;6] [] [4;5;6] 3 1 None None 0 3 false 0 [] (Some (root_node rx_demo0)).
Definition rx_demo_engine : RadixEngine TokenToKVPoolAllocator :=
  mkRadixEngine rx_demo0
    (mkPool 1 4 [[0;0;0;0]; [1;2;3;0]] [] false false 0 [0;0] []).

Lemma rx_demo_cacheable ids : ids = [4;5;6] ->
  cacheable rx_demo_cfg rx_demo_engine [] [] ids rx_demo_req [1;2;3;0] (root_node rx_demo0) [].
Proof.
  intros ->. constructor; try done.
  - apply hold_root, rx_demo0_ok.
  - constructor.
Qed.

Lemma radix_unfinished_conserves_witness :
  exists r' s' L', rx_cache_unfinished_req rx_demo_cfg rx_demo_clock rx_demo_req false rx_demo_engine = (Ret r', s') /\
    rr_cache_protected_len r' = 2 /\
    pool_slots (rx_kv (re_tree s')) ++ cached (re_tree s') L' ++ [3] ≡ₚ
      pool_slots (rx_kv rx_demo0) ++ cached rx_demo0 [] ++ [1;2;3].
Proof.
  destruct (radix_unfinished_conserves rx_demo_cfg rx_demo_clock rx_demo_engine [] [] rx_demo_req [1;2;3;0]
    (root_node rx_demo0) [] false) as (r' & s' & L' & X & n' & Hrun & _ & Hp & _ & _ & _ & _ & Hperm).
  - done.
  - done.
  - by apply rx_demo_cacheable.
  - exists r', s', L'. split; [exact Hrun|]. split; [exact Hp|exact Hperm].
Defined.

Lemma radix_finished_conserves_witness :
  exists s' L', rx_cache_finished_req rx_demo_cfg false rx_demo_clock rx_demo_req true rx_demo_engine =
      (Ret (set_rr_kv_committed_freed true rx_demo_req), s') /\
    pool_slots (rx_kv (re_tree s')) ++ cached (re_tree s') L' ≡ₚ
      pool_slots (rx_kv rx_demo0) ++ cached rx_demo0 [] ++ [1;2;3].
Proof.
  destruct (radix_finished_conserves rx_demo_cfg rx_demo_clock rx_demo_engine [] [] false rx_demo_req [1;2;3;0]
    (root_node rx_demo0) [] true) as (s' & L' & Hrun & _ & _ & Hperm).
  - done.
  - done.
  - done.
  - by apply rx_demo_cacheable.
  - exists s', L'. split; [exact Hrun|exact Hperm].
Defined.
