(* ===== verification/ConvTails.v ===== *)
(** * Convolution state across segments (srt/pic/conv_tails.py)

    A miss segment's first [K-1] conv1d outputs depend on the inputs before
    it.  [capture_conv_tails] saves the last [K-1] inputs of a segment under
    its Mamba slot, [build_prev_tail_slots] finds the slot of the segment
    that precedes a miss segment in position order, [load_conv_history]
    copies that tail into the segment's convolution state.  A tensor is the
    nested list of its entries; the entries are of any type with a zero. *)

From S2P Require Import Prelude PyDict.

(** ** The preceding segment *)

(** [(start, slot)] of every segment of a request: hits by their hash
    (a missing hash raises [KeyError]), misses by their range, [-1] for a
    miss without a persist slot. *)
Definition seg_positions (hit_segs : list (Z * Z * list Z)) (hit_slots : list (list Z * Z))
    (miss_segs : list (Z * Z)) (miss_slots : list (Z * Z * Z)) : outcome (list (Z * Z)) :=
  match mapM (fun '(s, e, h) => slot ← dict_get h hit_slots; Some (s, slot)) hit_segs with
  | None => Raise KeyError
  | Some hits =>
      Ret (hits ++ ((fun '(s, e) => (s, default (-1) (dict_get (s, e) miss_slots))) <$> miss_segs))
  end.

(** The inner loop: the slot before the first entry that starts at [s]. *)
Fixpoint find_prev (before s : Z) (position : list (Z * Z)) : Z :=
  match position with
  | [] => -1
  | (ps, pslot) :: rest => if ps =? s then before else find_prev pslot s rest
  end.

Definition req_prev_slots (hit_segs : list (Z * Z * list Z)) (hit_slots : list (list Z * Z))
    (miss_segs : list (Z * Z)) (miss_slots : list (Z * Z * Z)) : outcome (list Z) :=
  match seg_positions hit_segs hit_slots miss_segs miss_slots with
  | Raise e => Raise e
  | Ret position =>
      let position := sort_key fst position in
      Ret ((fun '(s, e) => find_prev (-1) s position) <$> miss_segs)
  end.

(** [xs[req_idx] if xs else default]: an absent or empty list stands for a
    batch without entries. *)
Definition batch_get {A} (d : A) (xs : option (list A)) (req_idx : Z) : outcome A :=
  match xs with
  | None | Some [] => Ret d
  | Some l => match pyget l req_idx with Some x => Ret x | None => Raise IndexError end
  end.

Definition req_step (pic_hit_segments : option (list (list (Z * Z * list Z))))
    (pic_hit_mamba_slots : option (list (list (list Z * Z))))
    (pic_miss_segments : list (list (Z * Z)))
    (pic_miss_mamba_slots : option (list (list (Z * Z * Z)))) (req_idx : Z) : outcome (list Z) :=
  match batch_get [] pic_hit_segments req_idx, batch_get [] pic_hit_mamba_slots req_idx,
        pyget pic_miss_segments req_idx, batch_get [] pic_miss_mamba_slots req_idx with
  | Ret hs, Ret hd, Some ms, Ret md => req_prev_slots hs hd ms md
  | Raise e, _, _, _ | _, Raise e, _, _ | _, _, _, Raise e => Raise e
  | _, _, None, _ => Raise IndexError
  end.

Fixpoint build_prev_loop (step : Z -> outcome (list Z)) (idxs acc : list Z) : outcome (list Z) :=
  match idxs with
  | [] => Ret acc
  | i :: idxs' => match step i with
                  | Raise e => Raise e
                  | Ret l => build_prev_loop step idxs' (acc ++ l)
                  end
  end.

Definition build_prev_tail_slots (batch_size : Z) hit_segs hit_slots miss_segs miss_slots
    : outcome (list Z) :=
  build_prev_loop (req_step hit_segs hit_slots miss_segs miss_slots) (pyrange 0 batch_size) [].

(** ** Tails *)

Inductive ConvLayout := GDN | KDA.

Section tails.
Context {V : Type} (zero : V).

(** A [rows x cols] matrix is the list of its rows. *)
Definition transpose (cols : Z) (m : list (list V)) : list (list V) :=
  (fun j => (fun row => default zero (row !! Z.to_nat j)) <$> m) <$> pyrange 0 cols.

(** A layer of [conv_tails]: its shape and one matrix per slot,
    [dim x (K-1)] in the GDN layout and [(K-1) x dim] in the KDA layout. *)
Record TailsLayer := mkTails {
  tl_k_minus_1 : Z;
  tl_dim : Z;
  tl_data : list (list (list V));
}.

(** [t[idx] = x] along the first axis: negative indices count from the
    end, others outside raise. *)
Definition index_put {A} (t : list A) (idx : Z) (x : A) : outcome (list A) :=
  let j := if idx <? 0 then idx + len t else idx in
  if (0 <=? j) && (j <? len t) then Ret (<[Z.to_nat j := x]> t) else Raise IndexError.

Fixpoint index_puts {A} (t : list A) (ws : list (Z * A)) : outcome (list A) :=
  match ws with
  | [] => Ret t
  | (i, x) :: ws' => match index_put t i x with Ret t' => index_puts t' ws' | Raise e => Raise e end
  end.

(** [index_select]: no negative indices. *)
Definition index_select {A} (t : list A) (idx : Z) : outcome A :=
  if idx <? 0 then Raise IndexError
  else match t !! Z.to_nat idx with Some x => Ret x | None => Raise IndexError end.

(** The [(K-1) x dim] block gathered for the window that ends at [end_]. *)
Definition gather_tail (k1 dim : Z) (mixed_qkv : list (list V)) (start end_ : Z)
    : outcome (list (list V)) :=
  let seg_len := end_ - start in
  let take_ := Z.min seg_len k1 in
  omapM (fun r =>
    let valid := k1 - take_ <=? r in
    obind (index_select mixed_qkv (if valid then end_ - k1 + r else 0)) (fun row =>
      Ret (if valid then row else replicate (Z.to_nat dim) zero))) (pyrange 0 k1).

Definition capture_conv_tails (mixed_qkv : list (list V)) (seg_cu_seqlens persist_src_idx
    persist_dst_slot : list Z) (persist_src_end_offset : option (list Z)) (layout : ConvLayout)
    (layer : option TailsLayer) : outcome (option TailsLayer) :=
  match layer with
  | None => Ret None
  | Some l =>
      if len persist_src_idx =? 0 then Ret (Some l)
      else
        let offs := default (replicate (length persist_src_idx) 0) persist_src_end_offset in
        obind (omapM (fun '(src, off) =>
                 obind (index_select seg_cu_seqlens src) (fun start =>
                 obind (index_select seg_cu_seqlens (src + 1)) (fun e =>
                   gather_tail (tl_k_minus_1 l) (tl_dim l) mixed_qkv start (e - off))))
               (zip persist_src_idx offs)) (fun gathered =>
        let blocks := match layout with
                      | KDA => gathered
                      | GDN => transpose (tl_dim l) <$> gathered
                      end in
        obind (index_puts (tl_data l) (zip persist_dst_slot blocks)) (fun data =>
        Ret (Some (mkTails (tl_k_minus_1 l) (tl_dim l) data))))
  end.

(** [conv_states] holds [dim x (K-1)] matrices. *)
Definition load_conv_history (layer : option TailsLayer) (seg_conv_indices prev_tail_slots : list Z)
    (has_initial_state : list bool) (layout : ConvLayout) (conv_states : list (list (list V)))
    : outcome (list (list (list V))) :=
  match layer with
  | None => Ret conv_states
  | Some l =>
      if negb (existsb id has_initial_state) then Ret conv_states
      else
        let masked := omap (fun '(d, p, m) => if (m : bool) then Some (d, p) else None)
                        (zip (zip seg_conv_indices prev_tail_slots) has_initial_state) in
        let pairs := filter (fun dp : Z * Z => 0 <= dp.2) masked in
        obind (omapM (fun '(d, p) => obind (index_select (tl_data l) p) (fun m =>
                 Ret (d, match layout with KDA => transpose (tl_dim l) m | GDN => m end))) pairs)
          (index_puts conv_states)
  end.

End tails.
