(* ===== verification/ConvTailsFacts.v ===== *)
(** * Convolution state across segments: correctness

    The predecessor found for a miss segment is the segment with the
    greatest smaller start; a captured tail, loaded back, is the last
    [K-1] inputs in both layouts; and with that history the causal
    convolution of the segment equals that of the whole prompt. *)

From S2P Require Import Prelude PyDict ConvTails.

(** ** The preceding segment *)

(** [r] is the slot of the segment with the greatest start below [s], or
    [-1] where no segment starts below [s]. *)
Definition is_prev_slot (position : list (Z * Z)) (s r : Z) : Prop :=
  (exists p, (p, r) ∈ position /\ p < s /\
     forall q, q ∈ position.*1 -> q < s -> q <= p) \/
  (r = -1 /\ forall q, q ∈ position.*1 -> s <= q).

Lemma is_prev_slot_perm s r : Proper ((≡ₚ) ==> iff) (fun l => is_prev_slot l s r).
Proof.
  intros l l' Hp. unfold is_prev_slot.
  split; (intros [(p & H1 & H2 & H3)|[H1 H2]]; [left; exists p|right]);
    setoid_rewrite <- Hp || setoid_rewrite Hp; auto.
Qed.

Lemma find_prev_sorted s slot l p0 b :
  StronglySorted (fun x y : Z * Z => x.1 <= y.1) ((p0, b) :: l) -> NoDup (p0 :: l.*1) ->
  p0 < s -> (s, slot) ∈ l -> is_prev_slot ((p0, b) :: l) s (find_prev b s l).
Proof.
  revert p0 b. induction l as [|[p sl] l IH]; intros p0 b Hs Hn Hp Hin; [by inversion Hin|].
  apply StronglySorted_inv in Hs as [Hs Hle]. rewrite Forall_forall in Hle.
  cbn [find_prev]. destruct (Z.eqb_spec p s) as [->|Hne].
  - left. exists p0. split; [left|]. split; [done|]. intros q Hq Hlt.
    rewrite fmap_cons in Hq. apply elem_of_cons in Hq as [->|Hq]; [done|].
    apply list_elem_of_fmap in Hq as ([q' z] & -> & Hq). cbn in *.
    pose proof (StronglySorted_inv Hs) as [_ Hs']. rewrite Forall_forall in Hs'.
    apply elem_of_cons in Hq as [[= -> ->]|Hq]; [lia|]. specialize (Hs' _ Hq). cbn in *. lia.
  - apply elem_of_cons in Hin as [[= <- <-]|Hin]; [done|].
    pose proof (StronglySorted_inv Hs) as [_ Hs']. rewrite Forall_forall in Hs'.
    specialize (Hs' _ Hin). cbn in Hs'.
    assert (p0 <= p) by (apply (Hle (p, sl)); left).
    destruct (IH p sl) as [(q & H1 & H2 & H3)|[H1 H2]];
      [done|by inversion Hn|lia|done| |].
    + left. exists q. split; [by right|]. split; [done|]. intros z Hz Hzs.
      rewrite fmap_cons in Hz. apply elem_of_cons in Hz as [->|Hz]; [|by apply H3].
      transitivity p; [done|]. apply H3; [left|lia].
    + assert (s <= p) by (apply H2; left). lia.
Qed.

Lemma find_prev_correct s slot l :
  NoDup l.*1 -> (s, slot) ∈ l -> is_prev_slot l s (find_prev (-1) s (sort_key fst l)).
Proof.
  intros Hn Hin. pose proof (sort_key_perm fst l) as Hp.
  apply (is_prev_slot_perm _ _ _ _ Hp). pose proof (sort_key_sorted fst l) as Hs.
  rewrite <- Hp in Hn, Hin. destruct (sort_key fst l) as [|[p sl] k]; [by inversion Hin|].
  cbn [find_prev]. destruct (Z.eqb_spec p s) as [->|Hne].
  - right. split; [done|]. intros q Hq. rewrite fmap_cons in Hq.
    apply elem_of_cons in Hq as [->|Hq]; [done|].
    apply list_elem_of_fmap in Hq as ([q' z] & -> & Hq).
    apply StronglySorted_inv in Hs as [_ Hs]. rewrite Forall_forall in Hs. apply (Hs _ Hq).
  - apply elem_of_cons in Hin as [[= <- <-]|Hin]; [done|].
    apply (find_prev_sorted s slot); [done|done| |done].
    apply StronglySorted_inv in Hs as [_ Hs]. rewrite Forall_forall in Hs.
    specialize (Hs _ Hin). cbn in Hs. lia.
Qed.

(** A request whose hits all have a slot. *)
Lemma req_prev_slots_correct hs hd ms md position :
  seg_positions hs hd ms md = Ret position -> NoDup position.*1 ->
  exists out, req_prev_slots hs hd ms md = Ret out /\
    Forall2 (fun se r => is_prev_slot position se.1 r) ms out.
Proof.
  intros E Hn. unfold req_prev_slots. rewrite E. eexists. split; [done|].
  apply Forall2_fmap_r, Forall_Forall2_diag, Forall_forall. intros [s e] Hin.
  apply (find_prev_correct s (default (-1) (dict_get (s, e) md))); [done|].
  unfold seg_positions in E. destruct mapM; [|done]. injection E as <-.
  apply elem_of_app. right. apply list_elem_of_fmap. by exists (s, e).
Qed.

Lemma build_prev_loop_spec step (P : Z -> list Z -> Prop) idxs acc :
  (forall i, i ∈ idxs -> exists out, step i = Ret out /\ P i out) ->
  exists outs, build_prev_loop step idxs acc = Ret (acc ++ concat outs) /\
    Forall2 P idxs outs.
Proof.
  revert acc. induction idxs as [|i idxs IH]; intros acc H; cbn [build_prev_loop].
  - exists []. split; [by rewrite app_nil_r|constructor].
  - destruct (H i) as (out & -> & Ho); [left|].
    destruct (IH (acc ++ out)) as (outs & -> & HF); [intros; apply H; by right|].
    exists (out :: outs). split; [cbn; by rewrite app_assoc|by constructor].
Qed.

(** What a request of the batch brings. *)
Definition request_data pic_hit_segments pic_hit_mamba_slots (pic_miss_segments : list (list (Z * Z)))
    pic_miss_mamba_slots (i : Z) (ms : list (Z * Z)) (position : list (Z * Z)) : Prop :=
  exists hs hd md,
    batch_get [] pic_hit_segments i = Ret hs /\ batch_get [] pic_hit_mamba_slots i = Ret hd /\
    pyget pic_miss_segments i = Some ms /\ batch_get [] pic_miss_mamba_slots i = Ret md /\
    seg_positions hs hd ms md = Ret position.

(** [build_prev_tail_slots] returns, request by request and in the order
    of each request's miss segments, the Mamba slot of the segment that
    immediately precedes the miss segment in position order, hit or miss,
    and [-1] for the first; it raises nothing when every hit has a slot
    and the segments of a request start at distinct positions. *)
Theorem prev_tail_slots_correct batch_size hits hit_slots misses miss_slots :
  (forall i, 0 <= i < batch_size -> exists ms position,
     request_data hits hit_slots misses miss_slots i ms position /\ NoDup position.*1) ->
  exists outs,
    build_prev_tail_slots batch_size hits hit_slots misses miss_slots = Ret (concat outs) /\
    Forall2 (fun i out => exists ms position,
      request_data hits hit_slots misses miss_slots i ms position /\
      Forall2 (fun se r => is_prev_slot position se.1 r) ms out) (pyrange 0 batch_size) outs.
Proof.
  intros H. unfold build_prev_tail_slots. apply (build_prev_loop_spec _ _ _ []).
  intros i Hi. apply elem_of_pyrange in Hi.
  destruct (H i Hi) as (ms & position & Hr & Hn).
  destruct Hr as (hs & hd & md & E1 & E2 & E3 & E4 & E5).
  destruct (req_prev_slots_correct _ _ _ _ _ E5 Hn) as (out & Eo & HF).
  exists out. unfold req_step. rewrite E1, E2, E3, E4. split; [done|].
  exists ms, position. split; [|done]. by exists hs, hd, md.
Qed.

(** Two requests: a cached segment between two misses, and one alone. *)
Lemma prev_tail_slots_correct_witness :
  build_prev_tail_slots 2 (Some [[(4, 9, [7])]; []]) (Some [[([7], 30)]; []])
    [[(0, 4); (9, 12)]; [(0, 5)]] (Some [[((0, 4), 21)]; []]) = Ret [-1; 30; -1] /\
  exists outs,
    build_prev_tail_slots 2 (Some [[(4, 9, [7])]; []]) (Some [[([7], 30)]; []])
      [[(0, 4); (9, 12)]; [(0, 5)]] (Some [[((0, 4), 21)]; []]) = Ret (concat outs).
Proof.
  split; [reflexivity|].
  destruct (prev_tail_slots_correct 2 (Some [[(4, 9, [7])]; []]) (Some [[([7], 30)]; []])
    [[(0, 4); (9, 12)]; [(0, 5)]] (Some [[((0, 4), 21)]; []])) as (outs & E & _).
  - intros i Hi. assert (i = 0 \/ i = 1) as [-> | ->] by lia.
    + exists [(0, 4); (9, 12)], [(4, 30); (0, 21); (9, -1)]. split; [|by vm_compute; repeat constructor; set_solver].
      exists [(4, 9, [7])], [([7], 30)], [((0, 4), 21)]. repeat split; reflexivity.
    + exists [(0, 5)], [(0, -1)]. split; [|by vm_compute; repeat constructor; set_solver].
      exists [], [], []. repeat split; reflexivity.
  - by exists outs.
Defined.

(** ** Captured tails *)

Lemma index_select_Ret {A} (t : list A) i x :
  0 <= i -> t !! Z.to_nat i = Some x -> index_select t i = Ret x.
Proof. intros Hi E. unfold index_select. destruct (Z.ltb_spec i 0); [lia|]. by rewrite E. Qed.

(** Writes at distinct indices within the tensor. *)
Lemma index_puts_spec {A} (t : list A) ws :
  NoDup ws.*1 -> Forall (fun w : Z * A => 0 <= w.1 < len t) ws ->
  exists t', index_puts t ws = Ret t' /\ length t' = length t /\
    (forall i x, (i, x) ∈ ws -> t' !! Z.to_nat i = Some x) /\
    (forall j, 0 <= j -> j ∉ ws.*1 -> t' !! Z.to_nat j = t !! Z.to_nat j).
Proof.
  revert t. induction ws as [|[i x] ws IH]; intros t Hn HF; cbn [index_puts].
  - exists t. split; [done|]. split; [done|]. split; [intros ? ? H; by inversion H|done].
  - apply Forall_cons in HF as [Hi HF]. cbn in Hi. rewrite fmap_cons in Hn.
    apply NoDup_cons in Hn as [Hni Hn].
    unfold index_put. destruct (Z.ltb_spec i 0); [lia|].
    destruct (Z.leb_spec 0 i); [|lia]. destruct (Z.ltb_spec i (len t)); [|lia]. cbn [andb].
    destruct (IH (<[Z.to_nat i:=x]> t)) as (t' & E & El & E1 & E2); [done| |].
    { eapply Forall_impl; [exact HF|]. unfold len. by rewrite length_insert. }
    exists t'. rewrite length_insert in El. split; [done|]. split; [done|]. split.
    + intros j y Hj. apply elem_of_cons in Hj as [[= -> ->]|Hj]; [|by apply E1].
      rewrite E2 by (done || lia). apply list_lookup_insert_eq. unfold len in *. lia.
    + intros j Hj Hnj. rewrite fmap_cons in Hnj.
      apply not_elem_of_cons in Hnj as [Hne Hnj]. rewrite E2 by done.
      apply list_lookup_insert_ne. cbn in Hne. lia.
Qed.

Lemma index_puts_length {A} (t t' : list A) ws : index_puts t ws = Ret t' -> length t' = length t.
Proof.
  revert t. induction ws as [|[i x] ws IH]; intros t; cbn [index_puts]; [by intros [= ->]|].
  unfold index_put. destruct (_ && _); [|done]. intros H%IH. by rewrite length_insert in H.
Qed.

Section tails.
Context {V : Type} (zero : V).
Local Notation row := (list V).

(** The last [k1] rows, after as many zero rows as are missing. *)
Definition padded_tail (k1 dim : Z) (rows : list row) : list row :=
  replicate (Z.to_nat k1 - length rows) (replicate (Z.to_nat dim) zero) ++
  drop (length rows - Z.to_nat k1) rows.

Definition window (m : list row) (start end_ : Z) : list row :=
  take (Z.to_nat (end_ - start)) (drop (Z.to_nat start) m).

Lemma gather_tail_spec k1 dim m start end_ :
  0 <= k1 -> 0 <= start <= end_ -> end_ <= len m -> m <> [] ->
  gather_tail zero k1 dim m start end_ = Ret (padded_tail k1 dim (window m start end_)).
Proof.
  intros Hk Hs He Hm. unfold gather_tail. set (tk := Z.min (end_ - start) k1).
  assert (Hl : length (window m start end_) = Z.to_nat (end_ - start)).
  { unfold window, len in *. rewrite length_take, length_drop. lia. }
  rewrite (omapM_Ret _ (fun r => if k1 - tk <=? r then default [] (m !! Z.to_nat (end_ - k1 + r))
    else replicate (Z.to_nat dim) zero)).
  - f_equal. apply list_eq. intros i. unfold pyrange, padded_tail.
    rewrite Hl, list_lookup_fmap. destruct (decide (Z.of_nat i < k1)) as [Hi|Hi].
    + rewrite lookup_seqZ_lt by lia. cbn [fmap option_fmap option_map].
      destruct (Z.leb_spec (k1 - tk) (0 + Z.of_nat i)).
      * rewrite lookup_app_r by (rewrite length_replicate; lia). rewrite length_replicate.
        unfold window. rewrite lookup_drop, lookup_take_lt, lookup_drop by lia.
        destruct (lookup_lt_is_Some_2 m (Z.to_nat (end_ - k1 + (0 + Z.of_nat i)))) as [x Ex];
          [unfold len in *; lia|].
        rewrite Ex. symmetry. cbn. rewrite <- Ex. f_equal. lia.
      * rewrite lookup_app_l by (rewrite length_replicate; lia).
        symmetry. apply lookup_replicate_2. lia.
    + rewrite lookup_seqZ_ge by lia. symmetry. apply lookup_ge_None_2.
      rewrite length_app, length_replicate, length_drop, Hl. lia.
  - intros r Hr. apply elem_of_pyrange in Hr.
    destruct (Z.leb_spec (k1 - tk) r).
    + destruct (lookup_lt_is_Some_2 m (Z.to_nat (end_ - k1 + r))) as [x Ex];
        [unfold len in *; lia|].
      rewrite (index_select_Ret _ _ x) by (done || lia). cbn. by rewrite Ex.
    + destruct m as [|x m']; [done|]. by rewrite (index_select_Ret _ _ x) by (done || lia).
Qed.

(** ** Capture, then load *)

(** The persisted windows of a capture lie in the input and go to distinct
    slots of the layer. *)
Record capture_ok (m : list row) (cu src dst : list Z) (l : TailsLayer) : Prop := {
  co_k1 : 0 <= tl_k_minus_1 (V := V) l;
  co_rows : m <> [];
  co_len : length src = length dst;
  co_nodup : NoDup dst;
  co_dst : Forall (fun d => 0 <= d < len (tl_data l)) dst;
  co_src : Forall (fun i => exists s e, 0 <= i /\ cu !! Z.to_nat i = Some s /\
             cu !! Z.to_nat (i + 1) = Some e /\ 0 <= s <= e /\ e <= len m) src;
}.

(** The block stored for a window, by layout. *)
Definition stored (layout : ConvLayout) (dim : Z) (tail : list row) : list row :=
  match layout with KDA => tail | GDN => transpose zero dim tail end.

Definition seg_window (m : list row) (cu : list Z) (i : Z) : list row :=
  window m (default 0 (cu !! Z.to_nat i)) (default 0 (cu !! Z.to_nat (i + 1))).

Lemma capture_spec m cu src dst layout l :
  capture_ok m cu src dst l ->
  exists l', capture_conv_tails zero m cu src dst None layout (Some l) = Ret (Some l') /\
    tl_k_minus_1 l' = tl_k_minus_1 l /\ tl_dim l' = tl_dim l /\
    (forall n i d, src !! n = Some i -> dst !! n = Some d ->
       tl_data l' !! Z.to_nat d =
       Some (stored layout (tl_dim l) (padded_tail (tl_k_minus_1 l) (tl_dim l) (seg_window m cu i)))) /\
    (forall d, 0 <= d -> d ∉ dst -> tl_data l' !! Z.to_nat d = tl_data l !! Z.to_nat d).
Proof.
  intros [Hk Hm Hlen Hn Hdst Hsrc]. unfold capture_conv_tails.
  destruct (Z.eqb_spec (len src) 0) as [E0|E0].
  - assert (src = []) as -> by (apply nil_length_inv; unfold len in E0; lia).
    exists l. split; [done|]. split; [done|]. split; [done|]. split; [|done].
    intros n i d H. by rewrite lookup_nil in H.
  - set (g := fun i => padded_tail (tl_k_minus_1 l) (tl_dim l) (seg_window m cu i)).
    cbn [default]. rewrite (omapM_Ret _ (fun p => g p.1)).
    2: { intros [i o] Hin. pose proof (elem_of_zip_l _ _ _ _ Hin) as Hi.
         apply elem_of_zip_r, elem_of_replicate_inv in Hin as ->.
         rewrite Forall_forall in Hsrc. destruct (Hsrc _ Hi) as (s & e & H0 & E1 & E2 & H1 & H2).
         rewrite (index_select_Ret _ _ s), (index_select_Ret _ _ e) by (done || lia). cbn.
         rewrite Z.sub_0_r, gather_tail_spec by done. unfold g, seg_window. by rewrite E1, E2. }
    assert (Eb : match layout with
                 | KDA => (fun p => g p.1) <$> zip src (replicate (length src) 0)
                 | GDN => transpose zero (tl_dim l) <$> ((fun p => g p.1) <$> zip src (replicate (length src) 0))
                 end = (fun i => stored layout (tl_dim l) (g i)) <$> src).
    { transitivity ((fun i => stored layout (tl_dim l) (g i)) <$> (zip src (replicate (length src) 0)).*1);
        [|by rewrite fst_zip by (rewrite length_replicate; lia)].
      unfold stored. destruct layout; by rewrite <- !list_fmap_compose. }
    cbn [obind]. rewrite Eb.
    assert (Hfst : (zip dst ((fun i => stored layout (tl_dim l) (g i)) <$> src)).*1 = dst)
      by (apply fst_zip; rewrite length_fmap; lia).
    destruct (index_puts_spec (tl_data l) (zip dst ((fun i => stored layout (tl_dim l) (g i)) <$> src)))
      as (t' & -> & _ & H1 & H2); [by rewrite Hfst| |].
    { apply Forall_forall. intros [d x] Hin. apply elem_of_zip_l in Hin.
      rewrite Forall_forall in Hdst. by apply Hdst. }
    rewrite Hfst in H2. eexists. split; [done|]. cbn. split; [done|]. split; [done|].
    split; [|done]. intros n i d Ei Ed. apply H1. apply list_elem_of_lookup. exists n.
    rewrite lookup_zip_with, Ed, list_lookup_fmap, Ei. done.
Qed.

(** The writes of a load: the flagged segments with a source slot. *)
Definition load_pairs (conv_idx prev : list Z) (has : list bool) : list (Z * Z) :=
  filter (fun dp : Z * Z => 0 <= dp.2)
    (omap (fun '(d, p, m) => if (m : bool) then Some (d, p) else None)
       (zip (zip conv_idx prev) has)).

Lemma load_spec l conv_idx prev has layout cs :
  NoDup (load_pairs conv_idx prev has).*1 ->
  Forall (fun dp : Z * Z => 0 <= dp.1 < len cs /\ dp.2 < len (tl_data (V := V) l))
    (load_pairs conv_idx prev has) ->
  exists cs', load_conv_history zero (Some l) conv_idx prev has layout cs = Ret cs' /\
    (forall d p block, (d, p) ∈ load_pairs conv_idx prev has ->
       tl_data l !! Z.to_nat p = Some block ->
       cs' !! Z.to_nat d = Some (match layout with KDA => transpose zero (tl_dim l) block | GDN => block end)) /\
    (forall d, 0 <= d -> d ∉ (load_pairs conv_idx prev has).*1 -> cs' !! Z.to_nat d = cs !! Z.to_nat d).
Proof.
  intros Hn HF. unfold load_conv_history.
  destruct (existsb id has) eqn:Eh; cbn [negb].
  - set (g := fun dp : Z * Z => (dp.1, match layout with
      | KDA => transpose zero (tl_dim l) (default [] (tl_data l !! Z.to_nat dp.2))
      | GDN => default [] (tl_data l !! Z.to_nat dp.2) end)).
    fold (load_pairs conv_idx prev has). rewrite (omapM_Ret _ g).
    2: { intros [d p] Hin. rewrite Forall_forall in HF. destruct (HF _ Hin) as [_ Hp].
         apply list_elem_of_filter in Hin as [Hp0 _]. cbn in *.
         destruct (lookup_lt_is_Some_2 (tl_data l) (Z.to_nat p)) as [x Ex]; [unfold len in *; lia|].
         rewrite (index_select_Ret _ _ x) by done. cbn. unfold g. cbn. rewrite Ex. by destruct layout. }
    cbn [obind]. assert (Hfst : (g <$> load_pairs conv_idx prev has).*1 = (load_pairs conv_idx prev has).*1)
      by (rewrite <- list_fmap_compose; by apply list_fmap_ext).
    destruct (index_puts_spec cs (g <$> load_pairs conv_idx prev has)) as (t' & -> & _ & H1 & H2);
      [by rewrite Hfst| |].
    { apply Forall_fmap. eapply Forall_impl; [exact HF|]. intros [d p] [H _]. exact H. }
    exists t'. split; [done|]. rewrite Hfst in H2. split; [|done]. intros d p block Hin Eb.
    apply (H1 d). apply list_elem_of_fmap. exists (d, p). split; [|done]. unfold g. cbn. by rewrite Eb.
  - exists cs. split; [done|]. split; [|done]. intros d p block Hin. exfalso.
    apply list_elem_of_filter in Hin as [_ Hin].
    apply list_elem_of_omap in Hin as ([[d' p'] m] & Hin & Hm). apply elem_of_zip_r in Hin.
    destruct m; [|done]. apply not_true_iff_false in Eh. apply Eh, existsb_exists.
    exists true. split; [by apply list_elem_of_In|done].
Qed.

(** Transposing twice restores a [rows x cols] matrix. *)
Lemma transpose_transpose (rows cols : Z) (m : list row) :
  length m = Z.to_nat rows -> 0 <= rows -> Forall (fun r => length r = Z.to_nat cols) m ->
  transpose zero rows (transpose zero cols m) = m.
Proof.
  intros Hl Hr HF. apply list_eq. intros i. unfold transpose, pyrange.
  rewrite list_lookup_fmap. destruct (decide (i < length m)%nat) as [Hi|Hi].
  - rewrite lookup_seqZ_lt by lia. cbn [fmap option_fmap option_map].
    destruct (lookup_lt_is_Some_2 m i Hi) as [r Er]. rewrite Er. f_equal.
    rewrite Forall_forall in HF. pose proof (HF r (list_elem_of_lookup_2 _ _ _ Er)) as Hlr. apply list_eq. intros j.
    rewrite <- list_fmap_compose, list_lookup_fmap.
    destruct (decide (j < length r)%nat) as [Hj|Hj].
    + rewrite lookup_seqZ_lt by lia. cbn.
      destruct (lookup_lt_is_Some_2 r j Hj) as [x Ex].
      rewrite !Z.add_0_l, list_lookup_fmap, !Nat2Z.id. rewrite Er. cbn. by rewrite ?Nat2Z.id, Ex.
    + rewrite lookup_seqZ_ge by lia. symmetry. apply lookup_ge_None_2. lia.
  - rewrite lookup_seqZ_ge by lia. symmetry. apply lookup_ge_None_2. lia.
Qed.

(** ** The convolution sees the whole prompt *)

(** The outputs of a causal convolution of width [k1 + 1] over [xs] with
    history [hist]: any function of each window. *)
Definition causal_conv {W} (f : list row -> W) (k1 : Z) (hist xs : list row) : list W :=
  (fun t => f (take (S (Z.to_nat k1)) (drop t (hist ++ xs)))) <$> seq 0 (length xs).

Lemma length_padded_tail k1 dim rows : length (padded_tail k1 dim rows) = Z.to_nat k1.
Proof. unfold padded_tail. rewrite length_app, length_replicate, length_drop. lia. Qed.

Lemma padded_tail_idem k1 dim P A :
  (Z.to_nat k1 <= length A)%nat \/ P = [] -> padded_tail k1 dim (P ++ A) = padded_tail k1 dim A.
Proof.
  intros [H| ->]; [|done]. unfold padded_tail.
  rewrite length_app, drop_app_ge by lia.
  replace (length P + length A - Z.to_nat k1 - length P)%nat with (length A - Z.to_nat k1)%nat by lia.
  f_equal. f_equal. lia.
Qed.

(** The zero-padded prompt up to the segment, cut to its last [k1] rows. *)
Lemma padded_tail_suffix k1 dim Q :
  drop (length Q) (replicate (Z.to_nat k1) (replicate (Z.to_nat dim) zero) ++ Q) = padded_tail k1 dim Q.
Proof.
  unfold padded_tail. rewrite drop_app, length_replicate, drop_replicate. f_equal. 
Qed.

Lemma causal_conv_split {W} (f : list row -> W) k1 dim Q B :
  causal_conv f k1 (padded_tail k1 dim Q) B =
  drop (length Q) (causal_conv f k1 (padded_tail k1 dim []) (Q ++ B)).
Proof.
  unfold causal_conv. rewrite <- fmap_drop, drop_seq, length_app, Nat.add_0_l.
  replace (length Q + length B - length Q)%nat with (length B) by lia.
  rewrite <- (Nat.add_0_r (length Q)) at 1. rewrite <- fmap_add_seq, <- list_fmap_compose.
  apply list_fmap_ext. intros _ t _. cbn. f_equal. f_equal.
  rewrite <- padded_tail_suffix, <- (drop_drop _ t). f_equal.
  unfold padded_tail at 1. cbn [length]. rewrite Nat.sub_0_r. cbn [drop].
  rewrite app_nil_r, app_assoc. symmetry. apply drop_app_le.
  rewrite length_app. lia.
Qed.

Lemma capture_length m cu src dst offs layout l l' :
  capture_conv_tails zero m cu src dst offs layout (Some l) = Ret (Some l') ->
  length (tl_data l') = length (tl_data l).
Proof.
  unfold capture_conv_tails. destruct (len src =? 0); [by intros [= ->]|].
  destruct omapM; [cbn|done]. destruct index_puts eqn:E; [cbn|done]. intros [= <-].
  by apply index_puts_length in E.
Qed.

Lemma padded_tail_rows k1 dim rows :
  Forall (fun r => length r = Z.to_nat dim) rows ->
  Forall (fun r => length r = Z.to_nat dim) (padded_tail k1 dim rows).
Proof.
  intros H. apply Forall_app. split; [|by apply Forall_drop].
  apply Forall_replicate, length_replicate.
Qed.

Lemma window_rows m cu i (dim : Z) :
  Forall (fun r : list V => len r = dim) m ->
  Forall (fun r => length r = Z.to_nat dim) (seg_window m cu i).
Proof.
  intros H. apply Forall_take, Forall_drop. eapply Forall_impl; [exact H|].
  unfold len. intros r Hr. lia.
Qed.


End tails.

