(* ===== verification/GdnMeta.v ===== *)
(** * Segment metadata of the linear-attention layers

    [init_pic_metadata] of srt/layers/attention/linear/gdn_backend.py, for
    the addition and transition modes: once per batch, the miss segments of
    all requests become the rows of the kernels, and plans say which rows
    are persisted in which Mamba slot, which slot feeds each convolution,
    and in which order the states of a request's segments compose. *)

From S2P Require Import Prelude PyDict ConvTails.

(** The fields of the forward batch the metadata is built from. *)
Record PicBatch := mkPicBatch {
  pb_batch_size : Z;
  pb_hit_segments : option (list (list (Z * Z * list Z)));
  pb_hit_mamba_slots : option (list (list (list Z * Z)));
  pb_miss_segments : list (list (Z * Z));
  pb_miss_mamba_slots : option (list (list (Z * Z * Z)));
  pb_req_cache_indices : list Z;
}.

(** ** Row lengths *)

(** One request's lengths, with the assertion that starts increase. *)
Fixpoint mono_lengths (prev_start : Z) (segs : list (Z * Z)) : outcome (list Z) :=
  match segs with
  | [] => Ret []
  | (start, end_) :: segs' =>
      if prev_start <? start
      then obind (mono_lengths start segs') (fun ls => Ret ((end_ - start) :: ls))
      else Raise AssertionError
  end.

Definition batch_seg_lengths (b : PicBatch) : outcome (list Z) :=
  ofold (fun acc req_idx =>
    obind (or_raise IndexError (pyget (pb_miss_segments b) req_idx)) (fun segs =>
    obind (mono_lengths (-1) segs) (fun ls => Ret (acc ++ ls))))
    [] (pyrange 0 (pb_batch_size b)).

(** [torch.cumsum] behind a leading zero. *)
Fixpoint cumsum_from (acc : Z) (l : list Z) : list Z :=
  match l with [] => [acc] | x :: l' => acc :: cumsum_from (acc + x) l' end.
Definition cu_seqlens (lengths : list Z) : list Z := cumsum_from 0 lengths.

(** ** Persist and compose plans *)

Record SegPlan := mkSegPlan {
  sp_seg_offsets : list Z;
  sp_persist : list (Z * Z);
  sp_trans_persist : list (Z * Z);
  sp_compose_order : list (list (Z * option Z));
  sp_conv_slots : list Z;
  sp_cursor : Z;
}.

Definition empty_plan : SegPlan := mkSegPlan [0] [] [] [] [] 0.

(** A request's segments in position order: the slot that holds a reused
    segment's state, and for a computed one its slot and its row. *)
Definition req_order (reuse_segs : list (Z * Z * list Z)) (hit_slots : list (list Z * Z))
    (miss_segs : list (Z * Z)) (miss_slots : list (Z * Z * Z)) (seg_cursor : Z)
    : outcome (list (Z * option Z)) :=
  obind (omapM (fun '(s, e, h) =>
           obind (or_raise KeyError (dict_get h hit_slots)) (fun slot => Ret (s, (slot, None))))
         reuse_segs) (fun reused =>
  obind (omapM (fun '(local_i, (s, e)) =>
           obind (or_raise KeyError (dict_get (s, e) miss_slots)) (fun slot =>
             Ret (s, (slot, Some (seg_cursor + local_i)))))
         (enumerate miss_segs)) (fun computed =>
  Ret (snd <$> sort_key fst (reused ++ computed)))).

(** One miss segment: its row is persisted when it has a slot; its tail and
    its convolution use that slot unless it is the request's last. *)
Definition plan_miss (miss_slots : list (Z * Z * Z)) (req_dst_slot seg_cursor req_seg_count n_reuse : Z)
    (p : SegPlan) (seg : Z * (Z * Z)) : SegPlan :=
  let '(local_i, se) := seg in
  let persist_slot_any := dict_get se miss_slots in
  let trans := match persist_slot_any with
               | Some slot => sp_trans_persist p ++ [(seg_cursor + local_i, slot)]
               | None => sp_trans_persist p
               end in
  let is_single_seg := n_reuse + req_seg_count =? 1 in
  if (local_i <? req_seg_count - 1) || is_single_seg then
    match persist_slot_any with
    | Some slot => mkSegPlan (sp_seg_offsets p) (sp_persist p ++ [(seg_cursor + local_i, slot)]) trans
                     (sp_compose_order p) (sp_conv_slots p ++ [slot]) (sp_cursor p)
    | None => mkSegPlan (sp_seg_offsets p) (sp_persist p) trans
                (sp_compose_order p) (sp_conv_slots p ++ [req_dst_slot]) (sp_cursor p)
    end
  else mkSegPlan (sp_seg_offsets p) (sp_persist p) trans
         (sp_compose_order p) (sp_conv_slots p ++ [req_dst_slot]) (sp_cursor p).

Definition plan_req (is_addition : bool) (b : PicBatch) (p : SegPlan) (req_idx : Z) : outcome SegPlan :=
  obind (batch_get [] (pb_hit_mamba_slots b) req_idx) (fun hit_slots =>
  obind (or_raise IndexError (pyget (pb_miss_segments b) req_idx)) (fun miss_segs =>
  obind (batch_get [] (pb_miss_mamba_slots b) req_idx) (fun miss_slots =>
  obind (if is_addition then Ret [] else batch_get [] (pb_hit_segments b) req_idx) (fun reuse_segs =>
  obind (if is_addition then Ret (sp_compose_order p)
         else obind (req_order reuse_segs hit_slots miss_segs miss_slots (sp_cursor p))
                (fun o => Ret (sp_compose_order p ++ [o]))) (fun order =>
  obind (or_raise IndexError (pyget (pb_req_cache_indices b) req_idx)) (fun req_dst_slot =>
  let n := len miss_segs in
  let p1 := mkSegPlan (sp_seg_offsets p ++ [sp_cursor p + n]) (sp_persist p) (sp_trans_persist p)
              order (sp_conv_slots p) (sp_cursor p) in
  let p2 := foldl (plan_miss miss_slots req_dst_slot (sp_cursor p) n (len reuse_segs)) p1
              (enumerate miss_segs) in
  Ret (mkSegPlan (sp_seg_offsets p2) (sp_persist p2) (sp_trans_persist p2) (sp_compose_order p2)
         (sp_conv_slots p2) (sp_cursor p + n)))))))).

(** ** The metadata *)

Record SegMeta := mkSegMeta {
  sm_req_dst : list Z;               (* _pic_req_dst_indices_long *)
  sm_persist : list (Z * Z);         (* _pic_fused_persist_src, _dst *)
  sm_trans_persist : list (Z * Z);   (* _pic_trans_persist_src, _dst *)
  sm_last_miss_payload : list Z;     (* _pic_req_last_miss_payload *)
  sm_compose_order : list (list (Z * option Z));
  sm_cu_seqlens : list Z;
  sm_seg_indices : list Z;
  sm_conv_indices : list Z;
  sm_prev_tail : list Z;
  sm_has_initial : list bool;
  sm_num_segments : Z;
}.

Definition init_pic_metadata (is_addition : bool) (b : PicBatch) : outcome SegMeta :=
  obind (batch_seg_lengths b) (fun seg_lengths =>
  obind (ofold (plan_req is_addition b) empty_plan (pyrange 0 (pb_batch_size b))) (fun p =>
  obind (build_prev_tail_slots (pb_batch_size b) (pb_hit_segments b) (pb_hit_mamba_slots b)
           (pb_miss_segments b) (pb_miss_mamba_slots b)) (fun prev_tail_slots =>
  Ret (mkSegMeta
    (slice_to (pb_req_cache_indices b) (pb_batch_size b))
    (sp_persist p) (sp_trans_persist p)
    (if is_addition then (fun o => o - 1) <$> drop 1 (sp_seg_offsets p) else [])
    (sp_compose_order p)
    (cu_seqlens seg_lengths)
    (pyrange 0 (len seg_lengths))
    (sp_conv_slots p)
    prev_tail_slots
    ((fun s => 0 <=? s) <$> prev_tail_slots)
    (len seg_lengths))))).
