(* ===== verification/GdnMetaFacts.v ===== *)
(** * Segment metadata: correctness

    The rows of the batch are the miss segments of the requests, in order;
    each computed row occurs exactly once in the compose orders, under the
    slot it is persisted to; a request's compose order lists its segments,
    cached and computed, by increasing start. *)

From S2P Require Import Prelude PyDict ConvTails GdnMeta.

(** ** Loops *)

Lemma ofold_inv {A B} (I : nat -> B -> Prop) (body : B -> A -> outcome B) acc l r :
  ofold body acc l = Ret r -> I 0%nat acc ->
  (forall i x a a', l !! i = Some x -> I i a -> body a x = Ret a' -> I (S i) a') ->
  I (length l) r.
Proof.
  revert I acc. induction l as [|x l IH]; intros I acc E H0 HS; cbn [ofold] in E.
  - by injection E as <-.
  - destruct (body acc x) as [a'|] eqn:Eb; [cbn in E|done].
    apply (IH (fun i => I (S i)) a'); [done|by eapply (HS 0%nat)|].
    intros i y a a'' Hy. apply (HS (S i)). exact Hy.
Qed.

Lemma obind_inv {A B} (o : outcome A) (f : A -> outcome B) r :
  obind o f = Ret r -> exists a, o = Ret a /\ f a = Ret r.
Proof. destruct o; [eauto|done]. Qed.

Lemma or_raise_inv {A} e (o : option A) a : or_raise e o = Ret a -> o = Some a.
Proof. destruct o; [by intros [= ->]|done]. Qed.

Ltac ounfold H :=
  let a := fresh "a" in let E := fresh "E" in
  apply obind_inv in H as (a & E & H); try apply or_raise_inv in E.

Lemma elem_of_concat {A} (x : A) (ls : list (list A)) : x ∈ concat ls <-> exists l, l ∈ ls /\ x ∈ l.
Proof. setoid_rewrite list_elem_of_In. apply in_concat. Qed.

(** ** Row offsets *)

Definition req_misses (b : PicBatch) (i : Z) : list (Z * Z) :=
  default [] (pyget (pb_miss_segments b) i).

(** The rows of the requests before [k]. *)
Definition row_base (b : PicBatch) (k : nat) : Z :=
  len (concat (req_misses b <$> seqZ 0 (Z.of_nat k))).

Lemma row_base_0 b : row_base b 0 = 0.
Proof. done. Qed.

Lemma row_base_S b k : row_base b (S k) = row_base b k + len (req_misses b (Z.of_nat k)).
Proof.
  unfold row_base. replace (Z.of_nat (S k)) with (Z.of_nat k + 1) by lia.
  rewrite seqZ_app by lia. rewrite fmap_app, concat_app, len_app. f_equal.
  rewrite seqZ_cons by lia. cbn. by rewrite app_nil_r.
Qed.

Lemma lookup_pyrange n i x :
  pyrange 0 n !! i = Some x -> x = Z.of_nat i /\ Z.of_nat i < n.
Proof. unfold pyrange. intros H%lookup_seqZ. lia. Qed.

Lemma fst_enumerate {A} (l : list A) : (enumerate l).*1 = pyrange 0 (len l).
Proof.
  unfold enumerate, pyrange. rewrite fst_zip, Z.sub_0_r; [done|].
  rewrite length_seqZ. unfold len. lia.
Qed.

Lemma snd_enumerate {A} (l : list A) : (enumerate l).*2 = l.
Proof. unfold enumerate. apply snd_zip. rewrite length_seqZ. unfold len. lia. Qed.

(** ** One request *)

(** A miss segment's entry in the compose order and in the persist plan. *)
Definition computed_entry (md : list (Z * Z * Z)) (cursor : Z) (x : Z * (Z * Z)) : Z * (Z * option Z) :=
  (x.2.1, (default 0 (dict_get x.2 md), Some (cursor + x.1))).
Definition persist_entry (md : list (Z * Z * Z)) (cursor : Z) (x : Z * (Z * Z)) : Z * Z :=
  (cursor + x.1, default 0 (dict_get x.2 md)).

Lemma req_order_inv hs hd ms md cursor o :
  req_order hs hd ms md cursor = Ret o ->
  exists reused,
    Forall2 (fun h r => exists slot, dict_get h.2 hd = Some slot /\ r = (h.1.1, (slot, None))) hs reused /\
    Forall (fun se => is_Some (dict_get se md)) ms /\
    o = snd <$> sort_key fst (reused ++ (computed_entry md cursor <$> enumerate ms)).
Proof.
  intros E. unfold req_order in E. ounfold E. ounfold E. injection E as <-.
  apply omapM_inv in E0, E1. exists a. split; [|].
  - eapply Forall2_impl; [exact E0|]. intros [[s e] h] r Hr. ounfold Hr. injection Hr as <-. eauto.
  - assert (Forall (fun x => is_Some (dict_get x.2 md)) (enumerate ms) /\
            a0 = computed_entry md cursor <$> enumerate ms) as [HF ->].
    { clear E0. induction E1 as [|[i [s e]] y l k Hy _ IH]; [done|].
      destruct IH as [IH ->]. ounfold Hy. injection Hy as <-. split; [constructor; eauto|].
      cbn. f_equal. unfold computed_entry. cbn. by rewrite E. }
    split; [|done]. rewrite <- (snd_enumerate ms) at 1. by apply Forall_fmap.
Qed.

Lemma plan_miss_fold md dst cursor n nr l p :
  Forall (fun x => is_Some (dict_get x.2 md)) l ->
  let p' := foldl (plan_miss md dst cursor n nr) p l in
  sp_trans_persist p' = sp_trans_persist p ++ (persist_entry md cursor <$> l) /\
  sp_compose_order p' = sp_compose_order p.
Proof.
  revert p. induction l as [|[i se] l IH]; intros p HF; cbn [foldl].
  - by rewrite app_nil_r.
  - apply Forall_cons in HF as [[slot Es] HF]. cbn in Es.
    destruct (IH (plan_miss md dst cursor n nr p (i, se)) HF) as [-> ->].
    unfold plan_miss. rewrite Es.
    assert (persist_entry md cursor (i, se) = (cursor + i, slot)) as Ep
      by (unfold persist_entry; cbn; by rewrite Es).
    rewrite fmap_cons, Ep. destruct (_ || _); cbn; by rewrite <- app_assoc.
Qed.

(** What a request of the batch brings. *)
Record req_data (b : PicBatch) (i : Z) (hs : list (Z * Z * list Z)) (hd : list (list Z * Z))
    (md : list (Z * Z * Z)) : Prop := {
  rd_hs : batch_get [] (pb_hit_segments b) i = Ret hs;
  rd_hd : batch_get [] (pb_hit_mamba_slots b) i = Ret hd;
  rd_md : batch_get [] (pb_miss_mamba_slots b) i = Ret md;
}.

Lemma plan_req_inv b p i p' :
  plan_req false b p i = Ret p' ->
  exists hs hd md o, req_data b i hs hd md /\
    req_order hs hd (req_misses b i) md (sp_cursor p) = Ret o /\
    is_Some (pyget (pb_req_cache_indices b) i) /\
    sp_compose_order p' = sp_compose_order p ++ [o] /\
    sp_trans_persist p' = sp_trans_persist p ++ (persist_entry md (sp_cursor p) <$> enumerate (req_misses b i)) /\
    sp_cursor p' = sp_cursor p + len (req_misses b i).
Proof.
  intros E. unfold plan_req in E. do 4 ounfold E. ounfold E. ounfold E. ounfold E4. injection E4 as <-.
  assert (req_misses b i = a0) as Em by (unfold req_misses; by rewrite E1).
  pose proof (req_order_inv _ _ _ _ _ _ E6) as (_ & _ & HF & _).
  injection E as <-. cbn. exists a2, a, a1, a5. rewrite Em.
  match goal with |- context [foldl ?f ?x ?l] =>
    destruct (plan_miss_fold a1 a4 (sp_cursor p) (len a0) (len a2) l x) as [Et Eo] end.
  { apply Forall_forall. intros [j se] Hin. rewrite Forall_forall in HF. apply HF.
    rewrite <- (snd_enumerate a0). apply list_elem_of_fmap. by exists (j, se). }
  cbn in Et, Eo. rewrite Et, Eo. split; [by split|]. eauto 10.
Qed.

(** ** The whole batch *)

Record PlanInv (b : PicBatch) (k : nat) (p : SegPlan) : Prop := {
  pi_len : length (sp_compose_order p) = k;
  pi_cursor : sp_cursor p = row_base b k;
  pi_rows : (sp_trans_persist p).*1 = pyrange 0 (row_base b k);
  pi_computed : omap snd (concat (sp_compose_order p)) ≡ₚ pyrange 0 (row_base b k);
  pi_persist : forall slot row, (slot, Some row) ∈ concat (sp_compose_order p) ->
    (row, slot) ∈ sp_trans_persist p;
  pi_req : forall i o, sp_compose_order p !! i = Some o -> exists hs hd md,
    req_data b (Z.of_nat i) hs hd md /\
    req_order hs hd (req_misses b (Z.of_nat i)) md (row_base b i) = Ret o;
  pi_dst : forall i, (i < k)%nat -> is_Some (pyget (pb_req_cache_indices b) (Z.of_nat i));
}.

Lemma row_base_nonneg b k : 0 <= row_base b k.
Proof. apply len_nonneg. Qed.

Lemma shift_pyrange c n : 0 <= n -> (fun i => c + i) <$> pyrange 0 n = pyrange c (c + n).
Proof.
  intros. unfold pyrange. rewrite fmap_add_seqZ. f_equal; lia.
Qed.

Lemma omap_snd_order (l : list (Z * (Z * option Z))) :
  omap snd (snd <$> l) = omap (fun x : Z * (Z * option Z) => x.2.2) l.
Proof. induction l as [|[s [sl [r|]]] l IH]; cbn; by rewrite ?IH. Qed.

Lemma req_order_rows hs hd ms md cursor o :
  req_order hs hd ms md cursor = Ret o -> omap snd o ≡ₚ pyrange cursor (cursor + len ms).
Proof.
  intros (reused & HF & _ & ->)%req_order_inv.
  rewrite omap_snd_order, sort_key_perm, omap_app.
  assert (omap (fun x : Z * (Z * option Z) => x.2.2) reused = []) as ->.
  { induction HF as [|h r ? ? (slot & _ & ->) _ IH]; [done|]. cbn. exact IH. }
  rewrite app_nil_l, <- shift_pyrange, <- fst_enumerate by apply len_nonneg.
  induction (enumerate ms) as [|x l IH]; [done|]. cbn. by rewrite IH.
Qed.

Lemma req_order_persist hs hd ms md cursor o slot row :
  req_order hs hd ms md cursor = Ret o -> (slot, Some row) ∈ o ->
  (row, slot) ∈ persist_entry md cursor <$> enumerate ms.
Proof.
  intros (reused & HF & _ & ->)%req_order_inv Hin.
  apply list_elem_of_fmap in Hin as ([s x] & Ex & Hin). cbn in Ex. subst x.
  rewrite sort_key_perm in Hin. apply elem_of_app in Hin as [Hin|Hin].
  - exfalso. induction HF as [|h r ? ? (sl & _ & ->) _ IH]; [by inversion Hin|].
    apply elem_of_cons in Hin as [[=]|Hin]; auto.
  - apply list_elem_of_fmap in Hin as ([j se] & [= -> -> ->] & Hin).
    apply list_elem_of_fmap. by exists (j, se).
Qed.

Lemma plan_req_PlanInv b k p p' :
  PlanInv b k p -> plan_req false b p (Z.of_nat k) = Ret p' -> PlanInv b (S k) p'.
Proof.
  intros [Hl Hc Hr Ho Hp Hq Hd] (hs & hd & md & o & Hdata & Eo & Hdst & Eord & Etr & Ecur)%plan_req_inv.
  pose proof (row_base_nonneg b k). pose proof (len_nonneg (req_misses b (Z.of_nat k))).
  rewrite Hc in *. assert (Hsplit : pyrange 0 (row_base b (S k)) =
    pyrange 0 (row_base b k) ++ pyrange (row_base b k) (row_base b (S k)))
    by (apply pyrange_app; rewrite row_base_S; lia).
  constructor.
  - rewrite Eord, length_app. cbn. lia.
  - by rewrite row_base_S, Ecur.
  - rewrite Etr, fmap_app, Hr, Hsplit, row_base_S, <- shift_pyrange, <- fst_enumerate by done.
    by rewrite <- !list_fmap_compose.
  - rewrite Eord, concat_app, omap_app, Ho, Hsplit. cbn. rewrite app_nil_r.
    by rewrite (req_order_rows _ _ _ _ _ _ Eo), row_base_S.
  - intros slot row. rewrite Eord, Etr, concat_app, !elem_of_app. cbn. rewrite app_nil_r.
    intros [Hin|Hin]; [left; auto|right; eapply req_order_persist; eauto].
  - intros i o'. rewrite Eord. intros [Hi|[Hi Ei]]%lookup_app_Some; [by apply Hq|].
    apply list_lookup_singleton_Some in Ei as [Ei <-]. assert (i = k) as -> by lia. eauto.
  - intros i Hi. destruct (decide (i = k)) as [->|]; [done|]. apply Hd. lia.
Qed.

Lemma plan_PlanInv b p :
  0 <= pb_batch_size b ->
  ofold (plan_req false b) empty_plan (pyrange 0 (pb_batch_size b)) = Ret p ->
  PlanInv b (Z.to_nat (pb_batch_size b)) p.
Proof.
  intros Hb E. replace (Z.to_nat (pb_batch_size b)) with (length (pyrange 0 (pb_batch_size b)))
    by (unfold pyrange; rewrite length_seqZ; lia).
  apply (ofold_inv (PlanInv b) _ _ _ _ E).
  - constructor; cbn; try done; try (intros; lia). intros ? ? H. by inversion H.
  - intros i x a a' [-> _]%lookup_pyrange. apply plan_req_PlanInv.
Qed.

(** ** Rows and their tokens *)

Lemma mono_lengths_inv prev segs ls :
  mono_lengths prev segs = Ret ls ->
  ls = (fun se => se.2 - se.1) <$> segs /\ StronglySorted Z.lt (prev :: segs.*1).
Proof.
  revert prev ls. induction segs as [|[s e] segs IH]; intros prev ls E; cbn [mono_lengths] in E.
  - injection E as <-. by repeat constructor.
  - destruct (Z.ltb_spec prev s); [|done]. ounfold E. injection E as <-.
    apply IH in E0 as [-> HS]. split; [done|]. constructor; [done|].
    apply StronglySorted_inv in HS as [_ HF]. constructor; [done|].
    eapply Forall_impl; [exact HF|]. cbn. lia.
Qed.

Lemma batch_seg_lengths_inv b ls :
  0 <= pb_batch_size b -> batch_seg_lengths b = Ret ls ->
  ls = (fun se => se.2 - se.1) <$> concat (req_misses b <$> pyrange 0 (pb_batch_size b)) /\
  forall i, 0 <= i < pb_batch_size b -> StronglySorted Z.lt (req_misses b i).*1.
Proof.
  intros Hb E. unfold batch_seg_lengths in E.
  set (I := fun (k : nat) (acc : list Z) =>
    acc = (fun se => se.2 - se.1) <$> concat (req_misses b <$> seqZ 0 (Z.of_nat k)) /\
    forall i, 0 <= i < Z.of_nat k -> StronglySorted Z.lt (req_misses b i).*1).
  assert (HI : I (length (pyrange 0 (pb_batch_size b))) ls).
  { apply (ofold_inv I _ _ _ _ E); [split; [done|intros; lia]|].
    intros k x acc acc' [-> Hk]%lookup_pyrange [-> IH] Hs. do 2 ounfold Hs. injection Hs as <-.
    assert (Em : req_misses b (Z.of_nat k) = a) by (unfold req_misses; by rewrite E0).
    apply mono_lengths_inv in E1 as [-> HS]. split.
    - replace (Z.of_nat (S k)) with (Z.of_nat k + 1) by lia.
      rewrite seqZ_app by lia. rewrite fmap_app, concat_app, fmap_app. f_equal.
      rewrite seqZ_cons by lia. cbn. by rewrite app_nil_r, <- Em.
    - intros i Hi. destruct (decide (i = Z.of_nat k)) as [->|]; [|apply IH; lia].
      rewrite Em. by apply StronglySorted_inv in HS as [HS _]. }
  unfold I, pyrange in HI. unfold pyrange. rewrite length_seqZ in HI.
  rewrite !Z.sub_0_r, Z2Nat.id in HI by lia. rewrite Z.sub_0_r. exact HI.
Qed.

Lemma cumsum_step l acc n x :
  l !! n = Some x -> exists c, cumsum_from acc l !! n = Some c /\ cumsum_from acc l !! S n = Some (c + x).
Proof.
  revert acc n. induction l as [|y l IH]; intros acc n H; [done|]. cbn [cumsum_from].
  destruct n as [|n]; cbn in *.
  - injection H as ->. exists acc. split; [done|]. by destruct l.
  - by apply IH.
Qed.

(** A cached segment's entry in the compose order. *)
Definition hit_entry (hd : list (list Z * Z)) (h : Z * Z * list Z) : Z * (Z * option Z) :=
  (h.1.1, (default 0 (dict_get h.2 hd), None)).

Lemma req_order_spec hs hd ms md cursor o :
  req_order hs hd ms md cursor = Ret o ->
  exists order, o = snd <$> order /\ StronglySorted (fun x y => x.1 <= y.1) order /\
    order ≡ₚ (hit_entry hd <$> hs) ++ (computed_entry md cursor <$> enumerate ms) /\
    Forall (fun h => is_Some (dict_get h.2 hd)) hs /\ Forall (fun se => is_Some (dict_get se md)) ms.
Proof.
  intros (reused & HF & Hm & ->)%req_order_inv. eexists. split; [done|].
  split; [apply sort_key_sorted|]. rewrite sort_key_perm.
  assert (reused = hit_entry hd <$> hs /\ Forall (fun h => is_Some (dict_get h.2 hd)) hs) as [-> Hh].
  { induction HF as [|h r ? ? (slot & Es & ->) _ IH]; [done|]. destruct IH as [-> IH].
    split; [|constructor; eauto]. cbn. f_equal. unfold hit_entry. by rewrite Es. }
  done.
Qed.

Lemma lookup_concat_base b k j x n :
  (k < n)%nat -> req_misses b (Z.of_nat k) !! j = Some x ->
  concat (req_misses b <$> seqZ 0 (Z.of_nat n)) !! (Z.to_nat (row_base b k) + j)%nat = Some x.
Proof.
  intros Hk Hj. replace (Z.of_nat n) with (Z.of_nat k + Z.of_nat (n - k)) by lia.
  rewrite seqZ_app by lia. rewrite fmap_app, concat_app.
  rewrite lookup_app_r by (unfold row_base, len; lia).
  replace (_ - _)%nat with j by (unfold row_base, len; lia).
  rewrite seqZ_cons by lia. rewrite fmap_cons. cbn [concat].
  apply lookup_app_l_Some. by rewrite Z.add_0_l.
Qed.

Lemma lookup_enumerate {A} (l : list A) j x :
  l !! j = Some x -> enumerate l !! j = Some (Z.of_nat j, x).
Proof.
  intros Hj. pose proof (lookup_lt_Some _ _ _ Hj). unfold enumerate.
  rewrite lookup_zip_with, lookup_seqZ_lt, Hj by (unfold len; lia). done.
Qed.

Lemma slice_to_full {A} (l : list A) n :
  0 <= n -> (forall i, (i < Z.to_nat n)%nat -> is_Some (pyget l (Z.of_nat i))) ->
  length (slice_to l n) = Z.to_nat n.
Proof.
  intros Hn H. unfold slice_to, pyidx. destruct (Z.ltb_spec n 0); [lia|]. rewrite length_take.
  destruct (decide (n = 0)) as [->|]; [unfold len; lia|].
  destruct (H (Z.to_nat (n - 1))) as [x Hx]; [lia|]. unfold pyget in Hx.
  revert Hx. destruct (Z.ltb_spec (Z.of_nat (Z.to_nat (n - 1))) 0); [lia|].
  case_if; [intros _|done]. breflect. unfold len in *. lia.
Qed.

(** The [j]-th miss segment [s, e) of request [k] is row [row_base b k + j]:
    it has [e - s] tokens and is persisted in its slot. *)
Definition row_ok (b : PicBatch) (m : SegMeta) (md : list (Z * Z * Z)) (k j : nat) (se : Z * Z) : Prop :=
  let row := row_base b k + Z.of_nat j in
  exists c slot, sm_cu_seqlens m !! Z.to_nat row = Some c /\
    sm_cu_seqlens m !! S (Z.to_nat row) = Some (c + (se.2 - se.1)) /\
    dict_get se md = Some slot /\ (row, slot) ∈ sm_trans_persist m.

Record metadata_ok (b : PicBatch) (m : SegMeta) : Prop := {
  mo_num : sm_num_segments m = row_base b (Z.to_nat (pb_batch_size b));
  mo_indices : sm_seg_indices m = pyrange 0 (sm_num_segments m);
  mo_dst : length (sm_req_dst m) = Z.to_nat (pb_batch_size b);
  mo_orders : length (sm_compose_order m) = Z.to_nat (pb_batch_size b);
  mo_rows : (sm_trans_persist m).*1 = pyrange 0 (sm_num_segments m);
  mo_computed : omap snd (concat (sm_compose_order m)) ≡ₚ pyrange 0 (sm_num_segments m);
  mo_persist : forall slot row, (slot, Some row) ∈ concat (sm_compose_order m) ->
    (row, slot) ∈ sm_trans_persist m;
  mo_req : forall k, (k < Z.to_nat (pb_batch_size b))%nat -> exists hs hd md order,
    req_data b (Z.of_nat k) hs hd md /\
    sm_compose_order m !! k = Some (snd <$> order) /\
    StronglySorted (fun x y => x.1 <= y.1) order /\
    order ≡ₚ (hit_entry hd <$> hs) ++
      (computed_entry md (row_base b k) <$> enumerate (req_misses b (Z.of_nat k))) /\
    forall j se, req_misses b (Z.of_nat k) !! j = Some se -> row_ok b m md k j se;
}.

Lemma init_pic_metadata_ok b m :
  0 <= pb_batch_size b -> init_pic_metadata false b = Ret m -> metadata_ok b m.
Proof.
  intros Hb E. unfold init_pic_metadata in E. do 3 ounfold E. injection E as <-.
  apply batch_seg_lengths_inv in E0 as [-> Hmono]; [|done].
  apply plan_PlanInv in E1 as [Hl Hc Hr Ho Hp Hq Hd]; [|done].
  assert (Hnum : len ((fun se : Z * Z => se.2 - se.1) <$>
      concat (req_misses b <$> pyrange 0 (pb_batch_size b))) = row_base b (Z.to_nat (pb_batch_size b))).
  { rewrite len_map. unfold row_base, pyrange. by rewrite Z.sub_0_r, Z2Nat.id. }
  constructor; cbn; rewrite ?Hnum; try done.
  - by apply slice_to_full.
  - intros k Hk. destruct (lookup_lt_is_Some_2 (sp_compose_order a0) k) as [o Eo]; [lia|].
    destruct (Hq k o Eo) as (hs & hd & md & Hdata & Eor).
    destruct (req_order_spec _ _ _ _ _ _ Eor) as (order & -> & HS & HP & _ & HM).
    exists hs, hd, md, order. split; [done|]. split; [done|]. split; [done|]. split; [done|].
    intros j se Hj. unfold row_ok. cbn.
    assert (Hin : (row_base b k + Z.of_nat j, default 0 (dict_get se md)) ∈ sp_trans_persist a0).
    { apply Hp, elem_of_concat. exists (snd <$> order). split; [by eapply list_elem_of_lookup_2|].
      apply list_elem_of_fmap. exists (computed_entry md (row_base b k) (Z.of_nat j, se)).
      split; [done|]. rewrite HP. apply elem_of_app. right. apply list_elem_of_fmap.
      eexists. split; [done|]. apply list_elem_of_lookup. exists j.
      apply lookup_enumerate. done. }
    rewrite Forall_forall in HM. destruct (HM se) as [slot Es]; [by eapply list_elem_of_lookup_2|].
    rewrite Es in Hin. pose proof (row_base_nonneg b k).
    destruct (cumsum_step ((fun se : Z * Z => se.2 - se.1) <$>
      concat (req_misses b <$> pyrange 0 (pb_batch_size b))) 0 (Z.to_nat (row_base b k) + j) (se.2 - se.1))
      as (c & E3 & E4).
    { rewrite list_lookup_fmap. unfold pyrange. rewrite Z.sub_0_r, <- (Z2Nat.id (pb_batch_size b)) by done.
      by erewrite lookup_concat_base. }
    exists c, slot. replace (Z.to_nat (row_base b k + Z.of_nat j)) with (Z.to_nat (row_base b k) + j)%nat by lia.
    done.
Qed.
