(* ===== verification/GdnForward.v ===== *)
(** * The linear-attention layers of a PIC prefill

    [forward_extend_pic_addition] and [forward_extend_pic_transition] of
    srt/layers/attention/linear/gdn_backend.py.  Per request and layer the
    recurrent state advances token by token as [h := h @ T_t + S_t]; the
    kernels run it over the rows of the batch, and the states of cached
    segments are spliced in.  The algebra of states and transitions is an
    interface; the device kernels are arguments whose contract is the class
    [DeltaKernelSpec]; arithmetic is exact where the code has fp32. *)

From S2P Require Import Prelude PyDict ConvTails GdnMeta.

(** ** States and transitions *)

Class DeltaAlg (St Tr : Type) := {
  st_zero : St;
  st_add : St -> St -> St;
  tr_one : Tr;
  tr_mul : Tr -> Tr -> Tr;
  bmm : St -> Tr -> St;
}.

Class DeltaAlgLaws (St Tr : Type) `{DeltaAlg St Tr} : Prop := {
  st_add_assoc : forall a b c : St, st_add a (st_add b c) = st_add (st_add a b) c;
  st_add_0_l : forall a : St, st_add st_zero a = a;
  st_add_0_r : forall a : St, st_add a st_zero = a;
  bmm_0 : forall T : Tr, bmm st_zero T = st_zero;
  bmm_add : forall a b T, bmm (st_add a b) T = st_add (bmm a T) (bmm b T);
  bmm_1 : forall a, bmm a tr_one = a;
  bmm_mul : forall a T U, bmm (bmm a T) U = bmm a (tr_mul T U);
}.

(** ** Device kernels

    [Tok] is what the projections, the gating and the intra-chunk pass
    leave of a token; a token acts by a transition and an increment. *)

Class DeltaKernel (Tok St Tr Row AB Out : Type) := {
  tok_T : Tok -> Tr;
  tok_S : Tok -> St;
  (** [causal_conv1d_fn]: outputs and the states it leaves. *)
  causal_conv1d_fn : list Row -> list (list Row) -> list bool -> list Z -> list Z ->
    list Row * list (list Row);
  (** split, l2norm, gating, chunk cumsum and [fwd_intra]. *)
  project : list Row -> AB -> list Z -> list Tok;
  (** [_fla_fwd_h] updates the initial states in place, on states with
      the increments [u] and on transitions with [u = 0]. *)
  fwd_h : list Tok -> list Z -> list Z -> list St -> list St;
  fwd_h_zero_u : list Tok -> list Z -> list Z -> list Tr -> list Tr;
  (** [_fla_fwd_h] followed by [_fla_fwd_o]: the attention output. *)
  fwd_o : list Tok -> list Z -> list Z -> list St -> Out;
  (** [torch.empty] of the output's shape. *)
  out_empty : Out;
}.

Section forward.
Context {V Tok St Tr AB Out : Type} (zero : V).
Context `{DeltaAlg St Tr} `{DeltaKernel Tok St Tr (list V) AB Out}.

(** A layer's share of the Mamba pool. *)
Record LayerCache := mkLayerCache {
  lc_conv : list (list (list V));
  lc_temporal : list St;
  lc_transition : option (list Tr);
  lc_conv_tails : option (TailsLayer (V := V));
}.

Definition set_lc_conv v s := mkLayerCache v (lc_temporal s) (lc_transition s) (lc_conv_tails s).
Definition set_lc_temporal v s := mkLayerCache (lc_conv s) v (lc_transition s) (lc_conv_tails s).
Definition set_lc_transition v s := mkLayerCache (lc_conv s) (lc_temporal s) v (lc_conv_tails s).
Definition set_lc_conv_tails v s := mkLayerCache (lc_conv s) (lc_temporal s) (lc_transition s) v.

Definition tensor_get {A} (t : list A) (i : Z) : outcome A := or_raise IndexError (pyget t i).

(** Capture tails, load histories, convolve, project: the rows of the
    convolution end at [cu], those of the projection at [proj_cu]. *)
Definition conv_stage_layout (layout : ConvLayout) (cu : list Z) (persist : list (Z * Z)) (end_offset : option (list Z))
    (conv_indices prev_tail : list Z) (has_initial : list bool) (proj_cu : list Z)
    (mixed_qkv : list (list V)) (ab : AB) : M LayerCache (list Tok) :=
  s ← get;
  tails ← of_outcome (capture_conv_tails zero mixed_qkv cu persist.*1 persist.*2 end_offset layout
            (lc_conv_tails s));
  modify (set_lc_conv_tails tails);;
  conv ← of_outcome (load_conv_history zero tails conv_indices prev_tail has_initial layout (lc_conv s));
  let '(mixed_t, conv') := causal_conv1d_fn mixed_qkv conv has_initial conv_indices cu in
  modify (set_lc_conv conv');;
  mret (project mixed_t ab proj_cu).

Definition conv_stage : list Z -> list (Z * Z) -> option (list Z) -> list Z -> list Z -> list bool -> list Z ->
    list (list V) -> AB -> M LayerCache (list Tok) := conv_stage_layout GDN.

Definition seg_conv_stage (m : SegMeta) : list (list V) -> AB -> M LayerCache (list Tok) :=
  conv_stage (sm_cu_seqlens m) (sm_persist m) None (sm_conv_indices m) (sm_prev_tail m)
    (sm_has_initial m) (sm_cu_seqlens m).

(** [buf[dst] = src_buf[src]] for a list of index pairs. *)
Definition scatter {A} (src_buf : list A) (pairs : list (Z * Z)) (buf : list A) : outcome (list A) :=
  obind (omapM (fun '(src, dst) => obind (tensor_get src_buf src) (fun x => Ret (dst, x))) pairs)
    (index_puts buf).

(** ** Addition *)

(** The first row of a request starts from the sum of its cached states. *)
Definition seed_addition (b : PicBatch) (ssm : list St) (acc : list St * Z) (req_idx : Z)
    : outcome (list St * Z) :=
  let '(temp_states, cursor) := acc in
  obind (batch_get [] (pb_hit_mamba_slots b) req_idx) (fun hit_slots =>
  obind (or_raise IndexError (pyget (pb_miss_segments b) req_idx)) (fun miss_segs =>
  let n_miss := len miss_segs in
  obind (if (0 <? n_miss) && negb (len hit_slots =? 0) then
           obind (omapM (index_select ssm) hit_slots.*2) (fun hs =>
             index_put temp_states cursor (foldr st_add st_zero hs))
         else Ret temp_states) (fun temp_states' =>
  Ret (temp_states', cursor + n_miss)))).

(** The layer, given its convolution stage. *)
Definition addition_with (conv : M LayerCache (list Tok)) (b : PicBatch) (m : SegMeta) : M LayerCache Out :=
  s ← get;
  seeds ← of_outcome (ofold (seed_addition b (lc_temporal s))
            (replicate (Z.to_nat (sm_num_segments m)) st_zero, 0) (pyrange 0 (pb_batch_size b)));
  toks ← conv;
  let out := fwd_o toks (sm_cu_seqlens m) (sm_seg_indices m) seeds.1 in
  let temp_states := fwd_h toks (sm_cu_seqlens m) (sm_seg_indices m) seeds.1 in
  s ← get;
  ssm ← of_outcome (scatter temp_states (sm_trans_persist m) (lc_temporal s));
  modify (set_lc_temporal ssm);;
  ssm' ← of_outcome (scatter temp_states (zip (sm_last_miss_payload m) (sm_req_dst m)) ssm);
  modify (set_lc_temporal ssm');;
  mret out.

Definition forward_extend_pic_addition (b : PicBatch) (m : SegMeta) (mixed_qkv : list (list V)) (ab : AB)
    : M LayerCache Out := addition_with (seg_conv_stage m mixed_qkv ab) b m.

(** ** Transition *)

(** One segment of a request: a computed row is seeded with the state
    before it; the state advances by the pool's pair at the slot. *)
Definition compose_step (transitions : list Tr) (ssm : list St) (acc : St * list St) (seg : Z * option Z)
    : outcome (St * list St) :=
  let '(h_accum, kernel_h0) := acc in
  let '(slot, compute_payload) := seg in
  obind (match compute_payload with
         | Some row => index_put kernel_h0 row h_accum
         | None => Ret kernel_h0
         end) (fun kernel_h0' =>
  obind (tensor_get transitions slot) (fun T =>
  obind (tensor_get ssm slot) (fun S_ =>
  Ret (st_add (bmm h_accum T) S_, kernel_h0')))).

Definition compose_req (transitions : list Tr) (ssm : list St) (acc : list St * list St)
    (order : list (Z * option Z)) : outcome (list St * list St) :=
  let '(h_accum_buf, kernel_h0) := acc in
  obind (ofold (compose_step transitions ssm) (st_zero, kernel_h0) order) (fun '(h, kernel_h0') =>
  Ret (h_accum_buf ++ [h], kernel_h0')).

Definition forward_extend_pic_transition (m : SegMeta) (mixed_qkv : list (list V)) (ab : AB)
    : M LayerCache Out :=
  s ← get;
  transitions ← of_option AssertionError (lc_transition s);
  toks ← seg_conv_stage m mixed_qkv ab;
  let cu := sm_cu_seqlens m in
  let idx := sm_seg_indices m in
  let n := Z.to_nat (sm_num_segments m) in
  let temp_states := fwd_h toks cu idx (replicate n st_zero) in
  let temp_transitions := fwd_h_zero_u toks cu idx (replicate n tr_one) in
  s ← get;
  ssm ← of_outcome (scatter temp_states (sm_trans_persist m) (lc_temporal s));
  modify (set_lc_temporal ssm);;
  transitions' ← of_outcome (scatter temp_transitions (sm_trans_persist m) transitions);
  modify (set_lc_transition (Some transitions'));;
  composed ← of_outcome (ofold (compose_req transitions' ssm) ([], replicate n st_zero)
               (sm_compose_order m));
  ssm' ← of_outcome (index_puts ssm (zip (sm_req_dst m) composed.1));
  modify (set_lc_temporal ssm');;
  mret (fwd_o toks cu idx composed.2).

(** ** The recurrence *)

Definition run (toks : list Tok) (h : St) : St :=
  foldl (fun h t => st_add (bmm h (tok_T t)) (tok_S t)) h toks.
Definition transition_of (toks : list Tok) : Tr :=
  foldl (fun T t => tr_mul T (tok_T t)) tr_one toks.

(** The tokens of row [i]. *)
Definition row_toks (toks : list Tok) (cu : list Z) (i : nat) : list Tok :=
  let s := default 0 (cu !! i) in
  take (Z.to_nat (default 0 (cu !! S i) - s)) (drop (Z.to_nat s) toks).

(** The kernels' contract: each row's state runs over the row's tokens. *)
Class DeltaKernelSpec : Prop := {
  fwd_h_length : forall toks cu idx buf, length (fwd_h toks cu idx buf) = length buf;
  fwd_h_zero_u_length : forall toks cu idx buf, length (fwd_h_zero_u toks cu idx buf) = length buf;
  fwd_h_row : forall toks cu idx buf i j h, NoDup idx ->
    idx !! i = Some (Z.of_nat j) -> buf !! j = Some h ->
    fwd_h toks cu idx buf !! j = Some (run (row_toks toks cu i) h);
  fwd_h_zero_u_row : forall toks cu idx buf i j T, NoDup idx ->
    idx !! i = Some (Z.of_nat j) -> buf !! j = Some T ->
    fwd_h_zero_u toks cu idx buf !! j =
      Some (foldl (fun T t => tr_mul T (tok_T t)) T (row_toks toks cu i));
}.

End forward.
