(* ===== verification/GdnFacts.v ===== *)
(** * Linear-attention layers of a PIC prefill: correctness

    In transition mode the composed state of a request is the state of the
    plain recurrence over all of its tokens, cached and computed, in
    position order; every computed row is seeded with the state of the
    recurrence before it; and the pool holds, for every persisted row, the
    pair from which later requests compose. *)

From S2P Require Import Prelude PyDict ConvTails ConvTailsFacts GdnMeta GdnMetaFacts GdnForward.

Lemma pyget_nonneg {A} (l : list A) i : 0 <= i -> pyget l i = l !! Z.to_nat i.
Proof.
  intros Hi. unfold pyget. destruct (Z.ltb_spec i 0); [lia|].
  destruct (Z.leb_spec 0 i); [|lia]. destruct (Z.ltb_spec i (len l)); cbn [andb]; [done|].
  symmetry. apply lookup_ge_None_2. unfold len in *. lia.
Qed.

Lemma tensor_get_Ret {A} (l : list A) i x : 0 <= i -> l !! Z.to_nat i = Some x -> tensor_get l i = Ret x.
Proof. intros Hi E. unfold tensor_get. by rewrite pyget_nonneg, E by done. Qed.

(** Scattering rows to distinct places of a buffer. *)
Lemma scatter_spec {A} (src buf : list A) pairs :
  NoDup pairs.*2 ->
  Forall (fun p : Z * Z => 0 <= p.1 < len src /\ 0 <= p.2 < len buf) pairs ->
  exists buf', scatter src pairs buf = Ret buf' /\ length buf' = length buf /\
    (forall i d, (i, d) ∈ pairs -> buf' !! Z.to_nat d = src !! Z.to_nat i) /\
    (forall d, 0 <= d -> d ∉ pairs.*2 -> buf' !! Z.to_nat d = buf !! Z.to_nat d).
Proof.
  intros Hn HF. unfold scatter. destruct src as [|x0 src'] eqn:Esrc.
  { assert (pairs = []) as ->.
    { destruct pairs as [|p ps]; [done|]. apply Forall_cons in HF as [[H _] _]. unfold len in H. cbn in H. lia. }
    exists buf. cbn. split; [done|]. split; [done|]. split; [intros ? ? H; by inversion H|done]. }
  rewrite <- Esrc in *. set (g := fun p : Z * Z => (p.2, default x0 (src !! Z.to_nat p.1))).
  rewrite Forall_forall in HF.
  assert (Hg : forall p, p ∈ pairs -> src !! Z.to_nat p.1 = Some (default x0 (src !! Z.to_nat p.1))).
  { intros p Hp. destruct (HF p Hp) as [H _].
    destruct (lookup_lt_is_Some_2 src (Z.to_nat p.1)) as [x Ex]; [unfold len in H; lia|]. by rewrite Ex. }
  rewrite (omapM_Ret _ g).
  2: { intros [i d] Hp. pose proof (Hg _ Hp) as E. destruct (HF _ Hp) as [H _]. cbn in *.
       by rewrite (tensor_get_Ret _ _ _ (proj1 H) E). }
  cbn [obind]. assert (Hfst : (g <$> pairs).*1 = pairs.*2) by (by rewrite <- list_fmap_compose).
  destruct (index_puts_spec buf (g <$> pairs)) as (t' & -> & El & H1 & H2); [by rewrite Hfst| |].
  { apply Forall_fmap, Forall_forall. intros p Hp. apply (HF p Hp). }
  exists t'. split; [done|]. split; [done|]. split; [|by rewrite <- Hfst].
  intros i d Hp. etransitivity; [|symmetry; exact (Hg (i, d) Hp)]. apply H1. apply list_elem_of_fmap. by exists (i, d).
Qed.

(** Lay the monadic sequencing open. *)
Ltac munfold :=
  unfold mbind, M_bind, get, modify, of_outcome, of_option, mret, M_ret, raise; cbn beta iota zeta.

Section facts.
Context {V Tok St Tr AB Out : Type} (zero : V).
Context `{DeltaAlg St Tr} `{!DeltaAlgLaws St Tr} `{DeltaKernel Tok St Tr (list V) AB Out}.
Context `{!DeltaKernelSpec (V := V) (Tok := Tok) (St := St) (Tr := Tr) (AB := AB) (Out := Out)}.
Local Notation run := (run (V := V) (Tok := Tok) (St := St) (Tr := Tr) (AB := AB) (Out := Out)).
Local Notation transition_of := (transition_of (V := V) (Tok := Tok) (St := St) (Tr := Tr) (AB := AB) (Out := Out)).

(** ** The recurrence *)

Lemma run_app t u h : run (t ++ u) h = run u (run t h).
Proof. apply foldl_app. Qed.

(** A segment acts on the state before it by its pair [(T, S)]. *)
Lemma run_affine toks h : run toks h = st_add (bmm h (transition_of toks)) (run toks st_zero).
Proof.
  induction toks as [|t toks IH] using rev_ind.
  - unfold GdnForward.run, GdnForward.transition_of. cbn. by rewrite bmm_1, st_add_0_r.
  - rewrite !run_app, IH. unfold GdnForward.transition_of. rewrite foldl_app. cbn.
    fold (transition_of toks). rewrite bmm_add, bmm_mul. by rewrite <- st_add_assoc.
Qed.

(** ** Composition *)

(** [slot] holds the pair of a segment with tokens [toks]. *)
Definition holds (ssm : list St) (trans : list Tr) (slot : Z) (toks : list Tok) : Prop :=
  0 <= slot /\ ssm !! Z.to_nat slot = Some (run toks st_zero) /\
  trans !! Z.to_nat slot = Some (transition_of toks).

Section steps.
(** A step of a composition: it may be a row to be seeded, and it advances
    the state by a pair read from a pool. *)
Context {X : Type} (row_of : X -> option Z) (pair_of : X -> outcome (Tr * St)) (tk : X -> list Tok).

Definition step (acc : St * list St) (x : X) : outcome (St * list St) :=
  let '(h, kh0) := acc in
  obind (match row_of x with Some row => index_put kh0 row h | None => Ret kh0 end) (fun kh0' =>
  obind (pair_of x) (fun '(T, S_) => Ret (st_add (bmm h T) S_, kh0'))).

Definition steps_req (acc : list St * list St) (order : list X) : outcome (list St * list St) :=
  let '(hbuf, kh0) := acc in
  obind (ofold step (st_zero, kh0) order) (fun '(h, kh0') => Ret (hbuf ++ [h], kh0')).

Definition pool_ok (order : list X) : Prop :=
  Forall (fun x => pair_of x = Ret (transition_of (tk x), run (tk x) st_zero)) order.

(** The rows of [order] hold in [kh0] the state before their segment. *)
Definition seeded (h : St) (order : list X) (kh0 : list St) : Prop :=
  forall pre x row post, order = pre ++ x :: post -> row_of x = Some row ->
    kh0 !! Z.to_nat row = Some (run (concat (tk <$> pre)) h).

Definition rows_ok (n : nat) (order : list X) : Prop :=
  NoDup (omap row_of order) /\ Forall (fun r => 0 <= r < Z.of_nat n) (omap row_of order).

Lemma steps_spec order h kh0 :
  pool_ok order -> rows_ok (length kh0) order ->
  exists kh0', ofold step (h, kh0) order = Ret (run (concat (tk <$> order)) h, kh0') /\
    length kh0' = length kh0 /\ seeded h order kh0' /\
    forall j, Z.of_nat j ∉ omap row_of order -> kh0' !! j = kh0 !! j.
Proof.
  revert h kh0. induction order as [|x order IH]; intros h kh0 Hp [Hn Hr].
  - exists kh0. split; [done|]. split; [done|]. split; [|done]. intros [|] ? ? ? [=].
  - apply Forall_cons in Hp as [Ex Hp]. set (h' := run (tk x) h).
    assert (Hh : st_add (bmm h (transition_of (tk x))) (run (tk x) st_zero) = h')
      by (symmetry; apply run_affine).
    cbn [ofold step]. rewrite Ex. rewrite fmap_cons. cbn [concat]. rewrite run_app. fold h'.
    cbn [omap list_omap] in Hn, Hr. cbn [omap list_omap]. destruct (row_of x) as [row|] eqn:Er.
    + apply NoDup_cons in Hn as [Hnr Hn]. apply Forall_cons in Hr as [Hr0 Hr].
      unfold index_put, len. destruct (Z.ltb_spec row 0); [lia|].
      destruct (Z.leb_spec 0 row); [|lia]. destruct (Z.ltb_spec row (Z.of_nat (length kh0))); [|lia].
      cbn [andb obind]. rewrite Hh.
      destruct (IH h' (<[Z.to_nat row := h]> kh0)) as (k & -> & El & Hs & Hu); [done| |].
      { by rewrite length_insert. }
      rewrite length_insert in El. exists k. split; [done|]. split; [done|]. split.
      * intros [|y pre] z r post [= ? ?] Ez; subst.
        -- rewrite Er in Ez. injection Ez as ->. rewrite <- (Z2Nat.id r) in Hnr by lia.
           rewrite Hu by done. apply list_lookup_insert_eq. lia.
        -- rewrite fmap_cons. cbn [concat]. rewrite run_app. by eapply Hs.
      * intros j Hj. apply not_elem_of_cons in Hj as [Hne Hj]. rewrite Hu by done.
        apply list_lookup_insert_ne. lia.
    + cbn [obind]. rewrite Hh. destruct (IH h' kh0) as (k & -> & El & Hs & Hu); [done|done|].
      exists k. split; [done|]. split; [done|]. split; [|done].
      intros [|y pre] z r post [= ? ?] Ez; subst; [congruence|].
      rewrite fmap_cons. cbn [concat]. rewrite run_app. by eapply Hs.
Qed.

Lemma steps_all_spec orders hbuf kh0 :
  pool_ok (concat orders) -> rows_ok (length kh0) (concat orders) ->
  exists kh0', ofold steps_req (hbuf, kh0) orders =
      Ret (hbuf ++ ((fun o => run (concat (tk <$> o)) st_zero) <$> orders), kh0') /\
    length kh0' = length kh0 /\ Forall (fun o => seeded st_zero o kh0') orders /\
    forall j, Z.of_nat j ∉ omap row_of (concat orders) -> kh0' !! j = kh0 !! j.
Proof.
  revert hbuf kh0. induction orders as [|o orders IH]; intros hbuf kh0 Hp [Hn Hr].
  - exists kh0. cbn. rewrite app_nil_r. by split.
  - cbn [concat] in *. rewrite omap_app in Hn, Hr. apply NoDup_app in Hn as (Hn1 & Hd & Hn2).
    apply Forall_app in Hr as [Hr1 Hr2]. apply Forall_app in Hp as [Hp1 Hp2].
    destruct (steps_spec o st_zero kh0 Hp1 (conj Hn1 Hr1)) as (k & E & El & Hs & Hu).
    cbn [ofold steps_req]. rewrite E. cbn [obind].
    destruct (IH (hbuf ++ [run (concat (tk <$> o)) st_zero]) k) as (k' & -> & El' & Hs' & Hu'); [done| |].
    { by rewrite El. }
    exists k'. split; [by rewrite <- app_assoc|]. split; [congruence|]. split.
    + constructor; [|done]. intros pre x row post -> Ex. rewrite <- (Hs pre x row post) by done.
      assert (row ∈ omap row_of (pre ++ x :: post)) as Hrow.
      { apply list_elem_of_omap. exists x. split; [apply elem_of_app; right; left|done]. }
      rewrite Forall_forall in Hr1. specialize (Hr1 _ Hrow). apply Hu'.
      rewrite Z2Nat.id by lia. by apply Hd.
    + intros j Hj. rewrite omap_app, not_elem_of_app in Hj. destruct Hj. by rewrite Hu', Hu.
Qed.

End steps.

Lemma ofold_ext {A B} (f g : B -> A -> outcome B) acc l :
  (forall a x, f a x = g a x) -> ofold f acc l = ofold g acc l.
Proof.
  intros Hfg. revert acc. induction l as [|x l IH]; intros acc; cbn [ofold]; [done|].
  rewrite Hfg. destruct (g acc x); cbn; [apply IH|done].
Qed.

(** The transition mode reads both halves at the segment's slot. *)
Definition slot_pair (trans : list Tr) (ssm : list St) (slot : Z) : outcome (Tr * St) :=
  obind (tensor_get trans slot) (fun T => obind (tensor_get ssm slot) (fun S_ => Ret (T, S_))).

Lemma slot_pair_holds trans ssm slot toks :
  holds ssm trans slot toks -> slot_pair trans ssm slot = Ret (transition_of toks, run toks st_zero).
Proof.
  intros (H0' & E1 & E2). unfold slot_pair.
  by rewrite (tensor_get_Ret trans slot _ H0' E2), (tensor_get_Ret ssm slot _ H0' E1).
Qed.

Lemma compose_req_steps trans ssm acc (order : list (Z * option Z)) :
  compose_req trans ssm acc order = steps_req snd (fun x => slot_pair trans ssm x.1) acc order.
Proof.
  unfold compose_req, steps_req. destruct acc as [hb k]. f_equal. apply ofold_ext.
  intros [h kh] [slot pay]. unfold compose_step, step, slot_pair. cbn.
  destruct pay; [destruct index_put|]; cbn; try done;
    destruct (tensor_get trans slot); cbn; try done; by destruct (tensor_get ssm slot).
Qed.


(** ** The transition layer *)

(** The convolution stage leaves the recurrent states alone. *)
Lemma conv_layout_frame layout cu pers off ci pt hi pcu mixed ab (s : LayerCache (V := V) (St := St) (Tr := Tr)) o s1 :
  conv_stage_layout (Tok := Tok) (Out := Out) zero layout cu pers off ci pt hi pcu mixed ab s = (o, s1) ->
  lc_temporal s1 = lc_temporal s /\ lc_transition s1 = lc_transition s.
Proof.
  unfold conv_stage_layout. munfold. repeat case_match; intros; by simplify_eq.
Qed.

Lemma conv_stage_frame cu pers off ci pt hi pcu mixed ab (s : LayerCache (V := V) (St := St) (Tr := Tr)) o s1 :
  conv_stage (Tok := Tok) (Out := Out) zero cu pers off ci pt hi pcu mixed ab s = (o, s1) ->
  lc_temporal s1 = lc_temporal s /\ lc_transition s1 = lc_transition s.
Proof. apply conv_layout_frame. Qed.

(** The tokens of an entry of a compose order: a row of the batch, or what
    the slot was computed from. *)
Definition seg_toks (content : Z -> list Tok) (toks : list Tok) (cu : list Z) (x : Z * option Z) : list Tok :=
  match x.2 with
  | Some row => row_toks toks cu (Z.to_nat row)
  | None => content x.1
  end.

(** Rows are persisted to distinct slots of the pool, which are neither
    those of cached segments in use nor those of the requests. *)
Record slots_ok (m : SegMeta) (n : nat) : Prop := {
  so_persist : NoDup (sm_trans_persist m).*2;
  so_persist_lt : Forall (fun d => 0 <= d < Z.of_nat n) (sm_trans_persist m).*2;
  so_dst : NoDup (sm_req_dst m);
  so_dst_lt : Forall (fun d => 0 <= d < Z.of_nat n) (sm_req_dst m);
  so_dst_persist : forall d, d ∈ sm_req_dst m -> d ∉ (sm_trans_persist m).*2;
  so_hits : forall slot, (slot, None) ∈ concat (sm_compose_order m) -> slot ∉ (sm_trans_persist m).*2;
}.

Lemma pass_rows toks m i row :
  sm_seg_indices m = pyrange 0 (sm_num_segments m) -> (sm_trans_persist m).*1 = pyrange 0 (sm_num_segments m) ->
  (row, i) ∈ sm_trans_persist m ->
  let n := Z.to_nat (sm_num_segments m) in
  0 <= row < sm_num_segments m /\
  fwd_h toks (sm_cu_seqlens m) (sm_seg_indices m) (replicate n st_zero) !! Z.to_nat row =
    Some (run (row_toks toks (sm_cu_seqlens m) (Z.to_nat row)) st_zero) /\
  fwd_h_zero_u toks (sm_cu_seqlens m) (sm_seg_indices m) (replicate n tr_one) !! Z.to_nat row =
    Some (transition_of (row_toks toks (sm_cu_seqlens m) (Z.to_nat row))).
Proof.
  intros Hi Hp Hin n. assert (Hr : 0 <= row < sm_num_segments m).
  { apply elem_of_pyrange. rewrite <- Hp. apply list_elem_of_fmap. by exists (row, i). }
  split; [done|]. rewrite Hi. assert (NoDup (pyrange 0 (sm_num_segments m))) by apply NoDup_seqZ.
  assert (pyrange 0 (sm_num_segments m) !! Z.to_nat row = Some (Z.of_nat (Z.to_nat row))).
  { unfold pyrange. rewrite lookup_seqZ_lt by lia. f_equal. }
  split; [apply fwd_h_row|apply fwd_h_zero_u_row]; try done; apply lookup_replicate_2; lia.
Qed.

Definition delta_pool (s : LayerCache (V := V) (St := St) (Tr := Tr)) (slot : Z) (toks : list Tok) : Prop :=
  exists trans, lc_transition s = Some trans /\ holds (lc_temporal s) trans slot toks.

(** Persisting the pairs of the computed rows, composing the requests, seeding
    the rows that [row_of] selects, and storing the composed states. *)
Lemma transition_core b m (row_of : Z * option Z -> option Z) ssm0 trans toks content :
  metadata_ok b m -> slots_ok m (length ssm0) -> length trans = length ssm0 ->
  (forall slot, (slot, None) ∈ concat (sm_compose_order m) -> holds ssm0 trans slot (content slot)) ->
  let n := Z.to_nat (sm_num_segments m) in
  let cu := sm_cu_seqlens m in
  let idx := sm_seg_indices m in
  let tk := seg_toks content toks cu in
  rows_ok row_of n (concat (sm_compose_order m)) ->
  exists ssm trans' hs seeds ssm',
    scatter (fwd_h toks cu idx (replicate n st_zero)) (sm_trans_persist m) ssm0 = Ret ssm /\
    scatter (fwd_h_zero_u toks cu idx (replicate n tr_one)) (sm_trans_persist m) trans = Ret trans' /\
    ofold (steps_req row_of (fun x => slot_pair trans' ssm x.1)) ([], replicate n st_zero) (sm_compose_order m) = Ret (hs, seeds) /\
    index_puts ssm (zip (sm_req_dst m) hs) = Ret ssm' /\
    (forall k o d, sm_compose_order m !! k = Some o -> sm_req_dst m !! k = Some d ->
       ssm' !! Z.to_nat d = Some (run (concat (tk <$> o)) st_zero) /\ seeded row_of tk st_zero o seeds) /\
    (forall j, (j < n)%nat -> Z.of_nat j ∉ omap row_of (concat (sm_compose_order m)) -> seeds !! j = Some st_zero) /\
    (forall row slot, (row, slot) ∈ sm_trans_persist m ->
       holds ssm' trans' slot (row_toks toks cu (Z.to_nat row))).
Proof.
  intros Hm Hs Hlen Hhit n cu idx tk Hrow.
  destruct Hs as [Hn Hlt Hdn Hdlt Hdp Hh]. destruct Hm as [_ Hidx Hdl Hol Hrows Hcomp Hpers _].
  pose proof (fun row slot Hin => pass_rows toks m slot row Hidx Hrows Hin) as Hpass. cbv zeta in Hpass.
  fold n cu idx in Hpass.
  assert (Hrng : forall (A : Type) (src buf : list A), length src = n -> length buf = length ssm0 ->
    Forall (fun p : Z * Z => 0 <= p.1 < len src /\ 0 <= p.2 < len buf) (sm_trans_persist m)).
  { intros A src buf El Eb. apply Forall_forall. intros [r d] Hin. cbn.
    destruct (Hpass _ _ Hin) as [? _]. rewrite Forall_forall in Hlt.
    assert (0 <= d < Z.of_nat (length ssm0)) by (apply Hlt, list_elem_of_fmap; by exists (r, d)).
    unfold len. lia. }
  destruct (scatter_spec (fwd_h toks cu idx (replicate n st_zero)) ssm0 (sm_trans_persist m))
    as (ssm & E1 & L1 & W1 & F1); [done|by apply Hrng; rewrite ?fwd_h_length, ?length_replicate|].
  destruct (scatter_spec (fwd_h_zero_u toks cu idx (replicate n tr_one)) trans (sm_trans_persist m))
    as (trans' & E2 & L2 & W2 & F2); [done|by apply Hrng; rewrite ?fwd_h_zero_u_length, ?length_replicate|].
  assert (Hheld : forall row slot, (row, slot) ∈ sm_trans_persist m ->
    holds ssm trans' slot (row_toks toks cu (Z.to_nat row))).
  { intros row slot Hin. destruct (Hpass _ _ Hin) as (_ & P1 & P2). split.
    - rewrite Forall_forall in Hlt. apply (Hlt slot), list_elem_of_fmap. by exists (row, slot).
    - by rewrite (W1 _ _ Hin), (W2 _ _ Hin). }
  assert (Hpool : pool_ok (fun x => slot_pair trans' ssm x.1) tk (concat (sm_compose_order m))).
  { apply Forall_forall. intros [slot [row|]] Hin; apply slot_pair_holds; [by apply Hheld, Hpers|].
    destruct (Hhit _ Hin) as (Hs0 & P1 & P2). split; [done|].
    cbn. rewrite F1, F2 by (done || by apply Hh). done. }
  destruct (steps_all_spec row_of (fun x => slot_pair trans' ssm x.1) tk (sm_compose_order m) []
    (replicate n st_zero)) as (seeds & E3 & _ & Hseed & Huns); [done|by rewrite length_replicate|].
  rewrite app_nil_l in E3. set (hs := (fun o => run (concat (tk <$> o)) st_zero) <$> sm_compose_order m) in *.
  assert (Hfst : (zip (sm_req_dst m) hs).*1 = sm_req_dst m)
    by (apply fst_zip; unfold hs; rewrite length_fmap; lia).
  destruct (index_puts_spec ssm (zip (sm_req_dst m) hs)) as (ssm' & E4 & _ & W4 & F4); [by rewrite Hfst| |].
  { apply Forall_forall. intros [d h] Hin%elem_of_zip_l. rewrite Forall_forall in Hdlt.
    specialize (Hdlt d Hin). unfold len. cbn. lia. }
  exists ssm, trans', hs, seeds, ssm'. do 4 (split; [done|]). split; [|split].
  - intros k o d Eo Ed. split; [|rewrite Forall_forall in Hseed; by eapply Hseed, list_elem_of_lookup_2].
    apply W4, list_elem_of_lookup. exists k. rewrite lookup_zip_with, Ed. unfold hs.
    by rewrite list_lookup_fmap, Eo.
  - intros j Hj Hnj. rewrite Huns by done. by apply lookup_replicate_2.
  - intros row slot Hin. destruct (Hheld _ _ Hin) as (Hs0 & P1 & P2).
    split; [done|]. split; [|done]. rewrite F4; [done|done|]. rewrite Hfst. intros Hd.
    apply (Hdp _ Hd), list_elem_of_fmap. by exists (row, slot).
Qed.

(** Every computed row occurs once in the compose orders. *)
Lemma computed_rows_ok b m : metadata_ok b m ->
  rows_ok snd (Z.to_nat (sm_num_segments m)) (concat (sm_compose_order m)).
Proof.
  intros Hm. split; rewrite (mo_computed _ _ Hm); [apply NoDup_seqZ|].
  apply Forall_forall. intros r Hr%elem_of_pyrange. lia.
Qed.

Lemma transition_forward_spec b m mixed ab s s1 toks trans content :
  metadata_ok b m -> slots_ok m (length (lc_temporal s)) ->
  lc_transition s = Some trans -> length trans = length (lc_temporal s) ->
  seg_conv_stage (Tok := Tok) (Out := Out) zero m mixed ab s = (Ret toks, s1) ->
  (forall slot, (slot, None) ∈ concat (sm_compose_order m) -> holds (lc_temporal s) trans slot (content slot)) ->
  let tk := seg_toks content toks (sm_cu_seqlens m) in
  exists s2 seeds,
    forward_extend_pic_transition zero m mixed ab s =
      (Ret (fwd_o toks (sm_cu_seqlens m) (sm_seg_indices m) seeds), s2) /\
    (forall k o d, sm_compose_order m !! k = Some o -> sm_req_dst m !! k = Some d ->
       lc_temporal s2 !! Z.to_nat d = Some (run (concat (tk <$> o)) st_zero) /\
       seeded snd tk st_zero o seeds) /\
    (forall row slot, (row, slot) ∈ sm_trans_persist m ->
       delta_pool s2 slot (row_toks toks (sm_cu_seqlens m) (Z.to_nat row))).
Proof.
  intros Hm Hs Etr Hlen Econv Hhit tk.
  destruct (conv_stage_frame _ _ _ _ _ _ _ _ _ _ _ _ Econv) as [Et1 Etr1].
  destruct (transition_core b m snd (lc_temporal s) trans toks content)
    as (ssm & trans' & hs & seeds & ssm' & E1 & E2 & E3 & E4 & Hreq & _ & Hpers); try done.
  { by eapply computed_rows_ok. }
  rewrite <- (ofold_ext _ _ _ _ (compose_req_steps trans' ssm)) in E3.
  exists (set_lc_temporal ssm' (set_lc_transition (Some trans') (set_lc_temporal ssm s1))), seeds.
  split; [|split; [done|]].
  - unfold forward_extend_pic_transition. munfold. rewrite Etr, Econv.
    rewrite Et1, E1. cbn beta iota. rewrite E2, E3. cbn [fst snd]. by rewrite E4.
  - intros row slot Hin. exists trans'. split; [done|]. by apply Hpers.
Qed.

(** C2. In transition mode a prefill layer computes, for every request of the
    batch, the state that the plain recurrence [h := h @ T_t + S_t] reaches
    over all tokens of the request: its segments, cached ones read back from
    the pool and computed ones from the batch, taken by increasing start.
    Every computed row is re-run from the state of the recurrence before it,
    and the pool then holds the transition and increment of every persisted
    row, so that later requests can reuse it at any position. *)
Theorem transition_forward_correct b m mixed ab s s1 toks trans content :
  0 <= pb_batch_size b -> init_pic_metadata false b = Ret m ->
  slots_ok m (length (lc_temporal s)) ->
  lc_transition s = Some trans -> length trans = length (lc_temporal s) ->
  seg_conv_stage (Tok := Tok) (Out := Out) zero m mixed ab s = (Ret toks, s1) ->
  (forall slot, (slot, None) ∈ concat (sm_compose_order m) -> holds (lc_temporal s) trans slot (content slot)) ->
  let tk := seg_toks content toks (sm_cu_seqlens m) in
  exists s2 seeds,
    forward_extend_pic_transition zero m mixed ab s =
      (Ret (fwd_o toks (sm_cu_seqlens m) (sm_seg_indices m) seeds), s2) /\
    (forall k d, sm_req_dst m !! k = Some d -> exists hs hd md order,
       req_data b (Z.of_nat k) hs hd md /\
       StronglySorted (fun x y => x.1 <= y.1) order /\
       order ≡ₚ (hit_entry hd <$> hs) ++
         (computed_entry md (row_base b k) <$> enumerate (req_misses b (Z.of_nat k))) /\
       lc_temporal s2 !! Z.to_nat d = Some (run (concat (tk <$> order.*2)) st_zero) /\
       seeded snd tk st_zero order.*2 seeds) /\
    (forall row slot, (row, slot) ∈ sm_trans_persist m ->
       delta_pool s2 slot (row_toks toks (sm_cu_seqlens m) (Z.to_nat row))).
Proof.
  intros Hb Hinit Hs Etr Hlen Econv Hhit tk.
  pose proof (init_pic_metadata_ok _ _ Hb Hinit) as Hm.
  destruct (transition_forward_spec b m mixed ab s s1 toks trans content) as (s2 & seeds & E & Hreq & Hp); try done.
  exists s2, seeds. split; [done|]. split; [|done]. intros k d Ed.
  destruct (mo_req _ _ Hm k) as (hs & hd & md & order & Hd & Eo & HS & HP & _).
  { apply lookup_lt_Some in Ed. rewrite (mo_dst _ _ Hm) in Ed. done. }
  exists hs, hd, md, order. destruct (Hreq k _ _ Eo Ed). done.
Qed.

End facts.

(** ** An instance

    States are row vectors of two integers, transitions 2x2 matrices, a
    token is its pair, the attention output the seeds it was given. *)

Module Mat2.

Definition St : Type := Z * Z.
Definition Tr : Type := St * St.
Definition Tok : Type := Tr * St.

Definition add (a b : St) : St := (a.1 + b.1, a.2 + b.2).
Definition act (a : St) (T : Tr) : St :=
  (a.1 * T.1.1 + a.2 * T.2.1, a.1 * T.1.2 + a.2 * T.2.2).
Definition mul (T U : Tr) : Tr := (act T.1 U, act T.2 U).

#[global] Instance alg : DeltaAlg St Tr := {|
  st_zero := (0, 0); st_add := add; tr_one := ((1, 0), (0, 1)); tr_mul := mul; bmm := act |}.

#[global] Instance alg_laws : DeltaAlgLaws St Tr.
Proof.
  split; cbn; unfold add, act, mul; intros;
    repeat match goal with x : St |- _ => destruct x | x : Tr |- _ => destruct x as [[] []] end;
    cbn; f_equal; ring.
Qed.

Definition kernel_rows {A} (step : A -> Tok -> A) (toks : list Tok) (cu idx : list Z) (buf : list A) : list A :=
  imap (fun j h => match list_find (fun x => x = Z.of_nat j) idx with
                   | Some (i, _) => foldl step h (row_toks toks cu i)
                   | None => h
                   end) buf.

Definition tok_of_row (r : list Z) : Tok :=
  let x i := default 0 (r !! i) in (((x 0%nat, x 1%nat), (x 2%nat, x 3%nat)), (x 4%nat, x 5%nat)).

#[global] Instance kernel : DeltaKernel Tok St Tr (list Z) unit (list St) := {|
  tok_T := fst; tok_S := snd;
  causal_conv1d_fn mixed conv _ _ _ := (mixed, conv);
  project mixed _ _ := tok_of_row <$> mixed;
  fwd_h := kernel_rows (fun h t => add (act h t.1) t.2);
  fwd_h_zero_u := kernel_rows (fun T t => mul T t.1);
  fwd_o _ _ _ seeds := seeds; out_empty := [] |}.

Lemma kernel_rows_row {A} (step : A -> Tok -> A) toks cu idx buf i j h :
  NoDup idx -> idx !! i = Some (Z.of_nat j) -> buf !! j = Some h ->
  kernel_rows step toks cu idx buf !! j = Some (foldl step h (row_toks toks cu i)).
Proof.
  intros Hn Hi Hj. unfold kernel_rows. rewrite list_lookup_imap, Hj. cbn.
  assert (list_find (fun x => x = Z.of_nat j) idx = Some (i, Z.of_nat j)) as ->; [|done].
  apply list_find_Some. split; [done|]. split; [done|]. intros k y Hk ? ->.
  pose proof (NoDup_lookup _ _ _ _ Hn Hi Hk). lia.
Qed.

#[global] Instance kernel_spec : DeltaKernelSpec (V := Z) (Tok := Tok) (AB := unit) (Out := list St).
Proof.
  split; intros; try (apply length_imap); by apply kernel_rows_row.
Qed.

(** One request: tokens [0, 2) cached in slot 1, tokens [2, 4) computed and
    persisted in slot 2, the request's state in slot 3. *)
Definition batch : PicBatch :=
  mkPicBatch 1 (Some [[(0, 2, [7])]]) (Some [[([7], 1)]]) [[(2, 4)]] (Some [[((2, 4), 2)]]) [3].

Definition cached : list Tok := [(((1, 1), (0, 1)), (2, 0)); (((0, 1), (1, 0)), (1, 5))].
Definition mixed : list (list Z) := [[1; 0; 1; 1; 0; 3]; [2; 1; 0; 1; 4; 0]].

Definition cache : LayerCache (V := Z) (St := St) (Tr := Tr) :=
  mkLayerCache [[]; []; []; []]
    [(0, 0); foldl (fun h t => add (act h t.1) t.2) (0, 0) cached; (0, 0); (0, 0)]
    (Some [((1, 0), (0, 1)); foldl (fun T t => mul T t.1) ((1, 0), (0, 1)) cached;
           ((1, 0), (0, 1)); ((1, 0), (0, 1))])
    None.

End Mat2.

(** The witness runs the layer and compares with the recurrence over the
    four tokens. *)
Lemma transition_forward_correct_witness :
  exists m s2 (out : list Mat2.St),
    init_pic_metadata false Mat2.batch = Ret m /\
    forward_extend_pic_transition (Tok := Mat2.Tok) (Tr := Mat2.Tr) 0 m Mat2.mixed tt Mat2.cache = (Ret out, s2) /\
    lc_temporal s2 !! 3%nat =
      Some (run (V := Z) (Tok := Mat2.Tok) (St := Mat2.St) (Tr := Mat2.Tr) (AB := unit) (Out := list Mat2.St)
              (Mat2.cached ++ (Mat2.tok_of_row <$> Mat2.mixed)) st_zero).
Proof.
  assert (Hinit : exists m, init_pic_metadata false Mat2.batch = Ret m) by (eexists; vm_compute; reflexivity).
  destruct Hinit as [m Hinit]. vm_compute in Hinit. injection Hinit as <-.
  destruct (transition_forward_correct (V := Z) (Tok := Mat2.Tok) (St := Mat2.St) (Tr := Mat2.Tr) (Out := list Mat2.St) 0 Mat2.batch _ Mat2.mixed tt Mat2.cache Mat2.cache
    (Mat2.tok_of_row <$> Mat2.mixed) (default [] (lc_transition Mat2.cache)) (fun _ => Mat2.cached)
    ltac:(vm_compute; discriminate) eq_refl) as (s2 & seeds & E & Hreq & _).
  - split; vm_compute.
    + repeat constructor; set_solver.
    + repeat constructor; discriminate.
    + repeat constructor; set_solver.
    + repeat constructor; discriminate.
    + intros d Hd. set_solver.
    + intros d Hd. set_solver.
  - reflexivity.
  - reflexivity.
  - reflexivity.
  - intros slot Hin. vm_compute in Hin.
    assert (slot = 1) as -> by set_solver. split; [lia|]. split; reflexivity.
  - eexists _, s2, seeds. split; [reflexivity|]. split; [exact E|].
    revert E. vm_compute. intros [= <- <-]. reflexivity.
Defined.
