(* ===== verification/GdnRecompute.v ===== *)
(** * The recompute mode of the linear-attention layers

    [_build_pic_recompute_metadata] and
    [forward_extend_pic_transition_recompute] of
    srt/layers/attention/linear/gdn_backend.py.  A request's segments are
    walked in position order; a miss segment contributes all of its tokens
    to the batch, a cached one only its sink.  The rows of the convolution
    ("phys_seg") end where a segment's tokens end, the rows of the
    recurrence ("compute") are the sinks and the computed segments. *)

From S2P Require Import Prelude PyDict ConvTails GdnMeta GdnForward.

Inductive EntryKind := ESys | EQuery | EMidHit | EMidMiss.

(** A segment's step of the compose plan. *)
Record Entry := mkEntry {
  en_kind : EntryKind;
  en_slot : Z;
  en_sink_row : option Z;
  en_interior_row : option Z;
  en_use_pool : bool;
}.

(** [(s, e, kind)]: a cached segment carries its hash. *)
Notation MSeg := (Z * Z * option (list Z))%type (only parsing).

Definition merged_segs (hit_segs : list (Z * Z * list Z)) (miss_segs : list (Z * Z)) : list MSeg :=
  sort_key (fun x : MSeg => x.1.1)
    (((fun '(s, e, h) => (s, e, Some h)) <$> hit_segs) ++ ((fun '(s, e) => (s, e, None)) <$> miss_segs)).

(** The tokens of a request in the batch, by position. *)
Definition batch_positions (miss_segs : list (Z * Z)) (hit_seam : list (Z * Z * list Z)) : list Z :=
  sort_Z (concat ((fun '(s, e) => pyrange s e) <$> miss_segs) ++ concat hit_seam.*2).

(** ** Walking a request *)

Record RPlan := mkRPlan {
  rp_phys_lengths : list Z;
  rp_phys_conv_slots : list Z;
  rp_phys_prev_slots : list Z;
  rp_phys_persist : list (Z * Z);
  rp_phys_end_offset : list Z;
  rp_compute_lengths : list Z;
  rp_compute_indices : list Z;
  rp_compute_persist : list (Z * Z);
  rp_entries : list Entry;           (* of the current request *)
  rp_phys_start : Z;
  rp_phys_prev : Z;
  rp_tok_cursor : Z;
}.

(** Append a compute row, persisted when a slot is given. *)
Definition add_row (l : Z) (persist : option Z) (p : RPlan) : Z * RPlan :=
  let row := len (rp_compute_lengths p) in
  (row, mkRPlan (rp_phys_lengths p) (rp_phys_conv_slots p) (rp_phys_prev_slots p) (rp_phys_persist p)
    (rp_phys_end_offset p) (rp_compute_lengths p ++ [l]) (rp_compute_indices p ++ [row])
    (match persist with
     | Some slot => rp_compute_persist p ++ [(row, slot)]
     | None => rp_compute_persist p
     end) (rp_entries p) (rp_phys_start p) (rp_phys_prev p) (rp_tok_cursor p)).

Definition add_entry (en : Entry) (p : RPlan) : RPlan :=
  mkRPlan (rp_phys_lengths p) (rp_phys_conv_slots p) (rp_phys_prev_slots p) (rp_phys_persist p)
    (rp_phys_end_offset p) (rp_compute_lengths p) (rp_compute_indices p) (rp_compute_persist p)
    (rp_entries p ++ [en]) (rp_phys_start p) (rp_phys_prev p) (rp_tok_cursor p).

Definition set_tok_cursor (v : Z) (p : RPlan) : RPlan :=
  mkRPlan (rp_phys_lengths p) (rp_phys_conv_slots p) (rp_phys_prev_slots p) (rp_phys_persist p)
    (rp_phys_end_offset p) (rp_compute_lengths p) (rp_compute_indices p) (rp_compute_persist p)
    (rp_entries p) (rp_phys_start p) (rp_phys_prev p) v.

(** Close the convolution row at [close_at]; an empty one only passes its
    slot on. *)
Definition close_phys (close_at slot : Z) (persist : option Z) (p : RPlan) : RPlan :=
  let phys_seg_len := close_at - rp_phys_start p in
  if 0 <? phys_seg_len then
    let phys_idx := len (rp_phys_lengths p) in
    mkRPlan (rp_phys_lengths p ++ [phys_seg_len]) (rp_phys_conv_slots p ++ [slot])
      (rp_phys_prev_slots p ++ [rp_phys_prev p])
      (match persist with
       | Some d => rp_phys_persist p ++ [(phys_idx, d)]
       | None => rp_phys_persist p
       end)
      (match persist with
       | Some _ => rp_phys_end_offset p ++ [0]
       | None => rp_phys_end_offset p
       end)
      (rp_compute_lengths p) (rp_compute_indices p) (rp_compute_persist p) (rp_entries p)
      close_at slot (rp_tok_cursor p)
  else
    mkRPlan (rp_phys_lengths p) (rp_phys_conv_slots p) (rp_phys_prev_slots p) (rp_phys_persist p)
      (rp_phys_end_offset p) (rp_compute_lengths p) (rp_compute_indices p) (rp_compute_persist p)
      (rp_entries p) (rp_phys_start p) slot (rp_tok_cursor p).

Definition is_hit (kind : option (list Z)) : bool := match kind with Some _ => true | None => false end.

(** [x_sink_eff]: only a cached segment in the middle has a sink. *)
Definition sink_len (hit_seam : list (Z * Z * list Z)) (is_first is_last : bool) (s e : Z)
    (kind : option (list Z)) : Z :=
  if is_first || is_last then 0
  else match kind, dict_get (s, e) hit_seam with
       | Some _, Some sink_pos => len sink_pos
       | _, _ => 0
       end.

(** The compute rows of a segment and its entry's row fields. *)
Definition segment_rows (miss_slots : list (Z * Z * Z)) (is_first is_last : bool) (s e : Z)
    (kind : option (list Z)) (x_sink_eff in_batch_interior_len in_batch_len : Z) (p : RPlan)
    : EntryKind * option Z * option Z * RPlan :=
  let persist_slot := if is_hit kind then None else dict_get (s, e) miss_slots in
  if is_first then
    if 0 <? in_batch_len then
      let '(row, p') := add_row in_batch_len (if is_last then None else persist_slot) p in
      (ESys, None, Some row, p')
    else (ESys, None, None, p)
  else if is_last then
    if 0 <? e - s then
      let '(row, p') := add_row (e - s) None p in (EQuery, None, Some row, p')
    else (EQuery, None, None, p)
  else
    let '(sink_row, p1) :=
      if 0 <? x_sink_eff then let '(row, p') := add_row x_sink_eff None p in (Some row, p')
      else (None, p) in
    let '(interior_row, p2) :=
      if 0 <? in_batch_interior_len then
        let '(row, p') := add_row in_batch_interior_len persist_slot p1 in (Some row, p')
      else (None, p1) in
    (if is_hit kind then EMidHit else EMidMiss, sink_row, interior_row, p2).

Definition plan_segment (hit_slots : list (list Z * Z)) (miss_slots : list (Z * Z * Z))
    (hit_seam : list (Z * Z * list Z)) (req_dst_slot n_segs : Z) (p : RPlan) (x : Z * MSeg)
    : outcome RPlan :=
  let '(i, (s, e, kind)) := x in
  let seg_len := e - s in
  let is_first := i =? 0 in
  let is_last := i =? n_segs - 1 in
  let x_sink_eff := sink_len hit_seam is_first is_last s e kind in
  let interior_len := seg_len - x_sink_eff in
  obind (match kind with
         | Some h => or_raise KeyError (dict_get h hit_slots)
         | None => Ret (if is_last then req_dst_slot
                        else default req_dst_slot (dict_get (s, e) miss_slots))
         end) (fun seg_mamba_slot =>
  let in_batch_interior_len := if is_hit kind then 0 else interior_len in
  let in_batch_len := if is_hit kind then x_sink_eff else seg_len in
  let interior_end_b := rp_tok_cursor p + x_sink_eff + in_batch_interior_len in
  let seg_end_b := interior_end_b in
  let '(entry_kind, sink_row, interior_row, p1) :=
    segment_rows miss_slots is_first is_last s e kind x_sink_eff in_batch_interior_len in_batch_len
      (set_tok_cursor seg_end_b p) in
  let p2 := add_entry (mkEntry entry_kind seg_mamba_slot sink_row interior_row
                         (is_hit kind && (0 <? interior_len))) p1 in
  let close_at := if is_first || is_last then seg_end_b
                  else if is_hit kind && (interior_len =? 0) then seg_end_b
                  else interior_end_b in
  let persist_slot := if is_last then None
                      else if is_hit kind then None else dict_get (s, e) miss_slots in
  Ret (close_phys close_at seg_mamba_slot persist_slot p2)).

(** ** Walking the batch *)

(** [hit_seam] of each request, from [pic_rope_meta]; [None] where the
    request has no seam. *)
Definition req_seam (rope_meta : option (list (option (list (Z * Z * list Z))))) (req_idx : Z)
    : outcome (list (Z * Z * list Z)) :=
  obind (batch_get None rope_meta req_idx) (fun o => Ret (default [] o)).

Record RBatch := mkRBatch {
  rb_batch : PicBatch;
  rb_rope_meta : option (list (option (list (Z * Z * list Z))));
}.

(** The token offset of each request in the batch. *)
Definition req_offsets (b : RBatch) : outcome (list Z) :=
  obind (ofold (fun '(offs, running) req_idx =>
    obind (batch_get [] (Some (pb_miss_segments (rb_batch b))) req_idx) (fun miss_segs =>
    obind (req_seam (rb_rope_meta b) req_idx) (fun hit_seam =>
    Ret (offs ++ [running], running + len (batch_positions miss_segs hit_seam)))))
    ([], 0) (pyrange 0 (pb_batch_size (rb_batch b)))) (fun r => Ret r.1).

Definition plan_request (b : RBatch) (offs : list Z) (acc : RPlan * list (list Entry * Z)) (req_idx : Z)
    : outcome (RPlan * list (list Entry * Z)) :=
  let '(p, plans) := acc in
  obind (batch_get [] (pb_hit_segments (rb_batch b)) req_idx) (fun hit_segs =>
  obind (batch_get [] (Some (pb_miss_segments (rb_batch b))) req_idx) (fun miss_segs =>
  obind (batch_get [] (pb_hit_mamba_slots (rb_batch b)) req_idx) (fun hit_slots =>
  obind (batch_get [] (pb_miss_mamba_slots (rb_batch b)) req_idx) (fun miss_slots =>
  obind (or_raise IndexError (pyget (pb_req_cache_indices (rb_batch b)) req_idx)) (fun req_dst_slot =>
  obind (req_seam (rb_rope_meta b) req_idx) (fun hit_seam =>
  obind (or_raise IndexError (pyget offs req_idx)) (fun off =>
  let segs := merged_segs hit_segs miss_segs in
  let p0 := mkRPlan (rp_phys_lengths p) (rp_phys_conv_slots p) (rp_phys_prev_slots p) (rp_phys_persist p)
              (rp_phys_end_offset p) (rp_compute_lengths p) (rp_compute_indices p) (rp_compute_persist p)
              [] off (-1) off in
  obind (ofold (plan_segment hit_slots miss_slots hit_seam req_dst_slot (len segs)) p0 (enumerate segs))
    (fun p' => Ret (p', plans ++ [(rp_entries p', req_dst_slot)]))))))))).

Record RMeta := mkRMeta {
  rm_req_dst : list Z;
  rm_C : Z;
  rm_plan : list (list Entry * Z);
  rm_phys_cu : list Z;
  rm_phys_conv : list Z;
  rm_phys_prev : list Z;
  rm_phys_has : list bool;
  rm_phys_persist : list (Z * Z);
  rm_phys_end_offset : list Z;
  rm_compute_cu : list Z;
  rm_compute_indices : list Z;
  rm_compute_persist : list (Z * Z);
}.

Definition build_pic_recompute_metadata (b : RBatch) : outcome RMeta :=
  obind (req_offsets b) (fun offs =>
  obind (ofold (plan_request b offs) (mkRPlan [] [] [] [] [] [] [] [] [] 0 (-1) 0, [])
           (pyrange 0 (pb_batch_size (rb_batch b)))) (fun '(p, plans) =>
  Ret (mkRMeta (slice_to (pb_req_cache_indices (rb_batch b)) (pb_batch_size (rb_batch b)))
    (len (rp_compute_lengths p)) plans
    (cu_seqlens (rp_phys_lengths p)) (rp_phys_conv_slots p) (rp_phys_prev_slots p)
    ((fun s => 0 <=? s) <$> rp_phys_prev_slots p) (rp_phys_persist p) (rp_phys_end_offset p)
    (cu_seqlens (rp_compute_lengths p)) (rp_compute_indices p) (rp_compute_persist p)))).

(** ** The layer *)

Section forward.
Context {V Tok St Tr AB Out : Type} (zero : V).
Context `{DeltaAlg St Tr} `{DeltaKernel Tok St Tr (list V) AB Out}.

Section compose.
Context (temp_transitions transition_pool : list Tr) (temp_states ssm : list St).

Definition advance_batch (acc : St * list St) (row : Z) : outcome (St * list St) :=
  let '(h, kernel_h0) := acc in
  obind (index_put kernel_h0 row h) (fun kernel_h0' =>
  obind (tensor_get temp_transitions row) (fun T =>
  obind (tensor_get temp_states row) (fun S_ => Ret (st_add (bmm h T) S_, kernel_h0')))).

Definition advance_pool (acc : St * list St) (slot : Z) : outcome (St * list St) :=
  let '(h, kernel_h0) := acc in
  obind (tensor_get transition_pool slot) (fun T =>
  obind (tensor_get ssm slot) (fun S_ => Ret (st_add (bmm h T) S_, kernel_h0))).

Definition advance_row (acc : St * list St) (row : option Z) : outcome (St * list St) :=
  match row with Some r => advance_batch acc r | None => Ret acc end.

Definition entry_step (acc : St * list St) (en : Entry) : outcome (St * list St) :=
  match en_kind en with
  | ESys => if en_use_pool en then advance_pool acc (en_slot en) else advance_row acc (en_interior_row en)
  | EQuery => advance_row acc (en_interior_row en)
  | EMidHit | EMidMiss =>
      obind (advance_row acc (en_sink_row en)) (fun acc' =>
        if en_use_pool en then advance_pool acc' (en_slot en) else advance_row acc' (en_interior_row en))
  end.

Definition compose_plan_req (acc : list St * list St) (plan : list Entry * Z) : outcome (list St * list St) :=
  let '(h_accum_buf, kernel_h0) := acc in
  obind (ofold entry_step (st_zero, kernel_h0) plan.1) (fun '(h, kernel_h0') =>
  Ret (h_accum_buf ++ [h], kernel_h0')).

End compose.

(** Persist the rows' pairs, unless the batch has no row. *)
Definition persist_rows (m : RMeta) (temp_states : list St) (temp_transitions transition_pool : list Tr)
    : M (LayerCache (V := V) (St := St) (Tr := Tr)) (list St * list Tr) :=
  s ← get;
  if 0 <? rm_C m then
    ssm ← of_outcome (scatter temp_states (rm_compute_persist m) (lc_temporal s));
    modify (set_lc_temporal ssm);;
    pool ← of_outcome (scatter temp_transitions (rm_compute_persist m) transition_pool);
    modify (set_lc_transition (Some pool));;
    mret (ssm, pool)
  else mret (lc_temporal s, transition_pool).

Definition forward_extend_pic_transition_recompute (m : RMeta) (mixed_qkv : list (list V)) (ab : AB)
    : M (LayerCache (V := V) (St := St) (Tr := Tr)) Out :=
  s ← get;
  transition_pool ← of_option AssertionError (lc_transition s);
  toks ← conv_stage zero (rm_phys_cu m) (rm_phys_persist m) (Some (rm_phys_end_offset m))
           (rm_phys_conv m) (rm_phys_prev m) (rm_phys_has m) (rm_compute_cu m) mixed_qkv ab;
  let cu := rm_compute_cu m in
  let idx := rm_compute_indices m in
  let n := Z.to_nat (Z.max (rm_C m) 1) in
  let temp_states := fwd_h toks cu idx (replicate n st_zero) in
  let temp_transitions := fwd_h_zero_u toks cu idx (replicate n tr_one) in
  pools ← persist_rows m temp_states temp_transitions transition_pool;
  let '(ssm, pool) := pools in
  composed ← of_outcome (ofold (compose_plan_req temp_transitions pool temp_states ssm)
               ([], replicate n st_zero) (rm_plan m));
  ssm' ← of_outcome (index_puts ssm (zip (rm_req_dst m) composed.1));
  modify (set_lc_temporal ssm');;
  mret (if 0 <? rm_C m then fwd_o toks cu idx composed.2 else out_empty).

End forward.
