(* ===== verification/GdnRecomputeFacts.v ===== *)
(** * Recompute mode: what the layer computes

    Every compute row is one step of one request's plan, in order; the
    composed state of a request is the recurrence over the tokens of its
    steps, and each row starts from the state before it.  A cached segment
    with a sink has two steps over the sink's tokens. *)

From S2P Require Import Prelude PyDict ConvTails ConvTailsFacts GdnMeta GdnMetaFacts GdnForward GdnFacts GdnRecompute.

(** ** Steps of a plan *)

(** [inl row]: through a row of the batch; [inr slot]: through the pool. *)
Definition opt_row (r : option Z) : list (Z + Z) := match r with Some r => [inl r] | None => [] end.

Definition stages (en : Entry) : list (Z + Z) :=
  let main := if en_use_pool en then [inr (en_slot en)] else opt_row (en_interior_row en) in
  match en_kind en with
  | ESys => main
  | EQuery => opt_row (en_interior_row en)
  | EMidHit | EMidMiss => opt_row (en_sink_row en) ++ main
  end.

Definition stage_row (x : Z + Z) : option Z := match x with inl r => Some r | inr _ => None end.
Definition stage_rows (l : list (Z + Z)) : list Z := omap stage_row l.

(** ** Compute rows *)

Definition entries_rows (ens : list Entry) : list Z := stage_rows (concat (stages <$> ens)).

Lemma stage_rows_app l k : stage_rows (l ++ k) = stage_rows l ++ stage_rows k.
Proof. apply omap_app. Qed.

Lemma entries_rows_app a b : entries_rows (a ++ b) = entries_rows a ++ entries_rows b.
Proof. unfold entries_rows. by rewrite fmap_app, concat_app, stage_rows_app. Qed.

Lemma entries_rows_single en : entries_rows [en] = stage_rows (stages en).
Proof. unfold entries_rows. cbn. by rewrite app_nil_r. Qed.

(** [rows] are the rows handed out so far. *)
Record RowsInv (rows : list Z) (p : RPlan) : Prop := {
  rw_rows : rows = pyrange 0 (len (rp_compute_lengths p));
  rw_indices : rp_compute_indices p = pyrange 0 (len (rp_compute_lengths p));
  rw_persist : Forall (fun x => 0 <= x.1 < len (rp_compute_lengths p)) (rp_compute_persist p);
}.

Lemma add_row_inv rows l persist p row p' :
  RowsInv rows p -> add_row l persist p = (row, p') ->
  RowsInv (rows ++ [row]) p' /\ rp_entries p' = rp_entries p.
Proof.
  intros [Hr Hi Hp] [= <- <-]. pose proof (len_nonneg (rp_compute_lengths p)).
  split; [|done]. split; cbn; rewrite len_app; cbn.
  - change (len [l]) with 1. by rewrite pyrange_snoc, Hr.
  - change (len [l]) with 1. by rewrite pyrange_snoc, Hi.
  - change (len [l]) with 1.
    assert (HF : Forall (fun x : Z * Z => 0 <= x.1 < len (rp_compute_lengths p) + 1) (rp_compute_persist p))
      by (eapply Forall_impl; [exact Hp|]; cbn; lia).
    destruct persist; [|done]. apply Forall_app. split; [done|]. repeat constructor; cbn; lia.
Qed.

Lemma segment_rows_inv rows md f l s e kind xs ibi ib p ek sr ir p' :
  RowsInv rows p ->
  segment_rows md f l s e kind xs ibi ib p = (ek, sr, ir, p') ->
  (is_hit kind = true -> ibi = 0) -> (is_hit kind = true -> f = true -> ib = 0) ->
  rp_entries p' = rp_entries p /\
  forall slot il, RowsInv (rows ++ stage_rows (stages (mkEntry ek slot sr ir (is_hit kind && il)))) p'.
Proof.
  intros HI E H1 H2. unfold segment_rows in E. destruct f.
  - destruct (Z.ltb_spec 0 ib).
    + destruct (add_row ib _ p) as [row p1] eqn:Er. injection E as <- <- <- <-.
      apply add_row_inv with (rows := rows) in Er as [Hr He]; [|done]. split; [done|].
      intros slot il. destruct (is_hit kind) eqn:Ek; [specialize (H2 eq_refl eq_refl); lia|]. done.
    + injection E as <- <- <- <-. split; [done|]. intros slot il. cbn.
      destruct (_ && _); cbn; by rewrite app_nil_r.
  - destruct l.
    + destruct (Z.ltb_spec 0 (e - s)).
      * destruct (add_row (e - s) _ p) as [row p1] eqn:Er. injection E as <- <- <- <-.
        apply add_row_inv with (rows := rows) in Er as [Hr He]; [|done]. done.
      * injection E as <- <- <- <-. split; [done|]. intros. cbn. by rewrite app_nil_r.
    + assert (exists sr1 p1, (if 0 <? xs then let '(row, p') := add_row xs None p in (Some row, p') else (None, p))
        = (sr1, p1) /\ RowsInv (rows ++ stage_rows (opt_row sr1)) p1 /\ rp_entries p1 = rp_entries p)
        as (sr1 & p1 & Es & HI1 & He1).
      { destruct (0 <? xs); [|exists None, p; cbn; rewrite app_nil_r; done].
        destruct (add_row xs None p) as [row p1] eqn:Er.
        apply add_row_inv with (rows := rows) in Er as [Hr He]; [|done]. by exists (Some row), p1. }
      rewrite Es in E. destruct (Z.ltb_spec 0 ibi).
      * destruct (add_row ibi _ p1) as [row p2] eqn:Er. injection E as <- <- <- <-.
        apply add_row_inv with (rows := rows ++ stage_rows (opt_row sr1)) in Er as [Hr He]; [|done].
        split; [congruence|]. intros slot il.
        destruct (is_hit kind); [specialize (H1 eq_refl); lia|].
        cbn [andb stages en_kind en_use_pool en_interior_row en_sink_row].
        rewrite stage_rows_app, app_assoc. exact Hr.
      * injection E as <- <- <- <-. split; [done|]. intros slot il.
        assert (stage_rows (stages (mkEntry (if is_hit kind then EMidHit else EMidMiss) slot sr1 None
          (is_hit kind && il))) = stage_rows (opt_row sr1)) as ->; [|done].
        unfold stages. destruct (is_hit kind), il; cbn; by rewrite stage_rows_app, app_nil_r.
Qed.

Lemma close_phys_inv rows p close_at slot persist :
  RowsInv rows p ->
  RowsInv rows (close_phys close_at slot persist p) /\
  rp_entries (close_phys close_at slot persist p) = rp_entries p.
Proof. intros []. unfold close_phys. by destruct (0 <? _). Qed.

Lemma plan_segment_inv base hd md seam dst n p x p' :
  RowsInv (base ++ entries_rows (rp_entries p)) p -> plan_segment hd md seam dst n p x = Ret p' ->
  RowsInv (base ++ entries_rows (rp_entries p')) p'.
Proof.
  intros HI E. destruct x as [i [[s e] kind]]. unfold plan_segment in E. ounfold E. clear E0.
  set (f := i =? 0) in *. set (l := i =? n - 1) in *. set (xs := sink_len seam f l s e kind) in *.
  set (c := rp_tok_cursor p + xs + _) in *.
  destruct (segment_rows _ _ _ _ _ _ _ _ _ _) as [[[ek sr] ir] p1] eqn:Es.
  apply segment_rows_inv with (rows := base ++ entries_rows (rp_entries p)) in Es as [He Hr].
  - specialize (Hr a (0 <? e - s - xs)). injection E as <-. set (en := mkEntry _ _ _ _ _) in *.
    assert (HI2 : RowsInv (base ++ entries_rows (rp_entries p ++ [en])) (add_entry en p1)).
    { rewrite entries_rows_app, entries_rows_single, app_assoc. destruct Hr. by split. }
    destruct (close_phys_inv (base ++ entries_rows (rp_entries p ++ [en])) (add_entry en p1)
      (if f || l then c else if is_hit kind && (e - s - xs =? 0) then c else c) a
      (if l then None else if is_hit kind then None else dict_get (s, e) md) HI2) as [H3 ->].
    cbn [add_entry rp_entries]. cbn in He. by rewrite He.
  - destruct HI. by split.
  - by intros ->.
  - intros -> ->. unfold xs, sink_len. done.
Qed.

(** ** The plan of a request *)

(** A row of [l] tokens, absent when [l] is not positive. *)
Definition row_step (lens : list Z) (l : Z) (st : list (Z + Z)) : Prop :=
  (l <= 0 /\ st = []) \/ (exists r, 0 <= r /\ st = [inl r] /\ lens !! Z.to_nat r = Some l).

(** The steps of a segment: a computed one is one row over all of its
    tokens; a cached one is a row over its sink, then its pool entry. *)
Definition seg_steps (hd : list (list Z * Z)) (seam : list (Z * Z * list Z)) (n : Z) (lens : list Z)
    (x : Z * (Z * Z * option (list Z))) (st : list (Z + Z)) : Prop :=
  let '(i, (s, e, kind)) := x in
  match kind with
  | None => row_step lens (e - s) st
  | Some h => i <> n - 1 -> exists slot sink,
      let xs := sink_len seam (i =? 0) (i =? n - 1) s e kind in
      dict_get h hd = Some slot /\ row_step lens xs sink /\
      st = sink ++ (if 0 <? e - s - xs then [inr slot] else [])
  end.

Lemma row_step_prefix lens lens' l st : lens `prefix_of` lens' -> row_step lens l st -> row_step lens' l st.
Proof.
  intros Hp [H|(r & H1 & H2 & H3)]; [by left|right]. exists r. split; [done|]. split; [done|].
  by eapply prefix_lookup_Some.
Qed.

Lemma seg_steps_prefix hd seam n lens lens' x st :
  lens `prefix_of` lens' -> seg_steps hd seam n lens x st -> seg_steps hd seam n lens' x st.
Proof.
  intros Hp. destruct x as [i [[s e] [h|]]]; cbn; [|by apply row_step_prefix].
  intros H Hi. destruct (H Hi) as (slot & sink & H1 & H2 & H3). exists slot, sink.
  split; [done|]. split; [by eapply row_step_prefix|done].
Qed.

Lemma add_row_step l persist p row p' :
  add_row l persist p = (row, p') ->
  rp_compute_lengths p `prefix_of` rp_compute_lengths p' /\ row_step (rp_compute_lengths p') l [inl row].
Proof.
  intros [= <- <-]. cbn. split; [by apply prefix_app_r|]. right. exists (len (rp_compute_lengths p)).
  split; [apply len_nonneg|]. split; [done|]. unfold len. rewrite Nat2Z.id.
  by apply list_lookup_middle.
Qed.

(** The rows a segment adds, and their lengths. *)
Lemma segment_rows_steps md f l s e kind xs p ek sr ir p' slot :
  segment_rows md f l s e kind xs (if is_hit kind then 0 else e - s - xs) (if is_hit kind then xs else e - s) p
    = (ek, sr, ir, p') ->
  (is_hit kind = false -> xs = 0) -> (f = true -> xs = 0) ->
  rp_compute_lengths p `prefix_of` rp_compute_lengths p' /\
  let st := stages (mkEntry ek slot sr ir (is_hit kind && (0 <? e - s - xs))) in
  if is_hit kind then l = false -> exists sink, row_step (rp_compute_lengths p') xs sink /\
                        st = sink ++ (if 0 <? e - s - xs then [inr slot] else [])
  else row_step (rp_compute_lengths p') (e - s) st.
Proof.
  intros E H1 H2. unfold segment_rows in E. destruct (is_hit kind) eqn:Ek; cbn [andb].
  - destruct f; [rewrite (H2 eq_refl) in *; cbn in E; injection E as <- <- <- <-|].
    { split; [done|]. intros _. exists []. split; [by left|]. cbn. by destruct (0 <? _). }
    destruct l; [split; [|done]|].
    { destruct (0 <? e - s); [|injection E as <- <- <- <-; done].
      destruct (add_row _ _ p) as [row p1] eqn:Er. injection E as <- <- <- <-.
      by apply add_row_step in Er as [? _]. }
    change (0 <? 0) with false in E. cbv iota in E. destruct (Z.ltb_spec 0 xs).
    + destruct (add_row xs None p) as [row p1] eqn:Er. injection E as <- <- <- <-.
      apply add_row_step in Er as [Hpre Hrow]. split; [done|]. intros _.
      exists [inl row]. split; [done|]. cbn. by destruct (0 <? _).
    + injection E as <- <- <- <-. split; [done|]. intros _. exists []. split; [by left|].
      cbn. by destruct (0 <? _).
  - rewrite (H1 eq_refl), Z.sub_0_r in E. change (0 <? 0) with false in E. cbv iota in E.
    destruct f; [|destruct l]; destruct (Z.ltb_spec 0 (e - s));
      try (injection E as <- <- <- <-; split; [done|]; by left);
      (destruct (add_row _ _ p) as [row p1] eqn:Er; injection E as <- <- <- <-; by apply add_row_step in Er).
Qed.

Lemma close_phys_fields close_at slot persist p :
  rp_compute_lengths (close_phys close_at slot persist p) = rp_compute_lengths p /\
  rp_entries (close_phys close_at slot persist p) = rp_entries p.
Proof. unfold close_phys. by destruct (0 <? _). Qed.

Lemma plan_segment_steps hd md seam dst n p x p' :
  plan_segment hd md seam dst n p x = Ret p' ->
  rp_compute_lengths p `prefix_of` rp_compute_lengths p' /\
  exists en, rp_entries p' = rp_entries p ++ [en] /\
    seg_steps hd seam n (rp_compute_lengths p') x (stages en).
Proof.
  intros E. destruct x as [i [[s e] kind]]. unfold plan_segment in E. ounfold E.
  set (f := i =? 0) in *. set (l := i =? n - 1) in *. set (xs := sink_len seam f l s e kind) in *.
  set (c := rp_tok_cursor p + xs + _) in *.
  destruct (segment_rows _ _ _ _ _ _ _ _ _ _) as [[[ek sr] ir] p1] eqn:Es. injection E as <-.
  assert (He : rp_entries p1 = rp_entries p).
  { unfold segment_rows, add_row in Es. repeat case_match; simplify_eq; done. }
  apply segment_rows_steps with (slot := a) in Es as [Hpre Hst].
  - set (en := mkEntry _ _ _ _ _) in *. set (q := close_phys _ _ _ _).
    assert (Hq : rp_compute_lengths q = rp_compute_lengths p1 /\ rp_entries q = rp_entries p1 ++ [en])
      by exact (close_phys_fields _ _ _ (add_entry en p1)).
    destruct Hq as [-> ->]. rewrite He. split; [done|]. exists en. split; [done|].
    destruct kind as [h|]; cbn in Hst |- *; [|done]. intros Hi.
    destruct Hst as (sink & H1 & H2); [by apply Z.eqb_neq|].
    exists a, sink. split; [by eapply or_raise_inv|]. done.
  - unfold xs, sink_len. destruct kind; [done|]. by destruct (f || l).
  - intros ->. done.
Qed.

Definition plan_of_req (hd : list (list Z * Z)) (seam : list (Z * Z * list Z)) (segs : list (Z * Z * option (list Z)))
    (lens : list Z) (ens : list Entry) : Prop :=
  Forall2 (seg_steps hd seam (len segs) lens) (enumerate segs) (stages <$> ens).

Lemma plan_segments_steps hd md seam dst n l p p' :
  ofold (plan_segment hd md seam dst n) p l = Ret p' ->
  rp_compute_lengths p `prefix_of` rp_compute_lengths p' /\
  exists ens, rp_entries p' = rp_entries p ++ ens /\
    Forall2 (seg_steps hd seam n (rp_compute_lengths p')) l (stages <$> ens).
Proof.
  revert p. induction l as [|x l IH]; intros p E; cbn [ofold] in E.
  - injection E as <-. split; [done|]. exists []. rewrite app_nil_r. split; [done|constructor].
  - ounfold E. apply plan_segment_steps in E0 as (Hpre & en & He & Hst).
    apply IH in E as (Hpre' & ens & He' & HF). split; [by etransitivity|].
    exists (en :: ens). split; [rewrite He', He, <- app_assoc; done|].
    constructor; [by eapply seg_steps_prefix|done].
Qed.

(** Request [k]'s plan follows its segments, in position order. *)
Definition req_plan (b : RBatch) (k : Z) (lens : list Z) (ens : list Entry) : Prop :=
  exists hs ms hd seam,
    batch_get [] (pb_hit_segments (rb_batch b)) k = Ret hs /\
    batch_get [] (Some (pb_miss_segments (rb_batch b))) k = Ret ms /\
    batch_get [] (pb_hit_mamba_slots (rb_batch b)) k = Ret hd /\
    req_seam (rb_rope_meta b) k = Ret seam /\
    plan_of_req hd seam (merged_segs hs ms) lens ens.

Lemma req_plan_prefix b k lens lens' ens :
  lens `prefix_of` lens' -> req_plan b k lens ens -> req_plan b k lens' ens.
Proof.
  intros Hp (hs & ms & hd & seam & H1 & H2 & H3 & H4 & HF). exists hs, ms, hd, seam.
  do 4 (split; [done|]). eapply Forall2_impl; [exact HF|]. intros. by eapply seg_steps_prefix.
Qed.

Definition plans_rows (plans : list (list Entry * Z)) : list Z :=
  concat ((fun pl => entries_rows pl.1) <$> plans).

Lemma plan_request_inv b offs p plans i p' plans' :
  RowsInv (plans_rows plans) p -> plan_request b offs (p, plans) i = Ret (p', plans') ->
  RowsInv (plans_rows plans') p' /\ rp_compute_lengths p `prefix_of` rp_compute_lengths p' /\
  exists ens dst, plans' = plans ++ [(ens, dst)] /\
    pyget (pb_req_cache_indices (rb_batch b)) i = Some dst /\
    req_plan b i (rp_compute_lengths p') ens.
Proof.
  intros HI E. unfold plan_request in E. do 8 ounfold E. injection E as <- <-.
  split; [|].
  - unfold plans_rows. rewrite fmap_app, concat_app. cbn. rewrite app_nil_r. fold (plans_rows plans).
    apply (ofold_inv (fun _ q => RowsInv (plans_rows plans ++ entries_rows (rp_entries q)) q) _ _ _ _ E7).
    + cbn. rewrite app_nil_r. destruct HI. by split.
    + intros j x q q' _ Hq Eq. by eapply plan_segment_inv.
  - apply plan_segments_steps in E7 as (Hpre & ens & He & HF). split; [done|].
    cbn in He. subst. eexists _, _. split; [done|]. split; [done|].
    exists a, a0, a1, a4. done.
Qed.

Record recompute_ok (b : RBatch) (m : RMeta) (lens : list Z) : Prop := {
  ro_lens : rm_compute_cu m = cu_seqlens lens /\ rm_C m = len lens;
  ro_rows : plans_rows (rm_plan m) = pyrange 0 (rm_C m);
  ro_indices : rm_compute_indices m = pyrange 0 (rm_C m);
  ro_persist : Forall (fun x => 0 <= x.1 < rm_C m) (rm_compute_persist m);
  ro_plans : length (rm_plan m) = Z.to_nat (pb_batch_size (rb_batch b));
  ro_dst : length (rm_req_dst m) = Z.to_nat (pb_batch_size (rb_batch b));
  ro_req : forall k pl, rm_plan m !! k = Some pl -> req_plan b (Z.of_nat k) lens pl.1;
}.

Lemma recompute_metadata_ok b m :
  0 <= pb_batch_size (rb_batch b) -> build_pic_recompute_metadata b = Ret m -> exists lens, recompute_ok b m lens.
Proof.
  intros Hb E. unfold build_pic_recompute_metadata in E. ounfold E. ounfold E.
  destruct a0 as [p plans]. injection E as <-. exists (rp_compute_lengths p).
  set (I := fun (k : nat) (acc : RPlan * list (list Entry * Z)) =>
    RowsInv (plans_rows acc.2) acc.1 /\ length acc.2 = k /\
    (forall i, (i < k)%nat -> is_Some (pyget (pb_req_cache_indices (rb_batch b)) (Z.of_nat i))) /\
    forall i pl, acc.2 !! i = Some pl -> req_plan b (Z.of_nat i) (rp_compute_lengths acc.1) pl.1).
  assert (HI : I (length (pyrange 0 (pb_batch_size (rb_batch b)))) (p, plans)).
  { apply (ofold_inv I _ _ _ _ E1).
    - split; [by split|]. split; [done|]. split; [intros; lia|]. intros i pl H. by destruct i.
    - intros k x [q pl] [q' pl'] [-> _]%lookup_pyrange (H1 & H2 & H3 & H4) Eq.
      apply plan_request_inv in Eq as (H5 & Hpre & ens & dst & Epl & Ed & Hr); [|done]. cbn in *. subst pl'.
      split; [done|]. split; [cbn; rewrite length_app; cbn; lia|]. split.
      + intros i Hi. destruct (decide (i = k)) as [->|]; [eauto|]. apply H3. lia.
      + intros i pl' [Hi|[Hi Ei]]%lookup_app_Some; [eapply req_plan_prefix; eauto|].
        apply list_lookup_singleton_Some in Ei as [Ei <-]. by replace i with k by lia. }
  replace (length (pyrange 0 (pb_batch_size (rb_batch b)))) with (Z.to_nat (pb_batch_size (rb_batch b))) in HI
    by (unfold pyrange; rewrite length_seqZ; lia).
  destruct HI as ([H1 H2 H3] & H4 & H5 & H6). constructor; try done. by apply slice_to_full.
Qed.

(** ** The layer *)

Section facts.
Context {V Tok St Tr AB Out : Type} (zero : V).
Context `{DeltaAlg St Tr} `{!DeltaAlgLaws St Tr} `{DeltaKernel Tok St Tr (list V) AB Out}.
Context `{!DeltaKernelSpec (V := V) (Tok := Tok) (St := St) (Tr := Tr) (AB := AB) (Out := Out)}.
Local Notation run := (run (V := V) (Tok := Tok) (St := St) (Tr := Tr) (AB := AB) (Out := Out)).
Local Notation transition_of := (transition_of (V := V) (Tok := Tok) (St := St) (Tr := Tr) (AB := AB) (Out := Out)).
Local Notation holds := (holds (V := V) (Tok := Tok) (St := St) (Tr := Tr) (AB := AB) (Out := Out)).

Definition stage_pair (tt pool : list Tr) (ts ssm : list St) (x : Z + Z) : outcome (Tr * St) :=
  match x with inl r => slot_pair tt ts r | inr slot => slot_pair pool ssm slot end.

(** The tokens of a step: a row of the batch, or what the pool entry was
    computed from. *)
Definition stage_toks (content : Z -> list Tok) (toks : list Tok) (cu : list Z) (x : Z + Z) : list Tok :=
  match x with inl r => row_toks toks cu (Z.to_nat r) | inr slot => content slot end.

Lemma entry_step_stages tt pool ts ssm acc en :
  entry_step tt pool ts ssm acc en = ofold (step stage_row (stage_pair tt pool ts ssm)) acc (stages en).
Proof.
  assert (Hrow : forall a r, advance_batch tt ts a r = step stage_row (stage_pair tt pool ts ssm) a (inl r)).
  { intros [h k] r. unfold advance_batch, step, stage_pair, slot_pair. cbn. destruct index_put; cbn; [|done].
    destruct (tensor_get tt r); cbn; [|done]. by destruct (tensor_get ts r). }
  assert (Hpool : forall a r, advance_pool pool ssm a r = step stage_row (stage_pair tt pool ts ssm) a (inr r)).
  { intros [h k] r. unfold advance_pool, step, stage_pair, slot_pair. cbn.
    destruct (tensor_get pool r); cbn; [|done]. by destruct (tensor_get ssm r). }
  assert (Hone : forall a x, ofold (step stage_row (stage_pair tt pool ts ssm)) a [x] =
    step stage_row (stage_pair tt pool ts ssm) a x) by (intros a x; cbn [ofold]; by destruct (step _ _ a x)).
  assert (Hopt : forall a o, advance_row tt ts a o =
    ofold (step stage_row (stage_pair tt pool ts ssm)) a (opt_row o))
    by (intros a [r|]; cbn [advance_row opt_row]; [by rewrite Hone, Hrow|done]).
  assert (Hmain : forall a, (if en_use_pool en then advance_pool pool ssm a (en_slot en)
      else advance_row tt ts a (en_interior_row en)) =
    ofold (step stage_row (stage_pair tt pool ts ssm)) a
      (if en_use_pool en then [inr (en_slot en)] else opt_row (en_interior_row en)))
    by (intros a; destruct (en_use_pool en); [by rewrite Hone, Hpool|apply Hopt]).
  unfold entry_step, stages. destruct (en_kind en); [apply Hmain|apply Hopt| |];
    rewrite ofold_app, <- Hopt; destruct (advance_row tt ts acc (en_sink_row en)); cbn [obind]; try done; apply Hmain.
Qed.

Lemma entries_steps tt pool ts ssm acc ens :
  ofold (entry_step tt pool ts ssm) acc ens =
  ofold (step stage_row (stage_pair tt pool ts ssm)) acc (concat (stages <$> ens)).
Proof.
  revert acc. induction ens as [|en ens IH]; intros acc; [done|].
  rewrite fmap_cons. cbn [concat ofold]. rewrite ofold_app, entry_step_stages.
  destruct (ofold _ acc (stages en)); cbn [obind]; [apply IH|done].
Qed.

(** The steps of a request. *)
Definition plan_stages (pl : list Entry * Z) : list (Z + Z) := concat (stages <$> pl.1).

Lemma compose_plan_steps tt pool ts ssm acc pls :
  ofold (compose_plan_req tt pool ts ssm) acc pls =
  ofold (steps_req stage_row (stage_pair tt pool ts ssm)) acc (plan_stages <$> pls).
Proof.
  revert acc. induction pls as [|pl pls IH]; intros acc; [done|]. rewrite fmap_cons. cbn [ofold].
  assert (compose_plan_req tt pool ts ssm acc pl =
    steps_req stage_row (stage_pair tt pool ts ssm) acc (plan_stages pl)) as ->.
  { unfold compose_plan_req, steps_req. destruct acc as [hb k]. by rewrite entries_steps. }
  destruct (steps_req _ _ acc _); cbn [obind]; [apply IH|done].
Qed.

Lemma plan_stages_rows pls : omap stage_row (concat (plan_stages <$> pls)) = plans_rows pls.
Proof.
  induction pls as [|pl pls IH]; [done|]. unfold plans_rows. rewrite !fmap_cons. cbn [concat].
  rewrite omap_app, IH. done.
Qed.

Lemma stage_row_in_plan pls r : inl r ∈ concat (plan_stages <$> pls) -> r ∈ plans_rows pls.
Proof.
  intros Hin. rewrite <- plan_stages_rows. apply list_elem_of_omap. by exists (inl r).
Qed.

Record rslots_ok (m : RMeta) (n : nat) : Prop := {
  rs_persist : NoDup (rm_compute_persist m).*2;
  rs_persist_lt : Forall (fun d => 0 <= d < Z.of_nat n) (rm_compute_persist m).*2;
  rs_dst : NoDup (rm_req_dst m);
  rs_dst_lt : Forall (fun d => 0 <= d < Z.of_nat n) (rm_req_dst m);
  rs_dst_persist : forall d, d ∈ rm_req_dst m -> d ∉ (rm_compute_persist m).*2;
  rs_hits : forall slot, inr slot ∈ concat (plan_stages <$> rm_plan m) -> slot ∉ (rm_compute_persist m).*2;
}.

Lemma pass_row toks cu n r :
  0 <= r < n ->
  fwd_h toks cu (pyrange 0 n) (replicate (Z.to_nat (Z.max n 1)) st_zero) !! Z.to_nat r =
    Some (run (row_toks toks cu (Z.to_nat r)) st_zero) /\
  fwd_h_zero_u toks cu (pyrange 0 n) (replicate (Z.to_nat (Z.max n 1)) tr_one) !! Z.to_nat r =
    Some (transition_of (row_toks toks cu (Z.to_nat r))).
Proof.
  intros Hr. assert (NoDup (pyrange 0 n)) by apply NoDup_seqZ.
  assert (pyrange 0 n !! Z.to_nat r = Some (Z.of_nat (Z.to_nat r))).
  { unfold pyrange. rewrite lookup_seqZ_lt by lia. f_equal. }
  split; [apply fwd_h_row|apply fwd_h_zero_u_row]; try done; apply lookup_replicate_2; lia.
Qed.

Lemma persist_rows_spec m ts tt pool (s : LayerCache (V := V) (St := St) (Tr := Tr)) ssm pool' :
  Forall (fun x => 0 <= x.1 < rm_C m) (rm_compute_persist m) -> lc_transition s = Some pool ->
  scatter ts (rm_compute_persist m) (lc_temporal s) = Ret ssm ->
  scatter tt (rm_compute_persist m) pool = Ret pool' ->
  exists s', persist_rows m ts tt pool s = (Ret (ssm, pool'), s') /\ lc_transition s' = Some pool'.
Proof.
  intros HF Etr E1 E2. unfold persist_rows. munfold. destruct (Z.ltb_spec 0 (rm_C m)).
  - rewrite E1. cbn beta iota. rewrite E2. by eexists.
  - assert (rm_compute_persist m = []) as Ep.
    { destruct (rm_compute_persist m) as [|x l]; [done|]. apply Forall_cons in HF as [? _]. lia. }
    rewrite Ep in E1, E2. cbn in E1, E2. injection E1 as <-. injection E2 as <-. by exists s.
Qed.

Lemma recompute_forward_spec b m lens mixed ab s s1 toks pool content :
  recompute_ok b m lens -> rslots_ok m (length (lc_temporal s)) ->
  lc_transition s = Some pool -> length pool = length (lc_temporal s) ->
  conv_stage (Tok := Tok) (Out := Out) zero (rm_phys_cu m) (rm_phys_persist m) (Some (rm_phys_end_offset m))
    (rm_phys_conv m) (rm_phys_prev m) (rm_phys_has m) (rm_compute_cu m) mixed ab s = (Ret toks, s1) ->
  (forall slot, inr slot ∈ concat (plan_stages <$> rm_plan m) -> holds (lc_temporal s) pool slot (content slot)) ->
  let tk := stage_toks content toks (rm_compute_cu m) in
  exists s2 seeds,
    forward_extend_pic_transition_recompute zero m mixed ab s =
      (Ret (if 0 <? rm_C m then fwd_o toks (rm_compute_cu m) (rm_compute_indices m) seeds else out_empty), s2) /\
    (forall k pl d, rm_plan m !! k = Some pl -> rm_req_dst m !! k = Some d ->
       lc_temporal s2 !! Z.to_nat d = Some (run (concat (tk <$> plan_stages pl)) st_zero) /\
       seeded stage_row tk st_zero (plan_stages pl) seeds) /\
    (forall row slot, (row, slot) ∈ rm_compute_persist m ->
       delta_pool s2 slot (row_toks toks (rm_compute_cu m) (Z.to_nat row))).
Proof.
  intros [_ Hrows Hidx Hpr Hpl Hdl _] [Hn Hlt Hdn Hdlt Hdp Hh] Etr Hlen Econv Hhit tk.
  destruct (conv_stage_frame _ _ _ _ _ _ _ _ _ _ _ _ _ Econv) as [Et1 Etr1].
  set (n := Z.to_nat (Z.max (rm_C m) 1)). set (cu := rm_compute_cu m) in *.
  set (ts := fwd_h toks cu (rm_compute_indices m) (replicate n st_zero)).
  set (tt := fwd_h_zero_u toks cu (rm_compute_indices m) (replicate n tr_one)).
  assert (Hpass : forall r, 0 <= r < rm_C m -> holds ts tt r (row_toks toks cu (Z.to_nat r))).
  { intros r Hr. unfold ts, tt. rewrite Hidx. destruct (pass_row toks cu (rm_C m) r Hr). split; [lia|done]. }
  assert (Hrng : forall (A : Type) (src buf : list A), length src = n -> length buf = length (lc_temporal s) ->
    Forall (fun p : Z * Z => 0 <= p.1 < len src /\ 0 <= p.2 < len buf) (rm_compute_persist m)).
  { intros A src buf El Eb. apply Forall_forall. intros [r d] Hin. rewrite Forall_forall in Hpr. rewrite Forall_forall in Hlt.
    specialize (Hpr _ Hin). specialize (Hlt d). unfold len. cbn in *.
    assert (0 <= d < Z.of_nat (length (lc_temporal s))) by (apply Hlt, list_elem_of_fmap; by exists (r, d)). lia. }
  destruct (scatter_spec ts (lc_temporal s) (rm_compute_persist m)) as (ssm & E1 & L1 & W1 & F1);
    [done|by apply Hrng; unfold ts; rewrite ?fwd_h_length, ?length_replicate|].
  destruct (scatter_spec tt pool (rm_compute_persist m)) as (pool' & E2 & L2 & W2 & F2);
    [done|by apply Hrng; unfold tt; rewrite ?fwd_h_zero_u_length, ?length_replicate|].
  assert (Hsteps : pool_ok (stage_pair tt pool' ts ssm) tk (concat (plan_stages <$> rm_plan m))).
  { apply Forall_forall. intros [r|slot] Hin; cbn; apply slot_pair_holds.
    - apply Hpass, elem_of_pyrange. rewrite <- Hrows. by apply stage_row_in_plan.
    - destruct (Hhit _ Hin) as (Hs0 & P1 & P2). split; [done|].
      rewrite F1, F2 by (done || by apply Hh). done. }
  destruct (steps_all_spec stage_row (stage_pair tt pool' ts ssm) tk (plan_stages <$> rm_plan m) []
    (replicate n st_zero)) as (seeds & E3 & _ & Hseed & _); [done| |].
  { split; rewrite plan_stages_rows, Hrows; [apply NoDup_seqZ|].
    apply Forall_forall. intros r Hr%elem_of_pyrange. rewrite length_replicate. lia. }
  rewrite app_nil_l, <- compose_plan_steps in E3.
  set (hs := (fun o => run (concat (tk <$> o)) st_zero) <$> (plan_stages <$> rm_plan m)) in *.
  assert (Hfst : (zip (rm_req_dst m) hs).*1 = rm_req_dst m)
    by (apply fst_zip; unfold hs; rewrite !length_fmap; lia).
  destruct (index_puts_spec ssm (zip (rm_req_dst m) hs)) as (ssm' & E4 & _ & W4 & F4); [by rewrite Hfst| |].
  { apply Forall_forall. intros [d h] Hin%elem_of_zip_l. rewrite Forall_forall in Hdlt.
    specialize (Hdlt d Hin). unfold len. cbn. lia. }
  destruct (persist_rows_spec m ts tt pool s1 ssm pool') as (s' & Ep & Et'); [done|by rewrite Etr1|by rewrite Et1|done|].
  exists (set_lc_temporal ssm' s'), seeds. split; [|split].
  - unfold forward_extend_pic_transition_recompute. munfold. rewrite Etr. fold cu. rewrite Econv. fold n ts tt.
    rewrite Ep, E3. cbn [fst snd]. by rewrite E4.
  - intros k pl d Ek Ed. split.
    + cbn. apply W4, list_elem_of_lookup. exists k. rewrite lookup_zip_with, Ed. unfold hs.
      by rewrite !list_lookup_fmap, Ek.
    + rewrite Forall_forall in Hseed. eapply Hseed, list_elem_of_fmap. exists pl. split; [done|].
      by eapply list_elem_of_lookup_2.
  - intros row slot Hin. exists pool'. split; [done|]. cbn. rewrite Forall_forall in Hpr. rewrite Forall_forall in Hlt.
    destruct (Hpass row (Hpr _ Hin)) as (_ & P1 & P2). split.
    { apply (Hlt slot), list_elem_of_fmap. by exists (row, slot). }
    rewrite (W2 _ _ Hin), F4; [by rewrite (W1 _ _ Hin)| |].
    + apply (Hlt slot), list_elem_of_fmap. by exists (row, slot).
    + rewrite Hfst. intros Hd. apply (Hdp _ Hd), list_elem_of_fmap. by exists (row, slot).
Qed.


End facts.

(** ** A cold prefill and its replay

    Segments A = [0, 1), B = [1, 3), Q = [3, 4); the cold request computes
    all of them, the replay finds A and B cached, with B's first token as
    its sink. *)

Module Replay.

Definition A : list (list Z) := [[1; 1; 0; 1; 2; 0]].
Definition B : list (list Z) := [[0; 1; 1; 0; 1; 5]; [1; 0; 1; 1; 0; 3]].
Definition Q : list (list Z) := [[2; 1; 0; 1; 4; 0]].

Definition cold : RBatch :=
  mkRBatch (mkPicBatch 1 (Some [[]]) (Some [[]]) [[(0, 1); (1, 3); (3, 4)]]
    (Some [[((0, 1), 1); ((1, 3), 2); ((3, 4), 3)]]) [4]) None.
Definition replay : RBatch :=
  mkRBatch (mkPicBatch 1 (Some [[(0, 1, [10]); (1, 3, [11])]]) (Some [[([10], 1); ([11], 2)]]) [[(3, 4)]]
    (Some [[((3, 4), 5)]]) [6]) (Some [Some [((1, 3), [1])]]).

Definition empty_cache : LayerCache (V := Z) (St := Mat2.St) (Tr := Mat2.Tr) :=
  mkLayerCache (replicate 7 []) (replicate 7 (0, 0)) (Some (replicate 7 ((1, 0), (0, 1)))) None.

Definition layer (b : RBatch) (mixed : list (list Z)) (s : LayerCache (V := Z) (St := Mat2.St) (Tr := Mat2.Tr))
    : option (LayerCache (V := Z) (St := Mat2.St) (Tr := Mat2.Tr)) :=
  match build_pic_recompute_metadata b with
  | Ret m => match forward_extend_pic_transition_recompute (Tok := Mat2.Tok) (Out := list Mat2.St) 0 m mixed tt s with
             | (Ret _, s') => Some s'
             | _ => None
             end
  | Raise _ => None
  end.

Definition run_all (rows : list (list Z)) : Mat2.St :=
  run (V := Z) (Tok := Mat2.Tok) (St := Mat2.St) (Tr := Mat2.Tr) (AB := unit) (Out := list Mat2.St)
    (Mat2.tok_of_row <$> rows) st_zero.

Definition state_at (slot : nat) (s : option (LayerCache (V := Z) (St := Mat2.St) (Tr := Mat2.Tr))) : option Mat2.St :=
  s ← s; lc_temporal s !! slot.

End Replay.


