(* ===== verification/KVBuffer.v ===== *)
(** * The key and value buffers of a layer

    [get_key_buffer(layer_id)] and [get_value_buffer(layer_id)] of
    srt/mem_cache/memory_pool.py: one row per slot, written at lists of slots
    ([k_buffer[slots] = rows]) and read by the attention kernels. *)

From S2P Require Import Prelude ConvTails ConvTailsFacts.

Lemma Forall_fmap_1 {A B} (f : A -> B) (P : B -> Prop) l : Forall P (f <$> l) -> Forall (fun x => P (f x)) l.
Proof. by rewrite Forall_fmap. Qed.

Lemma elem_of_concat_map {A B} (f : A -> list B) l x : x ∈ concat (f <$> l) <-> exists y, y ∈ l /\ x ∈ f y.
Proof.
  induction l as [|a l IH]; cbn [concat]; [split; [by intros ?%not_elem_of_nil|by intros (? & ?%not_elem_of_nil & _)]|].
  rewrite fmap_cons. cbn [concat]. rewrite elem_of_app, IH. split.
  - intros [H|(y & H1 & H2)]; [exists a; split; [left|done]|exists y; split; [by right|done]].
  - intros (y & [->|H1]%elem_of_cons & H2); [by left|right; by exists y].
Qed.

Section buffer.
Context {K W : Type}.

Record KVBuf := mkKVBuf {
  kb_k : list K;
  kb_v : list W;
}.

(** [buf[slots] = rows]: a single row is broadcast, other lengths must agree. *)
Definition put_rows {A} (buf : list A) (slots : list Z) (rows : list A) : outcome (list A) :=
  match rows with
  | [r] => index_puts buf ((fun s => (s, r)) <$> slots)
  | _ => if (length slots =? length rows)%nat then index_puts buf (zip slots rows) else Raise RuntimeError
  end.

(** Keys and values are written at the same slots. *)
Definition put_kv (slots : list Z) (k_rows : list K) (v_rows : list W) (buf : KVBuf) : outcome KVBuf :=
  obind (put_rows (kb_k buf) slots k_rows) (fun k1 =>
  obind (put_rows (kb_v buf) slots v_rows) (fun v1 => Ret (mkKVBuf k1 v1))).

(** The rows at [slots]. *)
Definition kv_rows (buf : KVBuf) (slots : list Z) : option (list (K * W)) :=
  mapM (fun d => k ← kb_k buf !! Z.to_nat d; v ← kb_v buf !! Z.to_nat d; Some (k, v)) slots.

(** Slot [d] holds key [k] and value [v]. *)
Definition holds (buf : KVBuf) (d : Z) (k : K) (v : W) : Prop :=
  kb_k buf !! Z.to_nat d = Some k /\ kb_v buf !! Z.to_nat d = Some v.

Definition buf_ok (buf : KVBuf) : Prop := length (kb_v buf) = length (kb_k buf).
Definition slot_ok (buf : KVBuf) (d : Z) : Prop := 0 <= d < len (kb_k buf).

(** All rows but those of [slots] are as before. *)
Definition same_except (slots : list Z) (buf buf' : KVBuf) : Prop :=
  length (kb_k buf') = length (kb_k buf) /\ length (kb_v buf') = length (kb_v buf) /\
  forall d, 0 <= d -> d ∉ slots ->
    kb_k buf' !! Z.to_nat d = kb_k buf !! Z.to_nat d /\ kb_v buf' !! Z.to_nat d = kb_v buf !! Z.to_nat d.

Lemma put_rows_zip {A} (buf : list A) slots rows :
  length slots = length rows -> put_rows buf slots rows = index_puts buf (zip slots rows).
Proof.
  intros E. unfold put_rows. destruct rows as [|r [|r' rows]], slots as [|d [|d' slots]]; try done.
  cbn in E. injection E as E. cbn [length]. by rewrite E, Nat.eqb_refl.
Qed.

Lemma kv_rows_map {A} (buf : KVBuf) (slot : A -> Z) key val l :
  (forall p, p ∈ l -> holds buf (slot p) (key p) (val p)) ->
  kv_rows buf (slot <$> l) = Some ((fun p => (key p, val p)) <$> l).
Proof.
  induction l as [|p l IH]; intros H; [done|]. rewrite !fmap_cons. unfold kv_rows in *. cbn [mapM].
  destruct (H p) as [E1 E2]; [left|]. rewrite E1, E2. cbn. rewrite IH by (intros; apply H; by right). done.
Qed.

(** Writing rows at distinct slots. *)
Lemma put_kv_spec {A} (buf : KVBuf) (l : list A) (slot : A -> Z) key val :
  buf_ok buf -> NoDup (slot <$> l) -> Forall (slot_ok buf) (slot <$> l) ->
  exists buf', put_kv (slot <$> l) (key <$> l) (val <$> l) buf = Ret buf' /\
    (forall p, p ∈ l -> holds buf' (slot p) (key p) (val p)) /\ same_except (slot <$> l) buf buf'.
Proof.
  intros Hb Hn HF. unfold put_kv. rewrite !put_rows_zip by (by rewrite !length_fmap).
  assert (S1 : (zip (slot <$> l) (key <$> l)).*1 = slot <$> l) by (apply fst_zip; by rewrite !length_fmap).
  assert (S2 : (zip (slot <$> l) (val <$> l)).*1 = slot <$> l) by (apply fst_zip; by rewrite !length_fmap).
  destruct (index_puts_spec (kb_k buf) (zip (slot <$> l) (key <$> l))) as (k' & -> & L1 & W1 & U1);
    [by rewrite S1|apply (Forall_fmap_1 fst (slot_ok buf)); by rewrite S1|].
  destruct (index_puts_spec (kb_v buf) (zip (slot <$> l) (val <$> l))) as (v' & E2 & L2 & W2 & U2);
    [by rewrite S2|apply (Forall_fmap_1 fst (fun d => 0 <= d < len (kb_v buf))); rewrite S2; unfold len in *; by rewrite Hb|].
  rewrite S1 in U1. rewrite S2 in U2. cbn [obind]. rewrite E2.
  exists (mkKVBuf k' v'). split; [done|]. split; [|by repeat split; auto].
  intros p (i & Hi)%list_elem_of_lookup. split; [apply W1|apply W2]; apply list_elem_of_lookup; exists i;
    by rewrite lookup_zip_with, !list_lookup_fmap, Hi.
Qed.

Lemma same_except_trans s1 s2 buf buf' buf'' :
  same_except s1 buf buf' -> same_except s2 buf' buf'' -> same_except (s1 ++ s2) buf buf''.
Proof.
  intros (L1 & L2 & E) (L3 & L4 & E'). split; [congruence|]. split; [congruence|].
  intros d Hd [H1 H2]%not_elem_of_app. destruct (E' d Hd H2) as [-> ->]. by apply E.
Qed.

Lemma same_except_holds slots buf buf' d k v :
  same_except slots buf buf' -> 0 <= d -> d ∉ slots -> holds buf d k v -> holds buf' d k v.
Proof. intros (_ & _ & E) Hd Hn [H1 H2]. destruct (E d Hd Hn) as [E1 E2]. split; congruence. Qed.

Lemma same_except_ok slots buf buf' : same_except slots buf buf' -> buf_ok buf -> buf_ok buf'.
Proof. intros (L1 & L2 & _) Hb. unfold buf_ok in *. congruence. Qed.

Lemma same_except_slot slots buf buf' d : same_except slots buf buf' -> slot_ok buf d -> slot_ok buf' d.
Proof. intros (L1 & _) Hd. unfold slot_ok, len in *. by rewrite L1. Qed.

End buffer.
Arguments KVBuf : clear implicits.
