(* ===== verification/FlashPrefill.v ===== *)
(** * The batched prefill kernel

    [BatchPrefillWithPagedKVCacheWrapper] of FlashInfer, which the
    full-attention layers of srt/layers/attention/hybrid_linear_attn_backend.py
    plan once per batch and run per layer, is code outside the repository:
    an argument [prefill], of which the class [CausalPrefill] states the
    documented semantics for pages of one token and a causal mask.  Row [i]
    of a segment of [n] queries over [m] keys sees the first [m - n + i + 1]
    of them.  A plan is a list of runs; [prefill_runs] says what a run's
    rows compute. *)

From S2P Require Import Prelude GdnMeta GdnMetaFacts KVBuffer.

(** [cumsum] arrays: from zero, never decreasing. *)
Definition indptr_ok (l : list Z) : Prop :=
  l !! 0%nat = Some 0 /\ forall i a b, l !! i = Some a -> l !! S i = Some b -> a <= b.

Section prefill.
Context {Q K W O : Type}.

Class CausalPrefill (attn : Q -> list (K * W) -> O)
    (prefill : list Z -> list Z -> list Z -> list Z -> list Q -> KVBuf K W -> list O) := {
  prefill_length qo kv idx lp q buf : length (prefill qo kv idx lp q buf) = length q;
  prefill_row qo kv idx q buf s i q0 q1 k0 k1 x ctx :
    indptr_ok qo -> indptr_ok kv ->
    qo !! s = Some q0 -> qo !! S s = Some q1 -> kv !! s = Some k0 -> kv !! S s = Some k1 ->
    0 <= i < q1 - q0 -> q1 - q0 <= k1 - k0 -> q !! Z.to_nat (q0 + i) = Some x ->
    kv_rows buf (pyslice idx k0 (k1 - (q1 - q0) + i + 1)) = Some ctx ->
    prefill qo kv idx (replicate (length qo - 1) 1) q buf !! Z.to_nat (q0 + i) = Some (attn x ctx);
}.

(** ** Plans as runs *)

(** A run: queries at positions [ru_first .. ru_first + ru_len), planned
    over the slots of all positions up to its last. *)
Record Run := mkRun {
  ru_first : Z;
  ru_len : Z;
  ru_row : list Z;
}.

Definition run_ok (r : Run) : Prop :=
  0 <= ru_first r /\ 0 <= ru_len r /\ ru_first r + ru_len r <= len (ru_row r).
Definition run_pos (r : Run) : list Z := pyrange (ru_first r) (ru_first r + ru_len r).
Definition run_kv (r : Run) : list Z := slice_to (ru_row r) (ru_first r + ru_len r).

Definition runs_qo (rs : list Run) : list Z := cu_seqlens (ru_len <$> rs).
Definition runs_kvp (rs : list Run) : list Z := cu_seqlens ((fun r => len (run_kv r)) <$> rs).
Definition runs_kv (rs : list Run) : list Z := concat (run_kv <$> rs).
(** The queries in packed order: position and slots of the request. *)
Definition runs_rows (rs : list Run) : list (Z * list Z) :=
  concat ((fun r => (fun p => (p, ru_row r)) <$> run_pos r) <$> rs).

Lemma slice_to_take {A} (l : list A) n : 0 <= n <= len l -> slice_to l n = take (Z.to_nat n) l.
Proof. intros H. unfold slice_to, pyidx. destruct (Z.ltb_spec n 0); [lia|]. f_equal. lia. Qed.

Lemma slice_to_slice_to {A} (l : list A) a b : 0 <= a <= b -> b <= len l -> slice_to (slice_to l b) a = slice_to l a.
Proof.
  intros Ha Hb. rewrite (slice_to_take l b), (slice_to_take l a) by lia.
  rewrite slice_to_take by (unfold len in *; rewrite length_take; lia). rewrite take_take. f_equal. lia.
Qed.

Lemma len_run_kv r : run_ok r -> len (run_kv r) = ru_first r + ru_len r.
Proof. intros (H1 & H2 & H3). apply len_slice_to. lia. Qed.

Lemma cumsum_sum acc l i c : cumsum_from acc l !! i = Some c -> c = acc + zsum (take i l).
Proof.
  revert acc i. induction l as [|x l IH]; intros acc i; cbn [cumsum_from].
  - destruct i as [|i]; cbn; [intros [= ->]; lia|done].
  - destruct i as [|i]; cbn; [intros [= ->]; lia|]. intros H. apply IH in H. rewrite H. unfold zsum. cbn. lia.
Qed.

Lemma cumsum_lookup acc l i : (i <= length l)%nat -> cumsum_from acc l !! i = Some (acc + zsum (take i l)).
Proof.
  revert acc i. induction l as [|x l IH]; intros acc i Hi; cbn [cumsum_from].
  - destruct i; cbn in *; [f_equal; lia|lia].
  - destruct i as [|i]; cbn in *; [f_equal; lia|]. rewrite IH by lia. f_equal. unfold zsum. cbn. lia.
Qed.

Lemma length_cumsum acc l : length (cumsum_from acc l) = S (length l).
Proof. revert acc. induction l as [|x l IH]; intros acc; cbn; [done|]. by rewrite IH. Qed.

Lemma cumsum_snoc acc l x : cumsum_from acc (l ++ [x]) = cumsum_from acc l ++ [acc + zsum l + x].
Proof.
  revert acc. induction l as [|y l IH]; intros acc; cbn [app cumsum_from].
  - change (zsum []) with 0. by rewrite Z.add_0_r.
  - rewrite IH, zsum_cons. cbn [app]. do 2 f_equal. f_equal. lia.
Qed.

Lemma last_cumsum acc l : last (cumsum_from acc l) = Some (acc + zsum l).
Proof.
  rewrite last_lookup, length_cumsum. cbn. rewrite cumsum_lookup, take_ge by lia. done.
Qed.

Lemma cumsum_indptr l : Forall (fun x => 0 <= x) l -> indptr_ok (cu_seqlens l).
Proof.
  intros HF. split; [by destruct l|]. intros i a b Ha Hb. unfold cu_seqlens in *.
  destruct (lookup_lt_is_Some_2 l i) as [x Hx].
  { apply lookup_lt_Some in Hb. rewrite length_cumsum in Hb. lia. }
  destruct (cumsum_step l 0 i x Hx) as (c & E1 & E2). rewrite Forall_forall in HF.
  assert (0 <= x) by (eapply HF, list_elem_of_lookup_2; done). simplify_eq. lia.
Qed.

(** Row [j] of the packed queries is row [i] of some run. *)
Lemma runs_rows_lookup rs j p row :
  runs_rows rs !! j = Some (p, row) -> Forall run_ok rs ->
  exists s r i, rs !! s = Some r /\ 0 <= i < ru_len r /\ row = ru_row r /\ p = ru_first r + i /\
    Z.of_nat j = zsum (take s (ru_len <$> rs)) + i.
Proof.
  revert j. induction rs as [|r rs IH]; intros j; [done|]. unfold runs_rows. rewrite fmap_cons. cbn [concat].
  intros Hj HF. apply Forall_cons in HF as [Hr HF]. destruct Hr as (H1 & H2 & H3).
  assert (El : Z.of_nat (length ((fun p => (p, ru_row r)) <$> run_pos r)) = ru_len r).
  { rewrite length_fmap. change (len (run_pos r) = ru_len r). unfold run_pos. rewrite len_pyrange. lia. }
  apply lookup_app_Some in Hj as [Hj|[Hge Hj]].
  - exists 0%nat, r, (Z.of_nat j). apply list_lookup_fmap_Some in Hj as (p' & [= -> ->] & Hp).
    unfold run_pos, pyrange in Hp. apply lookup_seqZ in Hp as [-> Hlt]. cbn. repeat split; lia.
  - destruct (IH _ Hj HF) as (s & r' & i & E1 & E2 & E3 & E4 & E5). exists (S s), r', i.
    rewrite fmap_cons. cbn [lookup list_lookup take]. rewrite zsum_cons. repeat split; try done; lia.
Qed.

Lemma runs_kv_slice rs s r n :
  rs !! s = Some r -> 0 <= n <= len (run_kv r) ->
  pyslice (runs_kv rs) (zsum (take s ((fun r => len (run_kv r)) <$> rs)))
    (zsum (take s ((fun r => len (run_kv r)) <$> rs)) + n) = slice_to (run_kv r) n.
Proof.
  intros Hs Hn. destruct (list_elem_of_split_length rs s r Hs) as (l1 & l2 & -> & El).
  unfold runs_kv. rewrite !fmap_app, fmap_cons, concat_app. cbn [concat].
  rewrite take_app_length' by (rewrite length_fmap; lia).
  assert (E : zsum ((fun r => len (run_kv r)) <$> l1) = len (concat (run_kv <$> l1))).
  { rewrite len_concat, <- list_fmap_compose. done. }
  rewrite E. set (a := concat (run_kv <$> l1)). pose proof (len_nonneg a).
  rewrite pyslice_in_range by (rewrite ?len_app; pose proof (len_nonneg (concat (run_kv <$> l2))); lia).
  replace (Z.to_nat (len a)) with (length a) by (unfold len; lia). rewrite drop_app_length.
  rewrite slice_to_take by lia. replace (len a + n - len a) with n by lia. by rewrite take_app_le by (unfold len in *; lia).
Qed.

(** What a plan computes: a query at position [p] attends to the slots of
    positions [0 .. p] of its request, in order. *)
Lemma prefill_runs attn prefill `{!CausalPrefill attn prefill} rs q buf j p row x ctx :
  Forall run_ok rs -> runs_rows rs !! j = Some (p, row) -> q !! j = Some x ->
  kv_rows buf (slice_to row (p + 1)) = Some ctx ->
  prefill (runs_qo rs) (runs_kvp rs) (runs_kv rs) (replicate (length rs) 1) q buf !! j = Some (attn x ctx).
Proof.
  intros HF Hj Hx Hctx. destruct (runs_rows_lookup rs j p row Hj HF) as (s & r & i & Hs & Hi & -> & -> & Ej).
  pose proof HF as HF'. rewrite Forall_forall in HF'. pose proof (HF' r (list_elem_of_lookup_2 _ _ _ Hs)) as Hr.
  pose proof (len_run_kv r Hr) as Hl. destruct Hr as (H1 & H2 & H3).
  destruct (cumsum_step (ru_len <$> rs) 0 s (ru_len r)) as (c & Q0 & Q1); [by rewrite list_lookup_fmap, Hs|].
  destruct (cumsum_step ((fun r => len (run_kv r)) <$> rs) 0 s (len (run_kv r))) as (d & K0 & K1);
    [by rewrite list_lookup_fmap, Hs|].
  pose proof (cumsum_sum _ _ _ _ Q0) as Ec. pose proof (cumsum_sum _ _ _ _ K0) as Ed. rewrite Z.add_0_l in Ec, Ed.
  assert (El : replicate (length rs) 1 = replicate (length (runs_qo rs) - 1) 1).
  { unfold runs_qo, cu_seqlens. rewrite length_cumsum, length_fmap. f_equal. lia. }
  assert (Ejj : j = Z.to_nat (c + i)) by lia. rewrite El. rewrite Ejj in Hx |- *.
  eapply prefill_row with (s := s) (k0 := d) (k1 := d + len (run_kv r)) (q1 := c + ru_len r); try done; try lia.
  - apply cumsum_indptr, Forall_fmap, Forall_forall. intros r' Hr'. cbn. by apply HF'.
  - apply cumsum_indptr, Forall_fmap, Forall_forall. intros r' Hr'. cbn. apply len_nonneg.
  - rewrite Hl. replace (d + (ru_first r + ru_len r) - (c + ru_len r - c) + i + 1) with (d + (ru_first r + i + 1)) by lia.
    rewrite Ed. rewrite (runs_kv_slice rs s r) by (done || lia).
    rewrite <- Hctx. f_equal. unfold run_kv. apply slice_to_slice_to; lia.
Qed.

End prefill.

(** ** A reference kernel *)

Module RefPrefill.
Section ref.
Context {Q K W O : Type} (attn : Q -> list (K * W) -> O).

(** The context of query row [j]: the segment that holds it. *)
Fixpoint row_ctx (qo kv idx : list Z) (j : Z) : list Z :=
  match qo, kv with
  | q0 :: ((q1 :: _) as qo'), k0 :: ((k1 :: _) as kv') =>
      if (q0 <=? j) && (j <? q1) then pyslice idx k0 (k1 - (q1 - q0) + (j - q0) + 1)
      else row_ctx qo' kv' idx j
  | _, _ => []
  end.

Definition prefill (qo kv idx lp : list Z) (q : list Q) (buf : KVBuf K W) : list O :=
  imap (fun j x => attn x (default [] (kv_rows buf (row_ctx qo kv idx (Z.of_nat j))))) q.

Lemma row_ctx_eq qo kv idx s i q0 q1 k0 k1 :
  (forall i a b, qo !! i = Some a -> qo !! S i = Some b -> a <= b) ->
  qo !! s = Some q0 -> qo !! S s = Some q1 -> kv !! s = Some k0 -> kv !! S s = Some k1 ->
  0 <= i < q1 - q0 -> row_ctx qo kv idx (q0 + i) = pyslice idx k0 (k1 - (q1 - q0) + i + 1).
Proof.
  revert qo kv. induction s as [|s IH]; intros qo kv Hm E0 E1 E2 E3 Hi.
  - destruct qo as [|a [|b qo]], kv as [|c [|d kv]]; try done. cbn in *. simplify_eq.
    rewrite andb_true_intro by lia. f_equal. lia.
  - destruct qo as [|a [|b qo]]; [done..|]. destruct kv as [|c [|d kv]]; [done..|]. cbn [row_ctx].
    assert (Hb : b <= q0).
    { clear - Hm E0. assert (Hm' : forall i a b0, (b :: qo) !! i = Some a -> (b :: qo) !! S i = Some b0 -> a <= b0)
        by (intros k ? ?; apply (Hm (S k))). clear Hm. change ((b :: qo) !! s = Some q0) in E0.
      revert b qo Hm' E0. induction s as [|s IH]; intros b qo Hm E0; cbn in E0; [injection E0; lia|].
      destruct qo as [|b' qo]; [done|]. transitivity b'; [by apply (Hm 0%nat)|].
      apply (IH b' qo); [intros k ? ?; apply (Hm (S k))|done]. }
    destruct (Z.leb_spec a (q0 + i)); cbn [andb]; [destruct (Z.ltb_spec (q0 + i) b); [lia|]|];
      (apply (IH (b :: qo) (d :: kv)); try done; intros k ? ?; apply (Hm (S k))).
Qed.

#[global] Instance causal : CausalPrefill attn prefill.
Proof.
  split.
  - intros. apply length_imap.
  - intros qo kv idx q buf s i q0 q1 k0 k1 x ctx [H0 Hm] _ E0 E1 E2 E3 Hi Hle Hx Hctx.
    assert (0 <= q0).
    { clear - H0 Hm E0. revert q0 E0. induction s as [|s IH]; intros q0 E0; [simplify_eq; lia|].
      destruct (lookup_lt_is_Some_2 qo s) as [a Ha]; [apply lookup_lt_Some in E0; lia|].
      specialize (IH a Ha). specialize (Hm s a q0 Ha E0). lia. }
    unfold prefill. rewrite list_lookup_imap, Hx. cbn. rewrite Z2Nat.id by lia.
    by rewrite (row_ctx_eq qo kv idx s i q0 q1 k0 k1), Hctx by done.
Qed.

End ref.
End RefPrefill.
