(* ===== verification/FullAttn.v ===== *)
(** * Full-attention layers without re-rotation

    In the addition and transition modes (and for the hybrid models that
    attend across segments) [_init_pic_prefill_plan] of
    srt/layers/attention/hybrid_linear_attn_backend.py plans one kernel
    segment per miss segment, over the slots of the request's row up to the
    segment's end, and [_forward_extend_pic_full_attn] writes the new keys
    and values and runs the plan.  [full_attn_exact] shows that every
    computed token attends to exactly the keys and values of the positions
    up to its own, cached and computed ones alike. *)

From S2P Require Import Prelude PyDict ConvTails ConvTailsFacts GdnMeta GdnMetaFacts KVBuffer FlashPrefill.

(** The fields of the forward batch; [fb_hit_seam] has, per request, the
    positions of the hit segments' sinks ([pic_rope_meta[..]["seam"]]), and
    is [None] outside the re-rotation modes. *)
Record FBatch := mkFBatch {
  fb_batch_size : Z;
  fb_miss_segments : list (list (Z * Z));
  fb_hit_seam : option (list (option (list (Z * Z * list Z))));
  fb_req_pool_indices : list Z;
  fb_out_cache_loc : list Z;
}.

Record PrefillPlan := mkPrefillPlan {
  pp_qo_indptr : list Z;
  pp_kv_indptr : list Z;
  pp_kv_indices : list Z;
  pp_kv_positions : list Z;
  pp_kv_last_page_len : list Z;
}.

(** The extra query segment of a request's sinks. *)
Definition seam_seg (b : FBatch) (req_idx : Z) (miss_segs : list (Z * Z)) : list (Z * Z * Z) :=
  match fb_hit_seam b with
  | None => []
  | Some metas =>
      match pyget metas req_idx with
      | Some (Some hit_seam) =>
          let total_seam := zsum ((fun sp => len sp) <$> hit_seam.*2) in
          if 0 <? total_seam
          then [(total_seam, match last miss_segs with Some (_, end_) => end_ | None => 0 end, req_idx)]
          else []
      | _ => []
      end
  end.

(** [(query length, key length, request)] per kernel segment. *)
Definition prefill_segs (b : FBatch) : outcome (list (Z * Z * Z)) :=
  ofold (fun acc req_idx =>
    obind (or_raise IndexError (pyget (fb_miss_segments b) req_idx)) (fun miss_segs =>
    Ret (acc ++ ((fun '(start, end_) => (end_ - start, end_, req_idx)) <$> miss_segs)
             ++ seam_seg b req_idx miss_segs)))
    [] (pyrange 0 (fb_batch_size b)).

(** [req_to_token[req_pool_idx, :kv_len]]. *)
Definition seg_slots (req_to_token : list (list Z)) (b : FBatch) (seg : Z * Z * Z) : outcome (list Z) :=
  let '(_, kv_len, req_idx) := seg in
  obind (or_raise IndexError (pyget (fb_req_pool_indices b) req_idx)) (fun req_pool_idx =>
  obind (or_raise IndexError (pyget req_to_token req_pool_idx)) (fun row => Ret (slice_to row kv_len))).

Definition init_pic_prefill_plan (req_to_token : list (list Z)) (b : FBatch) : outcome (option PrefillPlan) :=
  obind (prefill_segs b) (fun segs =>
  match segs with
  | [] => Ret None
  | _ =>
      obind (omapM (seg_slots req_to_token b) segs) (fun kv_indices_list =>
      Ret (Some (mkPrefillPlan
        (to_int32 <$> cu_seqlens ((fun s => s.1.1) <$> segs))
        (to_int32 <$> cu_seqlens ((fun s => s.1.2) <$> segs))
        (to_int32 <$> concat kv_indices_list)
        (concat ((fun s => pyrange 0 s.1.2) <$> segs))
        (replicate (length segs) 1))))
  end).

Section forward.
Context {Q K W O : Type}
  (prefill : list Z -> list Z -> list Z -> list Z -> list Q -> KVBuf K W -> list O)
  (native : FBatch -> bool -> list Q -> option (list K * list W) -> KVBuf K W -> outcome (list O * KVBuf K W)).

(** Head dimensions that the kernel supports; the others take the backend's
    own extend path. *)
Definition FLASHINFER_SUPPORTED_DIMS : list Z := [64; 128; 256].

Definition forward_extend_pic_full_attn (b : FBatch) (plan : option PrefillPlan) (head_dim : Z)
    (save_kv_cache : bool) (q : list Q) (kv : option (list K * list W)) (buf : KVBuf K W)
    : outcome (list O * KVBuf K W) :=
  if negb (bool_decide (head_dim ∈ FLASHINFER_SUPPORTED_DIMS)) then native b save_kv_cache q kv buf
  else
    obind (match kv with
           | Some (k, v) => if save_kv_cache then put_kv (fb_out_cache_loc b) k v buf else Ret buf
           | None => Ret buf
           end) (fun buf' =>
    match plan with
    | None => Ret ([], buf')
    | Some p => Ret (prefill (pp_qo_indptr p) (pp_kv_indptr p) (pp_kv_indices p) (pp_kv_last_page_len p) q buf', buf')
    end).

End forward.

(** ** What the layer computes *)

Section exact.
Context {Q K W O : Type} (attn : Q -> list (K * W) -> O)
  (prefill : list Z -> list Z -> list Z -> list Z -> list Q -> KVBuf K W -> list O) `{!CausalPrefill attn prefill}
  (native : FBatch -> bool -> list Q -> option (list K * list W) -> KVBuf K W -> outcome (list O * KVBuf K W)).

(** A request of [at_n] tokens: its miss segments, and the slot, key and
    value of every position. *)
Record AReq := mkAReq {
  at_n : Z;
  at_segs : list (Z * Z);
  at_pool_idx : Z;
  at_slot : Z -> Z;
  at_key : Z -> K;
  at_val : Z -> W;
}.

(** The positions the request computes, in the order of its query rows. *)
Definition at_computed (r : AReq) : list Z := concat ((fun '(s, e) => pyrange s e) <$> at_segs r).

(** The query rows of a batch: request and position. *)
Definition batch_rows (rs : list AReq) : list (AReq * Z) :=
  concat ((fun r => (fun p => (r, p)) <$> at_computed r) <$> rs).

Definition row_slot (rp : AReq * Z) : Z := at_slot rp.1 rp.2.
Definition row_key (rp : AReq * Z) : K := at_key rp.1 rp.2.
Definition row_val (rp : AReq * Z) : W := at_val rp.1 rp.2.

Record areq_ok (req_to_token : list (list Z)) (buf : KVBuf K W) (computed : list Z) (r : AReq) : Prop := {
  aq_segs : Forall (fun '(s, e) => 0 <= s <= e /\ e <= at_n r) (at_segs r);
  aq_row : exists row, pyget req_to_token (at_pool_idx r) = Some row /\ at_n r <= len row /\
    slice_to row (at_n r) = at_slot r <$> pyrange 0 (at_n r);
  aq_slots : forall p, 0 <= p < at_n r -> 0 <= at_slot r p < 2 ^ 31;
  aq_cached : forall p, 0 <= p < at_n r -> p ∉ at_computed r ->
    at_slot r p ∉ computed /\ holds buf (at_slot r p) (at_key r p) (at_val r p);
}.

Definition req_runs (r : AReq) : list Run :=
  (fun '(s, e) => mkRun s (e - s) (at_slot r <$> pyrange 0 (at_n r))) <$> at_segs r.

Lemma req_runs_ok tt buf c r : areq_ok tt buf c r -> Forall run_ok (req_runs r).
Proof.
  intros [Hs _ _ _]. apply Forall_fmap, Forall_forall. intros [s e] Hin. rewrite Forall_forall in Hs.
  specialize (Hs _ Hin). cbn in Hs. unfold run_ok. cbn. rewrite len_map, len_pyrange. lia.
Qed.

Lemma req_runs_rows rs :
  runs_rows (concat (req_runs <$> rs)) =
    (fun rp => (rp.2, at_slot rp.1 <$> pyrange 0 (at_n rp.1))) <$> batch_rows rs.
Proof.
  unfold runs_rows, batch_rows. induction rs as [|r rs IH]; [done|]. rewrite !fmap_cons. cbn [concat].
  rewrite !fmap_app, concat_app, IH. f_equal. unfold req_runs, at_computed.
  induction (at_segs r) as [|[s e] segs IHs]; [done|]. rewrite !fmap_cons. cbn [concat].
  rewrite !fmap_app, IHs. f_equal. unfold run_pos. cbn. replace (s + (e - s)) with e by lia.
  by rewrite <- !list_fmap_compose.
Qed.

(** The batch carries the requests' segments and rows. *)
Definition batch_of (b : FBatch) (rs : list AReq) : Prop :=
  fb_batch_size b = len rs /\ fb_miss_segments b = at_segs <$> rs /\ fb_hit_seam b = None /\
  fb_req_pool_indices b = at_pool_idx <$> rs /\ fb_out_cache_loc b = row_slot <$> batch_rows rs.

Definition segs_from (i : Z) (r : AReq) : list (Z * Z * Z) := (fun '(s, e) => (e - s, e, i)) <$> at_segs r.

Lemma seam_seg_none b i miss_segs : fb_hit_seam b = None -> seam_seg b i miss_segs = [].
Proof. unfold seam_seg. by intros ->. Qed.

Lemma prefill_segs_eq b rs :
  batch_of b rs -> prefill_segs b = Ret (concat ((fun '(i, r) => segs_from i r) <$> enumerate rs)).
Proof.
  intros (Hn & Hm & Hs & _ & _). unfold prefill_segs, enumerate. rewrite Hn.
  assert (H : forall pre rs', rs = pre ++ rs' -> forall acc,
    ofold (fun acc req_idx =>
      obind (or_raise IndexError (pyget (fb_miss_segments b) req_idx)) (fun miss_segs =>
      Ret (acc ++ ((fun '(start, end_) => (end_ - start, end_, req_idx)) <$> miss_segs)
               ++ seam_seg b req_idx miss_segs))) acc (pyrange (len pre) (len rs)) =
    Ret (acc ++ concat ((fun '(i, r) => segs_from i r) <$> enum_from (len pre) rs'))).
  { intros pre rs'. revert pre. induction rs' as [|r rs' IH]; intros pre -> acc.
    - rewrite app_nil_r, pyrange_empty by lia. cbn. by rewrite app_nil_r.
    - unfold pyrange. rewrite seqZ_cons by (rewrite len_app, len_cons; pose proof (len_nonneg rs'); lia).
      cbn [ofold]. rewrite Hm, fmap_app, fmap_cons.
      assert (pyget ((at_segs <$> pre) ++ at_segs r :: (at_segs <$> rs')) (len pre) = Some (at_segs r)) as ->.
      { unfold pyget. pose proof (len_nonneg pre). destruct (Z.ltb_spec (len pre) 0); [lia|].
        rewrite len_app, len_cons, !len_map. pose proof (len_nonneg rs').
        destruct (Z.leb_spec 0 (len pre)); [|lia]. destruct (Z.ltb_spec (len pre) (len pre + (1 + len rs'))); [|lia].
        cbn [andb]. rewrite lookup_app_r by (rewrite length_fmap; unfold len; lia).
        rewrite length_fmap. replace (Z.to_nat (len pre) - length pre)%nat with 0%nat by (unfold len; lia). done. }
      cbn [or_raise obind]. rewrite (seam_seg_none b (len pre)), app_nil_r by done.
      specialize (IH (pre ++ [r])). rewrite <- app_assoc in IH. specialize (IH eq_refl).
      unfold pyrange in IH. rewrite len_app in IH. change (len [r]) with 1 in IH.
      rewrite <- Z.add_1_r. replace (Z.pred (len (pre ++ r :: rs') - len pre)) with (len (pre ++ r :: rs') - (len pre + 1)) by lia.
      change ([r] ++ rs') with (r :: rs') in IH.
      rewrite <- fmap_cons, <- fmap_app, <- Hm. rewrite IH. rewrite enum_from_cons, fmap_cons. cbn [concat].
      by rewrite app_assoc. }
  apply (H [] rs eq_refl []).
Qed.

Lemma pyget_enum (rs : list AReq) i r : (i, r) ∈ enumerate rs -> forall B (f : AReq -> B), pyget (f <$> rs) i = Some (f r).
Proof.
  intros (n & Hn)%list_elem_of_lookup B f. unfold enumerate in Hn. rewrite lookup_zip_with in Hn.
  destruct (seqZ 0 (len rs) !! n) as [j|] eqn:Ej; [|done]. cbn in Hn.
  destruct (rs !! n) as [r'|] eqn:Er; [|done]. cbn in Hn. injection Hn as -> ->.
  apply lookup_seqZ in Ej as [-> Hlt]. unfold pyget. rewrite len_map.
  destruct (Z.ltb_spec (0 + Z.of_nat n) 0); [lia|]. rewrite andb_true_intro by lia.
  rewrite list_lookup_fmap. replace (Z.to_nat (0 + Z.of_nat n)) with n by lia. by rewrite Er.
Qed.

Lemma runs_of_segs rs : (fun '(i, r) => req_runs r) <$> enumerate rs = req_runs <$> rs.
Proof.
  unfold enumerate. transitivity (req_runs <$> (zip (seqZ 0 (len rs)) rs).*2).
  - rewrite <- list_fmap_compose. apply list_fmap_ext. by intros ? [].
  - rewrite snd_zip; [done|]. rewrite length_seqZ. unfold len. lia.
Qed.

Lemma run_kv_seg r s e : 0 <= s <= e /\ e <= at_n r ->
  run_kv (mkRun s (e - s) (at_slot r <$> pyrange 0 (at_n r))) = at_slot r <$> pyrange 0 e.
Proof.
  intros H. unfold run_kv. cbn. rewrite slice_to_take by (rewrite len_map, len_pyrange; lia).
  rewrite <- fmap_take, take_pyrange by lia. by replace (0 + (s + (e - s))) with e by lia.
Qed.

Lemma omapM_fmap {A B C} (f : B -> outcome C) (g : A -> B) l : omapM f (g <$> l) = omapM (fun x => f (g x)) l.
Proof. induction l as [|x l IH]; [done|]. rewrite fmap_cons. cbn [omapM]. by rewrite IH. Qed.

Lemma row_prefix (row : list Z) (slot : Z -> Z) n e :
  0 <= e <= n -> n <= len row -> slice_to row n = slot <$> pyrange 0 n -> slice_to row e = slot <$> pyrange 0 e.
Proof.
  intros He Hn E. rewrite <- (slice_to_slice_to row e n), E by lia.
  rewrite slice_to_take by (rewrite len_map, len_pyrange; lia). by rewrite <- fmap_take, take_pyrange by lia.
Qed.

Lemma cu_bound l i x : Forall (fun x => 0 <= x) l -> cu_seqlens l !! i = Some x -> 0 <= x <= zsum l.
Proof.
  intros HF Hx. pose proof (cumsum_sum _ _ _ _ Hx) as ->. rewrite Z.add_0_l. clear Hx. revert i.
  induction HF as [|y l Hy HF IH]; intros k; [by destruct k|].
  pose proof (IH 0%nat) as IH0. change (zsum (take 0 l)) with 0 in IH0. rewrite zsum_cons.
  destruct k as [|k]; [change (zsum (take 0 (y :: l))) with 0; lia|].
  change (take (S k) (y :: l)) with (y :: take k l). rewrite zsum_cons. specialize (IH k). lia.
Qed.

Lemma cu_int32 l : Forall (fun x => 0 <= x) l -> zsum l < 2 ^ 31 -> to_int32 <$> cu_seqlens l = cu_seqlens l.
Proof.
  intros HF Hs. rewrite <- (list_fmap_id (cu_seqlens l)) at 2. apply list_fmap_ext. intros i x Hx. change (id x) with x.
  apply to_int32_small. pose proof (cu_bound l i x HF Hx). lia.
Qed.

(** The plan is the one of the runs of the miss segments. *)
Lemma prefill_plan_eq tt b rs buf c :
  batch_of b rs -> Forall (areq_ok tt buf c) rs ->
  let runs := concat (req_runs <$> rs) in
  zsum (ru_len <$> runs) < 2 ^ 31 -> len (runs_kv runs) < 2 ^ 31 ->
  init_pic_prefill_plan tt b = Ret (if decide (runs = []) then None else
    Some (mkPrefillPlan (runs_qo runs) (runs_kvp runs) (runs_kv runs)
      (concat ((fun r => pyrange 0 (len (run_kv r))) <$> runs)) (replicate (length runs) 1))).
Proof.
  intros Hb HF runs Hq Hkv. pose proof Hb as (_ & _ & _ & Hpool & _). rewrite Forall_forall in HF.
  unfold init_pic_prefill_plan. rewrite (prefill_segs_eq b rs Hb). cbn [obind].
  unfold runs in *. rewrite <- runs_of_segs in *. set (l := enumerate rs) in *.
  assert (Hin : forall i r, (i, r) ∈ l -> r ∈ rs).
  { intros i r Hi. by eapply elem_of_zip_r. }
  set (segs := concat ((fun '(i, r) => segs_from i r) <$> l)). set (rl := concat ((fun '(_, r) => req_runs r) <$> l)) in *.
  assert (L1 : (fun s => s.1.1) <$> segs = ru_len <$> rl).
  { apply fmap_concat_ext. intros [i r] _. unfold segs_from, req_runs. rewrite <- !list_fmap_compose.
    apply list_fmap_ext. by intros ? []. }
  assert (L2 : (fun s => s.1.2) <$> segs = (fun r => len (run_kv r)) <$> rl).
  { apply fmap_concat_ext. intros [i r] Hi. unfold segs_from, req_runs. rewrite <- !list_fmap_compose.
    apply list_fmap_ext. intros n [s e] Hn. cbn. destruct (HF r (Hin _ _ Hi)) as [Hs _ _ _]. rewrite Forall_forall in Hs.
    specialize (Hs _ (list_elem_of_lookup_2 _ _ _ Hn)). cbn in Hs. rewrite run_kv_seg, len_map, len_pyrange by done. lia. }
  assert (L4 : length segs = length rl) by (rewrite <- (length_fmap (fun s => s.1.1)), L1, length_fmap; done).
  assert (L3 : omapM (seg_slots tt b) segs = Ret (concat ((fun '(_, r) => run_kv <$> req_runs r) <$> l))).
  { apply omapM_concat. intros [i r] Hi. unfold segs_from, req_runs. rewrite omapM_fmap.
    destruct (HF r (Hin _ _ Hi)) as [Hs (row & Erow & Hrow & Erow') _ _].
    rewrite (omapM_Ret _ (fun se => run_kv (mkRun se.1 (se.2 - se.1) (at_slot r <$> pyrange 0 (at_n r))))).
    - f_equal. rewrite <- list_fmap_compose. apply list_fmap_ext. by intros ? [].
    - intros [s e] Hse. rewrite Forall_forall in Hs. specialize (Hs _ Hse). cbn in Hs. unfold seg_slots.
      rewrite Hpool, (pyget_enum rs i r Hi). cbn [or_raise obind fst snd]. rewrite Erow. cbn [or_raise obind].
      f_equal. rewrite run_kv_seg by done. apply row_prefix with (n := at_n r); (done || lia). }
  assert (L5 : concat ((fun '(_, r) => run_kv <$> req_runs r) <$> l) = run_kv <$> rl).
  { unfold rl. rewrite fmap_concat_fmap. apply f_equal, list_fmap_ext. by intros ? []. }
  assert (L6 : (fun s => pyrange 0 s.1.2) <$> segs = (fun r => pyrange 0 (len (run_kv r))) <$> rl).
  { transitivity (pyrange 0 <$> ((fun s : Z * Z * Z => s.1.2) <$> segs)); [by rewrite <- list_fmap_compose|].
    by rewrite L2, <- list_fmap_compose. }
  rewrite L5 in L3. rewrite L1, L2, L3, L4, L6. cbn [obind].
  assert (Hok : Forall run_ok rl).
  { apply Forall_concat, Forall_fmap, Forall_forall. intros [i r] Hi. eapply req_runs_ok, HF, Hin, Hi. }
  assert (Hkv' : zsum ((fun r => len (run_kv r)) <$> rl) < 2 ^ 31).
  { unfold runs_kv in Hkv. rewrite len_concat, <- list_fmap_compose in Hkv. exact Hkv. }
  assert (P1 : Forall (fun x => 0 <= x) (ru_len <$> rl)) by (apply Forall_fmap; eapply Forall_impl; [exact Hok|]; intros r Hr; apply Hr).
  assert (P2 : Forall (fun x => 0 <= x) ((fun r => len (run_kv r)) <$> rl)).
  { apply Forall_fmap, Forall_forall. intros r _. apply len_nonneg. }
  rewrite (cu_int32 _ P1 Hq), (cu_int32 _ P2 Hkv').
  assert (to_int32 <$> concat (run_kv <$> rl) = runs_kv rl) as ->.
  { unfold runs_kv. rewrite <- (list_fmap_id (concat (run_kv <$> rl))) at 2. apply list_fmap_ext. intros n x Hx.
    apply to_int32_small. apply list_elem_of_lookup_2, elem_of_concat_map in Hx as (run & Hrun & Hx).
    apply elem_of_concat_map in Hrun as ([i r] & Hi & ([s e] & -> & Hse)%list_elem_of_fmap).
    destruct (HF r (Hin _ _ Hi)) as [Hs _ Hslot _]. rewrite Forall_forall in Hs. specialize (Hs _ Hse). cbn in Hs.
    rewrite run_kv_seg in Hx by done. apply list_elem_of_fmap in Hx as (p & -> & Hp%elem_of_pyrange). apply Hslot. lia. }
  destruct segs as [|s0 segs'], rl as [|r0 rl']; try done.
Qed.

(** After the layer's writes every position of a request holds its key and
    value. *)
Lemma writes_hold tt b rs buf :
  batch_of b rs -> buf_ok buf -> NoDup (row_slot <$> batch_rows rs) ->
  Forall (slot_ok buf) (row_slot <$> batch_rows rs) ->
  Forall (areq_ok tt buf (row_slot <$> batch_rows rs)) rs ->
  exists buf', put_kv (fb_out_cache_loc b) (row_key <$> batch_rows rs) (row_val <$> batch_rows rs) buf = Ret buf' /\
    forall r p, r ∈ rs -> 0 <= p < at_n r -> holds buf' (at_slot r p) (at_key r p) (at_val r p).
Proof.
  intros (_ & _ & _ & _ & Hloc) Hb Hn Hs HF. rewrite Hloc.
  destruct (put_kv_spec buf (batch_rows rs) row_slot row_key row_val Hb Hn Hs) as (buf' & E & HW & Hsame).
  exists buf'. split; [done|]. intros r p Hr Hp. rewrite Forall_forall in HF.
  destruct (decide (p ∈ at_computed r)) as [Hc|Hc].
  - apply (HW (r, p)). apply elem_of_concat_map. exists r. split; [done|]. apply list_elem_of_fmap. by exists p.
  - destruct (aq_cached _ _ _ _ (HF r Hr) p Hp Hc) as [Hni Hh]. eapply same_except_holds; try done.
    by apply (aq_slots _ _ _ _ (HF r Hr)).
Qed.

Lemma len_runs_rows runs : Forall run_ok runs -> len (runs_rows runs) = zsum (ru_len <$> runs).
Proof.
  unfold runs_rows. induction 1 as [|r runs Hr _ IH]; [done|]. rewrite !fmap_cons, zsum_cons, <- IH. cbn [concat].
  rewrite len_app, len_map. unfold run_pos. rewrite len_pyrange. destruct Hr as (? & ? & ?). lia.
Qed.

Lemma len_req_runs_kv tt buf c rs : Forall (areq_ok tt buf c) rs ->
  len (runs_kv (concat (req_runs <$> rs))) = zsum (concat ((fun r => (fun '(_, e) => e) <$> at_segs r) <$> rs)).
Proof.
  intros HF. unfold runs_kv. rewrite len_concat, <- list_fmap_compose. f_equal. rewrite fmap_concat_fmap.
  apply f_equal, list_fmap_ext. intros i r Hi. unfold req_runs. rewrite <- list_fmap_compose. apply list_fmap_ext.
  intros n [s e] Hn. rewrite Forall_forall in HF. destruct (HF r (list_elem_of_lookup_2 _ _ _ Hi)) as [Hs _ _ _].
  rewrite Forall_forall in Hs. specialize (Hs _ (list_elem_of_lookup_2 _ _ _ Hn)). cbn in *.
  rewrite run_kv_seg, len_map, len_pyrange by done. lia.
Qed.

Lemma computed_range tt buf c rs r p :
  Forall (areq_ok tt buf c) rs -> r ∈ rs -> p ∈ at_computed r -> 0 <= p < at_n r.
Proof.
  intros HF Hr ([s e] & Hse & Hp%elem_of_pyrange)%elem_of_concat_map. rewrite Forall_forall in HF.
  destruct (HF r Hr) as [Hs _ _ _]. rewrite Forall_forall in Hs. specialize (Hs _ Hse). cbn in Hs. lia.
Qed.

(** C6. A full-attention layer without re-rotation: for a batch whose
    requests keep the keys and values of their cached positions in the
    slots of their rows, the layer raises nothing, leaves every position's
    key and value in its slot, and each computed token's output is the
    attention of its query over exactly the positions up to its own, in
    order -- whether they were cached or computed in this batch. *)
Theorem full_attn_exact tt b rs q buf head_dim :
  head_dim ∈ FLASHINFER_SUPPORTED_DIMS -> batch_of b rs -> buf_ok buf ->
  NoDup (row_slot <$> batch_rows rs) -> Forall (slot_ok buf) (row_slot <$> batch_rows rs) ->
  Forall (areq_ok tt buf (row_slot <$> batch_rows rs)) rs -> length q = length (batch_rows rs) ->
  len q < 2 ^ 31 -> zsum (concat ((fun r => (fun '(_, e) => e) <$> at_segs r) <$> rs)) < 2 ^ 31 ->
  exists plan out buf',
    init_pic_prefill_plan tt b = Ret plan /\
    forward_extend_pic_full_attn prefill native b plan head_dim true q
      (Some (row_key <$> batch_rows rs, row_val <$> batch_rows rs)) buf = Ret (out, buf') /\
    (forall r p, r ∈ rs -> 0 <= p < at_n r -> holds buf' (at_slot r p) (at_key r p) (at_val r p)) /\
    length out = length q /\
    forall j r p x, batch_rows rs !! j = Some (r, p) -> q !! j = Some x ->
      out !! j = Some (attn x ((fun p' => (at_key r p', at_val r p')) <$> pyrange 0 (p + 1))).
Proof.
  intros Hd Hb Hbuf Hn Hs HF Hq Hq31 Hkv31. set (runs := concat (req_runs <$> rs)).
  assert (Hok : Forall run_ok runs).
  { apply Forall_concat, Forall_fmap, Forall_forall. intros r Hr. rewrite Forall_forall in HF. by eapply req_runs_ok, HF. }
  assert (Hrows : length (runs_rows runs) = length q) by (unfold runs; by rewrite req_runs_rows, length_fmap).
  pose proof (prefill_plan_eq tt b rs buf _ Hb HF) as Hplan. cbv zeta in Hplan. fold runs in Hplan.
  rewrite Hplan; [clear Hplan| |].
  2: { rewrite <- len_runs_rows by done. unfold len in *. by rewrite Hrows. }
  2: { unfold runs. rewrite (len_req_runs_kv tt buf _ rs HF). done. }
  destruct (writes_hold tt b rs buf Hb Hbuf Hn Hs HF) as (buf' & Eput & Hhold).
  unfold forward_extend_pic_full_attn. rewrite bool_decide_true by done. cbn [negb]. rewrite Eput. cbn [obind].
  assert (Hrow : forall j r p x, batch_rows rs !! j = Some (r, p) -> q !! j = Some x ->
    prefill (runs_qo runs) (runs_kvp runs) (runs_kv runs) (replicate (length runs) 1) q buf' !! j =
      Some (attn x ((fun p' => (at_key r p', at_val r p')) <$> pyrange 0 (p + 1)))).
  { intros j r p x Hj Hx. assert (Hr : r ∈ rs /\ p ∈ at_computed r).
    { apply list_elem_of_lookup_2, elem_of_concat_map in Hj as (r' & Hr' & Hin).
      apply list_elem_of_fmap in Hin as (p' & [= <- <-] & Hp). done. }
    destruct Hr as [Hr Hp]. apply (computed_range tt buf _ rs r p HF Hr) in Hp.
    eapply (prefill_runs attn prefill runs); [done| |done|].
    - unfold runs. rewrite req_runs_rows, list_lookup_fmap, Hj. done.
    - cbn. rewrite slice_to_take by (rewrite len_map, len_pyrange; lia). rewrite <- fmap_take, take_pyrange by lia.
      apply kv_rows_map. intros p' Hp'%elem_of_pyrange. apply Hhold; [done|lia]. }
  case_decide as Ed.
  - rewrite Ed in Hrows. destruct q; [|done]. exists None, [], buf'.
    split; [done|]. split; [done|]. split; [done|]. split; [done|]. intros j r p x _ Hx. by rewrite lookup_nil in Hx.
  - eexists (Some _), _, buf'. split; [done|]. split; [done|]. split; [done|]. split; [apply prefill_length|done].
Qed.

End exact.

(** ** An instance: a cached segment [0, 2) and a computed one [2, 4) *)

Module TwoSegments.

Definition req : AReq (K := Z) (W := Z) :=
  mkAReq 4 [(2, 4)] 0 (fun p => if p <? 2 then p + 5 else p - 1) (fun p => p + 10) (fun p => p + 20).
Definition batch : FBatch := mkFBatch 1 [[(2, 4)]] None [0] [1; 2].
Definition req_to_token : list (list Z) := [[5; 6; 1; 2; 0]].
Definition buf : KVBuf Z Z := mkKVBuf [0; 0; 0; 0; 0; 10; 11] [0; 0; 0; 0; 0; 20; 21].
Definition attn (q : Z) (ctx : list (Z * Z)) : Z * list (Z * Z) := (q, ctx).
Definition native (b : FBatch) (s : bool) (q : list Z) (kv : option (list Z * list Z)) (buf : KVBuf Z Z)
    : outcome (list (Z * list (Z * Z)) * KVBuf Z Z) := Raise NotImplementedError.

Lemma two_req_ok : areq_ok req_to_token buf [1; 2] req.
Proof.
  split.
  - by repeat constructor.
  - by exists [5; 6; 1; 2; 0].
  - cbn. intros p Hp. destruct (Z.ltb_spec p 2); lia.
  - intros p Hp Hc. change (at_n req) with 4 in Hp. assert (p = 0 \/ p = 1) as [-> | ->].
    { destruct (decide (2 <= p)); [|lia]. exfalso. apply Hc. unfold at_computed. cbn.
      apply elem_of_app. left. apply elem_of_pyrange. lia. }
    all: split; [apply not_elem_of_cons; split; [done|apply not_elem_of_cons; split; [done|apply not_elem_of_nil]]|done].
Qed.

End TwoSegments.

Lemma full_attn_exact_witness :
  exists plan buf',
    init_pic_prefill_plan TwoSegments.req_to_token TwoSegments.batch = Ret plan /\
    forward_extend_pic_full_attn (RefPrefill.prefill TwoSegments.attn) TwoSegments.native TwoSegments.batch plan 64 true
      [1; 2] (Some ([12; 13], [22; 23])) TwoSegments.buf =
      Ret ([(1, [(10, 20); (11, 21); (12, 22)]); (2, [(10, 20); (11, 21); (12, 22); (13, 23)])], buf').
Proof.
  destruct (full_attn_exact TwoSegments.attn (RefPrefill.prefill TwoSegments.attn) TwoSegments.native
    TwoSegments.req_to_token TwoSegments.batch [TwoSegments.req] [1; 2] TwoSegments.buf 64)
    as (plan & out & buf' & Hp & Hf & _ & Hl & Hrow).
  - left.
  - done.
  - done.
  - change (NoDup [1; 2]). apply NoDup_ListNoDup. repeat constructor; cbn; lia.
  - by repeat constructor.
  - constructor; [exact TwoSegments.two_req_ok|constructor].
  - done.
  - done.
  - by vm_compute.
  - exists plan, buf'. split; [exact Hp|].
    pose proof (Hrow 0%nat TwoSegments.req 2 1 eq_refl eq_refl) as R0.
    pose proof (Hrow 1%nat TwoSegments.req 3 2 eq_refl eq_refl) as R1.
    destruct out as [|o0 [|o1 [|]]]; try discriminate Hl.
    injection R0 as R0. injection R1 as R1. subst o0 o1. exact Hf.
Defined.
