(* ===== verification/RopeKV.v ===== *)
(** * Re-rotation of cached keys

    In the re-rotation modes a cached segment's keys are kept as if the
    segment began at position 0; a request that reuses the segment at
    another position rotates them there.  The rotation
    ([apply_rotary_emb] of srt/layers/rotary_embedding/utils.py, its inverse
    and its partial forms) and the two phases that write the key and value
    buffers ([_pic_rope_phase_a_kv_only], [_pic_rope_phase_b] of
    srt/layers/attention/hybrid_linear_attn_backend.py).  Entries are of any
    commutative ring. *)

From S2P Require Import Prelude PyDict ConvTails KVBuffer.

(** A request's segments for the full-attention layers (the dictionaries
    [pic_rope_meta] of the forward batch): [(start, end, private slots,
    public slots)] of the computed and of the reused segments,
    [(start, end, private slots)] of the last one, and the sinks. *)
Record RopeMeta := mkRopeMeta {
  ro_local_miss : list (Z * Z * list Z * list Z);
  ro_local_hit : list (Z * Z * list Z * list Z);
  ro_global : option (Z * Z * list Z);
  ro_hit_seam : option (list (Z * Z * list Z));
}.

Section rope.
Context {R : Type} (radd rmul rsub : R -> R -> R) (ropp : R -> R).

(** ** The rotation of one head *)

(** [x[..., ::2]] and [x[..., 1::2]], and [stack(...).flatten(-2)]. *)
Fixpoint evens (x : list R) : list R :=
  match x with a :: _ :: x' => a :: evens x' | [a] => [a] | [] => [] end.
Fixpoint odds (x : list R) : list R :=
  match x with _ :: b :: x' => b :: odds x' | _ => [] end.
Fixpoint interleave (a b : list R) : list R :=
  match a, b with x :: a', y :: b' => x :: y :: interleave a' b' | _, _ => [] end.

(** [torch.chunk(x, 2, dim=-1)] of an even dimension. *)
Definition chunk2 (x : list R) : list R * list R :=
  (take (length x / 2) x, drop (length x / 2) x).

Definition apply_rotary_emb (x cos sin : list R) (is_neox_style : bool) : list R :=
  let '(x1, x2) := if is_neox_style then chunk2 x else (evens x, odds x) in
  let o1 := zip_with rsub (zip_with rmul x1 cos) (zip_with rmul x2 sin) in
  let o2 := zip_with radd (zip_with rmul x2 cos) (zip_with rmul x1 sin) in
  if is_neox_style then o1 ++ o2 else interleave o1 o2.

Definition derotate_kv (k cos sin : list R) (is_neox_style : bool) : list R :=
  apply_rotary_emb k cos (ropp <$> sin) is_neox_style.

Definition rerotate_kv (k cos sin : list R) (is_neox_style : bool) : list R :=
  apply_rotary_emb k cos sin is_neox_style.

(** [_derotate_with_partial], [_rerotate_with_partial]: only the first
    [rotary_dim] entries are rotated. *)
Definition with_partial (f : list R -> list R -> list R -> bool -> list R) (x cos sin : list R)
    (rotary_dim head_dim : Z) (is_neox : bool) : list R :=
  if rotary_dim <? head_dim
  then f (slice_to x rotary_dim) cos sin is_neox ++ slice_from x rotary_dim
  else f x cos sin is_neox.

(** ** The phases *)

(** Layout of the rotary embedding: [cos ++ sin] by position. *)
Record RopeCfg := mkRopeCfg {
  rc_cos_sin_cache : list (list R);
  rc_rotary_dim : Z;
  rc_head_dim : Z;
  rc_is_neox : bool;
}.

(** A token's key: one row per head; values are copied only. *)
Context {W : Type}.
Local Notation KVBuf := (KVBuf (list (list R)) W).

Definition rotate_row (f : list R -> list R -> list R -> bool -> list R) (c : RopeCfg) (pos : Z)
    (k : list (list R)) : outcome (list (list R)) :=
  obind (index_select (rc_cos_sin_cache c) pos) (fun cs =>
    let '(cos, sin) := chunk2 cs in
    Ret ((fun x => with_partial f x cos sin (rc_rotary_dim c) (rc_head_dim c) (rc_is_neox c)) <$> k)).

(** The rows of [cos] and [sin] against those of the keys: one position
    serves every key, otherwise the lengths must agree. *)
Definition align_rows {A} (positions : list Z) (rows : list A) : outcome (list (Z * A)) :=
  match positions with
  | [p] => Ret ((fun k => (p, k)) <$> rows)
  | _ => if (length positions =? length rows)%nat then Ret (zip positions rows) else Raise RuntimeError
  end.

Definition phase_a_seg (c : RopeCfg) (k3 : list (list (list R))) (v3 : list W) (local_q_indices : list Z)
    (acc : KVBuf * Z) (seg : Z * Z * list Z * list Z) : outcome (KVBuf * Z) :=
  let '(buf, lq_cursor) := acc in
  let '(start, end_, priv, pub) := seg in
  let seg_len := end_ - start in
  let seg_q_idx := pyslice local_q_indices lq_cursor (lq_cursor + seg_len) in
  obind (omapM (index_select k3) seg_q_idx) (fun k_seg =>
  obind (omapM (index_select v3) seg_q_idx) (fun v_seg =>
  obind (omapM (rotate_row derotate_kv c start) k_seg) (fun k_zero =>
  obind (put_rows (kb_k buf) pub k_zero) (fun k1 =>
  obind (put_rows (kb_v buf) pub v_seg) (fun v1 =>
  obind (put_rows k1 priv k_seg) (fun k2 =>
  obind (put_rows v1 priv v_seg) (fun v2 =>
  Ret (mkKVBuf k2 v2, lq_cursor + seg_len)))))))).

Definition pic_rope_phase_a_kv_only (c : RopeCfg) (k3 : list (list (list R))) (v3 : list W)
    (rope_meta : list RopeMeta) (local_q_indices : list Z) (buf : KVBuf) : outcome KVBuf :=
  obind (ofold (phase_a_seg c k3 v3 local_q_indices) (buf, 0) (concat (ro_local_miss <$> rope_meta)))
    (fun r => Ret r.1).

(** [_build_pic_rope_phase_b_cache]: source and destination rows of the
    reused segments and the position each is rotated to, [None] when no
    segment is reused. *)
Notation BCache := (list Z * list Z * list Z)%type (only parsing).

Definition phase_b_cache (rope_meta : list RopeMeta) : option BCache :=
  match filter (fun h : Z * Z * list Z * list Z => h.1.2 <> []) (concat (ro_local_hit <$> rope_meta)) with
  | [] => None
  | hits =>
      Some (concat ((fun '(start, end_, priv, entry_pub) => entry_pub) <$> hits),
            concat ((fun '(start, end_, priv, entry_pub) => priv) <$> hits),
            concat ((fun '(start, end_, priv, entry_pub) => replicate (Z.to_nat (end_ - start)) start) <$> hits))
  end.

(** The rows are built for the first layer of a batch and kept. *)
Definition pic_rope_phase_b (c : RopeCfg) (rope_meta : list RopeMeta) (st : option BCache * KVBuf)
    : outcome (option BCache * KVBuf) :=
  let '(kept, buf) := st in
  let cache := match kept with Some _ => kept | None => phase_b_cache rope_meta end in
  match cache with
  | None => Ret (None, buf)
  | Some (src, dst, positions) =>
      obind (omapM (index_select (kb_k buf)) src) (fun k_zero =>
      obind (omapM (index_select (kb_v buf)) src) (fun v_zero =>
      obind (align_rows positions k_zero) (fun rows =>
      obind (omapM (fun '(p, k) => rotate_row rerotate_kv c p k) rows) (fun k_real =>
      obind (put_rows (kb_k buf) dst k_real) (fun k1 =>
      obind (put_rows (kb_v buf) dst v_zero) (fun v1 =>
      Ret (cache, mkKVBuf k1 v1)))))))
  end.

End rope.
