(* ===== verification/RopeKVFacts.v ===== *)
(** * Re-rotation of cached keys: correctness

    Rotations by positions compose and are undone by [derotate_kv]; so the
    keys that phase A files for a computed segment are those of the segment
    at position 0, and phase B turns them into the keys that the model
    would compute at the position where the segment is reused. *)

From Stdlib Require Import Ring.
From S2P Require Import Prelude PyDict ConvTails ConvTailsFacts KVBuffer RopeKV.

Lemma index_puts_app {A} (t : list A) w1 w2 :
  index_puts t (w1 ++ w2) = obind (index_puts t w1) (fun t' => index_puts t' w2).
Proof.
  revert t. induction w1 as [|[i x] w1 IH]; intros t; cbn; [done|].
  destruct (index_put t i x); cbn; [apply IH|done].
Qed.

(** ** Splitting and joining a head *)

Section join.
Context {R : Type}.
Implicit Types x a b : list R.

Definition split_head (neox : bool) x : list R * list R := if neox then chunk2 x else (evens x, odds x).
Definition join_head (neox : bool) (p : list R * list R) : list R :=
  if neox then p.1 ++ p.2 else interleave p.1 p.2.

Lemma evens_odds_interleave a b :
  length a = length b -> evens (interleave a b) = a /\ odds (interleave a b) = b.
Proof.
  revert b. induction a as [|x a IH]; intros [|y b] [=]; cbn; [done|].
  destruct (IH b) as [-> ->]; done.
Qed.

Lemma interleave_evens_odds h x :
  length x = (2 * h)%nat -> interleave (evens x) (odds x) = x /\ length (evens x) = h /\ length (odds x) = h.
Proof.
  revert x. induction h as [|h IH]; intros x Hl.
  - destruct x; [done|]. cbn in Hl. lia.
  - destruct x as [|a [|b x]]; cbn in Hl; [lia..|]. cbn.
    destruct (IH x) as (-> & -> & ->); [lia|done].
Qed.

Lemma split_join neox a b : length a = length b -> split_head neox (join_head neox (a, b)) = (a, b).
Proof.
  intros Hl. destruct neox; unfold split_head, join_head, chunk2; cbn [fst snd].
  - rewrite length_app, Hl.
    replace (length b + length b)%nat with (length b * 2)%nat by lia. rewrite Nat.div_mul by lia.
    rewrite <- Hl. by rewrite take_app_length, drop_app_length.
  - destruct (evens_odds_interleave a b Hl) as [-> ->]. done.
Qed.

Lemma join_split neox h x :
  length x = (2 * h)%nat ->
  join_head neox (split_head neox x) = x /\
  length (split_head neox x).1 = h /\ length (split_head neox x).2 = h.
Proof.
  intros Hl. destruct neox; unfold split_head, join_head, chunk2; cbn [fst snd].
  - rewrite Hl. replace (2 * h)%nat with (h * 2)%nat by lia. rewrite Nat.div_mul by lia.
    split; [apply take_drop|]. rewrite length_take, length_drop. lia.
  - by apply interleave_evens_odds.
Qed.

End join.

(** ** Rotations *)

Section rotation.
Context {R : Type} (rO rI : R) (radd rmul rsub : R -> R -> R) (ropp : R -> R).
Context (Rth : ring_theory rO rI radd rmul rsub ropp (@eq R)).
Add Ring Rring : Rth.
Implicit Types c s : list R.
Local Notation "x * y" := (zip_with rmul x y).
Local Notation "x - y" := (zip_with rsub x y).
Local Notation "x + y" := (zip_with radd x y).

Definition rot2 (p : list R * list R) c s : list R * list R :=
  (p.1 * c - p.2 * s, p.2 * c + p.1 * s).

Lemma apply_rotary_rot2 x c s neox :
  apply_rotary_emb radd rmul rsub x c s neox = join_head neox (rot2 (split_head neox x) c s).
Proof. unfold apply_rotary_emb, rot2. by destruct neox. Qed.

Lemma length_rot2 h p c s :
  length p.1 = h -> length p.2 = h -> length c = h -> length s = h ->
  length (rot2 p c s).1 = h /\ length (rot2 p c s).2 = h.
Proof. intros. cbn. rewrite !length_zip_with. lia. Qed.

Lemma rot2_comp h p c s c' s' :
  length p.1 = h -> length p.2 = h -> length c = h -> length s = h -> length c' = h -> length s' = h ->
  rot2 (rot2 p c s) c' s' = rot2 p (c * c' - s * s') (s * c' + c * s').
Proof.
  destruct p as [a b]. cbn [fst snd]. revert a b c s c' s'.
  induction h as [|h IH]; intros a b c s c' s' H1 H2 H3 H4 H5 H6;
    destruct a, b, c, s, c', s'; try done.
  injection H1 as H1. injection H2 as H2. injection H3 as H3. injection H4 as H4.
  injection H5 as H5. injection H6 as H6.
  specialize (IH a b c s c' s' H1 H2 H3 H4 H5 H6). unfold rot2 in *. cbn in *.
  injection IH as IH1 IH2. f_equal; f_equal; [ring|done|ring|done].
Qed.

Lemma rot2_inv h p c s :
  length p.1 = h -> length p.2 = h -> length c = h -> length s = h ->
  c * c + s * s = replicate h rI -> rot2 (rot2 p c s) c (ropp <$> s) = p.
Proof.
  destruct p as [a b]. cbn [fst snd]. revert a b c s.
  induction h as [|h IH]; intros a b c s H1 H2 H3 H4 HI;
    destruct a as [|x a], b as [|y b], c as [|z c], s as [|w s]; try done.
  injection H1 as H1. injection H2 as H2. injection H3 as H3. injection H4 as H4.
  cbn in HI. injection HI as HI HI'. specialize (IH a b c s H1 H2 H3 H4 HI').
  unfold rot2 in *. cbn in *. injection IH as IH1 IH2. f_equal; f_equal; try done.
  - transitivity (rmul x (radd (rmul z z) (rmul w w))); [ring|]. rewrite HI. ring.
  - transitivity (rmul y (radd (rmul z z) (rmul w w))); [ring|]. rewrite HI. ring.
Qed.

(** ** Keys and the table of angles *)

Context (cfg : RopeCfg (R := R)).

Definition rot_dim : nat :=
  Z.to_nat (if rc_rotary_dim cfg <? rc_head_dim cfg then rc_rotary_dim cfg else rc_head_dim cfg).

Definition cos_at (p : Z) : list R := (chunk2 (default [] (rc_cos_sin_cache cfg !! Z.to_nat p))).1.
Definition sin_at (p : Z) : list R := (chunk2 (default [] (rc_cos_sin_cache cfg !! Z.to_nat p))).2.

(** What the rotary embedding documents: the table holds the cosines and
    sines of the multiples of fixed angles. *)
Record angles_ok : Prop := {
  ao_dims : 0 <= rc_rotary_dim cfg /\ 0 <= rc_head_dim cfg;
  ao_even : exists h, rot_dim = (2 * h)%nat;
  ao_rows : Forall (fun row => length row = rot_dim) (rc_cos_sin_cache cfg);
  ao_cos : forall a b, 0 <= a -> 0 <= b -> (a + b < len (rc_cos_sin_cache cfg))%Z ->
    cos_at (a + b)%Z = cos_at a * cos_at b - sin_at a * sin_at b;
  ao_sin : forall a b, 0 <= a -> 0 <= b -> (a + b < len (rc_cos_sin_cache cfg))%Z ->
    sin_at (a + b)%Z = sin_at a * cos_at b + cos_at a * sin_at b;
  ao_unit : forall a, 0 <= a < len (rc_cos_sin_cache cfg) ->
    cos_at a * cos_at a + sin_at a * sin_at a = replicate (rot_dim / 2) rI;
}.

Definition rot_head (x : list R) (p : Z) : list R :=
  with_partial (rerotate_kv radd rmul rsub) x (cos_at p) (sin_at p) (rc_rotary_dim cfg) (rc_head_dim cfg) (rc_is_neox cfg).
Definition derot_head (x : list R) (p : Z) : list R :=
  with_partial (derotate_kv radd rmul rsub ropp) x (cos_at p) (sin_at p) (rc_rotary_dim cfg) (rc_head_dim cfg) (rc_is_neox cfg).

(** A key, one row per head, rotated to position [p] and back. *)
Definition rot_key (p : Z) (k : list (list R)) : list (list R) := (fun x => rot_head x p) <$> k.
Definition derot_key (p : Z) (k : list (list R)) : list (list R) := (fun x => derot_head x p) <$> k.
Definition key_ok (k : list (list R)) : Prop := Forall (fun x => len x = rc_head_dim cfg) k.

Lemma angles_length (H : angles_ok) h p :
  rot_dim = (2 * h)%nat -> 0 <= p < len (rc_cos_sin_cache cfg) ->
  length (cos_at p) = h /\ length (sin_at p) = h.
Proof.
  intros Eh Hp. destruct (lookup_lt_is_Some_2 (rc_cos_sin_cache cfg) (Z.to_nat p)) as [row Er];
    [unfold len in Hp; lia|].
  pose proof (ao_rows H) as HF. rewrite Forall_forall in HF.
  specialize (HF row (list_elem_of_lookup_2 _ _ _ Er)). rewrite Eh in HF.
  unfold cos_at, sin_at. rewrite Er. apply (join_split true h row HF).
Qed.

Section head.
Context (HA : angles_ok).

Local Notation rote x p := (apply_rotary_emb radd rmul rsub x (cos_at p) (sin_at p) (rc_is_neox cfg)).
Local Notation derote x p :=
  (apply_rotary_emb radd rmul rsub x (cos_at p) (ropp <$> sin_at p) (rc_is_neox cfg)).

Lemma length_rote x p : length x = rot_dim -> 0 <= p < len (rc_cos_sin_cache cfg) -> length (rote x p) = rot_dim.
Proof.
  intros Hl Hp. destruct (ao_even HA) as [h Eh]. destruct (angles_length HA h p Eh Hp) as [Hc Hs].
  rewrite Eh in Hl. destruct (join_split (rc_is_neox cfg) h x Hl) as (_ & H1 & H2).
  rewrite apply_rotary_rot2.
  destruct (length_rot2 h (split_head (rc_is_neox cfg) x) (cos_at p) (sin_at p)) as [L1 L2]; try done.
  destruct (rot2 _ _ _) as [u v]. cbn in L1, L2. rewrite Eh. destruct (rc_is_neox cfg); cbn.
  - rewrite length_app. lia.
  - clear - L1 L2. revert v h L1 L2. induction u as [|? u IH]; intros [|? v] h L1 L2; cbn in *; try lia.
    destruct h as [|h]; [lia|]. rewrite (IH v h); lia.
Qed.

Lemma rote_add x a b :
  length x = rot_dim -> 0 <= a -> 0 <= b -> (a + b < len (rc_cos_sin_cache cfg))%Z ->
  rote (rote x a) b = rote x (a + b)%Z.
Proof.
  intros Hl H0a H0b Hab. destruct (ao_even HA) as [h Eh].
  destruct (angles_length HA h a Eh) as [Ca Sa]; [lia|]. destruct (angles_length HA h b Eh) as [Cb Sb]; [lia|].
  rewrite Eh in Hl. destruct (join_split (rc_is_neox cfg) h x Hl) as (_ & H1 & H2).
  rewrite !apply_rotary_rot2.
  destruct (length_rot2 h (split_head (rc_is_neox cfg) x) (cos_at a) (sin_at a)) as [L1 L2]; try done.
  rewrite (surjective_pairing (rot2 (split_head _ x) (cos_at a) (sin_at a))), split_join, <- surjective_pairing by congruence.
  rewrite (rot2_comp h) by done. by rewrite (ao_cos HA), (ao_sin HA) by done.
Qed.

Lemma derote_rote x p :
  length x = rot_dim -> 0 <= p < len (rc_cos_sin_cache cfg) -> derote (rote x p) p = x.
Proof.
  intros Hl Hp. destruct (ao_even HA) as [h Eh]. destruct (angles_length HA h p Eh Hp) as [Cp Sp].
  rewrite Eh in Hl. destruct (join_split (rc_is_neox cfg) h x Hl) as (Hj & H1 & H2).
  rewrite !apply_rotary_rot2.
  destruct (length_rot2 h (split_head (rc_is_neox cfg) x) (cos_at p) (sin_at p)) as [L1 L2]; try done.
  rewrite (surjective_pairing (rot2 (split_head _ x) (cos_at p) (sin_at p))), split_join, <- surjective_pairing by congruence.
  rewrite (rot2_inv h) by (done || (rewrite (ao_unit HA) by done; f_equal; rewrite Eh, Nat.mul_comm, Nat.div_mul; lia)).
  done.
Qed.

(** The rotated part of a head and the rest. *)
Lemma with_partial_eq f (x c s : list R) :
  len x = rc_head_dim cfg ->
  with_partial f x c s (rc_rotary_dim cfg) (rc_head_dim cfg) (rc_is_neox cfg) =
  f (take rot_dim x) c s (rc_is_neox cfg) ++ drop rot_dim x.
Proof.
  intros Hl. pose proof (ao_dims HA). unfold with_partial, rot_dim, slice_to, slice_from, pyidx.
  destruct (Z.ltb_spec (rc_rotary_dim cfg) (rc_head_dim cfg)).
  - destruct (Z.ltb_spec (rc_rotary_dim cfg) 0); [lia|]. by rewrite Z.min_l by lia.
  - rewrite take_ge, drop_ge, app_nil_r by (unfold len in Hl; lia). done.
Qed.

Lemma length_take_rot (x : list R) : len x = rc_head_dim cfg -> length (take rot_dim x) = rot_dim.
Proof.
  intros Hl. pose proof (ao_dims HA). rewrite length_take. unfold rot_dim, len in *.
  destruct (Z.ltb_spec (rc_rotary_dim cfg) (rc_head_dim cfg)); lia.
Qed.

(** [f] maps the rotated part to one of the same length. *)
Lemma partial_parts (y z : list R) :
  length y = rot_dim -> take rot_dim (y ++ z) = y /\ drop rot_dim (y ++ z) = z.
Proof. intros <-. by rewrite take_app_length, drop_app_length. Qed.

Lemma len_rot_head x p :
  len x = rc_head_dim cfg -> 0 <= p < len (rc_cos_sin_cache cfg) -> len (rot_head x p) = rc_head_dim cfg.
Proof.
  intros Hl Hp. unfold rot_head. rewrite with_partial_eq by done. unfold len in *.
  pose proof (length_take_rot x Hl) as Ht. unfold rerotate_kv.
  rewrite length_app, length_rote, length_drop by done. rewrite length_take in Ht. lia.
Qed.

Lemma rot_head_add x a b :
  len x = rc_head_dim cfg -> 0 <= a -> 0 <= b -> (a + b < len (rc_cos_sin_cache cfg))%Z ->
  rot_head (rot_head x a) b = rot_head x (a + b)%Z.
Proof.
  intros Hl Ha Hb Hab. pose proof (length_take_rot x Hl) as Ht.
  assert (Hl' : len (rot_head x a) = rc_head_dim cfg) by (apply len_rot_head; [done|lia]).
  unfold rot_head at 1. rewrite with_partial_eq by done.
  assert (E : rot_head x a = rote (take rot_dim x) a ++ drop rot_dim x)
    by (unfold rot_head; by rewrite with_partial_eq).
  rewrite E. destruct (partial_parts (rote (take rot_dim x) a) (drop rot_dim x)) as [-> ->].
  { apply length_rote; [done|lia]. }
  unfold rot_head, rerotate_kv. rewrite with_partial_eq by done. by rewrite rote_add.
Qed.

Lemma derot_rot_head x p :
  len x = rc_head_dim cfg -> 0 <= p < len (rc_cos_sin_cache cfg) -> derot_head (rot_head x p) p = x.
Proof.
  intros Hl Hp. pose proof (length_take_rot x Hl) as Ht.
  assert (Hl' : len (rot_head x p) = rc_head_dim cfg) by (by apply len_rot_head).
  unfold derot_head. rewrite with_partial_eq by done.
  assert (E : rot_head x p = rote (take rot_dim x) p ++ drop rot_dim x)
    by (unfold rot_head; by rewrite with_partial_eq).
  rewrite E. destruct (partial_parts (rote (take rot_dim x) p) (drop rot_dim x)) as [-> ->].
  { by apply length_rote. }
  unfold derotate_kv. rewrite derote_rote by done. apply take_drop.
Qed.

(** Taking a key of position [start + j] back by [start] leaves it at [j];
    rotating it on by [start'] brings it to [start' + j]. *)
Lemma key_derot k start j :
  key_ok k -> 0 <= start -> 0 <= j -> (start + j < len (rc_cos_sin_cache cfg))%Z ->
  derot_key start (rot_key (start + j)%Z k) = rot_key j k.
Proof.
  intros Hk Hs Hj Hlt. unfold derot_key, rot_key. rewrite <- list_fmap_compose.
  apply list_fmap_ext. intros i x Hx. unfold key_ok in Hk. rewrite Forall_forall in Hk.
  specialize (Hk x (list_elem_of_lookup_2 _ _ _ Hx)). cbn.
  rewrite Z.add_comm, <- rot_head_add by (done || lia). apply derot_rot_head; [|lia].
  apply len_rot_head; [done|lia].
Qed.

Lemma key_rot k j start :
  key_ok k -> 0 <= j -> 0 <= start -> (start + j < len (rc_cos_sin_cache cfg))%Z ->
  rot_key start (rot_key j k) = rot_key (start + j)%Z k.
Proof.
  intros Hk Hj Hs Hlt. unfold rot_key. rewrite <- list_fmap_compose.
  apply list_fmap_ext. intros i x Hx. unfold key_ok in Hk. rewrite Forall_forall in Hk.
  specialize (Hk x (list_elem_of_lookup_2 _ _ _ Hx)). cbn.
  rewrite rot_head_add by (done || lia). by rewrite Z.add_comm.
Qed.

Lemma rotate_row_rerot p k :
  0 <= p < len (rc_cos_sin_cache cfg) -> rotate_row (rerotate_kv radd rmul rsub) cfg p k = Ret (rot_key p k).
Proof.
  intros Hp. destruct (lookup_lt_is_Some_2 (rc_cos_sin_cache cfg) (Z.to_nat p)) as [row Er];
    [unfold len in Hp; lia|].
  unfold rotate_row. rewrite (index_select_Ret _ _ row) by (done || lia). cbn [obind].
  unfold rot_key, rot_head, cos_at, sin_at. rewrite Er. change (default [] (Some row)) with row. by destruct (chunk2 row).
Qed.

Lemma rotate_row_derot p k :
  0 <= p < len (rc_cos_sin_cache cfg) -> rotate_row (derotate_kv radd rmul rsub ropp) cfg p k = Ret (derot_key p k).
Proof.
  intros Hp. destruct (lookup_lt_is_Some_2 (rc_cos_sin_cache cfg) (Z.to_nat p)) as [row Er];
    [unfold len in Hp; lia|].
  unfold rotate_row. rewrite (index_select_Ret _ _ row) by (done || lia). cbn [obind].
  unfold derot_key, derot_head, cos_at, sin_at. rewrite Er. change (default [] (Some row)) with row. by destruct (chunk2 row).
Qed.

(** ** The phases *)

Context {W : Type}.
Local Notation buf_t := (KVBuf (list (list R)) W).

(** The slots hold the keys of [raw] from position [start] on, and [vs]. *)
Definition keyed (buf : buf_t) (slots : list Z) (start : Z) (raw : list (list (list R))) (vs : list W) : Prop :=
  forall j slot k v, slots !! j = Some slot -> raw !! j = Some k -> vs !! j = Some v ->
    kb_k buf !! Z.to_nat slot = Some (rot_key (start + Z.of_nat j)%Z k) /\ kb_v buf !! Z.to_nat slot = Some v.

Definition keys_from (start : Z) (raw : list (list (list R))) : list (list (list R)) :=
  imap (fun j k => rot_key (start + Z.of_nat j)%Z k) raw.

(** A computed segment: its slots, the rows of the batch it is computed in,
    its keys before rotation and its values. *)
Record Miss := mkMiss {
  ms_seg : Z * Z * list Z * list Z;
  ms_q : list Z;
  ms_raw : list (list (list R));
  ms_vs : list W;
}.
Definition ms_start (m : Miss) : Z := (ms_seg m).1.1.1.
Definition ms_end (m : Miss) : Z := (ms_seg m).1.1.2.
Definition ms_priv (m : Miss) : list Z := (ms_seg m).1.2.
Definition ms_pub (m : Miss) : list Z := (ms_seg m).2.

Record miss_ok (k3 : list (list (list R))) (v3 : list W) (m : Miss) : Prop := {
  mk_len : length (ms_q m) = Z.to_nat (ms_end m - ms_start m)%Z /\ length (ms_raw m) = length (ms_q m) /\
    length (ms_vs m) = length (ms_q m) /\ length (ms_priv m) = length (ms_q m) /\
    length (ms_pub m) = length (ms_q m);
  mk_pos : 0 <= ms_start m <= ms_end m /\ ms_end m <= len (rc_cos_sin_cache cfg);
  mk_keys : Forall key_ok (ms_raw m);
  mk_k : omapM (index_select k3) (ms_q m) = Ret (keys_from (ms_start m) (ms_raw m));
  mk_v : omapM (index_select v3) (ms_q m) = Ret (ms_vs m);
}.

Definition k_writes (m : Miss) : list (Z * list (list R)) :=
  zip (ms_pub m) (keys_from 0 (ms_raw m)) ++ zip (ms_priv m) (keys_from (ms_start m) (ms_raw m)).
Definition v_writes (m : Miss) : list (Z * W) := zip (ms_pub m) (ms_vs m) ++ zip (ms_priv m) (ms_vs m).
Definition miss_slots (m : Miss) : list Z := ms_pub m ++ ms_priv m.

Lemma length_keys_from start raw : length (keys_from start raw) = length raw.
Proof. apply length_imap. Qed.

Lemma derot_keys start raw :
  Forall key_ok raw -> 0 <= start -> (start + len raw <= len (rc_cos_sin_cache cfg))%Z ->
  omapM (rotate_row (derotate_kv radd rmul rsub ropp) cfg start) (keys_from start raw) = Ret (keys_from 0 raw).
Proof.
  intros Hk Hs Hlt. destruct raw as [|r0 raw'] eqn:Er; [done|]. rewrite <- Er in *.
  assert (0 < len raw) by (rewrite Er, len_cons; pose proof (len_nonneg raw'); lia).
  rewrite (omapM_Ret _ (derot_key start)).
  - f_equal. apply list_eq. intros j. rewrite list_lookup_fmap. unfold keys_from. rewrite !list_lookup_imap.
    destruct (raw !! j) as [k|] eqn:Ek; [|done]. cbn. f_equal.
    pose proof (lookup_lt_Some _ _ _ Ek). rewrite Forall_forall in Hk.
    apply key_derot; [|lia|lia|unfold len in *; lia]. by eapply Hk, list_elem_of_lookup_2.
  - intros x _. apply rotate_row_derot. lia.
Qed.

Lemma rerot_keys start raw n :
  Forall key_ok raw -> 0 <= start /\ (start + len raw <= len (rc_cos_sin_cache cfg))%Z -> length raw = n ->
  omapM (fun '(p, k) => rotate_row (rerotate_kv radd rmul rsub) cfg p k) (zip (replicate n start) (keys_from 0 raw)) =
    Ret (keys_from start raw).
Proof.
  intros Hk [Hs Hlt] <-. destruct raw as [|r0 raw'] eqn:Er; [done|]. rewrite <- Er in *.
  assert (0 < len raw) by (rewrite Er, len_cons; pose proof (len_nonneg raw'); lia).
  rewrite (omapM_Ret _ (fun pk => rot_key start pk.2)).
  - f_equal. apply list_eq. intros j. rewrite list_lookup_fmap, lookup_zip_with. unfold keys_from.
    rewrite !list_lookup_imap. destruct (raw !! j) as [k|] eqn:Ek; cbn.
    + pose proof (lookup_lt_Some _ _ _ Ek). rewrite lookup_replicate_2 by done. cbn. f_equal.
      rewrite Forall_forall in Hk. apply key_rot; [|lia|lia|unfold len in *; lia].
      by eapply Hk, list_elem_of_lookup_2.
    + by destruct (replicate _ _ !! j).
  - intros [p k] Hin. apply elem_of_zip_l, elem_of_replicate_inv in Hin as ->. apply rotate_row_rerot. lia.
Qed.

Lemma align_rows_zip {A} positions (rows : list A) :
  length positions = length rows -> align_rows positions rows = Ret (zip positions rows).
Proof.
  intros E. unfold align_rows. destruct positions as [|p [|p' ps]], rows as [|k [|k' ks]]; try done.
  cbn in E. injection E as E. cbn [length]. by rewrite E, Nat.eqb_refl.
Qed.

Lemma phase_a_seg_spec k3 v3 m pre post (buf : buf_t) k' v' :
  miss_ok k3 v3 m ->
  index_puts (kb_k buf) (k_writes m) = Ret k' -> index_puts (kb_v buf) (v_writes m) = Ret v' ->
  phase_a_seg radd rmul rsub ropp cfg k3 v3 (pre ++ ms_q m ++ post) (buf, len pre) (ms_seg m) =
    Ret (mkKVBuf k' v', (len pre + len (ms_q m))%Z).
Proof.
  intros [Hlen Hpos Hkeys Hk Hv] Ek Ev. unfold k_writes, v_writes in Ek, Ev.
  rewrite index_puts_app in Ek. rewrite index_puts_app in Ev.
  destruct m as [[[[start end_] priv] pub] q raw vs]. unfold ms_start, ms_end, ms_priv, ms_pub in *.
  cbn [ms_seg ms_q ms_raw ms_vs fst snd] in *. unfold phase_a_seg.
  assert (Eq : pyslice (pre ++ q ++ post) (len pre) (len pre + (end_ - start))%Z = q).
  { rewrite pyslice_in_range by (rewrite ?len_app; unfold len; lia).
    replace (Z.to_nat (len pre)) with (length pre) by (unfold len; lia).
    rewrite drop_app_length, take_app_le by (unfold len; lia). apply take_ge. unfold len. lia. }
  rewrite Eq, Hk, Hv. cbn [obind]. rewrite derot_keys by (done || (unfold len in *; lia)). cbn [obind].
  rewrite !put_rows_zip by (rewrite ?length_keys_from; lia).
  destruct (index_puts (kb_k buf) _) as [k1|]; [cbn in Ek|done].
  destruct (index_puts (kb_v buf) _) as [v1|]; [cbn in Ev|done]. cbn [obind].
  rewrite put_rows_zip, Ek by (rewrite ?length_keys_from; lia). cbn [obind].
  rewrite put_rows_zip, Ev by lia. cbn [obind]. do 2 f_equal. unfold len. lia.
Qed.

Lemma phase_a_fold k3 v3 ms pre (buf : buf_t) k' v' :
  Forall (miss_ok k3 v3) ms ->
  index_puts (kb_k buf) (concat (k_writes <$> ms)) = Ret k' ->
  index_puts (kb_v buf) (concat (v_writes <$> ms)) = Ret v' ->
  exists c : Z, ofold (phase_a_seg radd rmul rsub ropp cfg k3 v3 (pre ++ concat (ms_q <$> ms))) (buf, len pre)
    (ms_seg <$> ms) = Ret (mkKVBuf k' v', c).
Proof.
  revert pre buf. induction ms as [|m ms IH]; intros pre buf HF Ek Ev.
  - cbn in Ek, Ev. injection Ek as <-. injection Ev as <-. exists (len pre). by destruct buf.
  - apply Forall_cons in HF as [Hm HF]. rewrite fmap_cons in Ek. rewrite fmap_cons in Ev. cbn [concat] in Ek, Ev.
    rewrite index_puts_app in Ek. rewrite index_puts_app in Ev.
    destruct (index_puts (kb_k buf) (k_writes m)) as [k1|] eqn:E1; [cbn in Ek|done].
    destruct (index_puts (kb_v buf) (v_writes m)) as [v1|] eqn:E2; [cbn in Ev|done].
    rewrite !fmap_cons. cbn [concat ofold]. rewrite (phase_a_seg_spec _ _ _ _ _ _ _ _ Hm E1 E2). cbn [obind].
    destruct (IH (pre ++ ms_q m) (mkKVBuf k1 v1)) as [c Ec]; [done..|]. exists c.
    rewrite <- app_assoc, len_app in Ec. exact Ec.
Qed.

(** Rows written at distinct slots are found there. *)
Lemma keyed_of_writes (k' : list (list (list R))) (v' : list W) slots start raw vs :
  (forall i x, (i, x) ∈ zip slots (keys_from start raw) -> k' !! Z.to_nat i = Some x) ->
  (forall i x, (i, x) ∈ zip slots vs -> v' !! Z.to_nat i = Some x) ->
  keyed (mkKVBuf k' v') slots start raw vs.
Proof.
  intros Hk Hv j slot k v Es Er Ev. cbn. split.
  - apply Hk, list_elem_of_lookup. exists j. unfold keys_from.
    by rewrite lookup_zip_with, Es, list_lookup_imap, Er.
  - apply Hv, list_elem_of_lookup. exists j. by rewrite lookup_zip_with, Es, Ev.
Qed.

Lemma miss_writes_slots k3 v3 ms :
  Forall (miss_ok k3 v3) ms ->
  (concat (k_writes <$> ms)).*1 = concat (miss_slots <$> ms) /\
  (concat (v_writes <$> ms)).*1 = concat (miss_slots <$> ms).
Proof.
  induction 1 as [|m ms [Hl _ _ _ _] _ [IH1 IH2]]; [done|]. rewrite !fmap_cons. cbn [concat].
  rewrite !fmap_app, IH1, IH2. unfold k_writes, v_writes, miss_slots.
  rewrite !fmap_app, !fst_zip by (rewrite ?length_keys_from; lia). done.
Qed.

Lemma phase_a_spec k3 v3 meta ms (buf : buf_t) :
  Forall (miss_ok k3 v3) ms -> concat (ro_local_miss <$> meta) = ms_seg <$> ms ->
  NoDup (concat (miss_slots <$> ms)) -> length (kb_v buf) = length (kb_k buf) ->
  Forall (fun d => 0 <= d < len (kb_k buf)) (concat (miss_slots <$> ms)) ->
  exists buf', pic_rope_phase_a_kv_only radd rmul rsub ropp cfg k3 v3 meta (concat (ms_q <$> ms)) buf = Ret buf' /\
    Forall (fun m => keyed buf' (ms_pub m) 0 (ms_raw m) (ms_vs m) /\
                     keyed buf' (ms_priv m) (ms_start m) (ms_raw m) (ms_vs m)) ms /\
    same_except (concat (miss_slots <$> ms)) buf buf'.
Proof.
  intros HF Em Hn Hl Hr. destruct (miss_writes_slots _ _ _ HF) as [S1 S2].
  destruct (index_puts_spec (kb_k buf) (concat (k_writes <$> ms))) as (k' & E1 & L1 & W1 & U1);
    [by rewrite S1|apply (Forall_fmap_1 fst (fun d => 0 <= d < len (kb_k buf))); by rewrite S1|].
  destruct (index_puts_spec (kb_v buf) (concat (v_writes <$> ms))) as (v' & E2 & L2 & W2 & U2);
    [by rewrite S2|apply (Forall_fmap_1 fst (fun d => 0 <= d < len (kb_v buf))); rewrite S2; unfold len in *; by rewrite Hl|].
  destruct (phase_a_fold k3 v3 ms [] buf k' v' HF E1 E2) as [c Ec].
  rewrite app_nil_l in Ec. change (len (@nil Z)) with 0 in Ec.
  unfold pic_rope_phase_a_kv_only. rewrite Em, Ec. exists (mkKVBuf k' v'). split; [done|].
  rewrite S1 in U1. rewrite S2 in U2. split; [|by repeat split; auto].
  apply Forall_forall. intros m Hm.
  assert (Hin : forall A (f : Miss -> list A) x, x ∈ f m -> x ∈ concat (f <$> ms)).
  { intros A f x Hx. rewrite list_elem_of_In, in_concat. exists (f m).
    rewrite <- !list_elem_of_In. split; [|done]. apply list_elem_of_fmap. by exists m. }
  split; apply keyed_of_writes; intros i x Hx; first [apply W1|apply W2]; apply Hin;
    unfold k_writes, v_writes; apply elem_of_app; auto.
Qed.

(** A reused segment [(start', end', private slots, public slots)] and the
    computed one it was filed for. *)
Record reuse_ok (hm : (Z * Z * list Z * list Z) * Miss) : Prop := {
  ru_pub : hm.1.2 = ms_pub hm.2;
  ru_len : length hm.1.1.2 = length (ms_pub hm.2) /\
    Z.to_nat (hm.1.1.1.2 - hm.1.1.1.1)%Z = length (ms_pub hm.2) /\
    length (ms_raw hm.2) = length (ms_pub hm.2) /\ length (ms_vs hm.2) = length (ms_pub hm.2);
  ru_pos : 0 <= hm.1.1.1.1 /\ (hm.1.1.1.1 + len (ms_raw hm.2) <= len (rc_cos_sin_cache cfg))%Z;
  ru_keys : Forall key_ok (ms_raw hm.2);
  ru_slots : Forall (fun d => 0 <= d) (ms_pub hm.2);
}.

Lemma keyed_select (buf : buf_t) slots start raw vs :
  keyed buf slots start raw vs -> Forall (fun d => 0 <= d) slots ->
  length raw = length slots -> length vs = length slots ->
  omapM (index_select (kb_k buf)) slots = Ret (keys_from start raw) /\
  omapM (index_select (kb_v buf)) slots = Ret vs.
Proof.
  intros HK HF. revert start raw vs HK. induction HF as [|d slots Hd HF IH]; intros start raw vs HK Hr Hv.
  - destruct raw, vs; done.
  - destruct raw as [|k raw], vs as [|v vs]; try done. cbn in Hr, Hv.
    destruct (HK 0%nat d k v) as [E1 E2]; [done..|]. cbn [omapM].
    rewrite (index_select_Ret _ _ _ Hd E1), (index_select_Ret _ _ _ Hd E2). cbn [obind].
    destruct (IH (start + 1)%Z raw vs) as [-> ->]; [|lia|lia|].
    { intros j s k' v' Es Ek Ev. destruct (HK (S j) s k' v' Es Ek Ev) as [H1 H2].
      replace (start + 1 + Z.of_nat j)%Z with (start + Z.of_nat (S j))%Z by lia. done. }
    cbn [obind]. split; [|done]. unfold keys_from. cbn [imap]. do 2 f_equal.
    apply imap_ext. intros j x _. cbn. f_equal. lia.
Qed.

Definition hit_priv (hm : (Z * Z * list Z * list Z) * Miss) : list Z := hm.1.1.2.
Definition hit_start (hm : (Z * Z * list Z * list Z) * Miss) : Z := hm.1.1.1.1.

Lemma reuse_empty hm : reuse_ok hm -> hit_priv hm = [] ->
  hm.1.2 = [] /\ Z.to_nat (hm.1.1.1.2 - hit_start hm)%Z = 0%nat.
Proof.
  intros [E1 (E2 & E3 & _) _ _ _] Eh. unfold hit_priv, hit_start in *. rewrite Eh in E2. cbn in E2.
  rewrite E1. split; [by apply nil_length_inv|lia].
Qed.

(** The rows that phase B moves: those of the reused segments, in order. *)
Lemma phase_b_cache_eq meta hms :
  concat (ro_local_hit <$> meta) = hms.*1 -> Forall reuse_ok hms ->
  (phase_b_cache meta = None /\ Forall (fun hm => hit_priv hm = []) hms) \/
  phase_b_cache meta = Some (concat ((fun hm => ms_pub hm.2) <$> hms),
    concat (hit_priv <$> hms),
    concat ((fun hm => replicate (length (ms_pub hm.2)) (hit_start hm)) <$> hms)).
Proof.
  intros Em HF. rewrite Forall_forall in HF. unfold phase_b_cache. rewrite Em.
  destruct (filter _ (hms.*1)) as [|h0 hs] eqn:Ef.
  - left. split; [done|]. apply Forall_forall. intros hm Hin.
    destruct (hit_priv hm) eqn:Eh; [done|exfalso]. apply (not_elem_of_nil hm.1). rewrite <- Ef.
    apply list_elem_of_filter. split; [|apply list_elem_of_fmap; by exists hm]. unfold hit_priv in Eh. by rewrite Eh.
  - right. rewrite <- Ef.
    assert (He : forall (s e : Z) (pr pu : list Z), (s, e, pr, pu) ∈ hms.*1 -> ~ pr <> [] -> pr = [] /\ pu = [] /\ Z.to_nat (e - s)%Z = 0%nat).
    { intros s e pr pu (hm & Eh & Hin)%list_elem_of_fmap Hx. destruct pr; [|by destruct Hx].
      destruct (reuse_empty hm (HF _ Hin)) as [E2 E3]; unfold hit_priv, hit_start in *; by rewrite <- Eh in *. }
    rewrite !concat_filter_nil by (intros [[[s e] pr] pu] Hin Hx; destruct (He _ _ _ _ Hin Hx) as (E1 & E2 & E3); by rewrite ?E1, ?E2, ?E3).
    rewrite <- !list_fmap_compose. apply f_equal, f_equal2; [apply f_equal2|]; apply f_equal, list_fmap_ext;
      intros i [[[[s e] pr] pu] m] Hi;
      destruct (HF _ (list_elem_of_lookup_2 _ _ _ Hi)) as [E1 (E2 & E3 & _) _ _ _]; cbn in *; by rewrite ?E1, ?E3.
Qed.

Lemma phase_b_writes hms (buf : buf_t) :
  Forall reuse_ok hms -> NoDup (concat (hit_priv <$> hms)) -> length (kb_v buf) = length (kb_k buf) ->
  Forall (fun d => 0 <= d < len (kb_k buf)) (concat (hit_priv <$> hms)) ->
  exists k' v', index_puts (kb_k buf) (concat ((fun hm => zip (hit_priv hm) (keys_from (hit_start hm) (ms_raw hm.2))) <$> hms)) = Ret k' /\
    index_puts (kb_v buf) (concat ((fun hm => zip (hit_priv hm) (ms_vs hm.2)) <$> hms)) = Ret v' /\
    Forall (fun hm => keyed (mkKVBuf k' v') (hit_priv hm) (hit_start hm) (ms_raw hm.2) (ms_vs hm.2)) hms /\
    same_except (concat (hit_priv <$> hms)) buf (mkKVBuf k' v').
Proof.
  intros HF Hn Hl Hr. rewrite Forall_forall in HF.
  assert (S1 : (concat ((fun hm => zip (hit_priv hm) (keys_from (hit_start hm) (ms_raw hm.2))) <$> hms)).*1 =
    concat (hit_priv <$> hms)).
  { apply zip_concat_fst. intros hm Hin. destruct (HF _ Hin) as [_ (E0 & _ & E1 & _) _ _ _].
    rewrite length_keys_from. unfold hit_priv. lia. }
  assert (S2 : (concat ((fun hm => zip (hit_priv hm) (ms_vs hm.2)) <$> hms)).*1 = concat (hit_priv <$> hms)).
  { apply zip_concat_fst. intros hm Hin. destruct (HF _ Hin) as [_ (E0 & _ & _ & E2) _ _ _]. unfold hit_priv. lia. }
  edestruct (index_puts_spec (kb_k buf)) as (k' & -> & L1 & W1 & U1);
    [by rewrite S1|apply (Forall_fmap_1 fst (fun d => 0 <= d < len (kb_k buf))); by rewrite S1|].
  edestruct (index_puts_spec (kb_v buf)) as (v' & -> & L2 & W2 & U2);
    [by rewrite S2|apply (Forall_fmap_1 fst (fun d => 0 <= d < len (kb_v buf))); rewrite S2; unfold len in *; by rewrite Hl|].
  rewrite S1 in U1. rewrite S2 in U2. exists k', v'. split; [done|]. split; [done|]. split; [|by repeat split; auto].
  apply Forall_forall. intros hm Hin. apply keyed_of_writes; intros i x Hx; [apply W1|apply W2];
    rewrite list_elem_of_In, in_concat; eexists; rewrite <- !list_elem_of_In;
    (split; [apply list_elem_of_fmap; exists hm; done|done]).
Qed.

(** Phase B, with the rows kept from an earlier layer of the batch or not. *)
Lemma phase_b_spec meta hms kept (buf : buf_t) :
  concat (ro_local_hit <$> meta) = hms.*1 -> Forall reuse_ok hms ->
  Forall (fun hm => keyed buf (ms_pub hm.2) 0 (ms_raw hm.2) (ms_vs hm.2)) hms ->
  NoDup (concat (hit_priv <$> hms)) -> length (kb_v buf) = length (kb_k buf) ->
  Forall (fun d => 0 <= d < len (kb_k buf)) (concat (hit_priv <$> hms)) ->
  kept = None \/ kept = phase_b_cache meta ->
  exists buf', pic_rope_phase_b radd rmul rsub cfg meta (kept, buf) = Ret (phase_b_cache meta, buf') /\
    Forall (fun hm => keyed buf' (hit_priv hm) (hit_start hm) (ms_raw hm.2) (ms_vs hm.2)) hms /\
    same_except (concat (hit_priv <$> hms)) buf buf'.
Proof.
  intros Em HF HK Hn Hl Hr Hkept.
  destruct (phase_b_writes hms buf HF Hn Hl Hr) as (k' & v' & E1 & E2 & HK' & Hsame).
  unfold pic_rope_phase_b.
  assert (match kept with Some _ => kept | None => phase_b_cache meta end = phase_b_cache meta) as ->.
  { destruct Hkept as [-> | ->]; [done|]. by destruct (phase_b_cache meta). }
  destruct (phase_b_cache_eq _ _ Em HF) as [[-> He]| ->].
  { exists buf. split; [done|]. split; [|by repeat split]. eapply Forall_impl; [exact He|].
    intros hm -> j slot k v Es. done. }
  rewrite Forall_forall in HF, HK.
  rewrite (omapM_concat _ _ (fun hm => keys_from 0 (ms_raw hm.2))).
  2: { intros hm Hin. destruct (HF _ Hin) as [_ (_ & _ & L1 & L2) _ _ Hs].
       by apply (keyed_select buf _ _ _ _ (HK _ Hin) Hs L1 L2). }
  cbn [obind]. rewrite (omapM_concat _ _ (fun hm => ms_vs hm.2)).
  2: { intros hm Hin. destruct (HF _ Hin) as [_ (_ & _ & L1 & L2) _ _ Hs].
       by apply (keyed_select buf _ _ _ _ (HK _ Hin) Hs L1 L2). }
  assert (Hrows : forall hm, hm ∈ hms -> length (replicate (length (ms_pub hm.2)) (hit_start hm)) = length (keys_from 0 (ms_raw hm.2))).
  { intros hm Hin. destruct (HF _ Hin) as [_ (_ & _ & L1 & _) _ _ _]. by rewrite length_replicate, length_keys_from. }
  cbn [obind]. rewrite align_rows_zip by (by apply length_concat_eq). cbn [obind]. rewrite zip_concat by done.
  rewrite (omapM_concat _ _ (fun hm => keys_from (hit_start hm) (ms_raw hm.2))).
  2: { intros hm Hin. destruct (HF _ Hin) as [_ (_ & _ & L1 & _) Hp Hk _]. by apply rerot_keys. }
  cbn [obind]. rewrite (put_rows_zip (kb_k buf)), (put_rows_zip (kb_v buf)), !zip_concat.
  2, 3, 4, 5: try apply length_concat_eq; intros hm Hin; destruct (HF _ Hin) as [_ (L0 & _ & L1 & L2) _ _ _];
    unfold hit_priv; rewrite ?length_keys_from; lia.
  rewrite E1. cbn [obind]. rewrite E2. cbn [obind]. by exists (mkKVBuf k' v').
Qed.


End head.

End rotation.

(** ** An instance: quarter turns over the integers *)

Module Quarter.

Definition cfg : RopeCfg (R := Z) :=
  mkRopeCfg [[1; 0]; [0; 1]; [-1; 0]; [0; -1]; [1; 0]; [0; 1]] 2 2 true.

Lemma ring_Z : ring_theory 0 1 Z.add Z.mul Z.sub Z.opp (@eq Z).
Proof. constructor; intros; ring. Qed.

Lemma small_cases a : 0 <= a < 6 -> a = 0 \/ a = 1 \/ a = 2 \/ a = 3 \/ a = 4 \/ a = 5.
Proof. lia. Qed.

Ltac by_cases a Ha := destruct (small_cases a Ha) as [-> |[-> |[-> |[-> |[-> | ->]]]]].

Lemma angles : angles_ok 1 Z.add Z.mul Z.sub cfg.
Proof.
  split; try done; change (len (rc_cos_sin_cache cfg)) with 6.
  - by exists 1%nat.
  - by repeat constructor.
  - intros a b Ha Hb Hab. assert (Ha' : 0 <= a < 6) by lia. assert (Hb' : 0 <= b < 6) by lia.
    by_cases a Ha'; by_cases b Hb'; (lia || reflexivity).
  - intros a b Ha Hb Hab. assert (Ha' : 0 <= a < 6) by lia. assert (Hb' : 0 <= b < 6) by lia.
    by_cases a Ha'; by_cases b Hb'; (lia || reflexivity).
  - intros a Ha. by_cases a Ha; reflexivity.
Qed.

(** Two tokens computed at positions 1 and 2, reused at 3 and 4. *)
Definition seg : Miss (R := Z) (W := Z) := mkMiss (1, 3, [2; 3], [0; 1]) [0; 1] [[[3; 4]]; [[5; 6]]] [8; 9].
Definition buf : KVBuf (list (list Z)) Z := mkKVBuf (replicate 6 []) (replicate 6 0).
Definition k3 : list (list (list Z)) := [[[-4; 3]]; [[-5; -6]]].
Definition meta1 : list RopeMeta := [mkRopeMeta [(1, 3, [2; 3], [0; 1])] [] None None].
Definition meta2 : list RopeMeta := [mkRopeMeta [] [(3, 5, [4; 5], [0; 1])] None None].

End Quarter.

