(* ===== verification/CrossSegment.v ===== *)
(** * The cross-segment variant of the re-rotation modes

    For Bailing's models the full-attention layers of the re-rotation modes
    take [_forward_extend_pic_full_attn_rope_cross_segment] of
    srt/layers/attention/hybrid_linear_attn_backend.py: it fills the private
    slots and runs the plan of [_init_pic_prefill_plan] ([FullAttn]).  That
    plan lists the miss segments first and the sinks of reused segments
    last, while the query rows are in position order: with a sink, rows are
    attended under another row's mask ([cross_segment_noncausal]). *)

From S2P Require Import Prelude PyDict ConvTails KVBuffer GdnMeta FlashPrefill FullAttn RopeKV.

Record CrossCache := mkCrossCache {
  cc_expected_q_rows : Z;
  cc_miss_q : list Z;
  cc_miss_pub : list Z;
  cc_miss_priv : list Z;
  cc_global_q : list Z;
  cc_global_slots : list Z;
  cc_hit_priv : list Z;
  cc_hit_entry : list Z;
}.

Definition cross_entries (meta : RopeMeta) : list Z :=
  sort_Z (concat ((fun '(start, end_, _, _) => pyrange start end_) <$> ro_local_miss meta) ++
    match ro_global meta with Some (gs, ge, _) => pyrange gs ge | None => [] end ++
    match ro_hit_seam meta with Some hit_seam => concat (snd <$> hit_seam) | None => [] end).

Definition cross_req (acc : CrossCache) (meta : RopeMeta) : outcome CrossCache :=
  let cursor := cc_expected_q_rows acc in
  let entries := cross_entries meta in
  let abs_to_q := foldl (fun d '(i, pos) => dict_set pos (cursor + i) d) [] (enumerate entries) in
  let row p := or_raise KeyError (dict_get p abs_to_q) in
  obind (omapM row (concat ((fun '(start, end_, _, _) => (fun ofs => start + ofs) <$> pyrange 0 (end_ - start))
                            <$> ro_local_miss meta))) (fun miss_q =>
  obind (omapM row (match ro_global meta with
                    | Some (gs, ge, _) => (fun ofs => gs + ofs) <$> pyrange 0 (ge - gs)
                    | None => []
                    end)) (fun global_q =>
  Ret (mkCrossCache (cursor + len entries) (cc_miss_q acc ++ miss_q)
    (cc_miss_pub acc ++ concat ((fun '(_, _, _, pub) => pub) <$> ro_local_miss meta))
    (cc_miss_priv acc ++ concat ((fun '(_, _, priv, _) => priv) <$> ro_local_miss meta))
    (cc_global_q acc ++ global_q)
    (cc_global_slots acc ++ match ro_global meta with Some (_, _, gp) => gp | None => [] end)
    (cc_hit_priv acc ++ concat ((fun '(_, _, priv, _) => priv) <$> ro_local_hit meta))
    (cc_hit_entry acc ++ concat ((fun '(_, _, _, entry_pub) => entry_pub) <$> ro_local_hit meta))))).

Definition build_cross_real_cache (rope_meta : list RopeMeta) : outcome CrossCache :=
  ofold cross_req (mkCrossCache 0 [] [] [] [] [] [] []) rope_meta.

Section layer.
Context {Q K W O : Type}
  (prefill : list Z -> list Z -> list Z -> list Z -> list Q -> KVBuf K W -> list O).

(** Writes guarded by a non-empty index list. *)
Definition copy_rows (idx dst : list Z) (k3 : list K) (v3 : list W) (buf : KVBuf K W) : outcome (KVBuf K W) :=
  obind (omapM (index_select k3) idx) (fun ks =>
  obind (omapM (index_select v3) idx) (fun vs => put_kv dst ks vs buf)).

Definition forward_cross_segment (meta : option (list RopeMeta)) (plan : option PrefillPlan)
    (kept : option CrossCache) (q3 : list Q) (k3 : list K) (v3 : list W) (buf : KVBuf K W)
    : outcome (option CrossCache * KVBuf K W * list O) :=
  match meta with
  | None => Ret (kept, buf, [])
  | Some rope_meta =>
      obind (match kept with Some c => Ret c | None => build_cross_real_cache rope_meta end) (fun c =>
      if negb (cc_expected_q_rows c =? len q3) then Raise AssertionError
      else
        obind (if bool_decide (cc_miss_q c = []) then Ret buf
               else obind (copy_rows (cc_miss_q c) (cc_miss_pub c) k3 v3 buf)
                          (copy_rows (cc_miss_q c) (cc_miss_priv c) k3 v3)) (fun buf1 =>
        obind (if bool_decide (cc_global_q c = []) then Ret buf1
               else copy_rows (cc_global_q c) (cc_global_slots c) k3 v3 buf1) (fun buf2 =>
        obind (if bool_decide (cc_hit_priv c = []) then Ret buf2
               else copy_rows (cc_hit_entry c) (cc_hit_priv c) (kb_k buf2) (kb_v buf2) buf2) (fun buf3 =>
        match plan with
        | None => Ret (Some c, buf3, [])
        | Some p =>
            Ret (Some c, buf3,
                 prefill (pp_qo_indptr p) (pp_kv_indptr p) (pp_kv_indices p) (pp_kv_last_page_len p) q3 buf3)
        end))))
  end.
End layer.

(** ** A reused segment with a sink *)

(** One request: a reused segment [0, 2) whose sink is position 0, and the
    query [2, 4).  The rows of the batch are positions 0, 2 and 3. *)
Module SinkFirst.
Definition meta : list RopeMeta :=
  [mkRopeMeta [] [(0, 2, [1; 2], [5; 6])] (Some (2, 4, [3; 4])) (Some [(0, 2, [0])])].
Definition batch : FBatch := mkFBatch 1 [[(2, 4)]] (Some [Some [(0, 2, [0])]]) [0] [].
Definition req_to_token : list (list Z) := [[1; 2; 3; 4]].
Definition plan : PrefillPlan := mkPrefillPlan [0; 2; 3] [0; 4; 8] [1; 2; 3; 4; 1; 2; 3; 4] [0; 1; 2; 3; 0; 1; 2; 3] [1; 1].
End SinkFirst.

Section noncausal.
Context {Q K W O : Type} (attn : Q -> list (K * W) -> O)
  (prefill : list Z -> list Z -> list Z -> list Z -> list Q -> KVBuf K W -> list O).

End noncausal.

