(* ===== verification/RopeForward.v ===== *)
(** * The full-attention layer of the re-rotation modes

    [_forward_extend_pic_full_attn_rope] and
    [_build_pic_rope_phase_c_cache], [_pic_rope_phase_c] of
    srt/layers/attention/hybrid_linear_attn_backend.py: the query rows of the
    batch are matched with the positions of the requests, phases A and B
    ([RopeKV]) fill the private slots, and phase C plans and runs one
    attention call in which every query sees the private slots of the
    positions up to its own.  What does not depend on the layer is built
    for the first layer of a batch and kept; [_init_pic_rope_plans] drops
    it.  Of [_build_pic_rope_phase_c_cache] the branch for models that are
    not Bailing's: the caller sends those models elsewhere
    ([_pic_rope_use_cross_segment_full_attn]). *)

From S2P Require Import Prelude PyDict ConvTails KVBuffer GdnMeta FlashPrefill RopeKV.

(** ** Query rows and positions *)

(** [miss_token_role], [per_req_abs_to_q] and [_pic_q_to_req_abs_dict];
    kinds are 0 for a computed segment, 1 for the last, 2 for a sink. *)
Record QMap := mkQMap {
  qm_cursor : Z;
  qm_roles : list (Z * Z);
  qm_abs_to_q : list (list (Z * Z));
  qm_req_abs : list (Z * (Z * Z));
}.

Definition miss_positions (seg : Z * Z * list Z * list Z) : list Z :=
  let '(start, end_, _, _) := seg in (fun ofs => start + ofs) <$> pyrange 0 (end_ - start).
Definition global_positions (meta : RopeMeta) : list Z :=
  match ro_global meta with
  | Some (gs, ge, _) => (fun ofs => gs + ofs) <$> pyrange 0 (ge - gs)
  | None => []
  end.
(** [((s, e), j, ap)] for each sink position. *)
Definition seam_items (hit_seam : list (Z * Z * list Z)) : list (Z * Z * Z * Z) :=
  concat ((fun '(s, e, sink_pos) => (fun '(j, ap) => (s, e, j, ap)) <$> enumerate sink_pos) <$> hit_seam).
Definition meta_seam (is_recompute : bool) (meta : RopeMeta) : list (Z * Z * Z * Z) :=
  if is_recompute then match ro_hit_seam meta with Some hs => seam_items hs | None => [] end else [].

Definition req_entries (is_recompute : bool) (meta : RopeMeta) : list (Z * Z) :=
  sort_key fst
    (((fun p => (p, 0)) <$> concat (miss_positions <$> ro_local_miss meta)) ++
     ((fun p => (p, 1)) <$> global_positions meta) ++
     ((fun i : Z * Z * Z * Z => (i.2, 2)) <$> meta_seam is_recompute meta)).

Definition map_entry (req_idx : Z) (acc : QMap * list (Z * Z)) (entry : Z * Z) : QMap * list (Z * Z) :=
  let '(m, abs_to_q) := acc in
  let '(ap, kind) := entry in
  (mkQMap (qm_cursor m + 1) (qm_roles m ++ [(req_idx, kind)]) (qm_abs_to_q m)
     (dict_set (qm_cursor m) (req_idx, ap) (qm_req_abs m)),
   dict_set ap (qm_cursor m) abs_to_q).

Definition map_req (is_recompute : bool) (m : QMap) (rm : Z * RopeMeta) : QMap :=
  let '(m', abs_to_q) := foldl (map_entry rm.1) (m, []) (req_entries is_recompute rm.2) in
  mkQMap (qm_cursor m') (qm_roles m') (qm_abs_to_q m' ++ [abs_to_q]) (qm_req_abs m').

Definition build_qmap (is_recompute : bool) (rope_meta : list RopeMeta) : QMap :=
  foldl (map_req is_recompute) (mkQMap 0 [] [] []) (enumerate rope_meta).

(** [(q index, request, (s, e), j)]. *)
Notation SeamQ := (Z * Z * (Z * Z) * Z)%type (only parsing).

Definition lookup_q (abs_to_q : list (Z * Z)) (p : Z) : outcome Z := or_raise KeyError (dict_get p abs_to_q).

Definition walk_req (is_recompute : bool) (rm : (Z * RopeMeta) * list (Z * Z))
    : outcome (list Z * list Z * list SeamQ) :=
  let '((req_idx, meta), abs_to_q) := rm in
  obind (omapM (lookup_q abs_to_q) (concat (miss_positions <$> ro_local_miss meta))) (fun local_q =>
  obind (omapM (lookup_q abs_to_q) (global_positions meta)) (fun global_q =>
  obind (omapM (fun '(s, e, j, ap) => obind (lookup_q abs_to_q ap) (fun qi => Ret (qi, req_idx, (s, e), j)))
    (meta_seam is_recompute meta)) (fun seam_q => Ret (local_q, global_q, seam_q)))).

(** [local_q_indices], [global_q_indices], [hit_seam_q_info]. *)
Definition walk (is_recompute : bool) (rope_meta : list RopeMeta) (m : QMap)
    : outcome (list Z * list Z * list SeamQ) :=
  obind (omapM (walk_req is_recompute) (zip (enumerate rope_meta) (qm_abs_to_q m))) (fun ws =>
  Ret (concat ((fun w => w.1.1) <$> ws), concat ((fun w => w.1.2) <$> ws), concat (snd <$> ws))).

(** ** The plan of phase C *)

Record PhaseC := mkPhaseC {
  pc_q_packed_src : list Z;
  pc_kv_dst_slots : list Z;
  pc_kv_src_qis : list Z;
  pc_kv_indices : list Z;
  pc_kv_positions : list Z;
  pc_qo_indptr : list Z;
  pc_kv_indptr : list Z;
  pc_kv_last_page_len : list Z;
  pc_scatter_idx : list Z;
}.

(** The lists the planner appends to. *)
Record CAcc := mkCAcc {
  ca_q : list Z;                     (* q_packed_src, scatter_q_idx_all *)
  ca_qoff : list Z;                  (* seg_q_offsets *)
  ca_kv : list Z;                    (* kv_indices_chunks *)
  ca_kvpos : list Z;                 (* kv_pos_chunks *)
  ca_kvoff : list Z;                 (* seg_kv_offsets *)
  ca_dst : list Z;                   (* kv_dst_slots_chunks *)
  ca_src : list Z;                   (* kv_src_qis_list *)
  ca_gq_cursor : Z;
}.

(** [hit_seam_by_req], as a list over the requests: [(qi, ap, (s, e), j)]. *)
Definition seam_of_req (info : list SeamQ) (acc : list (list (Z * Z * (Z * Z) * Z)) * Z) (meta : RopeMeta)
    : outcome (list (list (Z * Z * (Z * Z) * Z)) * Z) :=
  let '(out, seam_idx) := acc in
  match ro_hit_seam meta with
  | None => Ret (out ++ [[]], seam_idx)
  | Some hs =>
      obind (omapM (fun '(k, (s, e, j, ap)) =>
               obind (or_raise IndexError (pyget info (seam_idx + k))) (fun i => Ret (i.1.1.1, ap, (s, e), j)))
             (enumerate (seam_items hs))) (fun l => Ret (out ++ [l], seam_idx + len l))
  end.

Definition seam_by_req (rope_meta : list RopeMeta) (info : list SeamQ)
    : outcome (list (list (Z * Z * (Z * Z) * Z))) :=
  match info with
  | [] => Ret (replicate (length rope_meta) [])
  | _ => obind (ofold (seam_of_req info) ([], 0) rope_meta) (fun r => Ret r.1)
  end.

(** [miss_q_by_req], as pairs [(request, (ap, qi))]. *)
Definition miss_by_req (req_abs : list (Z * (Z * Z))) (local_miss_q : list Z) : outcome (list (Z * (Z * Z))) :=
  omapM (fun qi => obind (or_raise RuntimeError (dict_get qi req_abs)) (fun '(ri, ap) => Ret (ri, (ap, qi))))
    local_miss_q.

Definition segs_in_order (meta : RopeMeta) : list (Z * Z * list Z) :=
  sort_key (fun t => t.1.1) (((fun '(s, e, priv, _) => (s, e, priv)) <$> ro_local_miss meta) ++
                             ((fun '(s, e, priv, _) => (s, e, priv)) <$> ro_local_hit meta)).
Definition all_segs (meta : RopeMeta) : list (Z * Z * list Z) :=
  segs_in_order meta ++ match ro_global meta with Some g => [g] | None => [] end.

(** The first segment that contains [ap], with the segments before it. *)
Fixpoint find_seg (ap : Z) (before segs : list (Z * Z * list Z))
    : option (list (Z * Z * list Z) * (Z * Z * list Z)) :=
  match segs with
  | [] => None
  | seg :: segs' =>
      if (seg.1.1 <=? ap) && (ap <? seg.1.2) then Some (before, seg) else find_seg ap (before ++ [seg]) segs'
  end.

(** The rest of the run that started before [expected_ap]. *)
Fixpoint take_run (e_k expected_ap : Z) (qs : list (Z * Z)) : list Z * Z * list (Z * Z) :=
  match qs with
  | [] => ([], expected_ap, [])
  | (apj, qij) :: qs' =>
      if negb (apj =? expected_ap) || (e_k <=? apj) then ([], expected_ap, qs)
      else let '(run, last_, rest) := take_run e_k (expected_ap + 1) qs' in (qij :: run, last_, rest)
  end.

(** [l.append(l[-1] + x)]. *)
Definition push_sum (l : list Z) (x : Z) : list Z := l ++ [default 0 (last l) + x].

Fixpoint emit_runs (fuel : nat) (segs : list (Z * Z * list Z)) (qs : list (Z * Z)) (acc : CAcc) : outcome CAcc :=
  match qs with
  | [] => Ret acc
  | (ap0, qi0) :: qs' =>
      match fuel with
      | O => Raise OutOfFuel
      | S fuel' =>
          match find_seg ap0 [] segs with
          | None => Raise RuntimeError
          | Some (before, (s_k, e_k, own)) =>
              let '(run, expected_ap, rest) := take_run e_k (ap0 + 1) qs' in
              let run_qis := qi0 :: run in
              let ap_last := expected_ap - 1 in
              let own_prefix_len := ap_last - s_k + 1 in
              let prior := to_int32 <$> concat (snd <$> before) in
              emit_runs fuel' segs rest
                (mkCAcc (ca_q acc ++ run_qis) (push_sum (ca_qoff acc) (len run_qis))
                  (ca_kv acc ++ prior ++ slice_to (to_int32 <$> own) own_prefix_len)
                  (ca_kvpos acc ++ (if 0 <? len prior then concat ((fun b => pyrange b.1.1 b.1.2) <$> before) else [])
                     ++ pyrange s_k (s_k + own_prefix_len))
                  (push_sum (ca_kvoff acc) (len prior + own_prefix_len)) (ca_dst acc) (ca_src acc) (ca_gq_cursor acc))
          end
      end
  end.

(** Where the recomputed keys and values of the sinks go. *)
Definition seam_writes (meta : RopeMeta) (seam_for_req : list (Z * Z * (Z * Z) * Z)) : list (list Z * Z) :=
  let hit_priv := foldl (fun d '(hs, he, p, _) => dict_set (hs, he) p d) [] (ro_local_hit meta) in
  omap (fun '(qi, ap, se, _) =>
    match dict_get se hit_priv with
    | None => None
    | Some priv => Some (pyslice priv (ap - se.1) (ap - se.1 + 1), qi)
    end) seam_for_req.

Definition plan_req_c (global_q_indices : list Z) (acc : CAcc)
    (rm : RopeMeta * list (Z * Z * (Z * Z) * Z) * list (Z * Z)) : outcome CAcc :=
  let '(meta, seam_for_req, miss_q_for_req) := rm in
  if negb (bool_decide (is_Some (ro_global meta))) && bool_decide (seam_for_req = []) && bool_decide (miss_q_for_req = [])
  then Ret acc
  else
    let '(gq_slice, acc1) :=
      match ro_global meta with
      | Some (gs, ge, gp) =>
          let gq_slice := pyslice global_q_indices (ca_gq_cursor acc) (ca_gq_cursor acc + (ge - gs)) in
          (gq_slice, mkCAcc (ca_q acc) (ca_qoff acc) (ca_kv acc) (ca_kvpos acc) (ca_kvoff acc)
            (ca_dst acc ++ gp) (ca_src acc ++ gq_slice) (ca_gq_cursor acc + (ge - gs)))
      | None => ([], acc)
      end in
    let seam := seam_writes meta seam_for_req in
    let acc2 := mkCAcc (ca_q acc1) (ca_qoff acc1) (ca_kv acc1) (ca_kvpos acc1) (ca_kvoff acc1)
      (ca_dst acc1 ++ concat seam.*1) (ca_src acc1 ++ seam.*2) (ca_gq_cursor acc1) in
    let all_qs := sort_key fst
      (match ro_global meta with Some (gs, _, _) => (fun '(j, qi) => (gs + j, qi)) <$> enumerate gq_slice | None => [] end
       ++ ((fun '(qi, ap, _, _) => (ap, qi)) <$> seam_for_req) ++ miss_q_for_req) in
    emit_runs (length all_qs) (all_segs meta) all_qs acc2.

(** [torch.tensor(l, dtype=torch.int32)]. *)
Definition int32_tensor (l : list Z) : outcome (list Z) :=
  if forallb (fun x => (- 2 ^ 31 <=? x) && (x <? 2 ^ 31)) l then Ret l else Raise RuntimeError.

Definition build_phase_c_cache (rope_meta : list RopeMeta) (req_abs : list (Z * (Z * Z)))
    (global_q_indices : list Z) (hit_seam_q_info : list SeamQ) (local_miss_q_indices : list Z)
    : outcome (option PhaseC) :=
  obind (seam_by_req rope_meta hit_seam_q_info) (fun seams =>
  obind (miss_by_req req_abs local_miss_q_indices) (fun miss =>
  obind (ofold (plan_req_c global_q_indices) (mkCAcc [] [0] [] [] [0] [] [] 0)
    (zip (zip rope_meta seams)
      ((fun req_idx => snd <$> filter (fun x : Z * (Z * Z) => x.1 = req_idx) miss) <$> pyrange 0 (len rope_meta))))
    (fun acc =>
  match ca_q acc with
  | [] => Ret None
  | _ =>
      obind (int32_tensor (ca_qoff acc)) (fun qo_indptr =>
      obind (int32_tensor (ca_kvoff acc)) (fun kv_indptr =>
      Ret (Some (mkPhaseC (ca_q acc) (ca_dst acc) (ca_src acc) (ca_kv acc) (ca_kvpos acc) qo_indptr kv_indptr
        (replicate (length (ca_qoff acc) - 1) 1) (ca_q acc)))))
  end))).

(** ** The layer *)

(** What is kept between the layers of a batch: the rows of phase B, the
    plan of phase C and, once the kernel has been planned, its arguments. *)
Record RopeState := mkRopeState {
  rs_phase_b : option (list Z * list Z * list Z);
  rs_phase_c : option PhaseC;
  rs_planned : option (list Z * list Z * list Z * list Z);
}.

(** [_init_pic_rope_plans]. *)
Definition init_pic_rope_plans (st : RopeState) : RopeState := mkRopeState None None None.

Section layer.
Context {R : Type} (radd rmul rsub : R -> R -> R) (ropp : R -> R).
Context {Q W O : Type} (o_zero : O)
  (prefill : list Z -> list Z -> list Z -> list Z -> list Q -> KVBuf (list (list R)) W -> list O).
Local Notation KVBuf := (KVBuf (list (list R)) W).

(** [o_buf.index_copy_(0, idx, rows)]. *)
Definition index_copy {A} (buf : list A) (idx : list Z) (rows : list A) : outcome (list A) :=
  if (length idx =? length rows)%nat
  then if forallb (fun i => 0 <=? i) idx then index_puts buf (zip idx rows) else Raise IndexError
  else Raise RuntimeError.

Definition pic_rope_phase_c (rope_meta : list RopeMeta) (req_abs : list (Z * (Z * Z))) (q3 : list Q)
    (k3 : list (list (list R))) (v3 : list W) (global_q_indices : list Z) (hit_seam_q_info : list SeamQ)
    (local_miss_q_indices : list Z) (st : RopeState) (buf : KVBuf) (o_buf : list O)
    : outcome (RopeState * KVBuf * list O) :=
  obind (match rs_phase_c st with
         | Some c => Ret (Some c)
         | None => build_phase_c_cache rope_meta req_abs global_q_indices hit_seam_q_info local_miss_q_indices
         end) (fun cache =>
  match cache with
  | None => Ret (mkRopeState (rs_phase_b st) None (rs_planned st), buf, o_buf)
  | Some c =>
      obind (match pc_kv_dst_slots c with
             | [] => Ret buf
             | dst =>
                 obind (omapM (index_select k3) (pc_kv_src_qis c)) (fun ks =>
                 obind (omapM (index_select v3) (pc_kv_src_qis c)) (fun vs => put_kv dst ks vs buf))
             end) (fun buf' =>
      obind (omapM (index_select q3) (pc_q_packed_src c)) (fun q_packed =>
      let planned := match rs_planned st with
                     | Some p => p
                     | None => (pc_qo_indptr c, pc_kv_indptr c, pc_kv_indices c, pc_kv_last_page_len c)
                     end in
      let '(qo, kv, idx, lp) := planned in
      obind (index_copy o_buf (pc_scatter_idx c) (prefill qo kv idx lp q_packed buf')) (fun o_buf' =>
      Ret (mkRopeState (rs_phase_b st) cache (Some planned), buf', o_buf'))))
  end).

Definition forward_extend_pic_full_attn_rope (cfg : RopeCfg (R := R)) (is_recompute : bool)
    (meta : option (list RopeMeta)) (q3 : list Q) (k3 : list (list (list R))) (v3 : list W)
    (st : RopeState) (buf : KVBuf) : outcome (RopeState * KVBuf * list O) :=
  match meta with
  | None => Ret (st, buf, [])
  | Some rope_meta =>
      let o_buf := replicate (length q3) o_zero in
      let m := build_qmap is_recompute rope_meta in
      if negb (length (qm_roles m) =? length q3)%nat then Raise AssertionError
      else
        obind (walk is_recompute rope_meta m) (fun '(local_q, global_q, seam_q) =>
        obind (if negb (bool_decide (local_q = [])) || existsb (fun mt => negb (bool_decide (ro_local_hit mt = []))) rope_meta
               then pic_rope_phase_a_kv_only radd rmul rsub ropp cfg k3 v3 rope_meta local_q buf
               else Ret buf) (fun buf1 =>
        obind (pic_rope_phase_b radd rmul rsub cfg rope_meta (rs_phase_b st, buf1)) (fun '(b_cache, buf2) =>
        let st2 := mkRopeState b_cache (rs_phase_c st) (rs_planned st) in
        if bool_decide (global_q = []) && bool_decide (seam_q = []) && bool_decide (local_q = [])
        then Ret (st2, buf2, o_buf)
        else pic_rope_phase_c rope_meta (qm_req_abs m) q3 k3 v3 global_q seam_q local_q st2 buf2 o_buf)))
  end.

End layer.
