(* ===== verification/RopePlanFacts.v ===== *)
(** * The plan of the re-rotation modes: correctness

    The rows of the batch and the positions of its requests correspond
    ([build_qmap_eq]), and the plan of phase C is a list of runs in which
    each query is planned over the private slots of the positions up to its
    own ([build_phase_c_eq]). *)

From S2P Require Import Prelude PyDict ConvTails KVBuffer GdnMeta GdnMetaFacts FlashPrefill FullAttn RopeKV RopeForward.

(** ** Requests with their place in the batch *)

(** The tokens of a request, its segments, and the private slot and the
    public slot of each position. *)
Record PReq := mkPReq {
  pr_n : Z;
  pr_meta : RopeMeta;
  pr_slot : Z -> Z;
  pr_pub : Z -> Z;
}.

Section plan.
Context (rec : bool).
Implicit Types (r : PReq) (rs : list PReq).

Definition computed r : list Z := (req_entries rec (pr_meta r)).*1.
Definition missP r : list Z := concat ((fun '(s, e, _, _) => pyrange s e) <$> ro_local_miss (pr_meta r)).
Definition hitP r : list Z := concat ((fun '(s, e, _, _) => pyrange s e) <$> ro_local_hit (pr_meta r)).
Definition globP r : list Z := match ro_global (pr_meta r) with Some (s, e, _) => pyrange s e | None => [] end.
Definition seamP r : list Z := snd <$> meta_seam rec (pr_meta r).

Fixpoint tiled r (a : Z) (segs : list (Z * Z * list Z)) : Prop :=
  match segs with
  | [] => a = pr_n r
  | (s, e, priv) :: segs' => s = a /\ s < e /\ priv = pr_slot r <$> pyrange s e /\ tiled r e segs'
  end.

(** The segments tile the prompt, the sinks lie in reused segments, and
    the slot lists follow the slot functions. *)
Record preq_ok r : Prop := {
  po_tiled : tiled r 0 (all_segs (pr_meta r));
  po_pub : Forall (fun '(s, e, _, pub) => pub = pr_pub r <$> pyrange s e)
    (ro_local_miss (pr_meta r) ++ ro_local_hit (pr_meta r));
  po_seam : Forall (fun '(s, e, _, ap) => s <= ap < e /\
    exists priv pub, (s, e, priv, pub) ∈ ro_local_hit (pr_meta r)) (meta_seam rec (pr_meta r));
  po_seam_nodup : NoDup (seamP r);
}.

(** A request with its index and the row of its first query. *)
Record LReq := mkLReq { lr_idx : Z; lr_off : Z; lr_req : PReq }.

Fixpoint locate (idx off : Z) rs : list LReq :=
  match rs with
  | [] => []
  | r :: rs' => mkLReq idx off r :: locate (idx + 1) (off + len (computed r)) rs'
  end.

(** The query rows: request and position. *)
Definition lrows (ls : list LReq) : list (Z * Z) :=
  concat ((fun l => (fun p => (lr_idx l, p)) <$> computed (lr_req l)) <$> ls).

Definition row_dict (off : Z) (P : list Z) : list (Z * Z) := (fun '(k, p) => (p, k)) <$> enum_from off P.
Definition qidx (l : LReq) (p : Z) : Z := default 0 (dict_get p (row_dict (lr_off l) (computed (lr_req l)))).

(** ** Dictionaries of rows *)

Lemma row_dict_get off P p k : NoDup P -> P !! k = Some p -> dict_get p (row_dict off P) = Some (off + Z.of_nat k).
Proof.
  revert off k. induction P as [|a P IH]; intros off k Hn Hk; [done|]. unfold row_dict.
  rewrite enum_from_cons, fmap_cons. apply NoDup_cons in Hn as [Ha Hn]. destruct k as [|k]; cbn in Hk |- *.
  - injection Hk as ->. rewrite decide_True by done. f_equal. lia.
  - rewrite decide_False; [|intros ->; apply Ha; by eapply list_elem_of_lookup_2].
    change (dict_get p (row_dict (off + 1) P) = Some (off + Z.pos (Pos.of_succ_nat k))).
    rewrite (IH (off + 1) k Hn Hk). f_equal. lia.
Qed.

Lemma qidx_lookup l k p : NoDup (computed (lr_req l)) -> computed (lr_req l) !! k = Some p ->
  qidx l p = lr_off l + Z.of_nat k.
Proof. intros Hn Hk. unfold qidx. by rewrite (row_dict_get _ _ _ k Hn Hk). Qed.

Lemma qidx_get l p : NoDup (computed (lr_req l)) -> p ∈ computed (lr_req l) ->
  dict_get p (row_dict (lr_off l) (computed (lr_req l))) = Some (qidx l p).
Proof. intros Hn (k & Hk)%list_elem_of_lookup. unfold qidx. by rewrite (row_dict_get _ _ _ k Hn Hk). Qed.

Lemma qidx_computed l : NoDup (computed (lr_req l)) ->
  qidx l <$> computed (lr_req l) = pyrange (lr_off l) (lr_off l + len (computed (lr_req l))).
Proof.
  intros Hn. apply list_eq. intros k. rewrite list_lookup_fmap.
  destruct (computed (lr_req l) !! k) as [p|] eqn:Ek; cbn.
  - rewrite (qidx_lookup l k p Hn Ek). symmetry. apply lookup_seqZ. apply lookup_lt_Some in Ek. unfold len. lia.
  - symmetry. apply lookup_seqZ_ge. apply lookup_ge_None in Ek. unfold len. lia.
Qed.

(** ** The map of rows *)

Definition dict_sets {K V} `{EqDecision K} (d kvs : list (K * V)) : list (K * V) :=
  foldl (fun acc kv => dict_set kv.1 kv.2 acc) d kvs.

Lemma map_entry_fold i m d es :
  foldl (map_entry i) (m, d) es =
    (mkQMap (qm_cursor m + len es) (qm_roles m ++ ((fun e => (i, e.2)) <$> es)) (qm_abs_to_q m)
       (dict_sets (qm_req_abs m) (enum_from (qm_cursor m) ((fun e => (i, e.1)) <$> es))),
     dict_sets d (row_dict (qm_cursor m) es.*1)).
Proof.
  unfold row_dict. revert m d. induction es as [|[ap kind] es IH]; intros m d.
  - destruct m. cbn. by rewrite Z.add_0_r, app_nil_r.
  - cbn [foldl map_entry]. rewrite IH, len_cons, !fmap_cons, !enum_from_cons, fmap_cons.
    cbn [qm_cursor qm_roles qm_abs_to_q qm_req_abs foldl dict_sets fst snd].
    rewrite <- app_assoc. cbn [app fst snd]. do 2 f_equal. lia.
Qed.

Lemma dict_set_all {K V} `{EqDecision K} (d kvs : list (K * V)) : NoDup (d.*1 ++ kvs.*1) -> dict_sets d kvs = d ++ kvs.
Proof.
  unfold dict_sets. revert d. induction kvs as [|[k v] kvs IH]; intros d Hn; cbn; [by rewrite app_nil_r|].
  rewrite fmap_cons in Hn. cbn in Hn. rewrite dict_set_fresh.
  - rewrite IH; [by rewrite <- app_assoc|]. by rewrite fmap_app, <- app_assoc.
  - apply dict_get_None. intros Hk. apply NoDup_app in Hn as (_ & Hd & _). apply (Hd k Hk). left.
Qed.

Lemma enum_keys {A} k (l : list A) : (enum_from k l).*1 = seqZ k (len l).
Proof. unfold enum_from. apply fst_zip. rewrite length_seqZ. unfold len. lia. Qed.

Lemma enum_from_app0 {A} (l l' : list A) : enum_from 0 l ++ enum_from (len l) l' = enum_from 0 (l ++ l').
Proof. by rewrite enum_from_app, Z.add_0_l. Qed.

Lemma row_dict_keys off P : (row_dict off P).*1 = P.
Proof.
  unfold row_dict, enum_from. rewrite <- list_fmap_compose. transitivity (zip (seqZ off (len P)) P).*2.
  - apply list_fmap_ext. by intros ? [].
  - apply snd_zip. rewrite length_seqZ. unfold len. lia.
Qed.

Definition dicts (ls : list LReq) : list (list (Z * Z)) := (fun l => row_dict (lr_off l) (computed (lr_req l))) <$> ls.
Definition roles (ls : list LReq) : list (Z * Z) :=
  concat ((fun l => (fun e => (lr_idx l, e.2)) <$> req_entries rec (pr_meta (lr_req l))) <$> ls).

Lemma build_qmap_from rs idx pre m :
  Forall (fun r => NoDup (computed r)) rs ->
  qm_cursor m = len pre -> qm_req_abs m = enum_from 0 pre ->
  foldl (map_req rec) m (enum_from idx (pr_meta <$> rs)) =
    let ls := locate idx (len pre) rs in
    mkQMap (len pre + len (lrows ls)) (qm_roles m ++ roles ls) (qm_abs_to_q m ++ dicts ls)
      (enum_from 0 (pre ++ lrows ls)).
Proof.
  intros HF. revert idx pre m. induction HF as [|r rs Hr HF IH]; intros idx pre m Hc Ha.
  - cbn. destruct m. cbn in *. by rewrite !app_nil_r, Z.add_0_r, Hc, Ha.
  - rewrite fmap_cons, enum_from_cons. cbn [foldl locate]. unfold map_req at 2. cbn [fst snd].
    rewrite map_entry_fold, Hc. cbn [qm_cursor qm_roles qm_abs_to_q qm_req_abs].
    set (es := req_entries rec (pr_meta r)). set (new := (fun e : Z * Z => (idx, e.1)) <$> es).
    assert (Hnew : new = (fun p => (idx, p)) <$> computed r) by (unfold new, computed; by rewrite <- list_fmap_compose).
    assert (Hlen : len new = len es) by apply len_map.
    rewrite dict_set_all.
    2: { cbn. rewrite row_dict_keys. exact Hr. }
    rewrite Ha, dict_set_all.
    2: { rewrite <- fmap_app, <- (Z.add_0_l (len pre)), <- enum_from_app, enum_keys. apply NoDup_seqZ. }
    rewrite enum_from_app0.
    rewrite (IH (idx + 1) (pre ++ new)).
    2: { cbn. by rewrite len_app, Hlen. }
    2: done.
    assert (Eo : len (pre ++ new) = len pre + len (computed r)) by (rewrite len_app, Hlen; unfold computed; by rewrite len_map).
    rewrite Eo. cbv zeta. unfold lrows, roles, dicts. rewrite !fmap_cons. cbn [concat lr_idx lr_off lr_req].
    cbn [qm_roles qm_abs_to_q]. rewrite <- Hnew, !len_app, <- !app_assoc. f_equal.
    rewrite Hlen. unfold computed. rewrite len_map. fold es. lia.
Qed.

Lemma build_qmap_eq rs :
  Forall (fun r => NoDup (computed r)) rs ->
  build_qmap rec (pr_meta <$> rs) =
    mkQMap (len (lrows (locate 0 0 rs))) (roles (locate 0 0 rs)) (dicts (locate 0 0 rs))
      (enumerate (lrows (locate 0 0 rs))).
Proof. intros HF. by apply (build_qmap_from rs 0 [] (mkQMap 0 [] [] [])). Qed.

(** ** Positions *)

Lemma miss_positions_eq r : concat (miss_positions <$> ro_local_miss (pr_meta r)) = missP r.
Proof. unfold missP. apply f_equal, list_fmap_ext. intros i [[[s e] priv] pub] _. apply offset_pyrange. Qed.

Lemma global_positions_eq r : global_positions (pr_meta r) = globP r.
Proof. unfold global_positions, globP. destruct (ro_global _) as [[[s e] p]|]; [|done]. apply offset_pyrange. Qed.

Lemma computed_perm r : computed r ≡ₚ missP r ++ globP r ++ seamP r.
Proof.
  unfold computed, req_entries. rewrite sort_key_perm, !fmap_app, <- !list_fmap_compose.
  rewrite miss_positions_eq, global_positions_eq. unfold seamP.
  assert (Hid : forall l : list Z, (fst ∘ (fun p : Z => (p, 0))) <$> l = l) by (intros l; apply list_fmap_id).
  assert (Hid1 : forall l : list Z, (fst ∘ (fun p : Z => (p, 1))) <$> l = l) by (intros l; apply list_fmap_id).
  by rewrite Hid, Hid1.
Qed.

Lemma tiled_bound r a segs : tiled r a segs -> a <= pr_n r.
Proof. revert a. induction segs as [|[[s e] p] segs IH]; intros a; cbn; [lia|]. intros (-> & H & _ & Ht). specialize (IH _ Ht). lia. Qed.

Lemma tiled_positions r a segs : tiled r a segs ->
  concat ((fun seg => pyrange seg.1.1 seg.1.2) <$> segs) = pyrange a (pr_n r).
Proof.
  revert a. induction segs as [|[[s e] p] segs IH]; intros a; cbn [tiled].
  - intros ->. by rewrite pyrange_empty.
  - intros (-> & H & _ & Ht). rewrite fmap_cons. cbn [concat fst snd]. rewrite (IH e Ht).
    symmetry. apply pyrange_app. pose proof (tiled_bound _ _ _ Ht). lia.
Qed.

Lemma positions_perm r : preq_ok r -> pyrange 0 (pr_n r) ≡ₚ missP r ++ hitP r ++ globP r.
Proof.
  intros Hr. rewrite <- (tiled_positions _ _ _ (po_tiled r Hr)). unfold all_segs, segs_in_order.
  rewrite fmap_app, concat_app, app_assoc. apply Permutation_app.
  - rewrite sort_key_perm, fmap_app, concat_app. unfold missP, hitP.
    apply Permutation_app; rewrite <- list_fmap_compose; apply reflexive_eq, f_equal, list_fmap_ext; by intros ? [[[]]].
  - unfold globP. destruct (ro_global _) as [[[s e] p]|]; cbn; by rewrite ?app_nil_r.
Qed.

Lemma seam_hit r p : preq_ok r -> p ∈ seamP r -> p ∈ hitP r.
Proof.
  intros Hr ([[[s e] j] ap] & -> & Hin)%list_elem_of_fmap. pose proof (po_seam r Hr) as Hs.
  rewrite Forall_forall in Hs. destruct (Hs _ Hin) as (Hap & priv & pub & Hhit). cbn in *.
  apply elem_of_concat_map. exists (s, e, priv, pub). split; [done|]. by apply elem_of_pyrange.
Qed.

Lemma positions_nodup r : preq_ok r -> NoDup (missP r ++ hitP r ++ globP r).
Proof. intros Hr. rewrite <- positions_perm by done. apply NoDup_seqZ. Qed.

Lemma computed_nodup r : preq_ok r -> NoDup (computed r).
Proof.
  intros Hr. rewrite computed_perm. pose proof (positions_nodup r Hr) as Hn.
  apply NoDup_app in Hn as (Hm & Hmx & (Hh & Hhx & Hg)%NoDup_app).
  apply NoDup_app. split; [done|]. split.
  - intros p Hp [Hg'|Hs]%elem_of_app; apply (Hmx p Hp), elem_of_app; [by right|left; by apply seam_hit].
  - apply NoDup_app. split; [done|]. split; [|by apply po_seam_nodup].
    intros p Hp Hs. apply (Hhx p); [by apply seam_hit|done].
Qed.

Lemma computed_sorted r : preq_ok r -> StronglySorted Z.lt (computed r).
Proof.
  intros Hr. pose proof (computed_nodup r Hr) as Hn.
  assert (Hs : StronglySorted Z.le (computed r)).
  { unfold computed, req_entries. match goal with |- context [sort_key fst ?l] => pose proof (sort_key_sorted fst l) as Hs end.
    induction Hs as [|x l _ IH Hx]; constructor; [exact IH|]. apply Forall_fmap. exact Hx. }
  induction Hs as [|x l _ IH Hx]; [constructor|]. apply NoDup_cons in Hn as [Hxl Hn]. constructor; [by apply IH|].
  rewrite Forall_forall in Hx |- *. intros y Hy. specialize (Hx y Hy).
  destruct (decide (x = y)) as [->|]; [done|lia].
Qed.

Lemma computed_lt r p : preq_ok r -> p ∈ computed r -> 0 <= p < pr_n r.
Proof.
  intros Hr Hp. rewrite computed_perm in Hp. apply elem_of_pyrange. rewrite positions_perm by done.
  rewrite !elem_of_app in *. destruct Hp as [?|[?|?%seam_hit]]; auto.
Qed.

(** ** Walking the segments *)

Definition seam_q (l : LReq) : list (Z * Z * (Z * Z) * Z) :=
  (fun '(s, e, j, ap) => (qidx l ap, lr_idx l, (s, e), j)) <$> meta_seam rec (pr_meta (lr_req l)).
Definition seam_for (l : LReq) : list (Z * Z * (Z * Z) * Z) :=
  (fun '(s, e, j, ap) => (qidx l ap, ap, (s, e), j)) <$> meta_seam rec (pr_meta (lr_req l)).

Lemma lookup_q_all l ps : preq_ok (lr_req l) -> (forall p, p ∈ ps -> p ∈ computed (lr_req l)) ->
  omapM (lookup_q (row_dict (lr_off l) (computed (lr_req l)))) ps = Ret (qidx l <$> ps).
Proof.
  intros Hr Hps. apply omapM_Ret. intros p Hp. unfold lookup_q.
  by rewrite (qidx_get l p (computed_nodup _ Hr) (Hps p Hp)).
Qed.

Lemma walk_req_eq l : preq_ok (lr_req l) ->
  walk_req rec (lr_idx l, pr_meta (lr_req l), row_dict (lr_off l) (computed (lr_req l))) =
    Ret (qidx l <$> missP (lr_req l), qidx l <$> globP (lr_req l), seam_q l).
Proof.
  intros Hr. unfold walk_req. rewrite miss_positions_eq, global_positions_eq.
  assert (Hin : forall p, p ∈ missP (lr_req l) ++ globP (lr_req l) ++ seamP (lr_req l) -> p ∈ computed (lr_req l))
    by (intros p Hp; by rewrite computed_perm).
  rewrite (lookup_q_all l) by (done || (intros; apply Hin; rewrite !elem_of_app; auto)). cbn [obind].
  rewrite (lookup_q_all l) by (done || (intros; apply Hin; rewrite !elem_of_app; auto)). cbn [obind].
  rewrite (omapM_Ret _ (fun '(s, e, j, ap) => (qidx l ap, lr_idx l, (s, e), j))); [done|].
  intros [[[s e] j] ap] Hi. unfold lookup_q. rewrite (qidx_get l ap (computed_nodup _ Hr)); [done|].
  apply Hin. rewrite !elem_of_app. right. right. apply list_elem_of_fmap. by exists (s, e, j, ap).
Qed.

Lemma zip_located rs idx off :
  zip (enum_from idx (pr_meta <$> rs)) (dicts (locate idx off rs)) =
    (fun l => (lr_idx l, pr_meta (lr_req l), row_dict (lr_off l) (computed (lr_req l)))) <$> locate idx off rs.
Proof.
  unfold dicts. revert idx off. induction rs as [|r rs IH]; intros idx off; [done|].
  cbn [locate]. rewrite !fmap_cons, enum_from_cons. cbn. f_equal. apply IH.
Qed.

Lemma located_map {A} (f : PReq -> A) rs idx off : f <$> rs = (fun l => f (lr_req l)) <$> locate idx off rs.
Proof.
  revert idx off. induction rs as [|r rs IH]; intros idx off; [done|]. cbn [locate]. rewrite !fmap_cons. f_equal. apply IH.
Qed.

Lemma zip_fmap {A B C} (f : A -> B) (g : A -> C) l : zip (f <$> l) (g <$> l) = (fun x => (f x, g x)) <$> l.
Proof. induction l as [|x l IH]; [done|]. rewrite !fmap_cons. cbn. f_equal. exact IH. Qed.

Lemma located_req rs idx off l : l ∈ locate idx off rs -> lr_req l ∈ rs.
Proof.
  revert idx off. induction rs as [|r rs IH]; intros idx off; cbn [locate]; [by intros ?%not_elem_of_nil|].
  intros [->|Hl]%elem_of_cons; [left|right; by eapply IH].
Qed.

Lemma walk_eq rs m : Forall preq_ok rs -> qm_abs_to_q m = dicts (locate 0 0 rs) ->
  let ls := locate 0 0 rs in
  walk rec (pr_meta <$> rs) m =
    Ret (concat ((fun l => qidx l <$> missP (lr_req l)) <$> ls),
         concat ((fun l => qidx l <$> globP (lr_req l)) <$> ls), concat (seam_q <$> ls)).
Proof.
  intros HF Hm ls. unfold walk. rewrite Hm. change (enumerate (pr_meta <$> rs)) with (enum_from 0 (pr_meta <$> rs)).
  rewrite zip_located, omapM_fmap. fold ls.
  rewrite (omapM_Ret _ (fun l => (qidx l <$> missP (lr_req l), qidx l <$> globP (lr_req l), seam_q l))).
  - cbn [obind]. by rewrite <- !list_fmap_compose.
  - intros l Hl. apply walk_req_eq. rewrite Forall_forall in HF. eapply HF, located_req, Hl.
Qed.

(** ** Sinks and computed segments by request *)

Lemma pyget_app_mid {A} (pre mid post : list A) k x : mid !! k = Some x -> pyget (pre ++ mid ++ post) (len pre + Z.of_nat k) = Some x.
Proof.
  intros Hk. pose proof (lookup_lt_Some _ _ _ Hk). unfold pyget. pose proof (len_nonneg pre). pose proof (len_nonneg post).
  destruct (Z.ltb_spec (len pre + Z.of_nat k) 0); [lia|].
  rewrite andb_true_intro by (rewrite !len_app; unfold len in *; lia).
  rewrite lookup_app_r by (unfold len; lia).
  replace (Z.to_nat (len pre + Z.of_nat k) - length pre)%nat with k by (unfold len; lia). by rewrite lookup_app_l.
Qed.

Lemma seam_step info pre post out l :
  rec = true -> info = pre ++ seam_q l ++ post ->
  seam_of_req info (out, len pre) (pr_meta (lr_req l)) = Ret (out ++ [seam_for l], len (pre ++ seam_q l)).
Proof.
  intros Hrec ->. unfold seam_of_req, seam_q, seam_for, meta_seam. rewrite Hrec.
  destruct (ro_hit_seam (pr_meta (lr_req l))) as [hs|]; [|cbn; by rewrite app_nil_r].
  set (items := seam_items hs). set (f := fun '(s, e, j, ap) => (qidx l ap, lr_idx l, (s, e), j)).
  set (g := fun '(s, e, j, ap) => (qidx l ap, ap, (s, e), j)).
  rewrite (omapM_Ret _ (fun kx => g kx.2)).
  - cbn [obind]. assert (E : (fun kx : Z * (Z * Z * Z * Z) => g kx.2) <$> enumerate items = g <$> items).
    { transitivity (g <$> (enumerate items).*2); [by rewrite <- list_fmap_compose|]. f_equal.
      apply snd_zip. rewrite length_seqZ. unfold len. lia. }
    rewrite E, len_app, !len_map. done.
  - intros [k [[[s e] j] ap]] (n & Hn)%list_elem_of_lookup.
    unfold enumerate in Hn. rewrite lookup_zip_with in Hn. destruct (seqZ 0 (len items) !! n) as [k'|] eqn:Ek; [|done].
    cbn in Hn. destruct (items !! n) as [x|] eqn:Ex; [|done]. cbn in Hn. injection Hn as -> ->.
    apply lookup_seqZ in Ek as [-> _]. rewrite Z.add_0_l.
    rewrite (pyget_app_mid pre (f <$> items) post n (f (s, e, j, ap))) by (by rewrite list_lookup_fmap, Ex). done.
Qed.

Lemma seam_by_req_eq rs : let ls := locate 0 0 rs in
  seam_by_req (pr_meta <$> rs) (concat (seam_q <$> ls)) = Ret (seam_for <$> ls).
Proof.
  intros ls. pose proof (located_map pr_meta rs 0 0) as Hm. fold ls in Hm.
  unfold seam_by_req. destruct (concat (seam_q <$> ls)) as [|x xs] eqn:Einfo.
  - rewrite Hm, length_fmap. clear Hm. f_equal. induction ls as [|l ls IH]; [done|]. rewrite fmap_cons in Einfo |- *.
    cbn [concat] in Einfo. apply app_eq_nil in Einfo as [El Els]. cbn [length replicate]. rewrite (IH Els). f_equal.
    unfold seam_q, seam_for in *. by apply fmap_nil_inv in El as ->.
  - assert (Hrec : rec = true).
    { destruct rec eqn:Er; [done|]. exfalso. clear Hm. assert (E : concat (seam_q <$> ls) = []); [|by rewrite E in Einfo].
      clear Einfo. induction ls as [|l ls IH]; [done|]. rewrite fmap_cons. cbn [concat]. rewrite IH. unfold seam_q, meta_seam.
      by rewrite Er. }
    assert (H : forall ls2 pre out, concat (seam_q <$> ls) = pre ++ concat (seam_q <$> ls2) ->
      ofold (seam_of_req (concat (seam_q <$> ls))) (out, len pre) ((fun l => pr_meta (lr_req l)) <$> ls2) =
        Ret (out ++ (seam_for <$> ls2), len (pre ++ concat (seam_q <$> ls2)))).
    { induction ls2 as [|l ls2 IH]; intros pre out E; [cbn; by rewrite !app_nil_r|].
      rewrite fmap_cons in E. rewrite !fmap_cons. cbn [concat ofold] in E |- *.
      rewrite (seam_step _ pre (concat (seam_q <$> ls2)) out l Hrec E). cbn [obind].
      rewrite IH by (by rewrite <- app_assoc). by rewrite <- !app_assoc. }
    specialize (H ls [] [] eq_refl). rewrite Einfo in H. change (len []) with 0 in H. rewrite Hm, H. done.
Qed.

(** The computed segments' queries, bucketed by request. *)
Lemma located_at {A} (f : LReq -> Z -> A) rs idx off l : l ∈ locate idx off rs -> forall k p, computed (lr_req l) !! k = Some p ->
  concat ((fun l => f l <$> computed (lr_req l)) <$> locate idx off rs) !! Z.to_nat (lr_off l + Z.of_nat k - off) = Some (f l p) /\
  off <= lr_off l.
Proof.
  revert idx off. induction rs as [|r rs IH]; intros idx off; cbn [locate]; [by intros ?%not_elem_of_nil|].
  rewrite fmap_cons. cbn [concat lr_idx lr_req]. intros [->|Hl]%elem_of_cons k p Hk; cbn [lr_off lr_idx lr_req] in *.
  - split; [|lia]. rewrite lookup_app_l; [|rewrite length_fmap; apply lookup_lt_Some in Hk; lia].
    replace (Z.to_nat (off + Z.of_nat k - off)) with k by lia. by rewrite list_lookup_fmap, Hk.
  - destruct (IH _ _ Hl k p Hk) as [E Ho]. pose proof (len_nonneg (computed r)). split; [|lia].
    rewrite lookup_app_r by (rewrite length_fmap; unfold len in *; lia). rewrite length_fmap, <- E. f_equal. unfold len. lia.
Qed.

Lemma located_lookup rs idx off l : l ∈ locate idx off rs -> forall k p, computed (lr_req l) !! k = Some p ->
  lrows (locate idx off rs) !! Z.to_nat (lr_off l + Z.of_nat k - off) = Some (lr_idx l, p) /\ off <= lr_off l.
Proof. intros Hl k p Hk. exact (located_at (fun l p => (lr_idx l, p)) rs idx off l Hl k p Hk). Qed.

Lemma enum_get {A} (l : list A) j x : l !! j = Some x -> dict_get (Z.of_nat j) (enumerate l) = Some x.
Proof.
  intros Hj. apply dict_elem_get.
  - unfold dict_wf. change (enumerate l) with (enum_from 0 l). rewrite enum_keys. apply NoDup_seqZ.
  - apply list_elem_of_lookup. exists j. unfold enumerate. rewrite lookup_zip_with, Hj.
    rewrite (proj2 (lookup_seqZ 0 (len l) j (Z.of_nat j))); [done|]. apply lookup_lt_Some in Hj. unfold len. lia.
Qed.

Lemma req_abs_get rs l p : let ls := locate 0 0 rs in preq_ok (lr_req l) -> l ∈ ls -> p ∈ computed (lr_req l) ->
  dict_get (qidx l p) (enumerate (lrows ls)) = Some (lr_idx l, p).
Proof.
  intros ls Hr Hl (k & Hk)%list_elem_of_lookup. rewrite (qidx_lookup l k p (computed_nodup _ Hr) Hk).
  destruct (located_lookup rs 0 0 l Hl k p Hk) as [E Ho].
  rewrite <- (enum_get (lrows ls) (Z.to_nat (lr_off l + Z.of_nat k - 0))) by exact E. f_equal. lia.
Qed.

Lemma miss_by_req_eq rs : let ls := locate 0 0 rs in Forall preq_ok rs ->
  miss_by_req (enumerate (lrows ls)) (concat ((fun l => qidx l <$> missP (lr_req l)) <$> ls)) =
    Ret (concat ((fun l => (fun p => (lr_idx l, (p, qidx l p))) <$> missP (lr_req l)) <$> ls)).
Proof.
  intros ls HF. rewrite Forall_forall in HF. apply omapM_concat. intros l Hl. rewrite omapM_fmap. apply omapM_Ret.
  intros p Hp. assert (Hr : preq_ok (lr_req l)) by (eapply HF, located_req, Hl).
  pose proof (req_abs_get rs l p Hr Hl) as E. cbv zeta in E. fold ls in E. cbn beta. rewrite E; [done|].
  rewrite computed_perm, elem_of_app. by left.
Qed.

Lemma located_idx rs idx off l : l ∈ locate idx off rs -> idx <= lr_idx l < idx + len rs.
Proof.
  revert idx off. induction rs as [|r rs IH]; intros idx off; cbn [locate]; [by intros ?%not_elem_of_nil|].
  rewrite len_cons. pose proof (len_nonneg rs). intros [->|Hl]%elem_of_cons; [cbn; lia|]. specialize (IH _ _ Hl). lia.
Qed.

Lemma bucket_req rs idx off :
  (fun i => snd <$> filter (fun x : Z * (Z * Z) => x.1 = i)
     (concat ((fun l => (fun p => (lr_idx l, (p, qidx l p))) <$> missP (lr_req l)) <$> locate idx off rs)))
    <$> pyrange idx (idx + len rs) =
  (fun l => (fun p => (p, qidx l p)) <$> missP (lr_req l)) <$> locate idx off rs.
Proof.
  set (f := fun l => (fun p => (lr_idx l, (p, qidx l p))) <$> missP (lr_req l)).
  assert (Hf : forall l x, x ∈ f l -> x.1 = lr_idx l) by (by intros l x (p & -> & _)%list_elem_of_fmap).
  revert idx off. induction rs as [|r rs IH]; intros idx off; [by rewrite Z.add_0_r, pyrange_empty|].
  rewrite len_cons, (pyrange_app idx (idx + 1)), fmap_app by (pose proof (len_nonneg rs); lia).
  replace (pyrange idx (idx + 1)) with [idx] by (unfold pyrange; by replace (idx + 1 - idx) with 1 by lia).
  cbn [locate]. rewrite !fmap_cons. cbn [concat]. set (l0 := mkLReq idx off r). set (ls := locate _ _ rs).
  match goal with |- (_ :: (?F <$> [])) ++ _ = _ => change (F <$> []) with (@nil (list (Z * Z))) end.
  cbn [app]. apply f_equal2.
  - rewrite filter_app, (filter_all _ (f l0)), (filter_none _ (concat (f <$> ls))).
    + rewrite app_nil_r. unfold f. by rewrite <- list_fmap_compose.
    + intros x (l & Hl & Hx%Hf)%elem_of_concat_map. apply located_idx in Hl. lia.
    + by intros x Hx%Hf.
  - replace (idx + (1 + len rs)) with (idx + 1 + len rs) by lia. specialize (IH (idx + 1) (off + len (computed r))).
    fold ls in IH. rewrite <- IH.
    apply list_fmap_ext. intros n i Hi. cbn beta. apply f_equal. rewrite filter_app, (filter_none _ (f l0)); [done|].
    intros x Hx%Hf. apply list_elem_of_lookup_2, elem_of_pyrange in Hi. cbn in Hx. lia.
Qed.

(** ** Runs *)

Definition prow r : list Z := pr_slot r <$> pyrange 0 (pr_n r).

(** Where the runs of a request begin: at a segment, or after a position
    that is not computed. *)
Definition begins r (p : Z) : Prop := p ∈ ((fun seg => seg.1.1) <$> all_segs (pr_meta r)) \/ p - 1 ∉ computed r.
#[local] Instance begins_dec r p : Decision (begins r p).
Proof. apply or_dec; apply _. Defined.
Definition run_starts r : list Z := filter (begins r) (computed r).

Definition slots32 r : Prop := forall p, 0 <= p < pr_n r -> 0 <= pr_slot r p < 2 ^ 31.

Lemma int32_slots r a b : slots32 r -> 0 <= a -> b <= pr_n r ->
  to_int32 <$> (pr_slot r <$> pyrange a b) = pr_slot r <$> pyrange a b.
Proof.
  intros Hs Ha Hb. rewrite <- list_fmap_compose. apply list_fmap_ext. intros i p Hp. cbn. apply to_int32_small, Hs.
  apply list_elem_of_lookup_2, elem_of_pyrange in Hp. lia.
Qed.

Lemma find_seg_tiled r a segs before ap : tiled r a segs -> a <= ap < pr_n r ->
  exists b1 s e b2, segs = b1 ++ (s, e, pr_slot r <$> pyrange s e) :: b2 /\
    find_seg ap before segs = Some (before ++ b1, (s, e, pr_slot r <$> pyrange s e)) /\
    s <= ap < e /\ a <= s /\ concat (snd <$> b1) = pr_slot r <$> pyrange a s /\
    (e = pr_n r \/ exists e' p b3, b2 = (e, e', p) :: b3).
Proof.
  revert a before. induction segs as [|[[s e] p] segs IH]; intros a before; cbn [tiled]; [lia|].
  intros (-> & Hlt & -> & Ht) Hap. cbn [find_seg fst snd].
  destruct (Z.leb_spec a ap); [|lia]. destruct (Z.ltb_spec ap e); cbn [andb].
  - exists [], a, e, segs. rewrite app_nil_r. repeat split; try done; try lia.
    + cbn. by rewrite pyrange_empty by lia.
    + destruct segs as [|[[s' e'] p'] segs]; cbn in Ht; [by left|right]. destruct Ht as (-> & _). by eexists _, _, _.
  - destruct (IH e (before ++ [(a, e, pr_slot r <$> pyrange a e)]) Ht) as (b1 & s & e' & b2 & -> & E & H1 & H2 & H3 & H4); [lia|].
    exists ((a, e, pr_slot r <$> pyrange a e) :: b1), s, e', b2. rewrite E, <- app_assoc. repeat split; try done; try lia.
    rewrite fmap_cons. cbn [concat snd]. by rewrite H3, <- fmap_app, <- pyrange_app by lia.
Qed.

Lemma take_run_spec (f : Z -> Z) e x P : x <= e ->
  exists m P', 0 <= m /\ x + m <= e /\ P = pyrange x (x + m) ++ P' /\
    take_run e x ((fun p => (p, f p)) <$> P) = (f <$> pyrange x (x + m), x + m, (fun p => (p, f p)) <$> P') /\
    match P' with p' :: _ => p' <> x + m \/ e <= p' | [] => True end.
Proof.
  revert x. induction P as [|p P IH]; intros x Hx.
  - exists 0, []. rewrite pyrange_empty by lia. rewrite Z.add_0_r. repeat split; try done; lia.
  - rewrite fmap_cons. cbn [take_run]. destruct (Z.eqb_spec p x) as [->|Hne]; cbn [negb orb].
    + destruct (Z.leb_spec e x).
      * exists 0, (x :: P). rewrite pyrange_empty, Z.add_0_r by lia. repeat split; try done; lia.
      * destruct (IH (x + 1)) as (m & P' & H1 & H2 & H3 & H4 & H5); [lia|]. exists (m + 1), P'. rewrite H4.
        replace (x + (m + 1)) with (x + 1 + m) by lia. rewrite (pyrange_app x (x + 1) (x + 1 + m)) by lia.
        replace (pyrange x (x + 1)) with [x] by (unfold pyrange; by replace (x + 1 - x) with 1 by lia).
        cbn [app]. rewrite fmap_cons, <- H3. repeat split; try done; lia.
    + exists 0, (p :: P). rewrite pyrange_empty, Z.add_0_r by lia. repeat split; try done; lia.
Qed.

(** The planner's lists for a list of runs. *)
Definition acc_runs (acc : CAcc) (runs : list Run) : Prop :=
  ca_qoff acc = runs_qo runs /\ ca_kv acc = runs_kv runs /\ ca_kvoff acc = runs_kvp runs.

Lemma push_cu l x : push_sum (cu_seqlens l) x = cu_seqlens (l ++ [x]).
Proof. unfold push_sum, cu_seqlens. rewrite last_cumsum, cumsum_snoc. done. Qed.

Lemma acc_runs_snoc acc runs run q kvpos dst src gq : acc_runs acc runs ->
  acc_runs (mkCAcc q (push_sum (ca_qoff acc) (ru_len run)) (ca_kv acc ++ run_kv run) kvpos
    (push_sum (ca_kvoff acc) (len (run_kv run))) dst src gq) (runs ++ [run]).
Proof.
  intros (E1 & E2 & E3). unfold acc_runs, runs_qo, runs_kv, runs_kvp in *. cbn.
  rewrite E1, E2, E3, !push_cu, !fmap_app, concat_app. cbn. by rewrite app_nil_r.
Qed.

Lemma tiled_starts r a segs : tiled r a segs -> Forall (fun seg => a <= seg.1.1) segs.
Proof.
  revert a. induction segs as [|[[s e] p] segs IH]; intros a; cbn [tiled]; [constructor|].
  intros (-> & Hlt & _ & Ht). constructor; [cbn; lia|]. eapply Forall_impl; [by apply IH|]. cbn. lia.
Qed.

Lemma starts_apart r a b1 s e p b2 x : tiled r a (b1 ++ (s, e, p) :: b2) ->
  x ∈ ((fun seg => seg.1.1) <$> (b1 ++ (s, e, p) :: b2)) -> x <= s \/ e <= x.
Proof.
  revert a. induction b1 as [|[[s1 e1] p1] b1 IH]; intros a; cbn [app tiled].
  - intros (-> & _ & _ & Ht). rewrite fmap_cons. cbn. intros [->|Hx]%elem_of_cons; [by left|right].
    apply list_elem_of_fmap in Hx as (seg & -> & Hs). pose proof (tiled_starts _ _ _ Ht) as HF.
    rewrite Forall_forall in HF. by apply HF.
  - intros (-> & Hlt & _ & Ht). rewrite fmap_cons. cbn. intros [->|Hx]%elem_of_cons; [|by eapply IH].
    left. pose proof (tiled_starts _ _ _ Ht) as HF. rewrite Forall_forall in HF.
    specialize (HF (s, e, p)). cbn in HF. rewrite elem_of_app, elem_of_cons in HF. specialize (HF (or_intror (or_introl eq_refl))). lia.
Qed.

Lemma sorted_split (P1 P2 : list Z) x y : StronglySorted Z.lt (P1 ++ P2) -> x ∈ P1 -> y ∈ P2 -> x < y.
Proof.
  induction P1 as [|a P1 IH]; intros Hs Hx Hy; [by apply not_elem_of_nil in Hx|]. cbn in Hs.
  apply StronglySorted_inv in Hs as [Hs Ha]. apply elem_of_cons in Hx as [->|Hx]; [|by apply IH].
  rewrite Forall_forall in Ha. apply Ha, elem_of_app. by right.
Qed.

Lemma gap_begins r A p' P' : preq_ok r -> computed r = A ++ p' :: P' -> (forall x, x ∈ A -> x < p' - 1) -> begins r p'.
Proof.
  intros Hr Ec HA. right. rewrite Ec. pose proof (computed_sorted r Hr) as Hs. rewrite Ec in Hs.
  intros [Hin%HA|[Hin|Hin]%elem_of_cons]%elem_of_app; [lia|lia|].
  replace (A ++ p' :: P') with ((A ++ [p']) ++ P') in Hs by (by rewrite <- app_assoc).
  assert (p' < p' - 1); [|lia]. eapply sorted_split; [exact Hs| |exact Hin]. apply elem_of_app. right. left.
Qed.

(** One run: where it ends the next one begins. *)
Lemma run_step r P1 ap0 P3 f : preq_ok r -> computed r = P1 ++ ap0 :: P3 -> slots32 r ->
  exists b1 s e own m P', find_seg ap0 [] (all_segs (pr_meta r)) = Some (b1, (s, e, own)) /\
    0 <= m /\ P3 = pyrange (ap0 + 1) (ap0 + 1 + m) ++ P' /\
    take_run e (ap0 + 1) ((fun p => (p, f p)) <$> P3) =
      (f <$> pyrange (ap0 + 1) (ap0 + 1 + m), ap0 + 1 + m, (fun p => (p, f p)) <$> P') /\
    len (to_int32 <$> concat (snd <$> b1)) = s /\ s <= ap0 /\
    (to_int32 <$> concat (snd <$> b1)) ++ slice_to (to_int32 <$> own) (ap0 + 1 + m - 1 - s + 1) =
      run_kv (mkRun ap0 (1 + m) (prow r)) /\
    run_ok (mkRun ap0 (1 + m) (prow r)) /\
    filter (begins r) (pyrange (ap0 + 1) (ap0 + 1 + m)) = [] /\
    match P' with p' :: _ => begins r p' | [] => True end.
Proof.
  intros Hr Ec Hs32. assert (Hap : 0 <= ap0 < pr_n r) by (apply computed_lt; [done|rewrite Ec, elem_of_app; right; left]).
  pose proof (po_tiled r Hr) as Ht.
  destruct (find_seg_tiled r 0 _ [] ap0 Ht Hap) as (b1 & s & e & b2 & Esegs & Ef & Hse & Hs & Hb1 & Hnext).
  destruct (take_run_spec f e (ap0 + 1) P3) as (m & P' & Hm & Hme & EP & Et & Hend); [lia|].
  assert (He : e <= pr_n r).
  { pose proof (tiled_positions _ _ _ Ht) as Hp. rewrite Esegs, fmap_app, fmap_cons, concat_app in Hp. cbn [concat fst snd] in Hp.
    assert (e - 1 ∈ pyrange 0 (pr_n r)) as Hin%elem_of_pyrange; [|lia].
    rewrite <- Hp, !elem_of_app. right. left. apply elem_of_pyrange. lia. }
  pose proof (computed_sorted r Hr) as Hsort. rewrite Ec, EP in Hsort.
  exists b1, s, e, (pr_slot r <$> pyrange s e), m, P'. split; [exact Ef|]. split; [done|]. split; [done|]. split; [done|].
  rewrite Hb1, !int32_slots, len_map, len_pyrange by (done || lia). split; [lia|]. split; [lia|]. split; [|split; [|split]].
  - unfold run_kv, prow. cbn [ru_first ru_len ru_row]. rewrite !slice_to_take by (rewrite len_map, len_pyrange; lia).
    rewrite <- !fmap_take, !take_pyrange, <- fmap_app by lia. f_equal.
    replace (s + (ap0 + 1 + m - 1 - s + 1)) with (ap0 + (1 + m)) by lia. rewrite <- pyrange_app by lia. done.
  - unfold run_ok, prow. cbn. rewrite len_map, len_pyrange. lia.
  - apply filter_none. intros p Hp%elem_of_pyrange [Hst|Hpre].
    + rewrite Esegs in Hst, Ht. destruct (starts_apart _ _ _ _ _ _ _ _ Ht Hst); lia.
    + apply Hpre. rewrite Ec, EP, elem_of_app, elem_of_cons, elem_of_app, elem_of_pyrange. right.
      destruct (decide (p = ap0 + 1)) as [->|]; [left; lia|right; left; lia].
  - destruct P' as [|p' P']; [done|]. set (run := pyrange (ap0 + 1) (ap0 + 1 + m)) in *.
    assert (Ec' : computed r = (P1 ++ ap0 :: run) ++ p' :: P') by (by rewrite Ec, EP, <- app_assoc).
    assert (HA : forall x, x ∈ P1 ++ ap0 :: run -> x <= ap0 + m).
    { intros x [Hx|[->|Hx%elem_of_pyrange]%elem_of_cons]%elem_of_app; [|lia|lia].
      assert (x < ap0); [|lia]. eapply sorted_split; [exact Hsort|exact Hx|left]. }
    assert (Hlast : ap0 + m < p').
    { pose proof (computed_sorted r Hr) as Hs'. rewrite Ec' in Hs'. eapply sorted_split; [exact Hs'| |left].
      apply elem_of_app. right. rewrite elem_of_cons. unfold run. rewrite elem_of_pyrange. lia. }
    destruct (decide (p' = ap0 + 1 + m)) as [Ep|Hne].
    + left. destruct Hend as [Hend|Hend]; [lia|]. assert (p' = e) as -> by lia. rewrite Esegs, fmap_app, fmap_cons, elem_of_app.
      destruct Hnext as [->|(e' & p2 & b3 & ->)]; [|rewrite fmap_cons; right; right; left].
      assert (0 <= pr_n r < pr_n r); [|lia]. apply computed_lt; [done|]. rewrite Ec', elem_of_app. right. left.
    + eapply gap_begins; [done|exact Ec'|]. intros x Hx%HA. lia.
Qed.

Lemma emit_runs_spec r f fuel P1 P2 acc runs : preq_ok r -> slots32 r -> computed r = P1 ++ P2 ->
  (length P2 <= fuel)%nat -> match P2 with p :: _ => begins r p | [] => True end -> acc_runs acc runs ->
  exists acc' runs', emit_runs fuel (all_segs (pr_meta r)) ((fun p => (p, f p)) <$> P2) acc = Ret acc' /\
    Forall run_ok runs' /\ Forall (fun run => ru_row run = prow r) runs' /\
    runs_rows runs' = (fun p => (p, prow r)) <$> P2 /\ acc_runs acc' (runs ++ runs') /\
    length runs' = length (filter (begins r) P2) /\ ca_q acc' = ca_q acc ++ (f <$> P2) /\
    ca_dst acc' = ca_dst acc /\ ca_src acc' = ca_src acc /\ ca_gq_cursor acc' = ca_gq_cursor acc.
Proof.
  intros Hr Hs32. revert P1 P2 acc runs. induction fuel as [|fuel IH]; intros P1 P2 acc runs Ec Hfuel Hbeg Hacc.
  { destruct P2; [|cbn in Hfuel; lia]. exists acc, []. cbn. rewrite !app_nil_r. destruct Hacc as (?&?&?). by repeat split. }
  destruct P2 as [|ap0 P3]; [exists acc, []; cbn; rewrite !app_nil_r; destruct Hacc as (?&?&?); by repeat split|].
  destruct (run_step r P1 ap0 P3 f Hr Ec Hs32) as (b1 & s & e & own & m & P' & Ef & Hm & EP & Et & Hpl & Hs & Ekv & Hok & Hfil & Hbeg').
  rewrite fmap_cons. cbn [emit_runs]. rewrite Ef, Et. set (run := mkRun ap0 (1 + m) (prow r)) in *.
  assert (El : len (f ap0 :: (f <$> pyrange (ap0 + 1) (ap0 + 1 + m))) = ru_len run).
  { rewrite len_cons, len_map, len_pyrange. cbn. lia. }
  assert (Ek : s + (ap0 + 1 + m - 1 - s + 1) = len (run_kv run)) by (rewrite (len_run_kv run Hok); cbn; lia).
  rewrite Hpl, Ekv, El, Ek.
  match goal with |- context [emit_runs fuel _ _ ?acc1] => set (acc1' := acc1) end.
  assert (Hacc' : acc_runs acc1' (runs ++ [run])) by (by apply acc_runs_snoc).
  destruct (IH (P1 ++ ap0 :: pyrange (ap0 + 1) (ap0 + 1 + m)) P' acc1' (runs ++ [run]))
    as (acc2 & runs2 & E & H1 & H2 & H3 & H4 & H5 & H6 & H7 & H8 & H9); try done.
  { rewrite Ec, EP, <- app_assoc. done. }
  { rewrite EP in Hfuel. cbn in Hfuel. rewrite length_app in Hfuel. lia. }
  exists acc2, (run :: runs2). split; [exact E|]. split; [by constructor|]. split; [by constructor|].
  rewrite <- app_assoc in H4. split; [|split; [exact H4|split; [|split; [|done]]]].
  - unfold runs_rows in *. rewrite !fmap_cons. cbn [concat]. rewrite H3, EP, fmap_app. unfold run_pos. cbn [ru_first ru_len ru_row run].
    replace (ap0 + (1 + m)) with (ap0 + 1 + m) by lia. rewrite (pyrange_app ap0 (ap0 + 1)), fmap_app by lia.
    replace (pyrange ap0 (ap0 + 1)) with [ap0] by (unfold pyrange; by replace (ap0 + 1 - ap0) with 1 by lia).
    by rewrite <- app_assoc.
  - rewrite filter_cons_True, EP, filter_app, Hfil by done. cbn. by rewrite H5.
  - rewrite H6. cbn [ca_q acc1']. rewrite EP, fmap_cons, fmap_app, <- app_assoc. done.
Qed.

(** ** One request's plan *)

(** Positions whose keys and values phase C writes. *)
Definition written r : list Z := globP r ++ seamP r.

Lemma tiled_seg r a segs s e p : tiled r a segs -> (s, e, p) ∈ segs ->
  p = pr_slot r <$> pyrange s e /\ a <= s < e /\ e <= pr_n r.
Proof.
  revert a. induction segs as [|[[s' e'] p'] segs IH]; intros a; cbn [tiled]; [by intros _ ?%not_elem_of_nil|].
  intros (-> & Hlt & -> & Ht) [[= -> -> ->]|Hin]%elem_of_cons; [pose proof (tiled_bound _ _ _ Ht); repeat split; lia|].
  destruct (IH _ Ht Hin) as (-> & ? & ?). repeat split; lia.
Qed.

Lemma seg_ok r s e priv pub : preq_ok r -> (s, e, priv, pub) ∈ ro_local_miss (pr_meta r) ++ ro_local_hit (pr_meta r) ->
  priv = pr_slot r <$> pyrange s e /\ pub = pr_pub r <$> pyrange s e /\ 0 <= s < e /\ e <= pr_n r.
Proof.
  intros Hr Hin. pose proof (po_pub r Hr) as HF. rewrite Forall_forall in HF. specialize (HF _ Hin). cbn in HF.
  destruct (tiled_seg r 0 _ s e priv (po_tiled r Hr)) as (-> & ? & ?); [|done].
  unfold all_segs, segs_in_order. rewrite elem_of_app, sort_key_perm, <- fmap_app. left.
  apply list_elem_of_fmap. by exists (s, e, priv, pub).
Qed.

Lemma glob_ok r s e priv : preq_ok r -> ro_global (pr_meta r) = Some (s, e, priv) ->
  priv = pr_slot r <$> pyrange s e /\ 0 <= s < e /\ e <= pr_n r.
Proof.
  intros Hr Hg. apply (tiled_seg r 0 _ s e priv (po_tiled r Hr)). unfold all_segs. rewrite Hg, elem_of_app. right. left.
Qed.

Lemma NoDup_seg_keys (l : list (Z * Z * list Z * list Z)) :
  Forall (fun h => h.1.1.1 < h.1.1.2) l -> NoDup (concat ((fun '(s, e, _, _) => pyrange s e) <$> l)) ->
  NoDup ((fun h => h.1.1) <$> l).
Proof.
  induction 1 as [|[[[s e] p] q] l Hlt _ IH]; [intros _; constructor|]. rewrite !fmap_cons. cbn [concat fst snd] in *.
  intros (_ & Hx & Hn)%NoDup_app. constructor; [|by apply IH].
  intros ([[[s' e'] p'] q'] & [= -> ->] & Hin)%list_elem_of_fmap. apply (Hx s'); [apply elem_of_pyrange; lia|].
  apply elem_of_concat_map. exists (s', e', p', q'). split; [done|apply elem_of_pyrange; lia].
Qed.

Lemma hit_priv_get r s e priv pub : preq_ok r -> (s, e, priv, pub) ∈ ro_local_hit (pr_meta r) ->
  dict_get (s, e) (foldl (fun d '(hs, he, p, _) => dict_set (hs, he) p d) [] (ro_local_hit (pr_meta r))) = Some priv.
Proof.
  intros Hr Hin. set (l := ro_local_hit (pr_meta r)) in *.
  assert (E : forall (l : list (Z * Z * list Z * list Z)) d, foldl (fun d '(hs, he, p, _) => dict_set (hs, he) p d) d l = dict_sets d ((fun '(hs, he, p, _) => ((hs, he), p)) <$> l)).
  { clear. induction l as [|[[[hs he] p] q] l IH]; intros d; [done|]. cbn. apply IH. }
  assert (Hk : ((fun '(hs, he, p, _) => ((hs, he), p)) <$> l).*1 = (fun h => h.1.1) <$> l).
  { rewrite <- list_fmap_compose. apply list_fmap_ext. by intros ? [[[]]]. }
  assert (Hn : NoDup ((fun h => h.1.1) <$> l)).
  { apply NoDup_seg_keys.
    - apply Forall_forall. intros [[[s' e'] p'] q'] Hh. destruct (seg_ok r s' e' p' q' Hr) as (_ & _ & ? & _); [|cbn; lia].
      apply elem_of_app. by right.
    - pose proof (positions_nodup r Hr) as (_ & _ & (Hh & _ & _)%NoDup_app)%NoDup_app. exact Hh. }
  rewrite E, dict_set_all by (cbn; rewrite Hk; exact Hn). apply dict_elem_get; [unfold dict_wf; cbn; by rewrite Hk|].
  cbn. apply list_elem_of_fmap. by exists (s, e, priv, pub).
Qed.

Lemma seam_writes_eq l : preq_ok (lr_req l) ->
  seam_writes (pr_meta (lr_req l)) (seam_for l) = (fun p => ([pr_slot (lr_req l) p], qidx l p)) <$> seamP (lr_req l).
Proof.
  intros Hr. unfold seam_writes, seam_for, seamP. cbv zeta. set (d := foldl _ [] _).
  pose proof (po_seam _ Hr) as HF. set (items := meta_seam rec (pr_meta (lr_req l))) in *.
  induction HF as [|[[[s e] j] ap] items [Hap (priv & pub & Hhit)] _ IH]; [done|].
  rewrite !fmap_cons. cbn [omap list_omap]. unfold d at 1. rewrite (hit_priv_get _ s e priv pub Hr Hhit). cbn [fst snd].
  destruct (seg_ok _ s e priv pub Hr) as (-> & _ & ? & ?); [apply elem_of_app; by right|].
  rewrite pyslice_in_range by (rewrite ?len_map, ?len_pyrange; lia). rewrite <- fmap_drop, <- fmap_take.
  rewrite (pyrange_app s ap e), drop_app_length' by (rewrite ?length_seqZ; lia || (unfold pyrange; rewrite length_seqZ; lia)).
  replace (ap - s + 1 - (ap - s)) with 1 by lia. rewrite take_pyrange by lia.
  replace (pyrange ap (ap + 1)) with [ap] by (unfold pyrange; by replace (ap + 1 - ap) with 1 by lia).
  f_equal. exact IH.
Qed.

Lemma enum_shift (f : Z -> Z) s e : s <= e ->
  (fun '(j, qi) => (s + j, qi)) <$> enumerate (f <$> pyrange s e) = (fun p => (p, f p)) <$> pyrange s e.
Proof.
  intros Hle. apply list_eq. intros k. unfold enumerate. rewrite !list_lookup_fmap, lookup_zip_with, list_lookup_fmap.
  destruct (pyrange s e !! k) as [p|] eqn:Ep; cbn.
  - apply lookup_seqZ in Ep as [-> Hk]. rewrite (proj2 (lookup_seqZ 0 _ k (Z.of_nat k))); [done|].
    rewrite len_map, len_pyrange. lia.
  - by destruct (seqZ 0 _ !! k).
Qed.

Lemma all_qs_sorted l qs : preq_ok (lr_req l) ->
  qs ≡ₚ (fun p => (p, qidx l p)) <$> (missP (lr_req l) ++ globP (lr_req l) ++ seamP (lr_req l)) ->
  sort_key fst qs = (fun p => (p, qidx l p)) <$> computed (lr_req l).
Proof.
  intros Hr Hp. apply sort_key_unique; [|by rewrite Hp, computed_perm].
  pose proof (computed_sorted _ Hr) as Hs. induction Hs as [|x P _ IH Hx]; constructor; [exact IH|].
  apply Forall_fmap. exact Hx.
Qed.

Lemma begins_first r : preq_ok r -> match computed r with p :: _ => begins r p | [] => True end.
Proof.
  intros Hr. destruct (computed r) as [|p P] eqn:Ec; [done|]. eapply (gap_begins r [] p P); [done|exact Ec|].
  by intros x ?%not_elem_of_nil.
Qed.

Lemma pyslice_mid {A} (pre mid post : list A) n : n = len mid -> pyslice (pre ++ mid ++ post) (len pre) (len pre + n) = mid.
Proof.
  intros ->. pose proof (len_nonneg pre). pose proof (len_nonneg mid). pose proof (len_nonneg post).
  rewrite pyslice_in_range by (rewrite ?len_app; lia).
  replace (Z.to_nat (len pre)) with (length pre) by (unfold len; lia). rewrite drop_app_length.
  rewrite take_app_le by (unfold len; lia). apply take_ge. unfold len. lia.
Qed.

Lemma plan_req_c_spec l acc runs gpre gpost : let r := lr_req l in
  preq_ok r -> slots32 r -> acc_runs acc runs -> ca_gq_cursor acc = len gpre ->
  exists acc' runs',
    plan_req_c (gpre ++ (qidx l <$> globP r) ++ gpost) acc
      (pr_meta r, seam_for l, (fun p => (p, qidx l p)) <$> missP r) = Ret acc' /\
    Forall run_ok runs' /\ Forall (fun run => ru_row run = prow r) runs' /\
    runs_rows runs' = (fun p => (p, prow r)) <$> computed r /\ acc_runs acc' (runs ++ runs') /\
    length runs' = length (run_starts r) /\ ca_q acc' = ca_q acc ++ (qidx l <$> computed r) /\
    ca_dst acc' = ca_dst acc ++ (pr_slot r <$> written r) /\ ca_src acc' = ca_src acc ++ (qidx l <$> written r) /\
    ca_gq_cursor acc' = len (gpre ++ (qidx l <$> globP r)).
Proof.
  intros r Hr Hs32 Hacc Hgq. unfold plan_req_c.
  assert (Eseam : (fun '(qi, ap, _, _) => (ap, qi)) <$> seam_for l = (fun p => (p, qidx l p)) <$> seamP r).
  { unfold seam_for, seamP. rewrite <- !list_fmap_compose. apply list_fmap_ext. by intros ? [[[]]]. }
  case_eq (negb (bool_decide (is_Some (ro_global (pr_meta r)))) && bool_decide (seam_for l = []) &&
    bool_decide ((fun p => (p, qidx l p)) <$> missP r = [])).
  { intros [[Hg%negb_true_iff%bool_decide_eq_false Hs%bool_decide_eq_true]%andb_prop Hm%bool_decide_eq_true]%andb_prop.
    apply fmap_nil_inv in Hm. rewrite Hs in Eseam. symmetry in Eseam. apply fmap_nil_inv in Eseam.
    assert (Eg : globP r = []) by (unfold globP; destruct (ro_global (pr_meta r)); [by destruct Hg|done]).
    assert (Ec : computed r = []).
    { apply Permutation_nil_r. rewrite computed_perm, Hm, Eg, Eseam. done. }
    exists acc, []. unfold run_starts, written. rewrite Ec, Eg, Eseam. cbn. rewrite !app_nil_r.
    destruct Hacc as (?&?&?). by repeat split. }
  intros _. pose proof (seam_writes_eq l Hr) as Ew. fold r in Ew. rewrite Ew.
  assert (E1 : concat ((fun p => ([pr_slot r p], qidx l p)) <$> seamP r).*1 = pr_slot r <$> seamP r).
  { rewrite <- list_fmap_compose. apply concat_singletons. }
  assert (E2 : ((fun p => ([pr_slot r p], qidx l p)) <$> seamP r).*2 = qidx l <$> seamP r) by (by rewrite <- list_fmap_compose).
  rewrite E1, E2, Eseam.
  destruct (ro_global (pr_meta r)) as [[[gs ge] gp]|] eqn:Eg.
  - destruct (glob_ok r gs ge gp Hr Eg) as (-> & Hg1 & Hg2).
    assert (EG : globP r = pyrange gs ge) by (unfold globP; by rewrite Eg).
    assert (Eqs : sort_key fst (((fun '(j, qi) => (gs + j, qi)) <$> enumerate (qidx l <$> globP r)) ++
      ((fun p => (p, qidx l p)) <$> seamP r) ++ ((fun p => (p, qidx l p)) <$> missP r)) =
      (fun p => (p, qidx l p)) <$> computed r).
    { apply all_qs_sorted; [done|]. fold r. rewrite EG, enum_shift, !fmap_app by lia.
      by rewrite (Permutation_app_comm (_ <$> missP r)), <- app_assoc. }
    rewrite Hgq, pyslice_mid by (rewrite len_map, EG, len_pyrange; lia). rewrite Eqs, length_fmap.
    match goal with |- context [emit_runs _ _ _ ?a2] => set (acc2 := a2) end.
    destruct (emit_runs_spec r (qidx l) (length (computed r)) [] (computed r) acc2 runs)
      as (acc' & runs' & E & H1 & H2 & H3 & H4 & H5 & H6 & H7 & H8 & H9); try done; [by apply begins_first|].
    exists acc', runs'. rewrite E. unfold written. rewrite EG, !fmap_app, H7, H8, H9. cbn.
    rewrite <- !app_assoc, len_app, len_map, len_pyrange. repeat split; try done; try apply H4. all: try lia. by rewrite EG.
  - assert (EG : globP r = []) by (unfold globP; by rewrite Eg).
    assert (Eqs : sort_key fst ([] ++ ((fun p => (p, qidx l p)) <$> seamP r) ++ ((fun p => (p, qidx l p)) <$> missP r)) =
      (fun p => (p, qidx l p)) <$> computed r).
    { apply all_qs_sorted; [done|]. fold r. rewrite EG, !fmap_app. cbn. by rewrite Permutation_app_comm. }
    rewrite Eqs, length_fmap.
    match goal with |- context [emit_runs _ _ _ ?a2] => set (acc2 := a2) end.
    destruct (emit_runs_spec r (qidx l) (length (computed r)) [] (computed r) acc2 runs)
      as (acc' & runs' & E & H1 & H2 & H3 & H4 & H5 & H6 & H7 & H8 & H9); try done; [by apply begins_first|].
    exists acc', runs'. rewrite E. unfold written. rewrite EG, H7, H8, H9. cbn. rewrite app_nil_r.
    repeat split; try done; try apply H4.
Qed.

(** ** The plan of a batch *)

Definition plan_items (ls : list LReq) :=
  (fun l => (pr_meta (lr_req l), seam_for l, (fun p => (p, qidx l p)) <$> missP (lr_req l))) <$> ls.
Definition glob_q (l : LReq) : list Z := qidx l <$> globP (lr_req l).
Definition kv_bound rs : Z := zsum ((fun r => pr_n r * len (run_starts r)) <$> rs).

Lemma runs_kv_bound r runs : preq_ok r -> Forall run_ok runs -> Forall (fun run => ru_row run = prow r) runs ->
  len (runs_kv runs) <= pr_n r * len runs.
Proof.
  intros Hr Hok Hrow. pose proof (tiled_bound _ _ _ (po_tiled r Hr)) as Hn.
  induction Hok as [|run runs Hrun _ IH]; [unfold len, runs_kv; cbn; lia|]. apply Forall_cons in Hrow as [Erow Hrow].
  unfold runs_kv. rewrite fmap_cons. cbn [concat]. rewrite len_app, len_cons, (len_run_kv run Hrun).
  destruct Hrun as (_ & _ & Hle). rewrite Erow in Hle. unfold prow in Hle. rewrite len_map, len_pyrange in Hle.
  specialize (IH Hrow). unfold runs_kv in IH. lia.
Qed.

Lemma plan_all_spec ls gpre acc runs :
  Forall (fun l => preq_ok (lr_req l) /\ slots32 (lr_req l)) ls -> acc_runs acc runs -> ca_gq_cursor acc = len gpre ->
  exists acc' runs',
    ofold (plan_req_c (gpre ++ concat (glob_q <$> ls))) acc (plan_items ls) = Ret acc' /\
    Forall run_ok runs' /\
    runs_rows runs' = concat ((fun l => (fun p => (p, prow (lr_req l))) <$> computed (lr_req l)) <$> ls) /\
    acc_runs acc' (runs ++ runs') /\ len (runs_kv runs') <= kv_bound (lr_req <$> ls) /\
    ca_q acc' = ca_q acc ++ concat ((fun l => qidx l <$> computed (lr_req l)) <$> ls) /\
    ca_dst acc' = ca_dst acc ++ concat ((fun l => pr_slot (lr_req l) <$> written (lr_req l)) <$> ls) /\
    ca_src acc' = ca_src acc ++ concat ((fun l => qidx l <$> written (lr_req l)) <$> ls).
Proof.
  intros HF. revert gpre acc runs. induction HF as [|l ls [Hr Hs] _ IH]; intros gpre acc runs Hacc Hgq.
  - exists acc, []. cbn. rewrite !app_nil_r. repeat split; try done; apply Hacc.
  - unfold plan_items, kv_bound. rewrite !fmap_cons. cbn [concat ofold].
    destruct (plan_req_c_spec l acc runs gpre (concat (glob_q <$> ls)) Hr Hs Hacc Hgq)
      as (acc1 & runs1 & E & H1 & H2 & H3 & H4 & H5 & H6 & H7 & H8 & H9).
    unfold glob_q at 1. rewrite E. cbn [obind].
    destruct (IH (gpre ++ glob_q l) acc1 (runs ++ runs1) H4 H9) as (acc2 & runs2 & E' & K1 & K2 & K3 & K4 & K5 & K6 & K7).
    rewrite <- app_assoc in E'. unfold plan_items, glob_q at 1 in E'. fold (glob_q l).
    exists acc2, (runs1 ++ runs2). split; [exact E'|]. split; [by apply Forall_app|]. rewrite <- app_assoc in K3.
    unfold runs_rows, runs_kv, kv_bound in *. rewrite !fmap_app, !concat_app, K2, K5, K6, K7, H6, H7, H8, <- !app_assoc.
    split; [by rewrite <- H3|]. split; [done|]. split; [|done]. rewrite len_app, zsum_cons.
    pose proof (runs_kv_bound _ _ Hr H1 H2) as Hb. unfold runs_kv in Hb.
    assert (len runs1 = len (run_starts (lr_req l))) by (unfold len; by rewrite H5). lia.
Qed.

Lemma qidx_all rs idx off : Forall preq_ok rs ->
  concat ((fun l => qidx l <$> computed (lr_req l)) <$> locate idx off rs) = pyrange off (off + len (lrows (locate idx off rs))).
Proof.
  intros HF. revert idx off. induction HF as [|r rs Hr _ IH]; intros idx off; [cbn; by rewrite pyrange_empty by (unfold len; cbn; lia)|].
  cbn [locate]. unfold lrows. rewrite !fmap_cons. cbn [concat lr_req]. rewrite IH, len_app, len_map.
  rewrite qidx_computed by (by apply computed_nodup). cbn [lr_off lr_req]. unfold lrows. rewrite <- pyrange_app; [f_equal; lia|].
  pose proof (len_nonneg (computed r)). match goal with |- context [len (concat ?l)] => pose proof (len_nonneg (concat l)) end. lia.
Qed.

Lemma int32_tensor_ok l : Forall (fun x => 0 <= x) l -> zsum l < 2 ^ 31 -> int32_tensor (cu_seqlens l) = Ret (cu_seqlens l).
Proof.
  intros HF Hs. unfold int32_tensor.
  rewrite (proj2 (forallb_forall _ _)); [done|]. intros x (i & Hi)%list_elem_of_In%list_elem_of_lookup.
  pose proof (cu_bound l i x HF Hi). rewrite andb_true_intro; [done|]. lia.
Qed.

(** The plan: one run after another, each query over the private slots of
    the positions up to its own; [written] positions are stored first. *)
Lemma build_phase_c_eq rs : let ls := locate 0 0 rs in
  Forall (fun r => preq_ok r /\ slots32 r) rs -> len (lrows ls) < 2 ^ 31 -> kv_bound rs < 2 ^ 31 ->
  exists runs kvpos, Forall run_ok runs /\
    runs_rows runs = concat ((fun l => (fun p => (p, prow (lr_req l))) <$> computed (lr_req l)) <$> ls) /\
    build_phase_c_cache (pr_meta <$> rs) (enumerate (lrows ls)) (concat (glob_q <$> ls)) (concat (seam_q <$> ls))
      (concat ((fun l => qidx l <$> missP (lr_req l)) <$> ls)) =
    Ret (if decide (lrows ls = []) then None else Some (mkPhaseC (pyrange 0 (len (lrows ls)))
      (concat ((fun l => pr_slot (lr_req l) <$> written (lr_req l)) <$> ls))
      (concat ((fun l => qidx l <$> written (lr_req l)) <$> ls))
      (runs_kv runs) kvpos (runs_qo runs) (runs_kvp runs) (replicate (length runs) 1) (pyrange 0 (len (lrows ls))))).
Proof.
  intros ls HF HT Hkv.
  assert (HF1 : Forall preq_ok rs) by (eapply Forall_impl; [exact HF|]; by intros r []).
  assert (HF2 : Forall (fun l => preq_ok (lr_req l) /\ slots32 (lr_req l)) ls).
  { apply Forall_forall. intros l Hl. rewrite Forall_forall in HF. eapply HF, located_req, Hl. }
  destruct (plan_all_spec ls [] (mkCAcc [] [0] [] [] [0] [] [] 0) [] HF2)
    as (acc & runs & E & H1 & H2 & H3 & H4 & H5 & H6 & H7); [by repeat split|done|].
  exists runs, (ca_kvpos acc). split; [done|]. split; [done|]. unfold build_phase_c_cache.
  pose proof (seam_by_req_eq rs) as Es. cbv zeta in Es. fold ls in Es. rewrite Es. cbn [obind].
  pose proof (miss_by_req_eq rs HF1) as Em. cbv zeta in Em. fold ls in Em. rewrite Em. cbn [obind].
  pose proof (bucket_req rs 0 0) as Eb. fold ls in Eb. rewrite len_map. rewrite Z.add_0_l in Eb. rewrite Eb.
  rewrite (located_map pr_meta rs 0 0). fold ls. rewrite !zip_fmap. fold (plan_items ls).
  cbn [app] in E. rewrite E. cbn [obind]. destruct H3 as (Q1 & Q2 & Q3). cbn [app ca_q ca_dst ca_src] in Q1, Q2, Q3, H5, H6, H7.
  assert (EQ : ca_q acc = pyrange 0 (len (lrows ls))) by (rewrite H5; unfold ls; by rewrite (qidx_all rs 0 0 HF1)).
  assert (ET : zsum (ru_len <$> runs) = len (lrows ls)).
  { rewrite <- len_runs_rows, H2 by done. unfold lrows, len. f_equal. apply length_concat_eq. intros l _. by rewrite !length_fmap. }
  assert (EK : zsum ((fun run => len (run_kv run)) <$> runs) < 2 ^ 31).
  { assert (Els : lr_req <$> ls = rs) by (transitivity (id <$> rs); [symmetry; apply (located_map id)|apply list_fmap_id]).
    unfold runs_kv in H4. rewrite Els, len_concat, <- list_fmap_compose in H4.
    change (zsum ((fun run => len (run_kv run)) <$> runs) <= kv_bound rs) in H4. lia. }
  destruct (decide (lrows ls = [])) as [El|Hne].
  - rewrite El in EQ. cbn in EQ. by rewrite EQ.
  - destruct (ca_q acc) as [|q0 qs] eqn:Eq.
    { exfalso. apply Hne. assert (Hl : len (pyrange 0 (len (lrows ls))) = 0) by (by rewrite <- EQ).
      rewrite len_pyrange in Hl. apply nil_length_inv. unfold len in Hl. lia. }
    rewrite Q1, Q3. unfold runs_qo, runs_kvp. rewrite int32_tensor_ok; [|apply Forall_fmap; eapply Forall_impl; [exact H1|]; intros r Hr; apply Hr|lia].
    cbn [obind]. rewrite int32_tensor_ok; [|apply Forall_fmap, Forall_forall; intros; apply len_nonneg|done].
    cbn [obind]. rewrite H6, H7, Q2, EQ. unfold cu_seqlens at 3. rewrite length_cumsum, length_fmap. cbn [Nat.sub]. rewrite Nat.sub_0_r. done.
Qed.

End plan.
