(* ===== verification/RopeForwardFacts.v ===== *)
(** * The full-attention layer of the re-rotation modes: correctness

    [rope_forward_exact]: whatever mixture of computed, reused and
    recomputed tokens the requests of a batch have, a layer's output for a
    computed token is the attention of its query over the keys of the
    positions up to its own, each rotated to its position, and the values;
    the private slots hold those keys and values for decoding, the public
    slots of computed segments the keys that a later request reuses. *)

From Stdlib Require Import Ring.
From S2P Require Import Prelude PyDict ConvTails ConvTailsFacts KVBuffer GdnMeta GdnMetaFacts FlashPrefill FullAttn.
From S2P Require Import RopeKV RopeKVFacts RopeForward RopePlanFacts.

(** ** Cells: positions of located requests *)

Section cells.
Context (rec : bool).
Implicit Types (l : LReq) (ls : list LReq).

Definition cells (B : PReq -> list Z) ls : list (LReq * Z) :=
  concat ((fun l => (fun p => (l, p)) <$> B (lr_req l)) <$> ls).

Lemma cells_fmap {A} (f : LReq -> Z -> A) B ls :
  concat ((fun l => f l <$> B (lr_req l)) <$> ls) = (fun c => f c.1 c.2) <$> cells B ls.
Proof.
  unfold cells. rewrite fmap_concat_fmap. apply f_equal, list_fmap_ext. intros i l _. by rewrite <- list_fmap_compose.
Qed.

Lemma elem_of_cells B ls l p : (l, p) ∈ cells B ls <-> l ∈ ls /\ p ∈ B (lr_req l).
Proof.
  unfold cells. rewrite elem_of_concat_map. split.
  - intros (l' & Hl & (p' & [= <- <-] & Hp)%list_elem_of_fmap). done.
  - intros [Hl Hp]. exists l. split; [done|]. apply list_elem_of_fmap. by exists p.
Qed.

Lemma NoDup_fmap_inj {A B} (f : A -> B) (l : list A) x y : NoDup (f <$> l) -> x ∈ l -> y ∈ l -> f x = f y -> x = y.
Proof.
  intros Hn (i & Hi)%list_elem_of_lookup (j & Hj)%list_elem_of_lookup E.
  assert (i = j) as ->; [|congruence]. eapply (NoDup_lookup (f <$> l)); [done| |]; rewrite list_lookup_fmap, ?Hi, ?Hj; cbn; [done|by rewrite E].
Qed.

Lemma located_nodup rs idx off : NoDup (locate rec idx off rs).
Proof.
  revert idx off. induction rs as [|r rs IH]; intros idx off; cbn [locate]; constructor; [|apply IH].
  intros Hin. apply located_idx in Hin. cbn in Hin. lia.
Qed.

Lemma NoDup_cells B ls : NoDup ls -> Forall (fun l => NoDup (B (lr_req l))) ls -> NoDup (cells B ls).
Proof.
  intros Hn HF. induction Hn as [|l ls Hl Hn IH]; [constructor|]. apply Forall_cons in HF as [Hb HF].
  unfold cells. rewrite fmap_cons. cbn [concat]. apply NoDup_app. split; [|split; [|by apply IH]].
  - apply NoDup_fmap_2; [|done]. by intros p p' [= ->].
  - intros c (p & -> & _)%list_elem_of_fmap Hc. apply elem_of_cells in Hc as [? _]. done.
Qed.

(** Distinct slots on the cells of [A] are distinct on those of a part. *)
Lemma NoDup_sub_slots (f : LReq * Z -> Z) A B ls :
  NoDup (f <$> cells A ls) -> NoDup ls -> (forall l, l ∈ ls -> NoDup (B (lr_req l))) ->
  (forall l p, l ∈ ls -> p ∈ B (lr_req l) -> p ∈ A (lr_req l)) -> NoDup (f <$> cells B ls).
Proof.
  intros HA Hn Hb Hsub. apply NoDup_fmap_2_strong.
  - intros [l p] [l' p'] [Hl Hp]%elem_of_cells [Hl' Hp']%elem_of_cells E.
    eapply (NoDup_fmap_inj f (cells A ls)); [done|apply elem_of_cells; auto..|done].
  - apply NoDup_cells; [done|]. apply Forall_forall. done.
Qed.

End cells.

Lemma concat_concat_map {A B C} (f : B -> list C) (g : A -> list B) l :
  concat (f <$> concat (g <$> l)) = concat ((fun x => concat (f <$> g x)) <$> l).
Proof. induction l as [|x l IH]; [done|]. rewrite !fmap_cons. cbn [concat]. by rewrite fmap_app, concat_app, IH. Qed.

Lemma same_except_mono {K W} s1 s2 (buf buf' : KVBuf K W) :
  (forall d, d ∈ s1 -> d ∈ s2) -> same_except s1 buf buf' -> same_except s2 buf buf'.
Proof. intros Hs (L1 & L2 & E). split; [done|]. split; [done|]. intros d Hd Hn. apply E; auto. Qed.

(** ** The layer *)

Section forward.
Context {R : Type} (rO rI : R) (radd rmul rsub : R -> R -> R) (ropp : R -> R).
Context (Rth : ring_theory rO rI radd rmul rsub ropp (@eq R)).
Context (cfg : RopeCfg (R := R)) (HA : angles_ok rI radd rmul rsub cfg).
Context {Q W O : Type} (o_zero : O) (attn : Q -> list (list (list R) * W) -> O)
  (prefill : list Z -> list Z -> list Z -> list Z -> list Q -> KVBuf (list (list R)) W -> list O)
  `{!CausalPrefill attn prefill}.
Context (rec : bool) (rs : list PReq).
(** By request and position: the key before rotation and the value, and
    those that the cache holds for reused segments. *)
Context (raw craw : Z -> Z -> list (list R)) (val cval : Z -> Z -> W).

Local Notation ls := (locate rec 0 0 rs).
Local Notation metas := (pr_meta <$> rs).
Local Notation rot := (rot_key radd rmul rsub cfg).

Definition allP (r : PReq) : list Z := pyrange 0 (pr_n r).
Definition slot (c : LReq * Z) : Z := pr_slot (lr_req c.1) c.2.
Definition pub (c : LReq * Z) : Z := pr_pub (lr_req c.1) c.2.
(** The slots that the batch may write. *)
Definition owned : list Z := (slot <$> cells allP ls) ++ (pub <$> cells missP ls).

Record batch_ok (buf : KVBuf (list (list R)) W) : Prop := {
  bo_req : Forall (fun r => (preq_ok rec r /\ slots32 r) /\ pr_n r <= len (rc_cos_sin_cache cfg)) rs;
  bo_nodup : NoDup owned;
  bo_slots : Forall (slot_ok buf) owned;
  bo_keys : forall i p, key_ok cfg (raw i p) /\ key_ok cfg (craw i p);
  bo_cached : forall l s e priv pb p, l ∈ ls -> (s, e, priv, pb) ∈ ro_local_hit (pr_meta (lr_req l)) -> s <= p < e ->
    0 <= pub (l, p) /\ pub (l, p) ∉ owned /\
    holds buf (pub (l, p)) (rot (p - s) (craw (lr_idx l) p)) (cval (lr_idx l) p) /\
    (p ∉ seamP rec (lr_req l) -> craw (lr_idx l) p = raw (lr_idx l) p /\ cval (lr_idx l) p = val (lr_idx l) p);
  bo_buf : buf_ok buf;
}.

(** The keys and values that the model computes for the batch. *)
Definition k_rows : list (list (list R)) := (fun ip => rot ip.2 (raw ip.1 ip.2)) <$> lrows rec ls.
Definition v_rows : list W := (fun ip => val ip.1 ip.2) <$> lrows rec ls.

Lemma loc_ok buf l : batch_ok buf -> l ∈ ls ->
  preq_ok rec (lr_req l) /\ slots32 (lr_req l) /\ pr_n (lr_req l) <= len (rc_cos_sin_cache cfg).
Proof.
  intros Hb Hl. pose proof (bo_req buf Hb) as HF. rewrite Forall_forall in HF.
  destruct (HF _ (located_req _ _ _ _ _ Hl)) as [[? ?] ?]. done.
Qed.

Lemma select_q {A} (f : Z -> Z -> A) buf l p : batch_ok buf -> l ∈ ls -> p ∈ computed rec (lr_req l) ->
  index_select ((fun ip => f ip.1 ip.2) <$> lrows rec ls) (qidx rec l p) = Ret (f (lr_idx l) p).
Proof.
  intros Hb Hl (k & Hk)%list_elem_of_lookup. destruct (loc_ok buf l Hb Hl) as (Hr & _ & _).
  rewrite (qidx_lookup rec l k p (computed_nodup _ _ Hr) Hk).
  destruct (located_lookup rec rs 0 0 l Hl k p Hk) as [E Ho]. apply index_select_Ret; [lia|].
  rewrite Z.sub_0_r in E. by rewrite list_lookup_fmap, E.
Qed.

Lemma select_qs {A} (f : Z -> Z -> A) buf l ps : batch_ok buf -> l ∈ ls -> (forall p, p ∈ ps -> p ∈ computed rec (lr_req l)) ->
  omapM (index_select ((fun ip => f ip.1 ip.2) <$> lrows rec ls)) (qidx rec l <$> ps) = Ret (f (lr_idx l) <$> ps).
Proof. intros Hb Hl Hps. rewrite omapM_fmap. apply omapM_Ret. intros p Hp. eapply select_q; eauto. Qed.

(** Slots of positions determine them. *)
Lemma slot_inj buf l p l' p' : batch_ok buf -> l ∈ ls -> l' ∈ ls -> 0 <= p < pr_n (lr_req l) -> 0 <= p' < pr_n (lr_req l') ->
  slot (l, p) = slot (l', p') -> l = l' /\ p = p'.
Proof.
  intros Hb Hl Hl' Hp Hp' E. pose proof (bo_nodup buf Hb) as (Hn & _ & _)%NoDup_app.
  assert ((l, p) = (l', p')) as [= -> ->]; [|done].
  eapply (NoDup_fmap_inj slot); [exact Hn|apply elem_of_cells; split; [done|by apply elem_of_pyrange]..|done].
Qed.

(** *** Phase A *)

Definition mk_miss (l : LReq) (seg : Z * Z * list Z * list Z) : Miss (R := R) (W := W) :=
  let ps := pyrange seg.1.1.1 seg.1.1.2 in
  mkMiss seg (qidx rec l <$> ps) (raw (lr_idx l) <$> ps) (val (lr_idx l) <$> ps).
Definition batch_ms : list (Miss (R := R) (W := W)) :=
  concat ((fun l => mk_miss l <$> ro_local_miss (pr_meta (lr_req l))) <$> ls).

Lemma keyed_fn buf (sl : Z -> Z) start (k : Z -> list (list R)) (v : Z -> W) s e :
  keyed radd rmul rsub cfg buf (sl <$> pyrange s e) start (k <$> pyrange s e) (v <$> pyrange s e) <->
  forall p, s <= p < e -> holds buf (sl p) (rot (start + (p - s)) (k p)) (v p).
Proof.
  unfold keyed, holds. split.
  - intros H p Hp. destruct (H (Z.to_nat (p - s)) (sl p) (k p) (v p)) as [E1 E2]; [|..|].
    1-3: rewrite list_lookup_fmap; unfold pyrange; rewrite (proj2 (lookup_seqZ s (e - s) (Z.to_nat (p - s)) p)) by lia; done.
    rewrite Z2Nat.id in E1 by lia. done.
  - intros H j d kk vv Hd Hk Hv. rewrite list_lookup_fmap in Hd. destruct (pyrange s e !! j) as [p|] eqn:Ep; [|done].
    rewrite list_lookup_fmap, Ep in Hk. rewrite list_lookup_fmap, Ep in Hv. cbn in *. simplify_eq.
    apply lookup_seqZ in Ep as [-> Hj]. destruct (H (s + Z.of_nat j)) as [E1 E2]; [lia|].
    replace (s + Z.of_nat j - s) with (Z.of_nat j) in E1 by lia. done.
Qed.

Lemma keys_from_fn start (k : Z -> list (list R)) s e :
  keys_from radd rmul rsub cfg start (k <$> pyrange s e) = (fun p => rot (start + (p - s)) (k p)) <$> pyrange s e.
Proof.
  unfold keys_from. apply list_eq. intros j. rewrite list_lookup_imap, !list_lookup_fmap.
  destruct (pyrange s e !! j) as [p|] eqn:Ep; [|done]. apply lookup_seqZ in Ep as [-> _]. cbn. do 2 f_equal. lia.
Qed.

Lemma length_range s e : length (pyrange s e) = Z.to_nat (e - s).
Proof. unfold pyrange. apply length_seqZ. Qed.

Lemma batch_ms_ok buf : batch_ok buf -> Forall (miss_ok radd rmul rsub cfg k_rows v_rows) batch_ms.
Proof.
  intros Hb. apply Forall_concat, Forall_fmap, Forall_forall. intros l Hl. apply Forall_fmap, Forall_forall.
  intros [[[s e] priv] pb] Hin. destruct (loc_ok buf l Hb Hl) as (Hr & _ & Hn).
  destruct (seg_ok rec _ s e priv pb Hr) as (-> & -> & Hse & He); [apply elem_of_app; by left|].
  assert (Hsub : forall p, p ∈ pyrange s e -> p ∈ computed rec (lr_req l)).
  { intros p Hp. rewrite computed_perm, elem_of_app. left. apply elem_of_concat_map. by eexists (s, e, _, _). }
  unfold mk_miss. split; unfold ms_start, ms_end, ms_priv, ms_pub; cbn [ms_seg ms_q ms_raw ms_vs fst snd].
  - rewrite !length_fmap, length_range. done.
  - lia.
  - apply Forall_fmap, Forall_forall. intros p _. apply (bo_keys buf Hb).
  - unfold k_rows. rewrite (select_qs (fun i p => rot p (raw i p)) buf l _ Hb Hl Hsub), keys_from_fn. f_equal.
    apply list_fmap_ext. intros i p _. cbn. f_equal. lia.
  - exact (select_qs val buf l _ Hb Hl Hsub).
Qed.

Lemma batch_ms_slots buf : batch_ok buf ->
  concat (miss_slots <$> batch_ms) ≡ₚ (pub <$> cells missP ls) ++ (slot <$> cells missP ls).
Proof.
  intros Hb. unfold batch_ms. rewrite concat_concat_map.
  rewrite <- (cells_fmap (fun l p => pr_pub (lr_req l) p)), <- (cells_fmap (fun l p => pr_slot (lr_req l) p)).
  apply concat_split. intros l Hl. destruct (loc_ok buf l Hb Hl) as (Hr & _ & _).
  rewrite <- list_fmap_compose. unfold missP. rewrite !fmap_concat_fmap. apply concat_split.
  intros [[[s e] priv] pb] Hin. destruct (seg_ok rec _ s e priv pb Hr) as (-> & -> & _); [apply elem_of_app; by left|]. done.
Qed.

(** The parts of a request's positions. *)
Lemma part_positions buf l : batch_ok buf -> l ∈ ls ->
  NoDup (missP (lr_req l)) /\ NoDup (hitP (lr_req l)) /\ NoDup (written rec (lr_req l)) /\
  (forall p, p ∈ allP (lr_req l) <-> p ∈ missP (lr_req l) \/ p ∈ hitP (lr_req l) \/ p ∈ globP (lr_req l)) /\
  (forall p, p ∈ missP (lr_req l) -> p ∉ hitP (lr_req l) /\ p ∉ written rec (lr_req l)) /\
  (forall p, p ∈ written rec (lr_req l) -> p ∈ allP (lr_req l)) /\
  (forall p, p ∈ hitP (lr_req l) -> p ∉ globP (lr_req l)).
Proof.
  intros Hb Hl. destruct (loc_ok buf l Hb Hl) as (Hr & _ & _). set (r := lr_req l) in *.
  pose proof (positions_nodup rec r Hr) as (Hm & Hmx & (Hh & Hhx & Hg)%NoDup_app)%NoDup_app.
  assert (Hall : forall p, p ∈ allP r <-> p ∈ missP r \/ p ∈ hitP r \/ p ∈ globP r).
  { intros p. unfold allP. rewrite (positions_perm rec r Hr), !elem_of_app. done. }
  split; [done|]. split; [done|]. unfold written. split; [|split; [done|split; [|split]]].
  - apply NoDup_app. split; [done|]. split; [|apply (po_seam_nodup rec r Hr)].
    intros p Hp Hs. apply (Hhx p); [by eapply seam_hit|done].
  - intros p Hp. split; [intros Hh'; apply (Hmx p Hp), elem_of_app; by left|].
    intros [Hg'|Hs]%elem_of_app; apply (Hmx p Hp), elem_of_app; [by right|left; by eapply seam_hit].
  - intros p [Hg'|Hs]%elem_of_app; apply Hall; [by right; right|right; left; by eapply seam_hit].
  - done.
Qed.

Lemma NoDup_part buf B : batch_ok buf -> (forall l, l ∈ ls -> NoDup (B (lr_req l)) /\ forall p, p ∈ B (lr_req l) -> p ∈ allP (lr_req l)) ->
  NoDup (slot <$> cells B ls).
Proof.
  intros Hb HB. pose proof (bo_nodup buf Hb) as (Hn & _ & _)%NoDup_app. eapply NoDup_sub_slots; [exact Hn|apply located_nodup|..].
  - intros l Hl. by apply HB.
  - intros l p Hl Hp. by apply HB.
Qed.

Lemma slot_owned buf B d : batch_ok buf -> (forall l p, l ∈ ls -> p ∈ B (lr_req l) -> p ∈ allP (lr_req l)) ->
  d ∈ slot <$> cells B ls -> d ∈ slot <$> cells allP ls.
Proof.
  intros Hb HB ([l p] & -> & [Hl Hp]%elem_of_cells)%list_elem_of_fmap. apply list_elem_of_fmap. exists (l, p).
  split; [done|]. apply elem_of_cells. eauto.
Qed.

Lemma stage_a buf : batch_ok buf ->
  exists buf1, pic_rope_phase_a_kv_only radd rmul rsub ropp cfg k_rows v_rows metas
      (concat ((fun l => qidx rec l <$> missP (lr_req l)) <$> ls)) buf = Ret buf1 /\
    (forall l s e priv pb p, l ∈ ls -> (s, e, priv, pb) ∈ ro_local_miss (pr_meta (lr_req l)) -> s <= p < e ->
       holds buf1 (pub (l, p)) (rot (p - s) (raw (lr_idx l) p)) (val (lr_idx l) p) /\
       holds buf1 (slot (l, p)) (rot p (raw (lr_idx l) p)) (val (lr_idx l) p)) /\
    same_except ((pub <$> cells missP ls) ++ (slot <$> cells missP ls)) buf buf1.
Proof.
  intros Hb. pose proof (batch_ms_slots buf Hb) as Hp.
  assert (Hsub : forall d, d ∈ concat (miss_slots <$> batch_ms) -> d ∈ owned).
  { intros d Hd. rewrite Hp in Hd. unfold owned. apply elem_of_app in Hd as [Hd|Hd]; apply elem_of_app; [by right|left].
    eapply slot_owned; [done| |done]. intros l p Hl Hp'. destruct (part_positions buf l Hb Hl) as (_ & _ & _ & Hall & _).
    apply Hall. by left. }
  destruct (phase_a_spec rO rI radd rmul rsub ropp Rth cfg HA k_rows v_rows metas batch_ms buf) as (buf1 & E & HF & Hsame).
  - by eapply batch_ms_ok.
  - unfold batch_ms. rewrite fmap_concat_fmap, (located_map rec pr_meta rs 0 0), <- list_fmap_compose.
    apply f_equal, list_fmap_ext. intros i l _. cbn. rewrite <- list_fmap_compose. symmetry. apply list_fmap_id.
  - rewrite Hp. pose proof (bo_nodup buf Hb) as (_ & Hx & Hn)%NoDup_app. apply NoDup_app. split; [done|]. split.
    + intros d Hd Hs. apply (Hx d); [|done]. eapply slot_owned; [done| |done]. intros l p Hl Hp'.
      destruct (part_positions buf l Hb Hl) as (_ & _ & _ & Hall & _). apply Hall. by left.
    + eapply NoDup_part; [done|]. intros l Hl. destruct (part_positions buf l Hb Hl) as (Hm & _ & _ & Hall & _).
      split; [done|]. intros p Hp'. apply Hall. by left.
  - apply (bo_buf buf Hb).
  - apply Forall_forall. intros d Hd%Hsub. pose proof (bo_slots buf Hb) as HS. rewrite Forall_forall in HS. by apply HS.
  - exists buf1. split; [|split].
    + rewrite <- E. f_equal. unfold batch_ms. rewrite concat_concat_map. apply f_equal, list_fmap_ext. intros i l _. 
      unfold missP. rewrite fmap_concat_fmap, <- list_fmap_compose. apply f_equal, list_fmap_ext. by intros ? [[[]]].
    + intros l s e priv pb p Hl Hin Hse. rewrite Forall_forall in HF.
      destruct (HF (mk_miss l (s, e, priv, pb))) as [K1 K2].
      { apply elem_of_concat_map. exists l. split; [done|]. apply list_elem_of_fmap. by eexists. }
      destruct (loc_ok buf l Hb Hl) as (Hr & _ & _).
      destruct (seg_ok rec _ s e priv pb Hr) as (-> & -> & _); [apply elem_of_app; by left|].
      unfold mk_miss, ms_pub, ms_priv, ms_start in K1, K2. cbn [ms_seg ms_raw ms_vs fst snd] in K1, K2.
      rewrite keyed_fn in K1. rewrite keyed_fn in K2. specialize (K1 p Hse). specialize (K2 p Hse).
      replace (s + (p - s)) with p in K2 by lia. rewrite Z.add_0_l in K1. done.
    + eapply same_except_mono; [|exact Hsame]. intros d Hd. by rewrite <- Hp.
Qed.

(** *** Phase B *)

Definition mk_hit (l : LReq) (seg : Z * Z * list Z * list Z) : (Z * Z * list Z * list Z) * Miss (R := R) (W := W) :=
  let ps := pyrange seg.1.1.1 seg.1.1.2 in
  (seg, mkMiss seg [] (craw (lr_idx l) <$> ps) (cval (lr_idx l) <$> ps)).
Definition batch_hms : list ((Z * Z * list Z * list Z) * Miss (R := R) (W := W)) :=
  concat ((fun l => mk_hit l <$> ro_local_hit (pr_meta (lr_req l))) <$> ls).

Lemma elem_of_hms hm : hm ∈ batch_hms <-> exists l seg, l ∈ ls /\ seg ∈ ro_local_hit (pr_meta (lr_req l)) /\ hm = mk_hit l seg.
Proof.
  unfold batch_hms. rewrite elem_of_concat_map. split.
  - intros (l & Hl & (seg & -> & Hs)%list_elem_of_fmap). by exists l, seg.
  - intros (l & seg & Hl & Hs & ->). exists l. split; [done|]. apply list_elem_of_fmap. by exists seg.
Qed.

Lemma hms_slots buf : batch_ok buf -> concat (hit_priv <$> batch_hms) = slot <$> cells hitP ls.
Proof.
  intros Hb. unfold batch_hms. rewrite concat_concat_map, <- (cells_fmap (fun l p => pr_slot (lr_req l) p)).
  apply f_equal, list_fmap_ext. intros i l Hl%list_elem_of_lookup_2. destruct (loc_ok buf l Hb Hl) as (Hr & _ & _).
  rewrite <- list_fmap_compose. unfold hitP. rewrite fmap_concat_fmap. apply f_equal, list_fmap_ext.
  intros j [[[s e] priv] pb] Hin%list_elem_of_lookup_2.
  destruct (seg_ok rec _ s e priv pb Hr) as (-> & _); [apply elem_of_app; by right|]. done.
Qed.

Lemma stage_b buf buf1 kept : batch_ok buf ->
  same_except ((pub <$> cells missP ls) ++ (slot <$> cells missP ls)) buf buf1 ->
  kept = None \/ kept = phase_b_cache metas ->
  exists buf2, pic_rope_phase_b radd rmul rsub cfg metas (kept, buf1) = Ret (phase_b_cache metas, buf2) /\
    (forall l s e priv pb p, l ∈ ls -> (s, e, priv, pb) ∈ ro_local_hit (pr_meta (lr_req l)) -> s <= p < e ->
       holds buf2 (slot (l, p)) (rot p (craw (lr_idx l) p)) (cval (lr_idx l) p)) /\
    same_except (slot <$> cells hitP ls) buf1 buf2.
Proof.
  intros Hb Hsame Hkept. pose proof (hms_slots buf Hb) as Hslots.
  assert (Hhit : forall l p, l ∈ ls -> p ∈ hitP (lr_req l) -> p ∈ allP (lr_req l)).
  { intros l p Hl Hp. destruct (part_positions buf l Hb Hl) as (_ & _ & _ & Hall & _). apply Hall. by right; left. }
  destruct (phase_b_spec rO rI radd rmul rsub ropp Rth cfg HA metas batch_hms kept buf1) as (buf2 & E & HF & Hsame2); try done.
  - unfold batch_hms. rewrite fmap_concat_fmap, (located_map rec pr_meta rs 0 0), <- list_fmap_compose.
    apply f_equal, list_fmap_ext. intros i l _. cbn. rewrite <- list_fmap_compose. symmetry. apply list_fmap_id.
  - apply Forall_forall. intros hm (l & [[[s e] priv] pb] & Hl & Hin & ->)%elem_of_hms.
    destruct (loc_ok buf l Hb Hl) as (Hr & _ & Hn).
    destruct (seg_ok rec _ s e priv pb Hr) as (-> & -> & Hse & He); [apply elem_of_app; by right|].
    split; unfold mk_hit, ms_pub; cbn [ms_seg ms_raw ms_vs fst snd].
    + done.
    + rewrite !length_fmap, length_range. done.
    + rewrite len_map, len_pyrange. lia.
    + apply Forall_fmap, Forall_forall. intros p _. apply (bo_keys buf Hb).
    + apply Forall_fmap, Forall_forall. intros p Hp%elem_of_pyrange. by apply (bo_cached buf Hb l s e _ _ p Hl Hin Hp).
  - apply Forall_forall. intros hm (l & [[[s e] priv] pb] & Hl & Hin & ->)%elem_of_hms.
    destruct (loc_ok buf l Hb Hl) as (Hr & _ & Hn).
    destruct (seg_ok rec _ s e priv pb Hr) as (-> & -> & Hse & He); [apply elem_of_app; by right|].
    unfold mk_hit, ms_pub. cbn [ms_seg ms_raw ms_vs fst snd]. apply keyed_fn. intros p Hp.
    destruct (bo_cached buf Hb l s e _ _ p Hl Hin Hp) as (H0 & Hno & Hh & _). rewrite Z.add_0_l.
    eapply same_except_holds; [exact Hsame|exact H0| |exact Hh]. intros Hd. apply Hno. unfold owned.
    apply elem_of_app in Hd as [Hd|Hd]; apply elem_of_app; [by right|left]. eapply slot_owned; [done| |done].
    intros l' p' Hl' Hp'. destruct (part_positions buf l' Hb Hl') as (_ & _ & _ & Hall & _). apply Hall. by left.
  - rewrite Hslots. eapply NoDup_part; [done|]. intros l Hl. split; [|intros p; by apply Hhit].
    by destruct (part_positions buf l Hb Hl) as (_ & Hh & _).
  - eapply same_except_ok; [done|]. apply (bo_buf buf Hb).
  - rewrite Hslots. apply Forall_forall. intros d Hd. eapply same_except_slot; [exact Hsame|].
    pose proof (bo_slots buf Hb) as HS. rewrite Forall_forall in HS. apply HS. apply elem_of_app. left. by eapply slot_owned.
  - exists buf2. split; [done|]. rewrite Hslots in Hsame2. split; [|done]. intros l s e priv pb p Hl Hin Hp.
    rewrite Forall_forall in HF. assert (HK := HF (mk_hit l (s, e, priv, pb))). rewrite elem_of_hms in HK.
    destruct (loc_ok buf l Hb Hl) as (Hr & _ & _).
    destruct (seg_ok rec _ s e priv pb Hr) as (-> & -> & _); [apply elem_of_app; by right|].
    specialize (HK (ex_intro _ l (ex_intro _ _ (conj Hl (conj Hin eq_refl))))).
    unfold mk_hit, RopeKVFacts.hit_priv, hit_start in HK. cbn [ms_raw ms_vs fst snd] in HK. rewrite keyed_fn in HK.
    specialize (HK p Hp). by replace (s + (p - s)) with p in HK by lia.
Qed.

(** *** The writes of phase C *)

Lemma stage_c buf buf2 : batch_ok buf -> buf_ok buf2 -> Forall (slot_ok buf2) owned ->
  exists buf3, put_kv (concat ((fun l => pr_slot (lr_req l) <$> written rec (lr_req l)) <$> ls))
      (concat ((fun l => (fun p => rot p (raw (lr_idx l) p)) <$> written rec (lr_req l)) <$> ls))
      (concat ((fun l => val (lr_idx l) <$> written rec (lr_req l)) <$> ls)) buf2 = Ret buf3 /\
    (forall l p, l ∈ ls -> p ∈ written rec (lr_req l) -> holds buf3 (slot (l, p)) (rot p (raw (lr_idx l) p)) (val (lr_idx l) p)) /\
    same_except (slot <$> cells (written rec) ls) buf2 buf3.
Proof.
  intros Hb Hok HS.
  rewrite (cells_fmap (fun l p => pr_slot (lr_req l) p)), (cells_fmap (fun l p => rot p (raw (lr_idx l) p))),
    (cells_fmap (fun l p => val (lr_idx l) p)).
  assert (Hw : forall l, l ∈ ls -> NoDup (written rec (lr_req l)) /\ forall p, p ∈ written rec (lr_req l) -> p ∈ allP (lr_req l)).
  { intros l Hl. by destruct (part_positions buf l Hb Hl) as (_ & _ & ? & _ & _ & ? & _). }
  destruct (put_kv_spec buf2 (cells (written rec) ls) slot (fun c => rot c.2 (raw (lr_idx c.1) c.2)) (fun c => val (lr_idx c.1) c.2))
    as (buf3 & E & HW & Hsame); [done| | |].
  - by eapply NoDup_part.
  - apply Forall_forall. intros d Hd. rewrite Forall_forall in HS. apply HS, elem_of_app. left. eapply slot_owned; [done| |done].
    intros l p Hl. by apply Hw.
  - exists buf3. split; [exact E|]. split; [|done]. intros l p Hl Hp. apply (HW (l, p)). by apply elem_of_cells.
Qed.

(** *** After the three phases *)

Definition all_hold (buf : KVBuf (list (list R)) W) : Prop :=
  forall l p, l ∈ ls -> 0 <= p < pr_n (lr_req l) -> holds buf (slot (l, p)) (rot p (raw (lr_idx l) p)) (val (lr_idx l) p).
(** The public slots of computed segments: keys as if the segment began
    at position 0. *)
Definition public_hold (buf : KVBuf (list (list R)) W) : Prop :=
  forall l s e priv pb p, l ∈ ls -> (s, e, priv, pb) ∈ ro_local_miss (pr_meta (lr_req l)) -> s <= p < e ->
    holds buf (pub (l, p)) (rot (p - s) (raw (lr_idx l) p)) (val (lr_idx l) p).

Lemma not_in_part buf B l p : batch_ok buf -> l ∈ ls -> p ∈ allP (lr_req l) -> p ∉ B (lr_req l) ->
  (forall l p, l ∈ ls -> p ∈ B (lr_req l) -> p ∈ allP (lr_req l)) -> slot (l, p) ∉ slot <$> cells B ls.
Proof.
  intros Hb Hl Hp Hn HB ([l' p'] & E & [Hl' Hp']%elem_of_cells)%list_elem_of_fmap.
  apply (HB l' p' Hl') in Hp' as Hp''. unfold allP in Hp, Hp''. rewrite elem_of_pyrange in Hp. rewrite elem_of_pyrange in Hp''.
  by destruct (slot_inj buf l p l' p' Hb Hl Hl' Hp Hp'' E) as [-> ->].
Qed.

Lemma slot_nonneg buf l p : batch_ok buf -> l ∈ ls -> p ∈ allP (lr_req l) -> 0 <= slot (l, p).
Proof.
  intros Hb Hl Hp. pose proof (bo_slots buf Hb) as HS. rewrite Forall_forall in HS.
  assert (slot_ok buf (slot (l, p))); [|unfold slot_ok in *; lia]. apply HS, elem_of_app. left.
  apply list_elem_of_fmap. exists (l, p). split; [done|]. by apply elem_of_cells.
Qed.

Lemma phases_hold buf buf1 buf2 buf3 : batch_ok buf ->
  (forall l s e priv pb p, l ∈ ls -> (s, e, priv, pb) ∈ ro_local_miss (pr_meta (lr_req l)) -> s <= p < e ->
     holds buf1 (pub (l, p)) (rot (p - s) (raw (lr_idx l) p)) (val (lr_idx l) p) /\
     holds buf1 (slot (l, p)) (rot p (raw (lr_idx l) p)) (val (lr_idx l) p)) ->
  (forall l s e priv pb p, l ∈ ls -> (s, e, priv, pb) ∈ ro_local_hit (pr_meta (lr_req l)) -> s <= p < e ->
     holds buf2 (slot (l, p)) (rot p (craw (lr_idx l) p)) (cval (lr_idx l) p)) ->
  same_except (slot <$> cells hitP ls) buf1 buf2 ->
  (forall l p, l ∈ ls -> p ∈ written rec (lr_req l) -> holds buf3 (slot (l, p)) (rot p (raw (lr_idx l) p)) (val (lr_idx l) p)) ->
  same_except (slot <$> cells (written rec) ls) buf2 buf3 -> all_hold buf3 /\ public_hold buf3.
Proof.
  intros Hb HA1 HB2 S2 HC3 S3.
  assert (Hhit : forall l p, l ∈ ls -> p ∈ hitP (lr_req l) -> p ∈ allP (lr_req l)).
  { intros l p Hl Hp. destruct (part_positions buf l Hb Hl) as (_ & _ & _ & Hall & _). apply Hall. by right; left. }
  assert (Hwr : forall l p, l ∈ ls -> p ∈ written rec (lr_req l) -> p ∈ allP (lr_req l)).
  { intros l p Hl Hp. destruct (part_positions buf l Hb Hl) as (_ & _ & _ & _ & _ & Hw & _). by apply Hw. }
  split.
  - intros l p Hl Hp. assert (Hin : p ∈ allP (lr_req l)) by (by apply elem_of_pyrange).
    pose proof (slot_nonneg buf l p Hb Hl Hin) as H0.
    destruct (part_positions buf l Hb Hl) as (_ & _ & _ & Hall & Hmiss & _ & _).
    destruct (decide (p ∈ written rec (lr_req l))) as [Hw|Hw]; [by apply HC3|].
    eapply same_except_holds; [exact S3|exact H0|by eapply not_in_part|].
    apply Hall in Hin as Hcase. destruct Hcase as [Hm|[Hh|Hg]].
    + destruct (Hmiss p Hm) as [Hnh _]. eapply same_except_holds; [exact S2|exact H0|by eapply not_in_part|].
      apply elem_of_concat_map in Hm as ([[[s e] priv] pb] & Hseg & Hse%elem_of_pyrange). by apply (HA1 l s e priv pb p).
    + apply elem_of_concat_map in Hh as ([[[s e] priv] pb] & Hseg & Hse%elem_of_pyrange).
      destruct (bo_cached buf Hb l s e priv pb p Hl Hseg Hse) as (_ & _ & _ & Heq).
      destruct Heq as [<- <-]; [|by apply (HB2 l s e priv pb p)]. intros Hs. apply Hw, elem_of_app. by right.
    + destruct Hw. apply elem_of_app. by left.
  - intros l s e priv pb p Hl Hseg Hse. destruct (HA1 l s e priv pb p Hl Hseg Hse) as [Hpub _].
    assert (Hc : pub (l, p) ∈ pub <$> cells missP ls).
    { apply list_elem_of_fmap. exists (l, p). split; [done|]. apply elem_of_cells. split; [done|].
      apply elem_of_concat_map. exists (s, e, priv, pb). split; [done|by apply elem_of_pyrange]. }
    pose proof (bo_nodup buf Hb) as (_ & Hx & _)%NoDup_app.
    assert (H0 : 0 <= pub (l, p)).
    { pose proof (bo_slots buf Hb) as HS. rewrite Forall_forall in HS. assert (slot_ok buf (pub (l, p))); [|unfold slot_ok in *; lia].
      apply HS, elem_of_app. by right. }
    eapply same_except_holds; [exact S3|exact H0| |eapply same_except_holds; [exact S2|exact H0| |exact Hpub]].
    + intros Hd. apply (Hx (pub (l, p))); [exact (slot_owned buf (written rec) _ Hb Hwr Hd)|done].
    + intros Hd. apply (Hx (pub (l, p))); [exact (slot_owned buf hitP _ Hb Hhit Hd)|done].
Qed.

(** *** Rows of the batch *)

Lemma select_all {A} (l : list A) : omapM (index_select l) (pyrange 0 (len l)) = Ret l.
Proof.
  assert (H : forall pre post, pre ++ post = l -> omapM (index_select l) (pyrange (len pre) (len l)) = Ret post).
  { intros pre post. revert pre. induction post as [|x post IH]; intros pre E.
    - rewrite <- E, app_nil_r, pyrange_empty by lia. done.
    - assert (El : len l = len pre + (1 + len post)) by (by rewrite <- E, len_app, len_cons).
      pose proof (len_nonneg pre). pose proof (len_nonneg post).
      rewrite (pyrange_app (len pre) (len pre + 1)) by lia.
      replace (pyrange (len pre) (len pre + 1)) with [len pre] by (unfold pyrange; by replace (len pre + 1 - len pre) with 1 by lia).
      cbn [app omapM]. rewrite (index_select_Ret l (len pre) x); [|lia|].
      + cbn [obind]. specialize (IH (pre ++ [x])). rewrite len_app in IH. change (len [x]) with 1 in IH.
        rewrite IH by (by rewrite <- app_assoc). done.
      + rewrite <- E, lookup_app_r by (unfold len; lia). by replace (Z.to_nat (len pre) - length pre)%nat with 0%nat by (unfold len; lia). }
  exact (H [] l eq_refl).
Qed.

Lemma index_copy_all {A} (b rows : list A) : length b = length rows -> index_copy b (pyrange 0 (len rows)) rows = Ret rows.
Proof.
  intros El. unfold index_copy. rewrite length_range, Z.sub_0_r. replace (Z.to_nat (len rows)) with (length rows) by (unfold len; lia).
  rewrite Nat.eqb_refl, (proj2 (forallb_forall _ _)) by (intros x Hx%list_elem_of_In%elem_of_pyrange; lia).
  assert (Hz : (zip (pyrange 0 (len rows)) rows).*1 = pyrange 0 (len rows)) by (apply fst_zip; rewrite length_range; unfold len; lia).
  destruct (index_puts_spec b (zip (pyrange 0 (len rows)) rows)) as (t & -> & Lt & Wt & _).
  - rewrite Hz. apply NoDup_seqZ.
  - apply (Forall_fmap_1 fst (fun d => 0 <= d < len b)). rewrite Hz. apply Forall_forall. intros d Hd%elem_of_pyrange. unfold len in *. lia.
  - f_equal. apply list_eq. intros j. destruct (rows !! j) as [x|] eqn:Ex.
    + rewrite <- (Nat2Z.id j). apply Wt, list_elem_of_lookup. exists j. rewrite lookup_zip_with, Ex.
      unfold pyrange. rewrite (proj2 (lookup_seqZ 0 (len rows - 0) j (Z.of_nat j))); [done|].
      apply lookup_lt_Some in Ex. unfold len. lia.
    + apply lookup_ge_None. apply lookup_ge_None in Ex. lia.
Qed.

Lemma length_roles : length (roles rec ls) = length (lrows rec ls).
Proof. apply length_concat_eq. intros l _. unfold computed. by rewrite !length_fmap. Qed.

Lemma rows_length (L : list LReq) : length (lrows rec L) =
  (length (concat (glob_q rec <$> L)) + length (concat (seam_q rec <$> L)) +
   length (concat ((fun l => qidx rec l <$> missP (lr_req l)) <$> L)))%nat.
Proof.
  unfold lrows. induction L as [|l L IH]; [done|]. rewrite !fmap_cons. cbn [concat]. rewrite !length_app, IH.
  unfold glob_q, seam_q. rewrite !length_fmap. pose proof (Permutation_length (computed_perm rec (lr_req l))) as E.
  rewrite !length_app in E. unfold seamP in E. rewrite length_fmap in E. lia.
Qed.

Lemma rows_empty :
  bool_decide (concat (glob_q rec <$> ls) = []) && bool_decide (concat (seam_q rec <$> ls) = []) &&
  bool_decide (concat ((fun l => qidx rec l <$> missP (lr_req l)) <$> ls) = []) = bool_decide (lrows rec ls = []).
Proof.
  pose proof (rows_length ls) as E. destruct (lrows rec ls) as [|x xs].
  - cbn in E. rewrite !bool_decide_true; [done|..]; try done; apply nil_length_inv; lia.
  - rewrite (bool_decide_false (x :: xs = [])) by done. cbn [length] in E.
    destruct (concat (glob_q rec <$> ls)); [|done]. destruct (concat (seam_q rec <$> ls)); [|done].
    destruct (concat ((fun l => qidx rec l <$> missP (lr_req l)) <$> ls)); [|done]. cbn in E. lia.
Qed.

(** *** What is kept between layers *)

Definition plan_args (c : PhaseC) : list Z * list Z * list Z * list Z :=
  (pc_qo_indptr c, pc_kv_indptr c, pc_kv_indices c, pc_kv_last_page_len c).

(** Nothing, or what this batch builds. *)
Definition kept_ok (st : RopeState) : Prop :=
  (rs_phase_b st = None \/ rs_phase_b st = phase_b_cache metas) /\
  ((rs_phase_c st = None /\ rs_planned st = None) \/
   exists c, build_phase_c_cache metas (enumerate (lrows rec ls)) (concat (glob_q rec <$> ls)) (concat (seam_q rec <$> ls))
       (concat ((fun l => qidx rec l <$> missP (lr_req l)) <$> ls)) = Ret (Some c) /\
     rs_phase_c st = Some c /\ rs_planned st = Some (plan_args c)).

Lemma init_kept st : kept_ok (init_pic_rope_plans st).
Proof. split; [by left|]. by left. Qed.

Lemma phase_a_cond buf1 buf local_q : batch_ok buf -> local_q = concat ((fun l => qidx rec l <$> missP (lr_req l)) <$> ls) ->
  pic_rope_phase_a_kv_only radd rmul rsub ropp cfg k_rows v_rows metas local_q buf = Ret buf1 ->
  (if negb (bool_decide (local_q = [])) || existsb (fun mt => negb (bool_decide (ro_local_hit mt = []))) metas
   then pic_rope_phase_a_kv_only radd rmul rsub ropp cfg k_rows v_rows metas local_q buf else Ret buf) = Ret buf1.
Proof.
  intros Hb Eq E. destruct (decide (local_q = [])) as [El|Hne]; [|by rewrite (bool_decide_false (local_q = [])) by done].
  rewrite bool_decide_true by done. cbn [negb orb]. destruct (existsb _ _); [done|]. rewrite <- E.
  assert (Em : concat (ro_local_miss <$> metas) = []).
  { destruct (concat (ro_local_miss <$> metas)) as [|seg segs] eqn:Es; [done|]. exfalso.
    assert (Hin : seg ∈ concat (ro_local_miss <$> metas)) by (rewrite Es; left).
    rewrite (located_map rec pr_meta rs 0 0), <- list_fmap_compose in Hin. apply elem_of_concat_map in Hin as (l & Hl & Hin).
    destruct seg as [[[s e] priv] pb]. destruct (loc_ok buf l Hb Hl) as (Hr & _ & _).
    destruct (seg_ok rec _ s e priv pb Hr) as (_ & _ & Hse & _); [apply elem_of_app; by left|].
    assert (Hq : qidx rec l s ∈ local_q); [|rewrite El in Hq; by apply not_elem_of_nil in Hq].
    rewrite Eq. apply elem_of_concat_map. exists l. split; [done|]. apply list_elem_of_fmap. exists s. split; [done|].
    apply elem_of_concat_map. exists (s, e, priv, pb). split; [done|]. apply elem_of_pyrange. lia. }
  unfold pic_rope_phase_a_kv_only. by rewrite Em.
Qed.

(** *** Phase C *)

(** The output of every computed token. *)
Definition rows_exact (q3 : list Q) (out : list O) : Prop :=
  forall l k p x, l ∈ ls -> computed rec (lr_req l) !! k = Some p -> q3 !! Z.to_nat (lr_off l + Z.of_nat k) = Some x ->
    out !! Z.to_nat (lr_off l + Z.of_nat k) =
      Some (attn x ((fun p' => (rot p' (raw (lr_idx l) p'), val (lr_idx l) p')) <$> pyrange 0 (p + 1))).

Lemma nothing_written buf2 buf3 : concat ((fun l => pr_slot (lr_req l) <$> written rec (lr_req l)) <$> ls) = [] ->
  put_kv [] (concat ((fun l => (fun p => rot p (raw (lr_idx l) p)) <$> written rec (lr_req l)) <$> ls))
      (concat ((fun l => val (lr_idx l) <$> written rec (lr_req l)) <$> ls)) buf2 = Ret buf3 -> buf3 = buf2.
Proof.
  intros Ed Eput.
  assert (Hnil : forall A (f : LReq -> Z -> A), concat ((fun l => f l <$> written rec (lr_req l)) <$> ls) = []).
  { intros A f. apply nil_length_inv. transitivity (length (concat ((fun l => pr_slot (lr_req l) <$> written rec (lr_req l)) <$> ls)));
      [|by rewrite Ed]. apply length_concat_eq. intros l _. by rewrite !length_fmap. }
  rewrite (Hnil _ (fun l p => rot p (raw (lr_idx l) p))), (Hnil _ (fun l => val (lr_idx l))) in Eput.
  destruct buf2. by injection Eput as <-.
Qed.

Lemma phase_c_spec buf buf2 buf3 q3 st : batch_ok buf -> length q3 = length (lrows rec ls) -> lrows rec ls <> [] ->
  len (lrows rec ls) < 2 ^ 31 -> kv_bound rec rs < 2 ^ 31 -> kept_ok st ->
  put_kv (concat ((fun l => pr_slot (lr_req l) <$> written rec (lr_req l)) <$> ls))
      (concat ((fun l => (fun p => rot p (raw (lr_idx l) p)) <$> written rec (lr_req l)) <$> ls))
      (concat ((fun l => val (lr_idx l) <$> written rec (lr_req l)) <$> ls)) buf2 = Ret buf3 -> all_hold buf3 ->
  exists st' out, pic_rope_phase_c prefill metas (enumerate (lrows rec ls)) q3 k_rows v_rows (concat (glob_q rec <$> ls))
      (concat (seam_q rec <$> ls)) (concat ((fun l => qidx rec l <$> missP (lr_req l)) <$> ls)) st buf2
      (replicate (length q3) o_zero) = Ret (st', buf3, out) /\
    kept_ok st' /\ length out = length q3 /\ rows_exact q3 out.
Proof.
  intros Hb Hq Hne HT Hkv [Hkb Hkc] Eput Hhold.
  destruct (build_phase_c_eq rec rs) as (runs & kvpos & Hok & Hrows & Ebuild); try done.
  { eapply Forall_impl; [exact (bo_req buf Hb)|]. by intros r []. }
  rewrite decide_False in Ebuild by done. set (c := mkPhaseC _ _ _ _ _ _ _ _ _) in Ebuild.
  assert (Ecache : match rs_phase_c st with
         | Some c => Ret (Some c)
         | None => build_phase_c_cache metas (enumerate (lrows rec ls)) (concat (glob_q rec <$> ls)) (concat (seam_q rec <$> ls))
             (concat ((fun l => qidx rec l <$> missP (lr_req l)) <$> ls)) end = Ret (Some c) /\
    match rs_planned st with Some p => p | None => plan_args c end = plan_args c).
  { destruct Hkc as [[-> ->]|(c' & E' & -> & ->)]; [done|]. rewrite E' in Ebuild. injection Ebuild as ->. done. }
  destruct Ecache as [Ec Ep]. unfold pic_rope_phase_c. rewrite Ec. cbn [obind].
  assert (Hw : forall l, l ∈ ls -> forall p, p ∈ written rec (lr_req l) -> p ∈ computed rec (lr_req l)).
  { intros l Hl p Hp. rewrite computed_perm, !elem_of_app. apply elem_of_app in Hp. by right. }
  assert (Ek : omapM (index_select k_rows) (pc_kv_src_qis c) = Ret (concat ((fun l => (fun p => rot p (raw (lr_idx l) p)) <$> written rec (lr_req l)) <$> ls))).
  { apply omapM_concat. intros l Hl. apply (select_qs (fun i p => rot p (raw i p)) buf l _ Hb Hl (Hw l Hl)). }
  assert (Ev : omapM (index_select v_rows) (pc_kv_src_qis c) = Ret (concat ((fun l => val (lr_idx l) <$> written rec (lr_req l)) <$> ls))).
  { apply omapM_concat. intros l Hl. apply (select_qs val buf l _ Hb Hl (Hw l Hl)). }
  assert (Eb3 : match pc_kv_dst_slots c with
    | [] => Ret buf2
    | dst => obind (omapM (index_select k_rows) (pc_kv_src_qis c)) (fun ks =>
             obind (omapM (index_select v_rows) (pc_kv_src_qis c)) (fun vs => put_kv dst ks vs buf2)) end = Ret buf3).
  { rewrite Ek, Ev. cbn [obind]. change (pc_kv_dst_slots c) with (concat ((fun l => pr_slot (lr_req l) <$> written rec (lr_req l)) <$> ls)).
    destruct (concat ((fun l => pr_slot (lr_req l) <$> written rec (lr_req l)) <$> ls)) as [|d ds] eqn:Ed; [|exact Eput].
    by rewrite (nothing_written buf2 buf3 Ed Eput). }
  rewrite Eb3. cbn [obind]. change (pc_q_packed_src c) with (pyrange 0 (len (lrows rec ls))).
  assert (ElT : len (lrows rec ls) = len q3) by (unfold len; by rewrite Hq). rewrite ElT, select_all. cbn [obind].
  unfold plan_args in Ep. rewrite Ep. change (pc_scatter_idx c) with (pyrange 0 (len (lrows rec ls))). rewrite ElT.
  set (out := prefill _ _ _ _ q3 buf3). assert (Elen : length out = length q3) by apply prefill_length.
  replace (len q3) with (len out) by (unfold len; by rewrite Elen).
  rewrite index_copy_all by (by rewrite length_replicate). cbn [obind].
  eexists _, out. split; [done|]. split; [|split; [done|]].
  { split; [done|]. right. exists c. done. }
  intros l k p x Hl Hk Hx. destruct (loc_ok buf l Hb Hl) as (Hr & _ & _).
  destruct (located_at rec (fun l p => (p, prow (lr_req l))) rs 0 0 l Hl k p Hk) as [Erow Ho]. rewrite Z.sub_0_r, <- Hrows in Erow.
  assert (Hp : 0 <= p < pr_n (lr_req l)) by (eapply computed_lt; [done|by eapply list_elem_of_lookup_2]).
  apply (prefill_runs attn prefill runs q3 buf3 _ p (prow (lr_req l)) x); [done|done|done|].
  unfold prow. rewrite slice_to_take by (rewrite len_map, len_pyrange; lia). rewrite <- fmap_take, take_pyrange by lia.
  apply (kv_rows_map buf3 (fun p => slot (l, p))). intros p' Hp'%elem_of_pyrange. apply Hhold; [done|lia].
Qed.


End forward.

(** ** An instance: a computed segment, a reused one with a sink, a query *)

Module ThreeSegments.

Definition meta : RopeMeta :=
  mkRopeMeta [(0, 2, [0; 1], [5; 6])] [(2, 4, [2; 3], [12; 13])] (Some (4, 5, [4])) (Some [(2, 4, [2])]).
Definition req : PReq := mkPReq 5 meta (fun p => p) (fun p => if p <? 2 then p + 5 else p + 10).
Definition raw (i p : Z) : list (list Z) := [[p + 1; 0]].
Definition craw (i p : Z) : list (list Z) := if p =? 2 then [[9; 9]] else [[p + 1; 0]].
Definition val (i p : Z) : Z := 10 * p.
Definition cval (i p : Z) : Z := if p =? 2 then 99 else 10 * p.
Definition buf : KVBuf (list (list Z)) Z :=
  mkKVBuf (replicate 12 [] ++ [[[9; 9]]; [[0; 4]]]) (replicate 12 0 ++ [99; 30]).
Definition attn (q : Z) (ctx : list (list (list Z) * Z)) : Z * list (list (list Z) * Z) := (q, ctx).

Lemma three_req_ok : preq_ok true req.
Proof.
  split.
  - by vm_compute.
  - by repeat constructor.
  - constructor; [|constructor]. split; [lia|]. exists [2; 3], [12; 13]. left.
  - vm_compute. apply NoDup_singleton.
Qed.

Lemma batch : batch_ok Z.add Z.mul Z.sub Quarter.cfg true [req] raw craw val cval buf.
Proof.
  split.
  - constructor; [|constructor]. split; [split; [exact three_req_ok|]|done]. intros p Hp. cbn in *. lia.
  - change (NoDup [0; 1; 2; 3; 4; 5; 6]). apply NoDup_ListNoDup. repeat constructor; cbn; lia.
  - change (Forall (slot_ok buf) [0; 1; 2; 3; 4; 5; 6]). by repeat constructor.
  - intros i p. split; [by repeat constructor|]. unfold craw. destruct (p =? 2); by repeat constructor.
  - intros l s e priv pb p Hl Hin Hp. apply list_elem_of_singleton in Hl as ->.
    apply list_elem_of_singleton in Hin as [= -> -> -> ->]. assert (p = 2 \/ p = 3) as [-> | ->] by lia.
    + split; [done|]. split; [change (12 ∉ [0; 1; 2; 3; 4; 5; 6]); rewrite list_elem_of_In; cbn; lia|]. split; [done|].
      intros H. destruct H. change (2 ∈ [2]). left.
    + split; [done|]. split; [change (13 ∉ [0; 1; 2; 3; 4; 5; 6]); rewrite list_elem_of_In; cbn; lia|]. done.
  - done.
Qed.

End ThreeSegments.

