(* ===== verification/RopeAllocFacts.v ===== *)
(** * Correctness of the prefill allocation (re-rotation modes)

    [rope_fill] takes, in one allocation, private slots for every token of
    the batch's segments -- cached ones too, whose keys are rotated into
    them -- and public slots for the computed segments that will be cached.
    It succeeds whenever the capacity suffices; the slots on the requests
    are exactly those taken; a request's row holds its private slots; and
    the slots handed to the forward pass are those of the computed
    positions, in order. *)

From stdpp Require Import strings.
From S2P Require Import Prelude PyDict Allocator Policy Segmenter Engine ReqPool ReqPoolFacts.
From S2P Require Import PICache PICacheFacts PICacheEvict PICacheReg PICacheRelease CacheCommon.
From S2P Require Import PicAlloc PicAllocFacts TokenAllocator MambaAllocator Scenario.

(** ** Slots by position *)

(** The slot that the ranges [ws] give to position [p]. *)
Fixpoint slot_at (ws : list ((Z * Z) * list Z)) (p : Z) : option Z :=
  match ws with
  | [] => None
  | w :: ws' => if (w.1.1 <=? p) && (p <? w.1.2) then w.2 !! Z.to_nat (p - w.1.1) else slot_at ws' p
  end.

Definition range_ok (w : (Z * Z) * list Z) : Prop := w.1.1 <= w.1.2 /\ len w.2 = w.1.2 - w.1.1.

Lemma slot_at_elem ws w p :
  ForallOrdPairs (fun a b => apart a.1 b.1) ws -> w ∈ ws -> w.1.1 <= p < w.1.2 ->
  slot_at ws p = w.2 !! Z.to_nat (p - w.1.1).
Proof.
  induction 1 as [|w0 ws Hall _ IH]; intros Hin Hp; [by apply not_elem_of_nil in Hin|]. cbn [slot_at].
  apply elem_of_cons in Hin as [->|Hin]; [by rewrite (proj2 (Z.leb_le _ _)), (proj2 (Z.ltb_lt _ _)) by lia|].
  rewrite Forall_forall in Hall. specialize (Hall _ Hin). unfold apart in Hall.
  destruct ((w0.1.1 <=? p) && (p <? w0.1.2)) eqn:Eb; [breflect; lia|]. by apply IH.
Qed.

Lemma slot_at_range ws w :
  ForallOrdPairs (fun a b => apart a.1 b.1) ws -> w ∈ ws -> range_ok w ->
  (fun p => default 0 (slot_at ws p)) <$> pyrange w.1.1 w.1.2 = w.2.
Proof.
  intros Hap Hin [Hle Hlen]. apply list_eq. intros i. rewrite list_lookup_fmap.
  unfold len in Hlen. destruct (decide (i < length w.2)%nat) as [Hi|Hi].
  - unfold pyrange. rewrite lookup_seqZ_lt by lia. cbn. rewrite (slot_at_elem ws w) by (done || lia).
    replace (Z.to_nat (w.1.1 + Z.of_nat i - w.1.1)) with i by lia. apply lookup_lt_is_Some in Hi as [x Hx]. by rewrite Hx.
  - unfold pyrange. rewrite lookup_seqZ_ge by lia. cbn. symmetry. apply lookup_ge_None. lia.
Qed.

Lemma slot_at_single ws w p :
  ForallOrdPairs (fun a b => apart a.1 b.1) ws -> w ∈ ws -> range_ok w -> w.1.1 <= p < w.1.2 ->
  pyslice w.2 (p - w.1.1) (p - w.1.1 + 1) = [default 0 (slot_at ws p)].
Proof.
  intros Hap Hin [Hle Hlen] Hp. rewrite (slot_at_elem ws w) by done. rewrite pyslice_in_range by lia.
  replace (p - w.1.1 + 1 - (p - w.1.1)) with 1 by lia. unfold len in Hlen.
  destruct (lookup_lt_is_Some_2 w.2 (Z.to_nat (p - w.1.1))) as [x Hx]; [lia|]. rewrite Hx.
  by rewrite (drop_S _ _ _ Hx).
Qed.

(** ** The map of positions to slots *)

(** [m] maps positions of the ranges [ws] to their slots, and every
    position of [D]. *)
Record mapped (ws : list ((Z * Z) * list Z)) (D : list Z) (m : slot_map) : Prop := {
  mp_slot p v : dict_get p m = Some v -> exists w, w ∈ ws /\ w.1.1 <= p < w.1.2 /\
    v = pyslice w.2 (p - w.1.1) (p - w.1.1 + 1);
  mp_dom p : p ∈ D -> is_Some (dict_get p m);
}.

Definition map_range (w : (Z * Z) * list Z) (L : list Z) (m : slot_map) : slot_map :=
  foldl (fun d ap => dict_set ap (pyslice w.2 (ap - w.1.1) (ap - w.1.1 + 1)) d) m L.

Lemma mapped_weaken ws w D m : mapped ws D m -> mapped (ws ++ [w]) D m.
Proof.
  intros [Hs Hd]. split; [|done]. intros p v Hp. destruct (Hs p v Hp) as (w' & Hw & ?). exists w'.
  split; [|done]. rewrite elem_of_app. by left.
Qed.

Lemma mapped_range ws w D L m : w ∈ ws -> (forall ap, ap ∈ L -> w.1.1 <= ap < w.1.2) ->
  mapped ws D m -> mapped ws (D ++ L) (map_range w L m).
Proof.
  intros Hw. revert D m. induction L as [|ap L IH]; intros D m HL [Hs Hd]; [by rewrite app_nil_r|].
  change (ap :: L) with ([ap] ++ L). rewrite app_assoc. apply (IH (D ++ [ap])); [intros; apply HL; by right|].
  split.
  - intros p v. destruct (decide (p = ap)) as [->|Hne].
    + rewrite dict_get_set_eq. intros [= <-]. exists w. split; [done|]. split; [|done]. apply HL. left.
    + rewrite dict_get_set_ne by done. apply Hs.
  - intros p Hp. destruct (decide (p = ap)) as [->|Hne]; [rewrite dict_get_set_eq; by eexists|].
    rewrite dict_get_set_ne by done. apply Hd. apply elem_of_app in Hp as [?|?%list_elem_of_singleton]; done.
Qed.

(** ** Segments of one request *)

Section request.
Context {KV MB : Type} `{Allocator KV} `{Allocator MB}.
Context (cfg : PICConfig).
Implicit Types s : Engine KV MB.

Local Abbreviation HitSlots := (list (Z * Z * (list Z * list Z))).
Local Abbreviation rc := (recompute (policy cfg)).

(** A request with the slots of its hits and misses. *)
Definition filled (lh : HitSlots) (lm : list (Z * Z * MissSlots)) (r : Req) : Req :=
  set_pic_miss_segment_slots lm (set_pic_rope_hit_private_slots lh r).

Definition priv_of (m : MissSlots) : list Z :=
  match m with SlotsStd k _ => k | SlotsRope priv _ _ => priv end.
Definition pub_of (m : MissSlots) : list Z :=
  match m with SlotsStd _ _ => [] | SlotsRope _ pub _ => default [] pub end.

Definition hit_ranges (lh : HitSlots) : list ((Z * Z) * list Z) := (fun x => (x.1, x.2.1)) <$> lh.
Definition miss_ranges (lm : list (Z * Z * MissSlots)) : list ((Z * Z) * list Z) :=
  (fun x => (x.1, priv_of x.2)) <$> lm.

(** The sinks of a hit that are computed again. *)
Definition sinks_of (r : Req) (h : Z * Z) : list Z := default [] (dict_get h (pic_hit_seam_positions r)).

Lemma write_row_spec idx w row s :
  row_at (pool s) idx = Some row -> fits (len row) w ->
  wp (write_row idx w.1.1 w.1.2 w.2) (fun _ s' => s' = set_pool (do_writes idx [w] (pool s)) s) (fun _ _ => False) s.
Proof.
  intros Hrow (? & ? & ?). unfold write_row, on_pool, zoom, wp, do_writes, do_write. cbn [foldl].
  by rewrite (pool_write_exact _ _ _ _ row) by done.
Qed.

Lemma rope_hit_spec hpool idx r lh c m h i row s :
  row_at (pool s) idx = Some row -> 0 <= h.1.1 <= h.1.2 -> h.1.2 <= len row ->
  dict_get h.2 (pic_segment_entries r) = Some i -> dict_get h.1 lh = None ->
  0 <= c -> c + (h.1.2 - h.1.1) <= len hpool ->
  let w := (h.1, pyslice hpool c (c + (h.1.2 - h.1.1))) in
  wp (rope_hit cfg hpool idx ((filled lh [] r, c), m) h)
     (fun acc s' => acc = ((filled (lh ++ [(h.1, (w.2, full_kv_slots (deref s i)))]) [] r, c + (h.1.2 - h.1.1)),
          if rc then map_range w (sinks_of r h.1) m else m) /\
        s' = set_pool (do_writes idx [w] (pool s)) s)
     (fun _ _ => False) s.
Proof.
  intros Hrow Hseg Hfit Hi Hd Hc Hout w. destruct h as [[a b] hh]. cbn [fst snd] in w, Hseg, Hfit, Hi, Hd, Hout. unfold rope_hit.
  change (pic_segment_entries (filled lh [] r)) with (pic_segment_entries r). rewrite Hi.
  apply wp_bind, wp_ret, wp_bind, wp_get, wp_bind.
  eapply wp_mono; [apply (write_row_spec idx w row s Hrow)| |done].
  { unfold fits, w. cbn [fst snd]. rewrite len_pyslice by lia. lia. }
  intros [] s1 ->. apply wp_ret. split; [|done].
  change (pic_rope_hit_private_slots (filled lh [] r)) with lh. rewrite dict_set_fresh by done.
  f_equal. destruct rc; [|done]. unfold sinks_of.
  change (pic_hit_seam_positions (set_pic_rope_hit_private_slots _ _)) with (pic_hit_seam_positions r).
  cbn [fst]. by destruct (dict_get (a, b) (pic_hit_seam_positions r)).
Qed.

(** The hit loop. *)
Lemma rope_hits_spec hpool idx r c row s :
  row_at (pool s) idx = Some row ->
  (forall h, h ∈ pic_hit_segments r -> 0 <= h.1.1 < h.1.2 /\ h.1.2 <= len row /\
     is_Some (dict_get h.2 (pic_segment_entries r)) /\ (forall ap, ap ∈ sinks_of r h.1 -> h.1.1 <= ap < h.1.2)) ->
  NoDup (pic_hit_segments r).*1 -> 0 <= c -> c + seg_total (pic_hit_segments r).*1 <= len hpool ->
  wp (mfold (rope_hit cfg hpool idx) ((filled [] [] r, c), []) (pic_hit_segments r))
     (fun acc s' => exists lh m, acc = ((filled lh [] r, c + seg_total (pic_hit_segments r).*1), m) /\
        lh.*1 = (pic_hit_segments r).*1 /\ fst <$> lh.*2 = chunks hpool c (pic_hit_segments r).*1 /\
        snd <$> lh.*2 = (fun h => full_kv_slots (deref s (hit_entry r h.2))) <$> pic_hit_segments r /\
        (forall w, w ∈ hit_ranges lh -> fits (len row) w) /\
        mapped (hit_ranges lh) (if rc then concat (sinks_of r <$> (pic_hit_segments r).*1) else []) m /\
        s' = set_pool (do_writes idx (hit_ranges lh) (pool s)) s)
     (fun _ _ => False) s.
Proof.
  intros Hrow Hh Hnd Hc Hout.
  apply wp_mfold with (I := fun done_ acc s' => exists lh m, acc = ((filled lh [] r, c + seg_total done_.*1), m) /\
    lh.*1 = done_.*1 /\ fst <$> lh.*2 = chunks hpool c done_.*1 /\
    snd <$> lh.*2 = (fun h => full_kv_slots (deref s (hit_entry r h.2))) <$> done_ /\
    (forall w, w ∈ hit_ranges lh -> fits (len row) w) /\
    mapped (hit_ranges lh) (if rc then concat (sinks_of r <$> done_.*1) else []) m /\
    s' = set_pool (do_writes idx (hit_ranges lh) (pool s)) s).
  - exists [], []. change (seg_total _) with 0. rewrite Z.add_0_r. split_and!; try done.
    + intros w Hw. by apply not_elem_of_nil in Hw.
    + split; [done|]. intros p Hp. destruct rc; by apply not_elem_of_nil in Hp.
    + by destruct s.
  - intros done_ h rest acc s1 Heq (lh & m & -> & Hk & Hf & Hs & Hfits & Hm & ->).
    destruct (Hh h) as (Hseg & Hfit & [i Hi] & Hsink); [rewrite Heq; set_solver|].
    assert (Ht : 0 <= seg_total done_.*1 /\ 0 <= seg_total rest.*1).
    { split; apply seg_total_nonneg; intros x (h' & -> & Hin)%list_elem_of_fmap; destruct (Hh h'); try lia; rewrite Heq; set_solver. }
    rewrite Heq, fmap_app, seg_total_app, fmap_cons, seg_total_cons in Hout.
    destruct (do_writes_row idx (hit_ranges lh) (pool s) row Hrow Hfits) as (row' & Hrow' & Hlrow).
    eapply wp_mono; [apply (rope_hit_spec hpool idx r lh _ m h i row')| |done]; [done|lia|lia|done| |lia|lia|].
    { apply dict_get_None. rewrite Hk. rewrite Heq, fmap_app in Hnd. apply NoDup_app in Hnd as (_ & Hd & _).
      intros Hx. apply (Hd _ Hx). rewrite fmap_cons. left. }
    intros acc s2 [-> ->]. set (k := pyslice hpool _ _). set (w := (h.1, k)).
    set (x := (h.1, (k, full_kv_slots (deref s i)))).
    assert (Er : hit_ranges (lh ++ [x]) = hit_ranges lh ++ [w]) by (unfold hit_ranges; by rewrite fmap_app).
    exists (lh ++ [x]), (if rc then map_range w (sinks_of r h.1) m else m). rewrite Er, !fmap_app, !list_fmap_singleton.
    rewrite chunks_app, seg_total_app. change (seg_total [h.1]) with (h.1.2 - h.1.1 + 0). split_and!.
    + f_equal. f_equal. lia.
    + by rewrite Hk.
    + by rewrite Hf.
    + rewrite Hs. unfold hit_entry. by rewrite Hi.
    + intros w' [?| ->%list_elem_of_singleton]%elem_of_app; [by apply Hfits|]. unfold fits, w, k. cbn [fst snd].
      rewrite len_pyslice by lia. lia.
    + apply (mapped_weaken _ w) in Hm. destruct rc; [|done]. rewrite concat_app. cbn [concat]. rewrite app_nil_r.
      apply mapped_range; [set_solver|done|done].
    + cbn [pool set_pool]. by rewrite do_writes_app.
  - done.
Qed.

(** What a miss segment holds: private slots, a Mamba slot and, unless it is
    the last of several, public slots. *)
Definition rope_miss_ok (r : Req) (x : Z * Z * MissSlots) : Prop :=
  exists priv pub mb, x.2 = SlotsRope priv pub (Some mb) /\ len priv = x.1.2 - x.1.1 /\
    (global_seg r = Some x.1 /\ pub = None \/
     global_seg r <> Some x.1 /\ exists k, pub = Some k /\ len k = x.1.2 - x.1.1).

Definition locals (r : Req) (segs : list (Z * Z)) : list (Z * Z) := filter (fun seg => global_seg r <> Some seg) segs.

Lemma locals_app r l k : locals r (l ++ k) = locals r l ++ locals r k.
Proof. apply filter_app. Qed.

Lemma locals_total r segs : (forall seg, seg ∈ segs -> seg.1 <= seg.2) -> 0 <= seg_total (locals r segs).
Proof. intros Hs. apply seg_total_nonneg. intros seg [_ ?]%list_elem_of_filter. auto. Qed.

Lemma map_range_offsets w m :
  foldl (fun d ofs => dict_set (w.1.1 + ofs) (pyslice w.2 ofs (ofs + 1)) d) m (pyrange 0 (w.1.2 - w.1.1)) =
  map_range w (pyrange w.1.1 w.1.2) m.
Proof.
  unfold map_range. rewrite <- (offset_pyrange w.1.1 w.1.2). generalize (pyrange 0 (w.1.2 - w.1.1)) as L.
  intros L. revert m. induction L as [|o L IH]; intros m; [done|]. rewrite fmap_cons. cbn [foldl]. rewrite <- IH.
  by replace (w.1.1 + o - w.1.1) with o by lia.
Qed.

Lemma rope_miss_spec mpool ppool idx r lh lm c pc tm m seg row s :
  index_wf s -> alloc_ready (mamba s) -> 0 < mcap s ->
  row_at (pool s) idx = Some row -> 0 <= seg.1 <= seg.2 -> seg.2 <= len row -> dict_get seg lm = None ->
  0 <= c -> c + (seg.2 - seg.1) <= len mpool ->
  0 <= pc -> pc + seg_total (locals r [seg]) <= len ppool ->
  let w := (seg, pyslice mpool c (c + (seg.2 - seg.1))) in
  wp (rope_miss cfg mpool ppool idx ((filled lh lm r, (c, (pc, tm))), m) seg)
     (fun acc s' => exists pub mb,
        let x := (seg, SlotsRope w.2 pub (Some mb)) in
        acc = ((filled lh (lm ++ [x]) r, (c + (seg.2 - seg.1), (pc + seg_total (locals r [seg]), tm + 1))),
               if rc then map_range w (pyrange seg.1 seg.2) m else m) /\
        rope_miss_ok r x /\ pub_of x.2 = pyslice ppool pc (pc + seg_total (locals r [seg])) /\
        ledger [mb] s s' /\ pool s' = do_writes idx [w] (pool s))
     (fun _ _ => False) s.
Proof.
  intros Hw Hr Hcap Hrow Hseg Hfit Hd Hc Hout Hpc Hpout w. unfold rope_miss. apply wp_bind.
  eapply wp_mono; [by apply alloc_one_mamba_spec| |intros e s' (_ & ? & _); lia]. intros mb s1 [Hl Hp].
  assert (Hw2 : len w.2 = seg.2 - seg.1) by (unfold w; cbn [snd]; rewrite len_pyslice by lia; lia).
  apply wp_bind. rewrite <- Hp in Hrow. eapply wp_mono; [apply (write_row_spec idx w row s1 Hrow)| |done]; [done|].
  intros [] s2 ->. apply wp_ret. change (global_seg (filled lh lm r)) with (global_seg r).
  change (pic_miss_segment_slots (filled lh lm r)) with lm. rewrite dict_set_fresh by done.
  pose proof (map_range_offsets w m) as Hmr. change w.1 with seg in Hmr. change w.2 with (pyslice mpool c (c + (seg.2 - seg.1))) in Hmr.
  rewrite Hmr. clear Hmr. eexists _, mb. cbv zeta. split; [|split; [|split; [|split]]].
  - f_equal. f_equal. f_equal. f_equal. unfold locals. rewrite filter_cons, filter_nil.
    destruct (decide (global_seg r = Some seg)) as [Hg|Hg].
    + rewrite decide_False, bool_decide_true by naive_solver. cbn. lia.
    + rewrite decide_True, bool_decide_false by done. cbn. lia.
  - eexists _, _, mb. split; [done|]. split; [done|]. cbn [fst]. destruct (decide (global_seg r = Some seg)) as [Hg|Hg].
    + left. rewrite bool_decide_true by done. done.
    + right. rewrite bool_decide_false by done. split; [done|]. eexists. split; [done|].
      unfold locals in Hpout. rewrite filter_cons, filter_nil, decide_True in Hpout by done.
      change (seg_total [seg]) with (seg.2 - seg.1 + 0) in Hpout. rewrite len_pyslice; lia.
  - unfold locals. rewrite filter_cons, filter_nil. destruct (decide (global_seg r = Some seg)) as [Hg|Hg].
    + rewrite decide_False, bool_decide_true by naive_solver. cbn. unfold locals in Hpout.
      rewrite filter_cons, filter_nil, decide_False in Hpout by naive_solver. change (seg_total []) with 0 in Hpout.
      rewrite Z.add_0_r, pyslice_in_range by lia. by rewrite Z.sub_diag.
    + rewrite decide_True, bool_decide_false by done. cbn. by rewrite Z.add_0_r.
  - by apply ledger_pool.
  - cbn [pool set_pool]. by rewrite Hp.
Qed.

(** The state of the miss loop after the segments [segs]. *)
Record misses_done mpool ppool (idx : Z) (r : Req) (lh : HitSlots) (c pc tm : Z) (D0 : list Z) (n : Z) s (segs : list (Z * Z))
    (acc : (Req * (Z * (Z * Z))) * slot_map) s' (lm : list (Z * Z * MissSlots)) : Prop := {
  md_req : acc.1 = (filled lh lm r, (c + seg_total segs, (pc + seg_total (locals r segs), tm + len (concat (mb_of <$> lm.*2)))));
  md_keys : lm.*1 = segs;
  md_priv : priv_of <$> lm.*2 = chunks mpool c segs;
  md_pub : concat (pub_of <$> lm.*2) = pyslice ppool pc (pc + seg_total (locals r segs));
  md_ok x : x ∈ lm -> rope_miss_ok r x;
  md_ledger : ledger (concat (mb_of <$> lm.*2)) s s';
  md_mamba : len (concat (mb_of <$> lm.*2)) = len segs;
  md_fits w : w ∈ miss_ranges lm -> fits n w;
  md_map : mapped (hit_ranges lh ++ miss_ranges lm)
    (if rc then D0 ++ concat ((fun seg => pyrange seg.1 seg.2) <$> segs) else []) acc.2;
  md_pool : pool s' = do_writes idx (miss_ranges lm) (pool s);
}.

Lemma misses_step mpool ppool idx r lh c pc tm D0 row s done_ seg acc s1 lm :
  row_at (pool s) idx = Some row -> 0 <= seg.1 < seg.2 -> seg.2 <= len row -> seg ∉ done_ ->
  0 < mcap s1 -> 0 <= c + seg_total done_ -> c + seg_total (done_ ++ [seg]) <= len mpool ->
  0 <= pc -> 0 <= seg_total (locals r done_) -> pc + seg_total (locals r (done_ ++ [seg])) <= len ppool ->
  misses_done mpool ppool idx r lh c pc tm D0 (len row) s done_ acc s1 lm ->
  wp (rope_miss cfg mpool ppool idx acc seg)
     (fun acc' s' => exists lm', misses_done mpool ppool idx r lh c pc tm D0 (len row) s (done_ ++ [seg]) acc' s' lm')
     (fun _ _ => False) s1.
Proof.
  intros Hrow Hseg Hfit Hni Hcap Hc Hout Hpc Ht Hpout [Hreq Hk Hpriv Hpub Hok Hl Hmb Hfits Hm Hp].
  destruct acc as [a m]. cbn [fst snd] in Hreq, Hm. subst a. rewrite seg_total_app in Hout. rewrite locals_app, seg_total_app in Hpout.
  change (seg_total [seg]) with (seg.2 - seg.1 + 0) in Hout.
  destruct (do_writes_row idx (miss_ranges lm) (pool s) row Hrow Hfits) as (row' & Hrow' & Hlrow). rewrite <- Hp in Hrow'.
  eapply wp_mono; [apply (rope_miss_spec mpool ppool idx r lh lm _ _ _ m seg row')| |done];
    [apply Hl|apply Hl|done|done|lia|lia| |lia|lia|lia|lia|].
  { apply dict_get_None. by rewrite Hk. }
  intros acc s2 (pub & mb & -> & Hxok & Hxpub & Hl2 & Hp2). set (k := pyslice mpool _ _) in *.
  set (x := (seg, SlotsRope k pub (Some mb))) in *. exists (lm ++ [x]).
  assert (Er : miss_ranges (lm ++ [x]) = miss_ranges lm ++ [(seg, k)]) by (unfold miss_ranges; by rewrite fmap_app).
  assert (Em : concat (mb_of <$> (lm ++ [x]).*2) = concat (mb_of <$> lm.*2) ++ [mb]) by (by rewrite !fmap_app, concat_app).
  split.
  - cbn [fst]. rewrite Em, len_app, seg_total_app, locals_app, seg_total_app. change (len [mb]) with 1.
    change (seg_total [seg]) with (seg.2 - seg.1 + 0). f_equal. f_equal; [lia|]. f_equal; lia.
  - by rewrite fmap_app, Hk.
  - rewrite !fmap_app, Hpriv, chunks_app. done.
  - rewrite !fmap_app, concat_app, Hpub. cbn [concat fmap list_fmap]. rewrite app_nil_r.
    etrans; [apply f_equal, Hxpub|]. rewrite locals_app, seg_total_app, Z.add_assoc. apply pyslice_app; [lia|lia| |lia].
    assert (0 <= seg_total (locals r [seg])); [|lia]. apply locals_total. intros ? ->%list_elem_of_singleton. lia.
  - intros y [?| ->%list_elem_of_singleton]%elem_of_app; auto.
  - rewrite Em. by eapply ledger_trans.
  - rewrite Em, !len_app, Hmb. done.
  - rewrite Er. intros w [?| ->%list_elem_of_singleton]%elem_of_app; [auto|]. unfold fits, k. cbn [fst snd].
    rewrite len_pyslice by lia. lia.
  - rewrite Er, app_assoc. apply (mapped_weaken _ (seg, k)) in Hm. cbn [snd]. destruct rc; [|done].
    rewrite fmap_app, concat_app, app_assoc. cbn [fmap list_fmap concat]. rewrite app_nil_r.
    apply mapped_range; [set_solver| |done]. intros ap ?%elem_of_pyrange. done.
  - rewrite Er, do_writes_app, <- Hp. exact Hp2.
Qed.

Lemma rope_misses_spec mpool ppool idx r lh c pc tm D0 m row s segs :
  index_wf s -> alloc_ready (mamba s) -> len segs <= mcap s -> row_at (pool s) idx = Some row ->
  (forall seg, seg ∈ segs -> 0 <= seg.1 < seg.2 /\ seg.2 <= len row) -> NoDup segs ->
  0 <= c -> c + seg_total segs <= len mpool -> 0 <= pc -> pc + seg_total (locals r segs) <= len ppool ->
  mapped (hit_ranges lh) (if rc then D0 else []) m ->
  wp (mfold (rope_miss cfg mpool ppool idx) ((filled lh [] r, (c, (pc, tm))), m) segs)
     (fun acc s' => exists lm, misses_done mpool ppool idx r lh c pc tm D0 (len row) s segs acc s' lm)
     (fun _ _ => False) s.
Proof.
  intros Hw Hr Hcap Hrow Hsegs Hnd Hc Hout Hpc Hpout Hm.
  assert (Hle : forall l, (forall x, x ∈ l -> x ∈ segs) -> 0 <= seg_total l /\ 0 <= seg_total (locals r l)).
  { intros l Hl. split; [apply seg_total_nonneg|apply locals_total]; intros x Hx; destruct (Hsegs x); auto; lia. }
  apply wp_mfold with (I := fun done_ acc s' => exists lm, misses_done mpool ppool idx r lh c pc tm D0 (len row) s done_ acc s' lm).
  - exists []. split; try done.
    + change (seg_total _) with 0. change (len _) with 0. by rewrite !Z.add_0_r.
    + destruct (Hle segs) as [_ ?]; [done|]. change (seg_total _) with 0. rewrite Z.add_0_r, pyslice_in_range by lia. by rewrite Z.sub_diag.
    + intros x Hx. by apply not_elem_of_nil in Hx.
    + by apply ledger_refl.
    + intros x Hx. by apply not_elem_of_nil in Hx.
    + cbn [snd fmap list_fmap concat]. rewrite !app_nil_r. exact Hm.
  - intros done_ seg rest acc s1 Heq (lm & Hd). destruct (Hsegs seg) as [Hseg Hfit]; [rewrite Heq; set_solver|].
    destruct (Hle done_) as [Ht1 Ht2]; [rewrite Heq; set_solver|]. destruct (Hle rest) as [Ht3 Ht4]; [rewrite Heq; set_solver|].
    assert (Heq' : segs = (done_ ++ [seg]) ++ rest) by (by rewrite <- app_assoc).
    rewrite Heq', seg_total_app in Hout. rewrite Heq', locals_app, seg_total_app in Hpout.
    eapply misses_step; [done|done|done| | |lia|lia|done|lia|lia|exact Hd].
    + rewrite Heq in Hnd. apply NoDup_app in Hnd as (_ & Hni & _). intros Hx. apply (Hni _ Hx). left.
    + rewrite (lg_cap _ _ _ (md_ledger _ _ _ _ _ _ _ _ _ _ _ _ _ _ _ Hd)), (md_mamba _ _ _ _ _ _ _ _ _ _ _ _ _ _ _ Hd).
      rewrite Heq, len_app, len_cons in Hcap. pose proof (len_nonneg rest). lia.
  - done.
Qed.

(** ** The whole request *)

Definition private_ranges (r : Req) : list ((Z * Z) * list Z) :=
  hit_ranges (pic_rope_hit_private_slots r) ++ miss_ranges (pic_miss_segment_slots r).
(** The private slot of a position. *)
Definition private_slot (r : Req) (p : Z) : Z := default 0 (slot_at (private_ranges r) p).

(** The positions that the forward pass may compute. *)
Definition computable (r : Req) : list Z :=
  concat (sinks_of r <$> (pic_hit_segments r).*1) ++ concat ((fun seg => pyrange seg.1 seg.2) <$> pic_miss_segments r).

(** The plan of a request fits row [idx]: its ranges are apart and within
    the row, its hits resolve to entries of their length, sinks lie in
    their hits, and the planned positions are those of the misses and, in
    recompute mode, sinks. *)
Record rope_plan_ok s (idx : Z) (r : Req) : Prop := {
  rp_row : exists row, row_at (pool s) idx = Some row /\
    forall seg, seg ∈ (pic_hit_segments r).*1 ++ pic_miss_segments r -> 0 <= seg.1 < seg.2 /\ seg.2 <= len row;
  rp_hits h : h ∈ pic_hit_segments r -> is_Some (dict_get h.2 (pic_segment_entries r)) /\
    len (full_kv_slots (deref s (hit_entry r h.2))) = h.1.2 - h.1.1 /\
    forall ap, ap ∈ sinks_of r h.1 -> h.1.1 <= ap < h.1.2;
  rp_apart : ForallOrdPairs apart ((pic_hit_segments r).*1 ++ pic_miss_segments r);
  rp_pos : exists pos, pic_miss_token_positions r = Some pos /\
    if rc then forall p, p ∈ pos -> p ∈ computable r
    else pos = concat ((fun seg => pyrange seg.1 seg.2) <$> pic_miss_segments r);
}.

(** What the allocation leaves on the request and in its row. *)
Record rope_allocated (p : ReqToTokenPool) s (idx : Z) (r r' : Req) : Prop := {
  ra_req : exists lh lm, r' = filled lh lm r /\ lh.*1 = (pic_hit_segments r).*1 /\
    snd <$> lh.*2 = (fun h => full_kv_slots (deref s (hit_entry r h.2))) <$> pic_hit_segments r /\
    lm.*1 = pic_miss_segments r /\ forall x, x ∈ lm -> rope_miss_ok r x;
  ra_ranges w : w ∈ private_ranges r' -> w.1.1 < w.1.2 /\ len w.2 = w.1.2 - w.1.1;
  ra_apart : ForallOrdPairs (fun a b => apart a.1 b.1) (private_ranges r');
  ra_row : row_holds p idx (private_ranges r');
}.

Definition held_miss (r : Req) : list Z := concat (priv_of <$> (pic_miss_segment_slots r).*2).
Definition held_pub (r : Req) : list Z := concat (pub_of <$> (pic_miss_segment_slots r).*2).
Definition held_hit (r : Req) : list Z := concat (fst <$> (pic_rope_hit_private_slots r).*2).
Definition held_mb (r : Req) : list Z := concat (mb_of <$> (pic_miss_segment_slots r).*2).

Local Abbreviation miss_n r := (seg_total (pic_miss_segments r)).
Local Abbreviation pub_n r := (seg_total (local_miss r)).
Local Abbreviation hit_n r := (seg_total (pic_hit_segments r).*1).

Lemma rope_req_spec mpool ppool hpool reqs c pc hc tm idx r s :
  index_wf s -> alloc_ready (mamba s) -> len (pic_miss_segments r) <= mcap s -> rope_plan_ok s idx r ->
  0 <= c -> c + miss_n r <= len mpool -> 0 <= pc -> pc + pub_n r <= len ppool -> 0 <= hc -> hc + hit_n r <= len hpool ->
  wp (rope_req cfg mpool ppool hpool (reqs, ((c, pc), (hc, tm))) (idx, r))
     (fun acc s' => exists r' m,
        acc = (reqs ++ [(r', m)], ((c + miss_n r, pc + pub_n r), (hc + hit_n r, tm + len (held_mb r')))) /\
        rope_allocated (pool s') s idx r r' /\
        held_miss r' = pyslice mpool c (c + miss_n r) /\ held_pub r' = pyslice ppool pc (pc + pub_n r) /\
        held_hit r' = pyslice hpool hc (hc + hit_n r) /\ len (held_mb r') = len (pic_miss_segments r) /\
        mapped (private_ranges r') (if rc then computable r else []) m /\
        ledger (held_mb r') s s' /\
        forall idx', idx' <> idx -> row_at (pool s') idx' = row_at (pool s) idx')
     (fun _ _ => False) s.
Proof.
  intros Hw Hr Hcap [(row & Hrow & Hsegs) Hhits Hap _] Hc Hout Hpc Hpout Hhc Hhout. unfold rope_req.
  assert (Hnd : NoDup ((pic_hit_segments r).*1 ++ pic_miss_segments r)).
  { apply apart_NoDup; [done|]. intros seg Hin. destruct (Hsegs seg Hin). lia. }
  apply NoDup_app in Hnd as (Hnd1 & _ & Hnd2).
  apply wp_bind. eapply wp_mono; [apply (rope_hits_spec hpool idx r hc row s Hrow)| |done]; [|done|done|done|].
  { intros h Hh. destruct (Hsegs h.1); [rewrite elem_of_app; left; by apply list_elem_of_fmap_2|].
    destruct (Hhits h Hh) as (? & _ & ?). done. }
  intros acc s1 (lh & m & -> & Hk & Hf & Hs & Hfits & Hm & ->).
  destruct (do_writes_row idx _ (pool s) row Hrow Hfits) as (row1 & Hrow1 & Hlen1).
  apply wp_bind. change (pic_miss_segments (filled lh [] r)) with (pic_miss_segments r).
  eapply wp_mono; [apply (rope_misses_spec mpool ppool idx r lh c pc tm (concat (sinks_of r <$> (pic_hit_segments r).*1)) m row1)| |done];
    [done|done|done|done| |done|done|done|done|done|exact Hm|].
  { intros seg Hin. rewrite Hlen1. apply Hsegs. rewrite elem_of_app. by right. }
  intros acc s2 (lm & Hd). pose proof (md_req _ _ _ _ _ _ _ _ _ _ _ _ _ _ _ Hd) as Hreq. destruct acc as [a m2]. cbn [fst] in Hreq. subst a.
  destruct Hd as [_ Hk2 Hpriv Hpub Hok Hl Hmb Hfl Hm2 Hp]. cbn [snd] in Hm2. cbn [pool set_pool] in Hp.
  apply wp_ret. exists (filled lh lm r), m2. split; [done|].
  assert (Hall : forall w, w ∈ hit_ranges lh ++ miss_ranges lm -> fits (len row) w).
  { intros w [?|?]%elem_of_app; [by apply Hfits|]. rewrite <- Hlen1. by apply Hfl. }
  assert (Hp2 : pool s2 = do_writes idx (hit_ranges lh ++ miss_ranges lm) (pool s)) by (by rewrite do_writes_app).
  assert (Hkeys : (hit_ranges lh ++ miss_ranges lm).*1 = (pic_hit_segments r).*1 ++ pic_miss_segments r).
  { rewrite fmap_app. unfold hit_ranges, miss_ranges. rewrite <- !list_fmap_compose, <- Hk, <- Hk2. done. }
  assert (Hap' : ForallOrdPairs (fun a b => apart a.1 b.1) (hit_ranges lh ++ miss_ranges lm)).
  { apply (ordpairs_fmap fst). by rewrite Hkeys. }
  split_and!.
  - split; [by exists lh, lm| |done|].
    + intros w Hin. destruct (Hall w Hin) as (_ & _ & ?). split; [|done]. apply Hsegs. rewrite <- Hkeys. by apply list_elem_of_fmap_2.
    + rewrite Hp2. by eapply row_holds_writes.
  - unfold held_miss. cbn [filled pic_miss_segment_slots set_pic_miss_segment_slots]. rewrite Hpriv. apply chunks_concat; [|done|done].
    intros seg Hin. destruct (Hsegs seg); [rewrite elem_of_app; by right|lia].
  - exact Hpub.
  - change (concat (fst <$> lh.*2) = pyslice hpool hc (hc + hit_n r)). rewrite Hf. apply chunks_concat; [|done|done].
    intros seg Hin. destruct (Hsegs seg); [rewrite elem_of_app; by left|lia].
  - exact Hmb.
  - exact Hm2.
  - by destruct Hl.
  - intros idx' Hne. rewrite Hp2. by eapply do_writes_other.
Qed.

End request.

(** ** The batch *)

Section batch.
Context {KV MB : Type} `{Allocator KV} `{Allocator MB}.
Context (cfg : PICConfig).
Implicit Types s : Engine KV MB.
Local Abbreviation rc := (recompute (policy cfg)).

Definition total_miss (reqs : list Req) : Z := zsum ((fun r => seg_total (pic_miss_segments r)) <$> reqs).
Definition total_pub (reqs : list Req) : Z := zsum ((fun r => seg_total (local_miss r)) <$> reqs).
Definition total_hit (reqs : list Req) : Z := zsum ((fun r => seg_total (pic_hit_segments r).*1) <$> reqs).
Definition total_mamba (reqs : list Req) : Z := zsum ((fun r => len (pic_miss_segments r)) <$> reqs).

Lemma rope_plan_ext s s' idx r :
  heap s' = heap s -> row_at (pool s') idx = row_at (pool s) idx -> rope_plan_ok cfg s idx r -> rope_plan_ok cfg s' idx r.
Proof.
  intros Hh Hr [(row & Hrow & Hf) Hhits Hap Hpos]. split; [|unfold deref in *; by rewrite Hh|done|done].
  exists row. by rewrite Hr.
Qed.

Lemma rope_allocated_ext p p' s s' idx r r' :
  heap s' = heap s -> row_at p' idx = row_at p idx -> rope_allocated p s idx r r' -> rope_allocated p' s' idx r r'.
Proof.
  intros Hh Hr [Hreq Hrg Hap Hrow]. split; [unfold deref in *; by rewrite Hh|done|done|]. by eapply row_holds_ext.
Qed.

Lemma totals_nonneg s rows reqs : Forall2 (rope_plan_ok cfg s) rows reqs ->
  0 <= total_miss reqs /\ 0 <= total_pub reqs /\ 0 <= total_hit reqs /\ 0 <= total_mamba reqs.
Proof.
  induction 1 as [|idx r rows reqs [(row & _ & Hs) _ _ _] _ IH]; [done|].
  unfold total_miss, total_pub, total_hit, total_mamba in *. rewrite !fmap_cons, !zsum_cons. pose proof (len_nonneg (pic_miss_segments r)).
  assert (forall seg, seg ∈ (pic_hit_segments r).*1 ++ pic_miss_segments r -> seg.1 <= seg.2) as Hle.
  { intros seg Hin. destruct (Hs seg Hin). lia. }
  assert (0 <= seg_total (pic_miss_segments r)) by (apply seg_total_nonneg; set_solver).
  assert (0 <= seg_total (local_miss r)) by (apply (locals_total r); set_solver).
  assert (0 <= seg_total (pic_hit_segments r).*1) by (apply seg_total_nonneg; set_solver). lia.
Qed.

(** One request of the result. *)
Definition request_done (p : ReqToTokenPool) s (idx : Z) (r : Req) (x : Req * slot_map) : Prop :=
  rope_allocated p s idx r x.1 /\ mapped (private_ranges x.1) (if rc then computable r else []) x.2.

Lemma rope_batch_spec mpool ppool hpool rows reqs : forall acc c pc hc tm s,
  index_wf s -> alloc_ready (mamba s) -> NoDup rows -> Forall2 (rope_plan_ok cfg s) rows reqs ->
  total_mamba reqs <= mcap s -> 0 <= c -> c + total_miss reqs <= len mpool -> 0 <= pc -> pc + total_pub reqs <= len ppool ->
  0 <= hc -> hc + total_hit reqs <= len hpool ->
  wp (mfold (rope_req cfg mpool ppool hpool) (acc, ((c, pc), (hc, tm))) (zip rows reqs))
     (fun res s' => exists rms,
        res = (acc ++ rms, ((c + total_miss reqs, pc + total_pub reqs),
                            (hc + total_hit reqs, tm + len (concat (held_mb <$> rms.*1))))) /\
        length rms = length reqs /\
        (forall k idx r x, rows !! k = Some idx -> reqs !! k = Some r -> rms !! k = Some x -> request_done (pool s') s idx r x) /\
        concat (held_miss <$> rms.*1) = pyslice mpool c (c + total_miss reqs) /\
        concat (held_pub <$> rms.*1) = pyslice ppool pc (pc + total_pub reqs) /\
        concat (held_hit <$> rms.*1) = pyslice hpool hc (hc + total_hit reqs) /\
        ledger (concat (held_mb <$> rms.*1)) s s' /\
        forall idx, idx ∉ rows -> row_at (pool s') idx = row_at (pool s) idx)
     (fun _ _ => False) s.
Proof.
  revert reqs. induction rows as [|idx rows IH]; intros reqs acc c pc hc tm s Hw Hr Hnd Hpl Hcap Hc Hout Hpc Hpout Hhc Hhout.
  { inversion Hpl; subst. change (total_miss []) with 0 in *. change (total_pub []) with 0 in *. change (total_hit []) with 0 in *.
    apply wp_ret. exists []. change (len (concat _)) with 0. rewrite !Z.add_0_r, app_nil_r.
    assert (E : forall l c', 0 <= c' -> c' <= len l -> pyslice l c' c' = @nil Z).
    { intros l c' ? ?. rewrite pyslice_in_range by lia. by rewrite Z.sub_diag. }
    rewrite !E by lia. split_and!; try done. by apply ledger_refl. }
  inversion Hpl as [|? r ? reqs0 Hp0 Hpl0]; subst. apply NoDup_cons in Hnd as [Hni Hnd].
  destruct (totals_nonneg _ _ _ Hpl0) as (Hn1 & Hn2 & Hn3 & Hn4).
  assert (Hr1 : Forall2 (rope_plan_ok cfg s) [idx] [r]) by (constructor; [done|constructor]).
  apply totals_nonneg in Hr1 as (Hr1 & Hr2 & Hr3 & Hr4).
  change (total_miss (r :: reqs0)) with (seg_total (pic_miss_segments r) + total_miss reqs0) in *.
  change (total_pub (r :: reqs0)) with (seg_total (local_miss r) + total_pub reqs0) in *.
  change (total_hit (r :: reqs0)) with (seg_total (pic_hit_segments r).*1 + total_hit reqs0) in *.
  change (total_mamba (r :: reqs0)) with (len (pic_miss_segments r) + total_mamba reqs0) in *.
  change (total_miss [r]) with (seg_total (pic_miss_segments r) + 0) in Hr1.
  change (total_pub [r]) with (seg_total (local_miss r) + 0) in Hr2.
  change (total_hit [r]) with (seg_total (pic_hit_segments r).*1 + 0) in Hr3.
  cbn [zip zip_with mfold]. apply wp_bind.
  eapply wp_mono; [apply (rope_req_spec cfg mpool ppool hpool acc c pc hc tm idx r s)| |done]; try done; try lia.
  intros acc1 s1 (r' & m & -> & Hal & Hkm & Hkp & Hkh & Hlm & Hmap & Hl & Hoth).
  assert (Forall2 (rope_plan_ok cfg s1) rows reqs0) as Hpl1.
  { eapply Forall2_impl_in; [exact Hpl0|]. intros x y Hx. apply rope_plan_ext; [by destruct Hl|]. apply Hoth. by intros ->. }
  eapply wp_mono; [apply (IH reqs0)| |done]; try done; try lia; [apply Hl|apply Hl| |].
  { rewrite (lg_cap _ _ _ Hl), Hlm. lia. }
  intros res s2 (rms & -> & Hlen & Hall & Hm & Hp & Hh & Hl' & Hoth').
  exists ((r', m) :: rms). rewrite !fmap_cons. cbn [concat fst]. rewrite len_app. split_and!.
  - rewrite <- app_assoc. f_equal. f_equal; f_equal; lia.
  - cbn [length]. by rewrite Hlen.
  - intros [|k] idx1 r1 x H1' H2' H3'; cbn in H1', H2', H3'.
    + injection H1' as <-. injection H2' as <-. injection H3' as <-. split; [|done].
      eapply rope_allocated_ext; [done| |exact Hal]. by apply Hoth'.
    + destruct (Hall k idx1 r1 x H1' H2' H3') as [Hal' ?]. split; [|done].
      eapply rope_allocated_ext; [symmetry; apply (lg_heap _ _ _ Hl)|done|exact Hal'].
  - rewrite Hkm, Hm, pyslice_app by lia. f_equal. lia.
  - rewrite Hkp, Hp, pyslice_app by lia. f_equal. lia.
  - rewrite Hkh, Hh, pyslice_app by lia. f_equal. lia.
  - by eapply ledger_trans.
  - intros idx' [Hne Hn]%not_elem_of_cons. rewrite Hoth' by done. by apply Hoth.
Qed.

Definition positions_of (r : Req) : list Z := default [] (pic_miss_token_positions r).

Lemma gather_spec (m : slot_map) (f : Z -> Z) out pos s :
  (forall p, p ∈ pos -> dict_get p m = Some [f p]) ->
  wp (mfold (fun out p => sl ← of_option KeyError (dict_get p m); mret (out ++ sl)) out pos)
     (fun out' s' => out' = out ++ (f <$> pos) /\ s' = s) (fun _ _ => False) s.
Proof.
  intros Hm. apply wp_mfold with (I := fun done_ out' s' => out' = out ++ (f <$> done_) /\ s' = s); [by rewrite app_nil_r| |done].
  intros done_ p rest out' s' Heq [-> ->]. rewrite Hm by (rewrite Heq; set_solver). apply wp_bind, wp_ret, wp_ret.
  split; [|done]. by rewrite fmap_app, app_assoc.
Qed.

Lemma mapped_slot r D m p : ForallOrdPairs (fun a b => apart a.1 b.1) (private_ranges r) ->
  (forall w, w ∈ private_ranges r -> w.1.1 < w.1.2 /\ len w.2 = w.1.2 - w.1.1) ->
  mapped (private_ranges r) D m -> p ∈ D -> dict_get p m = Some [private_slot r p].
Proof.
  intros Hap Hrg [Hs Hd] Hp. destruct (Hd p Hp) as [v Hv]. rewrite Hv. destruct (Hs p v Hv) as (w & Hw & Hin & ->).
  f_equal. destruct (Hrg w Hw). apply slot_at_single; [done|done| |done]. split; [lia|done].
Qed.

Lemma recompute_out_spec s' s rms :
  (forall x, x ∈ rms -> exists p idx r, request_done p s idx r x /\ rc = true /\ forall q, q ∈ positions_of x.1 -> q ∈ computable r) ->
  wp (recompute_out rms)
     (fun out s'' => out = concat ((fun r => private_slot r <$> positions_of r) <$> rms.*1) /\ s'' = s')
     (fun _ _ => False) s'.
Proof.
  intros Hx. unfold recompute_out.
  apply wp_mfold with (I := fun done_ out s'' => out = concat ((fun r => private_slot r <$> positions_of r) <$> done_.*1) /\ s'' = s');
    [done| |done].
  intros done_ x rest out s1 Heq [-> ->]. destruct (Hx x) as (p & idx & r & [Hal Hm] & Hrc & Hpos); [rewrite Heq; set_solver|].
  rewrite !fmap_app, concat_app. cbn [fmap list_fmap concat]. rewrite app_nil_r. unfold positions_of in *.
  destruct (pic_miss_token_positions x.1) as [pos|] eqn:Epos; [|apply wp_ret; split; [by rewrite app_nil_r|done]].
  apply gather_spec. intros q Hq. rewrite Hrc in Hm. eapply mapped_slot; [apply Hal|apply Hal|exact Hm|rewrite <- Epos in Hq; exact (Hpos q Hq)].
Qed.

(** The private slots of the misses, position by position. *)
Lemma held_miss_slots p s idx r r' : rope_allocated p s idx r r' ->
  held_miss r' = private_slot r' <$> concat ((fun seg => pyrange seg.1 seg.2) <$> pic_miss_segments r).
Proof.
  intros [(lh & lm & -> & _ & _ & Hk & _) Hrg Hap _]. unfold held_miss. rewrite <- Hk.
  change (pic_miss_segment_slots (filled lh lm r)) with lm. rewrite fmap_concat_fmap, <- !list_fmap_compose.
  apply f_equal, list_fmap_ext. intros i x Hx. unfold compose. assert (Hin : (x.1, priv_of x.2) ∈ private_ranges (filled lh lm r)).
  { unfold private_ranges. rewrite elem_of_app. right. unfold miss_ranges. apply list_elem_of_fmap. exists x.
    split; [done|]. by eapply list_elem_of_lookup_2. }
  destruct (Hrg _ Hin). symmetry. apply (slot_at_range _ (x.1, priv_of x.2)); [done|done|]. split; [lia|done].
Qed.

Lemma allocated_positions p s idx r r' : rope_allocated p s idx r r' -> positions_of r' = positions_of r.
Proof. by intros [(lh & lm & -> & _) _ _ _]. Qed.

(** The slots for the forward pass, in either mode. *)
Lemma out_spec s' s p mpool rows reqs rms :
  Forall2 (rope_plan_ok cfg s) rows reqs -> length rms = length reqs ->
  (forall k idx r x, rows !! k = Some idx -> reqs !! k = Some r -> rms !! k = Some x -> request_done p s idx r x) ->
  concat (held_miss <$> rms.*1) = mpool ->
  wp (if rc then recompute_out rms else mret mpool)
     (fun out s'' => out = concat ((fun r => private_slot r <$> positions_of r) <$> rms.*1) /\ s'' = s')
     (fun _ _ => False) s'.
Proof.
  intros Hpl Hlen Hall Hheld.
  assert (Hx : forall x, x ∈ rms -> exists idx r, rope_plan_ok cfg s idx r /\ request_done p s idx r x).
  { intros x [k Hk]%list_elem_of_lookup. destruct (lookup_lt_is_Some_2 reqs k) as [r Hr]; [rewrite <- Hlen; by eapply lookup_lt_Some|].
    destruct (Forall2_lookup_r _ _ _ _ _ Hpl Hr) as (idx & Hidx & Hok). exists idx, r. split; [done|]. by eapply Hall. }
  destruct rc eqn:Hrc.
  - apply (recompute_out_spec s' s). intros x Hin. destruct (Hx x Hin) as (idx & r & Hok & Hd). exists p, idx, r.
    split; [done|]. split; [done|]. rewrite (allocated_positions _ _ _ _ _ (proj1 Hd)). unfold positions_of.
    destruct (rp_pos _ _ _ _ Hok) as (pos & -> & Hpos). by rewrite Hrc in Hpos.
  - apply wp_ret. split; [|done]. rewrite <- Hheld, <- !list_fmap_compose. apply f_equal, list_fmap_ext. intros i x Hin%list_elem_of_lookup_2.
    destruct (Hx x Hin) as (idx & r & Hok & [Hal _]). etrans; [exact (held_miss_slots _ _ _ _ _ Hal)|].
    change (private_slot x.1 <$> concat ((fun seg => pyrange seg.1 seg.2) <$> pic_miss_segments r) = private_slot x.1 <$> positions_of x.1).
    f_equal. rewrite (allocated_positions _ _ _ _ _ Hal). unfold positions_of.
    destruct (rp_pos _ _ _ _ Hok) as (pos & -> & Hpos). by rewrite Hrc in Hpos.
Qed.

Lemma three_pools {A} (l : list A) a b : 0 <= a -> 0 <= b -> a + b <= len l ->
  slice_to l a ++ pyslice l a (a + b) ++ slice_from l (a + b) = l.
Proof.
  intros Ha Hb Hl. rewrite pyslice_in_range by lia. unfold slice_to, slice_from, pyidx.
  destruct (Z.ltb_spec a 0); [lia|]. destruct (Z.ltb_spec (a + b) 0); [lia|]. rewrite !Z.min_l by lia.
  replace (Z.to_nat (a + b)) with (Z.to_nat a + Z.to_nat (a + b - a))%nat by lia. rewrite <- drop_drop, take_drop. apply take_drop.
Qed.

(** The outcome of the allocation: the slots [out] for the forward pass,
    the requests with their slots, and the engine. *)
Record rope_filled (rows : list Z) (reqs : list Req) s (out : list Z) (reqs' : list Req) s' : Prop := {
  rf_out : out = concat ((fun r => private_slot r <$> positions_of r) <$> reqs');
  rf_kv : (concat (held_miss <$> reqs') ++ concat (held_pub <$> reqs') ++ concat (held_hit <$> reqs')) ++
    pool_slots (kv s') ++ entries_kv s' ≡ₚ pool_slots (kv s) ++ entries_kv s;
  rf_mamba : concat (held_mb <$> reqs') ++ pool_slots (mamba s') ++ entries_mamba s' ≡ₚ
    pool_slots (mamba s) ++ entries_mamba s;
  rf_req : Forall2 (fun '(idx, r) r' => rope_allocated (pool s') s idx r r') (zip rows reqs) reqs';
  rf_tokens : inflight_full_tokens s' = inflight_full_tokens s + (total_miss reqs + total_pub reqs + total_hit reqs);
  rf_slots : inflight_mamba_slots s' = inflight_mamba_slots s + len (concat (held_mb <$> reqs'));
  rf_heap : heap s' = heap s;
  rf_locked p : p ∈ entries s -> lock_ref (deref s p.2) <> 0 -> p ∈ entries s';
}.

Lemma rope_fill_spec rows reqs s :
  index_wf s -> alloc_ready (kv s) -> alloc_ready (mamba s) -> NoDup rows ->
  Forall2 (rope_plan_ok cfg s) rows reqs ->
  total_miss reqs + total_pub reqs + total_hit reqs <= capacity s -> total_mamba reqs <= mcap s ->
  wp (rope_fill cfg rows reqs) (fun res s' => rope_filled rows reqs s res.1 res.2 s') (fun _ _ => False) s.
Proof.
  intros Hw Hrk Hrm Hnd Hpl Hck Hcm. unfold rope_fill. fold (total_miss reqs) (total_pub reqs) (total_hit reqs).
  destruct (totals_nonneg _ _ _ Hpl) as (Hn1 & Hn2 & Hn3 & Hn4). set (T := _ + total_hit reqs) in *. apply wp_bind.
  eapply wp_mono; [by apply alloc_token_slots_wp; [unfold T; lia|..]| |intros e s' (_ & ? & _); lia].
  intros all s1 (_ & Hlen & Hw1 & _ & Hfr & Hmc & Hk & Hm & Hlk). destruct (Hmc Hrm) as [Hrm1 Hcap1]. apply wp_bind.
  assert (Hpl1 : Forall2 (rope_plan_ok cfg s1) rows reqs).
  { eapply Forall2_impl_in; [exact Hpl|]. intros x y _. destruct Hfr. apply rope_plan_ext; congruence. }
  assert (Hl1 : len (slice_to all (total_miss reqs)) = total_miss reqs) by (apply len_slice_to; unfold T in Hlen; lia).
  assert (Hl2 : len (pyslice all (total_miss reqs) (total_miss reqs + total_pub reqs)) = total_pub reqs).
  { rewrite len_pyslice; unfold T in Hlen; lia. }
  assert (Hl3 : len (slice_from all (total_miss reqs + total_pub reqs)) = total_hit reqs).
  { rewrite len_slice_from; unfold T in Hlen; lia. }
  set (mp := slice_to _ _) in *. set (pp := pyslice _ _ _) in *. set (hp := slice_from _ _) in *.
  eapply wp_mono; [apply (rope_batch_spec mp pp hp rows reqs [] 0 0 0 0 s1)| |done]; try done; try lia.
  intros res s2 (rms & -> & Hlr & Hall & Hkm & Hkp & Hkh & Hl & _). cbn [fst snd app].
  assert (Eall : concat (held_miss <$> rms.*1) ++ concat (held_pub <$> rms.*1) ++ concat (held_hit <$> rms.*1) = all).
  { rewrite Hkm, Hkp, Hkh, !Z.add_0_l. rewrite <- Hl1 at 1. rewrite <- Hl2 at 1. rewrite <- Hl3 at 1. rewrite !pyslice_all.
    apply three_pools; unfold T in Hlen; lia. }
  rewrite Z.add_0_l, <- Hl1, pyslice_all in Hkm.
  apply wp_bind. eapply wp_mono; [by apply (out_spec s2 s1 (pool s2) mp rows reqs rms)| |done]. intros out s3 [-> ->].
  apply wp_bind, wp_modify, wp_ret. destruct Hl as [Hw2 Hh2 Hk2 Hm2 _ _ _ Ht2 Hs2 Hlk2]. cbn [fst snd]. split; try done.
  - rewrite Eall. etrans; [|exact Hk]. by apply Permutation_app_head.
  - by rewrite <- Hm, <- Hm2.
  - apply Forall2_same_length_lookup. split.
    { rewrite length_zip_with, length_fmap, Hlr. apply Forall2_length in Hpl. lia. }
    intros k [idx r] r' [Hidx Hr]%lookup_zip_Some (x & -> & Hx)%list_lookup_fmap_Some.
    destruct (Hall k idx r x Hidx Hr Hx) as [Hal _]. eapply rope_allocated_ext; [symmetry; apply (ef_heap _ _ Hfr)|done|exact Hal].
  - cbn. rewrite Ht2. by rewrite (ef_tokens _ _ Hfr).
  - cbn. rewrite Hs2, (ef_slots _ _ Hfr). lia.
  - cbn. by rewrite Hh2, (ef_heap _ _ Hfr).
  - intros p Hp Hne. apply (Hlk2 p); [by apply Hlk|]. unfold deref in *. by rewrite (ef_heap _ _ Hfr).
Qed.

(** C12. The prefill allocation of the re-rotation modes is complete and
    exact: with enough free or evictable KV and Mamba slots it never raises;
    the private and public slots recorded on the requests are exactly those
    taken, so that pools, index and requests together keep every slot and
    share none; every request's row holds the private slots of all its
    segments, reused or computed, and its reused segments the public slots
    of their entries; the slots handed to the forward pass are the private
    slots of the planned positions in order -- in recompute mode sinks of
    reused segments included; the in-flight counters grow by what was
    taken. *)
Theorem rope_fill_correct rows reqs s :
  index_wf s -> alloc_ready (kv s) -> alloc_ready (mamba s) -> NoDup rows ->
  Forall2 (rope_plan_ok cfg s) rows reqs ->
  total_miss reqs + total_pub reqs + total_hit reqs <= capacity s -> total_mamba reqs <= mcap s ->
  NoDup (pool_slots (kv s) ++ entries_kv s) ->
  wp (rope_fill cfg rows reqs)
     (fun res s' => let '(out, reqs') := res in
        let held := concat (held_miss <$> reqs') ++ concat (held_pub <$> reqs') ++ concat (held_hit <$> reqs') in
        held ++ pool_slots (kv s') ++ entries_kv s' ≡ₚ pool_slots (kv s) ++ entries_kv s /\
        NoDup (held ++ pool_slots (kv s') ++ entries_kv s') /\
        concat (held_mb <$> reqs') ++ pool_slots (mamba s') ++ entries_mamba s' ≡ₚ pool_slots (mamba s) ++ entries_mamba s /\
        Forall2 (fun '(idx, r) r' => rope_allocated (pool s') s idx r r') (zip rows reqs) reqs' /\
        out = concat ((fun r => private_slot r <$> positions_of r) <$> reqs') /\
        inflight_full_tokens s' = inflight_full_tokens s + (total_miss reqs + total_pub reqs + total_hit reqs) /\
        inflight_mamba_slots s' = inflight_mamba_slots s + len (concat (held_mb <$> reqs')))
     (fun _ _ => False) s.
Proof.
  intros Hw Hrk Hrm Hnd Hpl Hck Hcm Hdist. eapply wp_mono; [by apply rope_fill_spec| |done].
  intros [out reqs'] s' [Hout Hkv Hmb Hreq Ht Hs _ _]. cbn [fst snd] in *. cbv zeta. split_and!; try done. by rewrite Hkv.
Qed.

End batch.

(** ** An instance in recompute mode *)

(** Two computed segments around a cached one, whose first token is a sink. *)
Definition rope_fill_req : Req :=
  set_pic_miss_token_positions (Some [0; 1; 2; 5]) (set_pic_hit_seam_positions [((2, 5), [2])] fill_req).
Definition rope_cfg : PICConfig := demo_cfg "transition_rope_recompute" (-1).

Lemma rope_fill_plan_ok : rope_plan_ok rope_cfg fill_state 1 rope_fill_req.
Proof.
  destruct fill_plan_ok as [(row & Hrow & Hf & Hs) Hh Ha]. split; [|..|done|].
  - exists row. split; [done|]. intros seg [(h & -> & Hin)%list_elem_of_fmap|Hin]%elem_of_app; [|by apply Hs].
    destruct (Hf (h.1, full_kv_slots (deref fill_state (hit_entry fill_req h.2)))) as (H1 & H2 & H3).
    { unfold hit_writes. by apply (list_elem_of_fmap_2 (fun h => (h.1, full_kv_slots (deref fill_state (hit_entry fill_req h.2))))). }
    cbn [fst snd] in *. split; [|done]. apply list_elem_of_singleton in Hin as ->. cbn. lia.
  - intros h Hin. split; [by apply Hh|]. change (pic_hit_segments rope_fill_req) with (pic_hit_segments fill_req) in Hin.
    destruct (Hf (h.1, full_kv_slots (deref fill_state (hit_entry fill_req h.2)))) as (_ & _ & H3).
    { unfold hit_writes. by apply (list_elem_of_fmap_2 (fun h => (h.1, full_kv_slots (deref fill_state (hit_entry fill_req h.2))))). }
    split; [exact H3|]. apply list_elem_of_singleton in Hin as ->. cbn. intros ap ->%list_elem_of_singleton. lia.
  - exists [0; 1; 2; 5]. split; [done|]. change (forall p, p ∈ [0; 1; 2; 5] -> p ∈ [2; 0; 1; 5]). set_solver.
Qed.

Lemma rope_fill_correct_witness :
  wp (rope_fill rope_cfg [1] [rope_fill_req])
     (fun res s' => let '(out, reqs') := res in
        let held := concat (held_miss <$> reqs') ++ concat (held_pub <$> reqs') ++ concat (held_hit <$> reqs') in
        held ++ pool_slots (kv s') ++ entries_kv s' ≡ₚ pool_slots (kv fill_state) ++ entries_kv fill_state /\
        NoDup (held ++ pool_slots (kv s') ++ entries_kv s') /\
        concat (held_mb <$> reqs') ++ pool_slots (mamba s') ++ entries_mamba s' ≡ₚ
          pool_slots (mamba fill_state) ++ entries_mamba fill_state /\
        Forall2 (fun '(idx, r) r' => rope_allocated (pool s') fill_state idx r r') (zip [1] [rope_fill_req]) reqs' /\
        out = concat ((fun r => private_slot r <$> positions_of r) <$> reqs') /\
        inflight_full_tokens s' = inflight_full_tokens fill_state +
          (total_miss [rope_fill_req] + total_pub [rope_fill_req] + total_hit [rope_fill_req]) /\
        inflight_mamba_slots s' = inflight_mamba_slots fill_state + len (concat (held_mb <$> reqs')))
     (fun _ _ => False) fill_state.
Proof.
  apply (rope_fill_correct rope_cfg [1] [rope_fill_req] fill_state).
  - apply (index_ok_wf [[7; 8; 9]]). eval_decide.
  - vm_compute. split; [reflexivity|intros _; reflexivity].
  - vm_compute. reflexivity.
  - repeat constructor. apply not_elem_of_nil.
  - constructor; [apply rope_fill_plan_ok|constructor].
  - vm_compute. discriminate.
  - vm_compute. discriminate.
  - eval_decide.
Defined.
