(* ===== verification/ForwardBatch.v ===== *)
(** * From requests to the forward batch

    The PIC part of [ForwardBatch.init_new] in
    srt/model_executor/forward_batch_info.py: what the attention layers read
    of the requests of a batch -- the segments, the Mamba slots by segment,
    the positions of the computed tokens and, in the re-rotation modes, the
    segments with their private and public slots.  [meta_preq_ok] is the
    well-formedness of the last for a request that the planner and the
    allocator have prepared. *)

From S2P Require Import Prelude PyDict Policy Allocator Segmenter Engine PICache ConvTails KVBuffer GdnMeta GdnMetaFacts RopeKV RopeForward RopePlanFacts.

(** [{seg_hash: entry.mamba_state_slot}]. *)
Definition hit_mamba_slots {KV MB} (s : Engine KV MB) (r : Req) : list (list Z * Z) :=
  (fun '(seg_hash, i) => (seg_hash, mamba_state_slot (deref s i))) <$> pic_segment_entries r.

(** [v[_mamba_idx]]: index 2 in the re-rotation modes, else 1.  Of a triple
    index 1 is the public slots ([inl]). *)
Definition mamba_of (is_rope : bool) (v : MissSlots) : outcome (option (list Z + Z)) :=
  match v, is_rope with
  | SlotsRope _ _ mamba, true => Ret (inr <$> mamba)
  | SlotsStd _ mamba, false => Ret (inr <$> mamba)
  | SlotsStd _ _, true => Raise IndexError
  | SlotsRope _ public _, false => Ret (inl <$> public)
  end.

Definition miss_mamba_slots (is_rope : bool) (r : Req) : outcome (list (Z * Z * (list Z + Z))) :=
  obind (omapM (fun '(k, v) => obind (mamba_of is_rope v) (fun mb => Ret (k, mb))) (pic_miss_segment_slots r)) (fun l =>
  Ret (omap (fun '(k, mb) => pair k <$> mb) l)).

(** One segment of [pic_segments]. *)
Definition meta_seg (r : Req) (acc : list (Z * Z * list Z * list Z) * list (Z * Z * list Z * list Z) * option (Z * Z * list Z))
    (seg : Z * Z) : outcome (list (Z * Z * list Z * list Z) * list (Z * Z * list Z * list Z) * option (Z * Z * list Z)) :=
  let '(local_miss, local_hit, global_info) := acc in
  let '(start, end_) := seg in
  if bool_decide (global_seg r = Some seg) then
    match dict_get seg (pic_miss_segment_slots r) with
    | None => Ret acc
    | Some m => obind (unpack_rope m) (fun t => Ret (local_miss, local_hit, Some (start, end_, t.1.1)))
    end
  else if bool_decide (seg ∈ pic_miss_segments r) then
    obind (or_raise KeyError (dict_get seg (pic_miss_segment_slots r))) (fun m =>
    obind (unpack_rope m) (fun t =>
    match t.1.2 with
    | None => Raise AssertionError
    | Some pub => Ret (local_miss ++ [(start, end_, t.1.1, pub)], local_hit, global_info)
    end))
  else if bool_decide (seg ∈ (pic_hit_segments r).*1) then
    match dict_get seg (pic_rope_hit_private_slots r) with
    | None => Ret acc
    | Some (priv, entry_pub) => Ret (local_miss, local_hit ++ [(start, end_, priv, entry_pub)], global_info)
    end
  else Ret acc.

Definition rope_meta_of (is_recompute : bool) (r : Req) : outcome RopeMeta :=
  obind (ofold (meta_seg r) ([], [], None) (segs_of r)) (fun '(local_miss, local_hit, global_info) =>
  Ret (mkRopeMeta local_miss local_hit global_info
    (if is_recompute then Some (pic_hit_seam_positions r) else None))).

(** [positions]: [None] when a request of the batch has no plan, and when
    the batch is empty. *)
Definition pic_positions (reqs : list Req) : option (list Z) :=
  match reqs with
  | [] => None
  | _ => @concat Z <$> mapM pic_miss_token_positions reqs
  end.

Record PicFields := mkPicFields {
  pf_hit_segments : list (list (Z * Z * list Z));
  pf_miss_segments : list (list (Z * Z));
  pf_hit_mamba_slots : list (list (list Z * Z));
  pf_miss_mamba_slots : list (list (Z * Z * (list Z + Z)));
  pf_rope_meta : option (list RopeMeta);
  pf_positions : option (list Z);
}.

Definition init_new_pic {KV MB} (p : PICPolicy) (s : Engine KV MB) (reqs : list Req) : outcome PicFields :=
  obind (omapM (miss_mamba_slots (rope p)) reqs) (fun miss_mb =>
  obind (if rope p then obind (omapM (rope_meta_of (recompute p)) reqs) (fun ms => Ret (Some ms)) else Ret None) (fun metas =>
  Ret (mkPicFields (pic_hit_segments <$> reqs) (pic_miss_segments <$> reqs) (hit_mamba_slots s <$> reqs) miss_mb metas
    (pic_positions reqs)))).

(** ** Well-formed metadata *)

Section typed.
Context (rec : bool) (r : Req) (n : Z) (slot pub : Z -> Z).

(** A request of [n] tokens after planning and allocation: its segments
    tile the prompt; each is a miss with private and (unless it is the
    last) public slots, or a hit with private slots and those of the cached
    entry; sinks lie in hits. *)
Record prepared : Prop := {
  pd_tiles : tiles 0 n (segs_of r);
  pd_miss : forall s e, (s, e) ∈ segs_of r -> (s, e) ∈ pic_miss_segments r ->
    exists pubo mb, dict_get (s, e) (pic_miss_segment_slots r) = Some (SlotsRope (slot <$> pyrange s e) pubo mb) /\
      (global_seg r <> Some (s, e) -> pubo = Some (pub <$> pyrange s e));
  pd_hit : forall s e, (s, e) ∈ segs_of r -> (s, e) ∉ pic_miss_segments r ->
    (s, e) ∈ (pic_hit_segments r).*1 /\ global_seg r <> Some (s, e) /\
    dict_get (s, e) (pic_rope_hit_private_slots r) = Some (slot <$> pyrange s e, pub <$> pyrange s e);
  pd_seam : rec = true -> Forall (fun '(s, e, sink) => (s, e) ∈ segs_of r /\ (s, e) ∉ pic_miss_segments r /\
    Forall (fun p => s <= p < e) sink) (pic_hit_seam_positions r) /\ NoDup (concat (pic_hit_seam_positions r).*2);
}.

Definition slotted (seg : Z * Z) : Z * Z * list Z * list Z :=
  (seg.1, seg.2, slot <$> pyrange seg.1 seg.2, pub <$> pyrange seg.1 seg.2).
Local Notation is_miss := (fun seg : Z * Z => seg ∈ pic_miss_segments r).
Local Notation is_hit := (fun seg : Z * Z => seg ∉ pic_miss_segments r).

(** The segments before the last one. *)
Lemma meta_fold L lm lh g : prepared -> (forall seg, seg ∈ L -> seg ∈ segs_of r /\ global_seg r <> Some seg) ->
  ofold (meta_seg r) (lm, lh, g) L =
    Ret (lm ++ (slotted <$> filter is_miss L), lh ++ (slotted <$> filter is_hit L), g).
Proof.
  intros Hp. revert lm lh. induction L as [|[s e] L IH]; intros lm lh HL; [by rewrite !app_nil_r|].
  destruct (HL (s, e)) as [Hin Hg]; [left|]. cbn [ofold]. unfold meta_seg at 1. rewrite bool_decide_false by done.
  rewrite !filter_cons. destruct (decide ((s, e) ∈ pic_miss_segments r)) as [Hm|Hm].
  - rewrite bool_decide_true by done. destruct (pd_miss Hp s e Hin Hm) as (pubo & mb & E & Epub). rewrite E, (Epub Hg).
    cbn [or_raise obind unpack_rope fst snd]. rewrite IH by (intros; apply HL; by right).
    rewrite (decide_False (P := (s, e) ∉ _)) by (intros H; by apply H). rewrite fmap_cons, <- app_assoc. done.
  - rewrite bool_decide_false by done. destruct (pd_hit Hp s e Hin Hm) as (Hh & _ & E).
    rewrite bool_decide_true by done. rewrite E. cbn [obind]. rewrite IH by (intros; apply HL; by right).
    rewrite (decide_True (P := (s, e) ∉ _)) by done. rewrite fmap_cons, <- app_assoc. done.
Qed.

Definition private_of (seg : Z * Z) : Z * Z * list Z := (seg.1, seg.2, slot <$> pyrange seg.1 seg.2).

Lemma tiles_sorted a segs m : tiles a m segs ->
  Forall (fun seg => a <= seg.1) segs /\ StronglySorted (fun x y => x.1 < y.1) segs.
Proof.
  revert a. induction segs as [|[s e] segs IH]; intros a; cbn [tiles]; [split; constructor|].
  intros (-> & Hlt & Ht). destruct (IH e Ht) as [HF Hs]. split.
  - constructor; [cbn; lia|]. eapply Forall_impl; [exact HF|]. cbn. lia.
  - constructor; [done|]. eapply Forall_impl; [exact HF|]. cbn. lia.
Qed.

Lemma tiles_tiled meta a segs : tiles a n segs -> tiled (mkPReq n meta slot pub) a (private_of <$> segs).
Proof.
  revert a. induction segs as [|[s e] segs IH]; intros a; cbn [tiles]; [done|]. intros (-> & Hlt & Ht).
  rewrite fmap_cons. cbn. split; [done|]. split; [done|]. split; [done|]. by apply IH.
Qed.

(** The metadata in terms of the segments: [pre] and, for a prompt of
    several, the last one. *)
Definition meta_of (pre : list (Z * Z)) (gl : option (Z * Z)) : RopeMeta :=
  mkRopeMeta (slotted <$> filter is_miss pre) (slotted <$> filter is_hit pre) (private_of <$> gl)
    (if rec then Some (pic_hit_seam_positions r) else None).

Lemma meta_all_segs pre gl : tiles 0 n (segs_of r) -> segs_of r = pre ++ option_list gl ->
  all_segs (meta_of pre gl) = private_of <$> segs_of r.
Proof.
  intros Ht Es. unfold all_segs, segs_in_order, meta_of. cbn [ro_local_miss ro_local_hit ro_global].
  rewrite Es, fmap_app. f_equal; [|by destruct gl]. destruct (tiles_sorted _ _ _ Ht) as [_ Hs]. rewrite Es in Hs.
  apply sorted_prefix in Hs. apply sort_key_unique.
  - clear Es. induction Hs as [|x l _ IH Hx]; [constructor|]. rewrite fmap_cons. constructor; [exact IH|].
    apply Forall_fmap. exact Hx.
  - rewrite <- !list_fmap_compose. change ((fun '(s, e, priv, _) => (s, e, priv)) ∘ slotted) with private_of.
    rewrite <- fmap_app. apply fmap_Permutation. apply (filter_app_complement is_miss).
Qed.

Lemma seam_items_aps hs : snd <$> seam_items hs = concat hs.*2.
Proof.
  unfold seam_items. induction hs as [|[[s e] sink] hs IH]; [done|]. rewrite !fmap_cons. cbn [concat].
  rewrite fmap_app, IH. f_equal. rewrite <- list_fmap_compose. transitivity (enumerate sink).*2.
  - apply list_fmap_ext. by intros ? [].
  - apply snd_enumerate.
Qed.

Lemma meta_preq_ok pre gl : prepared -> segs_of r = pre ++ option_list gl -> (forall seg, gl = Some seg -> seg ∈ pic_miss_segments r) ->
  preq_ok rec (mkPReq n (meta_of pre gl) slot pub).
Proof.
  intros Hp Es Hgl. split; cbn [pr_meta].
  - rewrite meta_all_segs by (done || apply (pd_tiles Hp)). apply tiles_tiled, (pd_tiles Hp).
  - unfold meta_of. cbn [ro_local_miss ro_local_hit]. rewrite <- fmap_app. apply Forall_fmap, Forall_forall. by intros [s e] _.
  - unfold meta_seam, meta_of. cbn [ro_hit_seam ro_local_hit]. destruct rec eqn:Er; [|constructor].
    destruct (pd_seam Hp Er) as [HF _]. apply Forall_forall. intros [[[s e] j] ap] Hin. rewrite Forall_forall in HF.
    unfold seam_items in Hin. apply elem_of_concat_map in Hin as ([[s' e'] sink] & Hs & ([j' ap'] & [= -> -> -> ->] & Hj)%list_elem_of_fmap).
    destruct (HF _ Hs) as (Hseg & Hnm & HFs). rewrite Forall_forall in HFs. split; [by eapply HFs, elem_of_zip_r|].
    eexists _, _. apply list_elem_of_fmap. exists (s', e'). split; [done|]. apply list_elem_of_filter. split; [done|].
    rewrite Es, elem_of_app in Hseg. destruct Hseg as [?|Hg]; [done|]. destruct gl as [seg|]; cbn in Hg; [|by apply not_elem_of_nil in Hg].
    apply list_elem_of_singleton in Hg as <-. destruct Hnm. by apply Hgl.
  - unfold seamP, meta_seam, meta_of. cbn [pr_meta ro_hit_seam]. destruct rec eqn:Er; [|constructor].
    rewrite seam_items_aps. by apply (pd_seam Hp Er).
Qed.

(** Building the metadata of a prepared request raises nothing. *)
Lemma rope_meta_eq : prepared ->
  exists pre, segs_of r = pre ++ option_list (global_seg r) /\ (forall seg, global_seg r = Some seg -> seg ∈ pic_miss_segments r) /\
    rope_meta_of rec r = Ret (meta_of pre (global_seg r)).
Proof.
  intros Hp. unfold rope_meta_of. destruct (global_seg r) as [[gs ge]|] eqn:Eg.
  - unfold global_seg in Eg. destruct (1 <? len (segs_of r)) eqn:El; [|done]. apply last_Some in Eg as (pre & Es).
    assert (Hg : global_seg r = Some (gs, ge)) by (unfold global_seg; by rewrite El, Es, last_snoc).
    assert (Hin : (gs, ge) ∈ segs_of r) by (rewrite Es, elem_of_app; right; left).
    assert (Hm : (gs, ge) ∈ pic_miss_segments r).
    { destruct (decide ((gs, ge) ∈ pic_miss_segments r)) as [|Hn]; [done|]. by destruct (pd_hit Hp gs ge Hin Hn) as (_ & [] & _). }
    exists pre. split; [done|]. split; [by intros seg [= <-]|]. rewrite Es, ofold_app, meta_fold; [|done|].
    2: { intros seg Hseg. split; [rewrite Es, elem_of_app; by left|]. rewrite Hg. intros [= <-].
         destruct (tiles_sorted _ _ _ (pd_tiles Hp)) as [_ Hs]. rewrite Es in Hs. by apply sorted_last_fresh in Hs; [|lia]. }
    cbn [obind ofold]. unfold meta_seg. rewrite bool_decide_true by done.
    destruct (pd_miss Hp gs ge Hin Hm) as (pubo & mb & E & _). rewrite E. done.
  - exists (segs_of r). split; [by rewrite app_nil_r|]. split; [done|]. rewrite meta_fold; [done|done|by rewrite Eg].
Qed.

End typed.
