(* ===== verification/ForwardBatchFacts.v ===== *)
(** * From the allocation to the full-attention layers

    What [rope_fill] leaves on the requests of a planned batch is what
    [ForwardBatch.init_new] and the layers expect: the metadata is well
    formed and no slot that the batch writes is shared
    ([rope_fill_typed]). *)

From stdpp Require Import strings.
From S2P Require Import Prelude PyDict Policy Allocator Segmenter Engine ReqPool ReqPoolFacts.
From S2P Require Import PICache PICacheFacts PICacheEvict PICacheReg PICacheRelease CacheCommon.
From S2P Require Import PicAlloc PicAllocFacts RopeAllocFacts TokenAllocator MambaAllocator Scenario NextRound.
From S2P Require Import ConvTails KVBuffer GdnMeta GdnMetaFacts RopeKV RopeForward RopePlanFacts RopeForwardFacts ForwardBatch.

Definition public_ranges (r : Req) : list ((Z * Z) * list Z) :=
  ((fun x => (x.1, x.2.2)) <$> pic_rope_hit_private_slots r) ++ ((fun x => (x.1, pub_of x.2)) <$> pic_miss_segment_slots r).
Definition public_slot (r : Req) (p : Z) : Z := default 0 (slot_at (public_ranges r) p).

(** A planned request: the segments tile the prompt and are its hits and
    misses, the last of several is a miss, sinks lie in hits. *)
Record planned (r : Req) : Prop := {
  pl_tiles : tiles 0 (len (origin_input_ids r)) (segs_of r);
  pl_split : segs_of r ≡ₚ (pic_hit_segments r).*1 ++ pic_miss_segments r;
  pl_global seg : global_seg r = Some seg -> seg ∈ pic_miss_segments r;
  pl_seam : Forall (fun '(s, e, sink) => (s, e) ∈ segs_of r /\ (s, e) ∉ pic_miss_segments r /\
    Forall (fun p => s <= p < e) sink) (pic_hit_seam_positions r);
  pl_seam_nodup : NoDup (concat (pic_hit_seam_positions r).*2);
}.

(** ** One request *)

Section request.
Context {KV MB : Type} `{Allocator KV} `{Allocator MB}.
Context (cfg : PICConfig) (p : ReqToTokenPool) (s : Engine KV MB) (idx : Z) (r r' : Req).
Context (Hplan : rope_plan_ok cfg s idx r) (Hal : rope_allocated p s idx r r') (Hpl : planned r).
Local Abbreviation lh := (pic_rope_hit_private_slots r').
Local Abbreviation lm := (pic_miss_segment_slots r').
Local Abbreviation range seg := (pyrange seg.1 seg.2).

(** The fields that the allocation does not touch. *)
Lemma allocated_fields : origin_input_ids r' = origin_input_ids r /\ segs_of r' = segs_of r /\ global_seg r' = global_seg r /\
  pic_hit_segments r' = pic_hit_segments r /\ pic_miss_segments r' = pic_miss_segments r /\
  pic_hit_seam_positions r' = pic_hit_seam_positions r.
Proof. by destruct (ra_req _ _ _ _ _ Hal) as (? & ? & -> & _). Qed.

Lemma allocated_keys : lh.*1 = (pic_hit_segments r).*1 /\ lm.*1 = pic_miss_segments r /\ NoDup lh.*1 /\ NoDup lm.*1.
Proof.
  destruct (ra_req _ _ _ _ _ Hal) as (h & m & -> & Hkh & _ & Hkm & _).
  change (h.*1 = (pic_hit_segments r).*1 /\ m.*1 = pic_miss_segments r /\ NoDup h.*1 /\ NoDup m.*1). rewrite Hkh, Hkm.
  assert (Hnd : NoDup ((pic_hit_segments r).*1 ++ pic_miss_segments r)).
  { apply apart_NoDup; [apply (rp_apart _ _ _ _ Hplan)|]. destruct (rp_row _ _ _ _ Hplan) as (row & _ & Hs).
    intros seg Hin. destruct (Hs seg Hin). lia. }
  by apply NoDup_app in Hnd as (? & _ & ?).
Qed.

Lemma public_apart : ForallOrdPairs (fun a b => apart a.1 b.1) (public_ranges r').
Proof.
  apply (ordpairs_fmap fst). unfold public_ranges. rewrite fmap_app, <- !list_fmap_compose.
  change (ForallOrdPairs apart (lh.*1 ++ lm.*1)). destruct allocated_keys as (-> & -> & _). apply (rp_apart _ _ _ _ Hplan).
Qed.

(** The slot lists follow the slot functions. *)
Lemma miss_slots_at x : x ∈ lm -> exists pub mb, x.2 = SlotsRope (private_slot r' <$> range x.1) pub (Some mb) /\
  (global_seg r = Some x.1 /\ pub = None \/ global_seg r <> Some x.1 /\ pub = Some (public_slot r' <$> range x.1)).
Proof.
  intros Hx. destruct (ra_req _ _ _ _ _ Hal) as (h & m & E & _ & _ & _ & Hok).
  destruct (Hok x) as (priv & pub & mb & Em & Hlp & Hpub); [by rewrite E in Hx|].
  assert (Hin : (x.1, priv) ∈ private_ranges r').
  { unfold private_ranges. rewrite elem_of_app. right. apply list_elem_of_fmap. exists x. split; [by rewrite Em|done]. }
  destruct (ra_ranges _ _ _ _ _ Hal _ Hin) as [Hlt _]. cbn [fst snd] in Hlt. exists pub, mb. rewrite Em. split.
  - f_equal. symmetry. apply (slot_at_range _ (x.1, priv)); [apply (ra_apart _ _ _ _ _ Hal)|done|split; cbn; lia].
  - destruct Hpub as [Hg|(Hg & k & -> & Hlk)]; [by left|right]. split; [done|]. f_equal. symmetry.
    apply (slot_at_range _ (x.1, k)); [apply public_apart| |split; cbn; lia]. unfold public_ranges. rewrite elem_of_app. right.
    apply list_elem_of_fmap. exists x. split; [by rewrite Em|done].
Qed.

Lemma hit_slots_at x : x ∈ lh -> x.2 = (private_slot r' <$> range x.1, public_slot r' <$> range x.1).
Proof.
  intros Hx. destruct (ra_req _ _ _ _ _ Hal) as (h & m & E & Hk & Hs & _ & _).
  assert (Hin : (x.1, x.2.1) ∈ private_ranges r').
  { unfold private_ranges. rewrite elem_of_app. left. apply list_elem_of_fmap. by exists x. }
  destruct (ra_ranges _ _ _ _ _ Hal _ Hin) as [Hlt Hlp]. cbn [fst snd] in Hlt, Hlp.
  assert (Hlen : len x.2.2 = x.1.2 - x.1.1).
  { rewrite E in Hx. apply list_elem_of_lookup in Hx as [i Hi]. change (h !! i = Some x) in Hi.
    assert (E1 : h.*1 !! i = Some x.1) by (by rewrite list_lookup_fmap, Hi).
    assert (E2 : (snd <$> h.*2) !! i = Some x.2.2) by (by rewrite !list_lookup_fmap, Hi).
    rewrite Hk in E1. rewrite Hs in E2. apply list_lookup_fmap_Some in E1 as (y & E1 & Hy).
    rewrite list_lookup_fmap, Hy in E2. cbn in E2. injection E2 as <-. rewrite E1.
    by destruct (rp_hits _ _ _ _ Hplan y) as (_ & -> & _); [eapply list_elem_of_lookup_2|]. }
  rewrite (surjective_pairing x.2) at 1. f_equal; symmetry.
  - apply (slot_at_range _ (x.1, x.2.1)); [apply (ra_apart _ _ _ _ _ Hal)|done|split; cbn; lia].
  - apply (slot_at_range _ (x.1, x.2.2)); [apply public_apart| |split; cbn; lia]. unfold public_ranges. rewrite elem_of_app. left.
    apply list_elem_of_fmap. by exists x.
Qed.

Lemma allocated_prepared :
  prepared (recompute (policy cfg)) r' (len (origin_input_ids r')) (private_slot r') (public_slot r').
Proof.
  destruct allocated_fields as (Ei & Eseg & Eg & Eh & Em & Es). destruct allocated_keys as (Hkh & Hkm & Hnh & Hnm).
  destruct Hpl as [Ht Hsplit Hglob Hseam Hsn]. split; rewrite ?Ei, ?Eseg, ?Eg, ?Eh, ?Em, ?Es; [done| | |by intros _].
  - intros a b _ Hm. rewrite <- Hkm in Hm. apply list_elem_of_fmap in Hm as ([seg m] & E & Hx). cbn in E. subst seg.
    destruct (miss_slots_at _ Hx) as (pub & mb & E & Hpub). cbn [fst snd] in E, Hpub. subst m. exists pub, (Some mb).
    split; [by apply dict_elem_get|]. intros Hg. destruct Hpub as [[? _]|[_ ?]]; done.
  - intros a b Hseg Hn. rewrite Hsplit, elem_of_app in Hseg. destruct Hseg as [Hh|]; [|done].
    split; [done|]. split; [by intros ?%Hglob|]. rewrite <- Hkh in Hh. apply list_elem_of_fmap in Hh as ([seg x] & E & Hx).
    cbn in E. subst seg. pose proof (hit_slots_at _ Hx) as Ex. cbn [fst snd] in Ex. subst x. by apply dict_elem_get.
Qed.

(** ** The slots that the batch writes *)

Lemma tiles_pyrange lo hi segs : tiles lo hi segs -> concat ((fun seg => range seg) <$> segs) = pyrange lo hi.
Proof.
  revert lo. induction segs as [|[a b] segs IH]; intros lo; cbn [tiles]; [intros ->; by rewrite pyrange_empty|].
  intros (-> & Hlt & Ht). rewrite fmap_cons. cbn [concat fst snd]. rewrite (IH _ Ht). symmetry. apply pyrange_app.
  apply tiles_le in Ht. lia.
Qed.

Lemma held_private : private_slot r' <$> pyrange 0 (len (origin_input_ids r')) ≡ₚ held_miss r' ++ held_hit r'.
Proof.
  destruct allocated_fields as (-> & _). destruct allocated_keys as (Hkh & Hkm & _).
  rewrite <- (tiles_pyrange _ _ _ (pl_tiles _ Hpl)), (pl_split _ Hpl), <- Hkh, <- Hkm.
  rewrite fmap_app, concat_app, fmap_app, (Permutation_app_comm (held_miss r')). apply reflexive_eq.
  rewrite !fmap_concat_fmap. f_equal.
  - unfold held_hit. rewrite <- !list_fmap_compose. apply f_equal, list_fmap_ext. intros i x Hx%list_elem_of_lookup_2.
    symmetry. exact (f_equal fst (hit_slots_at _ Hx)).
  - unfold held_miss. rewrite <- !list_fmap_compose. apply f_equal, list_fmap_ext. intros i x Hx%list_elem_of_lookup_2.
    destruct (miss_slots_at _ Hx) as (pub & mb & E & _). symmetry. exact (f_equal priv_of E).
Qed.

Lemma held_public pre : segs_of r = pre ++ option_list (global_seg r) ->
  public_slot r' <$> concat ((fun seg => range seg) <$> filter (fun seg => seg ∈ pic_miss_segments r) pre) ≡ₚ held_pub r'.
Proof.
  intros Es. destruct allocated_keys as (_ & Hkm & _ & Hnm). rewrite Hkm in Hnm.
  assert (Hns : NoDup (segs_of r)) by (eapply tiles_NoDup, (pl_tiles _ Hpl)). rewrite Es in Hns.
  assert (Hp : filter (fun seg => seg ∈ pic_miss_segments r) pre ≡ₚ filter (fun seg => global_seg r <> Some seg) lm.*1).
  { rewrite Hkm. apply NoDup_app in Hns as (Hnp & Hd & _). apply NoDup_Permutation; [by apply NoDup_filter..|].
    intros seg. rewrite !list_elem_of_filter. split.
    - intros [Hm Hin]. split; [|done]. intros Hg. apply (Hd _ Hin). rewrite Hg. left.
    - intros [Hg Hm]. split; [done|]. assert (Hin : seg ∈ segs_of r) by (rewrite (pl_split _ Hpl), elem_of_app; by right).
      rewrite Es, elem_of_app in Hin. destruct Hin as [|Hin]; [done|]. destruct (global_seg r); cbn in Hin; [|by apply not_elem_of_nil in Hin].
      by apply list_elem_of_singleton in Hin as ->. }
  rewrite Hp, fmap_concat_fmap. apply reflexive_eq. unfold held_pub.
  pose proof miss_slots_at as Hat. revert Hat. generalize lm. intros m Hat. induction m as [|x m IH]; [done|].
  rewrite !fmap_cons, filter_cons. cbn [concat]. rewrite <- IH by (intros; apply Hat; by right).
  destruct (Hat x) as (pub & mb & E & Hpub); [left|]. rewrite E. destruct Hpub as [[Hg ->]|[Hg ->]].
  - by rewrite decide_False by (intros Hn; by apply Hn).
  - by rewrite decide_True by done.
Qed.

End request.

(** ** The batch *)

Section batch.
Context {KV MB : Type} `{Allocator KV} `{Allocator MB}.
Context (cfg : PICConfig).
Implicit Types s : Engine KV MB.
Local Abbreviation rc := (recompute (policy cfg)).

(** The request as the layers see it. *)
Definition preq_of (r : Req) (meta : RopeMeta) : PReq := mkPReq (len (origin_input_ids r)) meta (private_slot r) (public_slot r).

Definition writes (pr : PReq) : list Z := (pr_slot pr <$> allP pr) ++ (pr_pub pr <$> missP pr).

Lemma request_meta p s idx r r' : rope_plan_ok cfg s idx r -> rope_allocated p s idx r r' -> planned r ->
  exists meta, rope_meta_of rc r' = Ret meta /\ preq_ok rc (preq_of r' meta) /\
    writes (preq_of r' meta) ≡ₚ held_miss r' ++ held_pub r' ++ held_hit r'.
Proof.
  intros Hplan Hal Hpl. pose proof (allocated_prepared cfg p s idx r r' Hplan Hal Hpl) as Hprep.
  destruct (rope_meta_eq _ _ _ _ _ Hprep) as (pre & Es & Hg & Emeta). eexists. split; [exact Emeta|]. split; [by apply meta_preq_ok|].
  unfold writes, allP. cbn [pr_n pr_slot pr_pub preq_of]. rewrite (held_private cfg p s idx r r' Hplan Hal Hpl).
  destruct (allocated_fields p s idx r r' Hal) as (_ & Eseg & Eg & _ & Em & _). rewrite Eseg, Eg in Es.
  rewrite <- (held_public cfg p s idx r r' Hplan Hal Hpl pre Es).
  assert (Emiss : missP (preq_of r' (meta_of rc r' (private_slot r') (public_slot r') pre (global_seg r'))) =
    concat ((fun seg => pyrange seg.1 seg.2) <$> filter (fun seg => seg ∈ pic_miss_segments r) pre)).
  { unfold missP. cbn [pr_meta preq_of meta_of ro_local_miss]. rewrite <- list_fmap_compose, Em. done. }
  fold (preq_of r' (meta_of rc r' (private_slot r') (public_slot r') pre (global_seg r'))). rewrite Emiss. solve_Permutation.
Qed.

Lemma owned_writes prs : owned rc prs ≡ₚ concat (writes <$> prs).
Proof.
  unfold owned, slot, pub.
  rewrite <- (cells_fmap (fun l => pr_slot (lr_req l))), <- (cells_fmap (fun l => pr_pub (lr_req l))).
  rewrite <- (located_map rc (fun r => pr_slot r <$> allP r)), <- (located_map rc (fun r => pr_pub r <$> missP r)).
  unfold writes. induction prs as [|pr prs IH]; [done|]. rewrite !fmap_cons. cbn [concat]. rewrite <- IH. solve_Permutation.
Qed.

Lemma batch_meta p s rows reqs reqs' :
  Forall2 (rope_plan_ok cfg s) rows reqs -> Forall planned reqs ->
  Forall2 (fun '(idx, r) r' => rope_allocated p s idx r r') (zip rows reqs) reqs' ->
  exists metas, omapM (rope_meta_of rc) reqs' = Ret metas /\
    Forall (preq_ok rc) (zip_with preq_of reqs' metas) /\ length metas = length reqs' /\
    concat (writes <$> zip_with preq_of reqs' metas) ≡ₚ
      concat (held_miss <$> reqs') ++ concat (held_pub <$> reqs') ++ concat (held_hit <$> reqs').
Proof.
  intros Hplan. revert reqs'. induction Hplan as [|idx r rows reqs Hp Hplan IH]; intros reqs' HF Hal.
  { inversion Hal; subst. by exists []. }
  apply Forall_cons in HF as [Hr HF]. inversion Hal as [|? r' ? reqs0 Ha Hal']; subst.
  destruct (IH _ HF Hal') as (metas & E & Hok & Hlen & Hperm).
  destruct (request_meta _ _ _ _ _ Hp Ha Hr) as (meta & Em & Hm & Hw). exists (meta :: metas).
  cbn [omapM zip_with]. rewrite Em. cbn [obind]. rewrite E. cbn [obind]. split; [done|]. split; [by constructor|].
  split; [cbn; by rewrite Hlen|]. rewrite !fmap_cons. cbn [concat]. rewrite Hw, Hperm. solve_Permutation.
Qed.

(** Allocation and metadata of a planned batch; the slots of entries that
    are locked stay in the index. *)
Lemma rope_fill_typed rows reqs s :
  index_wf s -> alloc_ready (kv s) -> alloc_ready (mamba s) -> NoDup rows ->
  Forall2 (rope_plan_ok cfg s) rows reqs -> Forall planned reqs ->
  (forall r h, r ∈ reqs -> h ∈ pic_hit_segments r -> exists i, dict_get h.2 (pic_segment_entries r) = Some i /\
     (h.2, i) ∈ entries s /\ lock_ref (deref s i) <> 0) ->
  total_miss reqs + total_pub reqs + total_hit reqs <= capacity s -> total_mamba reqs <= mcap s ->
  NoDup (pool_slots (kv s) ++ entries_kv s) ->
  wp (rope_fill cfg rows reqs)
     (fun res s' => exists metas,
        omapM (rope_meta_of rc) res.2 = Ret metas /\ length metas = length reqs /\
        Forall (preq_ok rc) (zip_with preq_of res.2 metas) /\
        NoDup (owned rc (zip_with preq_of res.2 metas) ++ pool_slots (kv s') ++ entries_kv s') /\
        forall r' x d, r' ∈ res.2 -> x ∈ pic_rope_hit_private_slots r' -> d ∈ x.2.2 -> d ∈ entries_kv s')
     (fun _ _ => False) s.
Proof.
  intros Hw Hrk Hrm Hnd Hplan Hpl Hlock Hck Hcm Hdist. eapply wp_mono; [by apply rope_fill_spec| |done].
  intros [out reqs'] s' [_ Hkv _ Hreq _ _ Hh Hlk]. cbn [fst snd] in *.
  destruct (batch_meta _ _ _ _ _ Hplan Hpl Hreq) as (metas & E & Hok & Hlen & Hperm). exists metas.
  split; [done|]. split; [|split; [done|split; [by rewrite owned_writes, Hperm, Hkv|]]].
  { apply Forall2_length in Hreq. rewrite length_zip_with in Hreq. apply Forall2_length in Hplan. lia. }
  intros r' x d [k Hk]%list_elem_of_lookup Hx Hd.
  destruct (Forall2_lookup_r _ _ _ _ _ Hreq Hk) as ([idx r] & [_ Hr]%lookup_zip_Some & Hal).
  destruct (ra_req _ _ _ _ _ Hal) as (lh & lm & -> & Hkh & Hsh & _). change (x ∈ lh) in Hx. apply list_elem_of_lookup in Hx as [j Hj].
  assert (E2 : (snd <$> lh.*2) !! j = Some x.2.2) by (by rewrite !list_lookup_fmap, Hj).
  rewrite Hsh in E2. apply list_lookup_fmap_Some in E2 as (h & E3 & Hh'). rewrite E3 in Hd.
  destruct (Hlock r h (list_elem_of_lookup_2 _ _ _ Hr) (list_elem_of_lookup_2 _ _ _ Hh')) as (i & Hi & Hin & Hne).
  unfold PicAllocFacts.hit_entry in Hd. rewrite Hi in Hd. cbn in Hd. unfold entries_kv. apply elem_of_concat_map.
  exists (h.2, i). split; [by apply Hlk|]. unfold entry_of, compose, deref in *. cbn [snd]. by rewrite Hh.
Qed.

End batch.
