(* ===== verification/PlanFacts.v ===== *)
(** * What a planned request looks like

    [init_next_round_planned]: the segments of a request planned by
    [init_next_round_input] are its hits and misses, the last one is a miss,
    every hit resolves to an indexed entry of its length, sinks lie in hits,
    and the planned positions are those of misses and sinks.  From this
    follow the preconditions of the two allocations ([planned_plan_ok],
    [planned_rope_plan_ok]) and of the metadata ([planned_planned]). *)

From stdpp Require Import strings.
From S2P Require Import Prelude PyDict Policy Allocator Segmenter Engine ReqPool ReqPoolFacts.
From S2P Require Import PICache PICacheFacts PICacheMatch PICacheEvict PICacheReg PICacheRelease CacheCommon NextRound.
From S2P Require Import PicAlloc PicAllocFacts RopeAllocFacts.
From S2P Require Import KVBuffer GdnMetaFacts RopeKV RopeForward RopePlanFacts RopeForwardFacts ForwardBatch ForwardBatchFacts.

Section planned.
Context {KV MB : Type} `{AllocatorOps KV} `{AllocatorOps MB}.
Context (cfg : PICConfig) (monotonic : nat -> Z).
Implicit Types s : Engine KV MB.
Local Abbreviation range seg := (pyrange seg.1 seg.2).

Record planned_req s (r : Req) : Prop := {
  pq_tiles : tiles 0 (len (origin_input_ids r)) (segs_of r);
  pq_split : segs_of r ≡ₚ (pic_hit_segments r).*1 ++ pic_miss_segments r;
  pq_last seg : last (segs_of r) = Some seg -> seg ∈ pic_miss_segments r;
  pq_hit h : h ∈ pic_hit_segments r -> exists i, dict_get h.2 (pic_segment_entries r) = Some i /\
    (h.2, i) ∈ entries s /\ len (full_kv_slots (deref s i)) = h.1.2 - h.1.1;
  pq_entries i : i ∈ (pic_segment_entries r).*2 -> i ∈ (entries s).*2;
  pq_seam : Forall (fun x => x.1 ∈ (pic_hit_segments r).*1 /\ Forall (fun p => x.1.1 <= p < x.1.2) x.2) (pic_hit_seam_positions r);
  pq_seam_keys : NoDup (pic_hit_seam_positions r).*1;
  pq_pos : exists pos, pic_miss_token_positions r = Some pos /\ NoDup pos /\
    pos ≡ₚ concat ((fun seg => range seg) <$> pic_miss_segments r) ++ concat (pic_hit_seam_positions r).*2 /\
    (pic_hit_seam_positions r = [] -> pos = concat ((fun seg => range seg) <$> pic_miss_segments r)) /\
    extend_input_len r = len pos;
  pq_plain : recompute (policy cfg) = false -> pic_hit_seam_positions r = [];
}.

(** ** The plan of [init_next_round_input] *)

(** Hits and misses of a match. *)
Lemma hits_misses_split {A} (f : nat -> A) (pairs : list ((Z * Z) * option nat)) :
  pairs.*1 ≡ₚ (omap (fun x => i ← x.2; Some (x.1, f i)) pairs).*1 ++
    omap (fun x => match x.2 with None => Some x.1 | Some _ => None end) pairs.
Proof.
  induction pairs as [|[seg [i|]] pairs IH]; [done|..]; rewrite !fmap_cons; cbn [omap list_omap mbind option_bind fst snd].
  - rewrite IH. done.
  - rewrite IH. solve_Permutation.
Qed.

Lemma misses_last segs os seg : length os = length segs ->
  (seg ∈ omap (fun x : (Z * Z) * option nat => match x.2 with None => Some x.1 | Some _ => None end) (zip (segs ++ [seg]) (os ++ [None]))).
Proof.
  intros Hl. rewrite zip_with_app by done. rewrite omap_app. apply elem_of_app. right. cbn. left.
Qed.

(** The dictionary of matched entries. *)
Lemma entries_dict (hash : nat -> list Z) ids :
  (forall i j, i ∈ ids -> j ∈ ids -> hash i = hash j -> i = j) ->
  let D := foldl (fun d i => dict_set (hash i) i d) [] ids in
  dict_wf D /\ (forall i, i ∈ ids -> dict_get (hash i) D = Some i) /\ (forall i, i ∈ D.*2 -> i ∈ ids).
Proof.
  intros Hinj D. subst D. induction ids as [|i ids IH] using rev_ind.
  { split; [constructor|]. split; by intros i ?%not_elem_of_nil. }
  rewrite foldl_app. cbn [foldl]. destruct IH as (IHw & IH1 & IH2); [intros; apply Hinj; set_solver|].
  split; [by apply dict_set_wf|]. split.
  - intros j Hj. destruct (decide (hash j = hash i)) as [Eh|Hne].
    + rewrite (Hinj j i), dict_get_set_eq by (done || set_solver). done.
    + rewrite dict_get_set_ne by done. apply IH1. apply elem_of_app in Hj as [?| ->%list_elem_of_singleton]; done.
  - intros j ([h j'] & -> & Hp)%list_elem_of_fmap. apply dict_set_elem in Hp as [[-> ->]|[_ Hp]]; [set_solver| |done].
    apply elem_of_app. left. apply IH2. by apply (list_elem_of_fmap_2 snd) in Hp.
Qed.

Lemma elem_enumerate {A} (l : list A) x : x ∈ l -> exists k, (k, x) ∈ enumerate l.
Proof.
  intros Hx. rewrite <- (snd_enumerate l) in Hx. apply list_elem_of_fmap in Hx as ([k y] & -> & Hk). by exists k.
Qed.

Lemma sorted_lt_NoDup l : StronglySorted Z.lt l -> NoDup l.
Proof.
  induction 1 as [|x l _ IH Hx]; constructor; [|done]. intros Hin. rewrite Forall_forall in Hx. specialize (Hx _ Hin). lia.
Qed.

(** A matched segment and its entry. *)
Lemma matched_entry T r s seg i : index_ok T s -> kv_aligned s -> tiles 0 (len (origin_input_ids r)) (segs_of r) ->
  (seg, Some i) ∈ zip (segs_of r) (matched cfg r s) ->
  (seg_hash (deref s i), i) ∈ entries s /\ len (full_kv_slots (deref s i)) = seg.2 - seg.1 /\ seg.1 < seg.2.
Proof.
  intros Hok Hal Ht Hin. destruct (elem_enumerate _ _ Hin) as [k Hk].
  destruct (matched_sound cfg T r s _ Hok Hk i eq_refl) as (_ & _ & He & Htok). cbn [fst snd] in He, Htok.
  destruct (proj2 Hok _ _ He) as [_ (Hh & _)]. rewrite Hh. split; [done|].
  apply elem_of_zip_l in Hin. destruct seg as [a b]. eapply tiles_elem in Hin; [|done]. split; [|cbn; lia].
  rewrite (Hal _ _ He), Htok. unfold seg_tokens. cbn [fst snd]. apply len_pyslice; lia.
Qed.

Lemma seam_elem (x : Z * ((Z * Z) * option nat)) y : x.2.1.1 < x.2.1.2 -> y ∈ seam_of cfg x ->
  y.1 = x.2.1 /\ is_Some x.2.2 /\ Forall (fun p => y.1.1 <= p < y.1.2) y.2.
Proof.
  intros Hlt. unfold seam_of. pose proof (seam_width_bounds cfg x.1 x.2.1 Hlt) as Hw.
  destruct (x.2.2); [|by intros ?%not_elem_of_nil]. case_if; [|by intros ?%not_elem_of_nil].
  intros ->%list_elem_of_singleton. cbn [fst snd]. split; [done|]. split; [by eexists|].
  apply Forall_forall. intros p Hp%elem_of_pyrange. lia.
Qed.

Lemma plan_pos r s : tiles 0 (len (origin_input_ids r)) (segs_of r) ->
  let pairs := zip (segs_of r) (matched cfg r s) in
  let misses := omap (fun x => match x.2 with None => Some x.1 | Some _ => None end) pairs in
  let seams := concat (seam_of cfg <$> enumerate pairs) in
  let pos := concat (forwarded cfg <$> enumerate pairs) in
  NoDup pos /\ pos ≡ₚ concat ((fun seg => range seg) <$> misses) ++ concat seams.*2 /\
  (seams = [] -> pos = concat ((fun seg => range seg) <$> misses)).
Proof.
  intros Ht pairs misses seams pos. split; [apply sorted_lt_NoDup; by apply (forwarded_sorted cfg _ _ 0 0 (len (origin_input_ids r)))|].
  split; [symmetry; apply (forwarded_split cfg pairs 0)|]. intros Hs. symmetry. by apply (forwarded_no_seam cfg pairs 0).
Qed.

Lemma seams_ok r s : tiles 0 (len (origin_input_ids r)) (segs_of r) ->
  let pairs := zip (segs_of r) (matched cfg r s) in
  let seams := concat (seam_of cfg <$> enumerate pairs) in
  NoDup seams.*1 /\
  Forall (fun x => x.1 ∈ (omap (fun x => i ← x.2; Some (x.1, seg_hash (deref s i))) pairs).*1 /\
    Forall (fun p => x.1.1 <= p < x.1.2) x.2) seams /\
  (recompute (policy cfg) = false -> seams = []).
Proof.
  intros Ht pairs seams. split; [|split].
  - eapply sublist_NoDup; [|apply (seam_keys_sublist cfg pairs 0)]. unfold pairs.
    rewrite fst_zip by (rewrite length_matched; lia). by eapply tiles_NoDup.
  - apply Forall_forall. intros y (x & Hx & Hy)%elem_of_concat_map.
    assert (Hz : x.2 ∈ pairs) by (rewrite <- (snd_enumerate pairs); by apply list_elem_of_fmap_2).
    assert (Hlt : x.2.1.1 < x.2.1.2).
    { destruct x as [k [[a b] o]]. apply elem_of_zip_l in Hz. eapply tiles_elem in Hz; [|done]. cbn. lia. }
    destruct (seam_elem x y Hlt Hy) as (Ey & [i Hi] & HF). split; [|done]. rewrite Ey. apply list_elem_of_fmap.
    exists (x.2.1, seg_hash (deref s i)). split; [done|]. apply list_elem_of_omap. exists x.2. split; [done|]. by rewrite Hi.
  - intros Hr. destruct seams as [|y l] eqn:Es; [done|]. exfalso.
    assert (Hy : y ∈ seams) by (rewrite Es; left). apply elem_of_concat_map in Hy as (x & _ & Hy).
    unfold seam_of, seam_width in Hy. rewrite Hr in Hy. destruct (x.2.2); by apply not_elem_of_nil in Hy.
Qed.

(** A fresh prompt, as the tokenizer leaves it. *)
Record fresh_req (r : Req) : Prop := {
  fr_tiles : tiles 0 (len (origin_input_ids r)) (segs_of r);
  fr_segs : segs_of r <> [];
  fr_output : output_ids r = [];
  fr_seam : recompute (policy cfg) = false -> pic_hit_seam_positions r = [];
}.

Lemma matched_recency r s s' : same_but_recency s s' -> matched cfg r s' = matched cfg r s.
Proof.
  intros Hs. unfold matched. apply list_fmap_ext. intros k x _. unfold match_one. case_if; [done|].
  by rewrite (lookup_segment_proper _ _ _ _ Hs).
Qed.

Lemma kv_aligned_recency s s' : same_but_recency s s' -> kv_aligned s -> kv_aligned s'.
Proof.
  intros Hs Hal h i Hin. rewrite (sbr_kv_slots _ _ _ Hs), (sbr_token_ids _ _ _ Hs). apply (Hal h).
  by rewrite <- (sbr_entries _ _ Hs).
Qed.

(** The request that the match builds is planned. *)
Lemma planned_intro T r s r' n :
  index_ok T s -> kv_aligned s -> tiles 0 (len (origin_input_ids r)) (segs_of r) -> segs_of r <> [] ->
  let pairs := zip (segs_of r) (matched cfg r s) in
  pic_miss_token_positions r' = Some (concat (forwarded cfg <$> enumerate pairs)) ->
  origin_input_ids r' = origin_input_ids r -> segs_of r' = segs_of r ->
  pic_hit_segments r' = omap (fun x => i ← x.2; Some (x.1, seg_hash (deref s i))) pairs ->
  pic_miss_segments r' = omap (fun x => match x.2 with None => Some x.1 | Some _ => None end) pairs ->
  pic_segment_entries r' = foldl (fun d i => dict_set (seg_hash (deref s i)) i d) [] (omap id (matched cfg r s)) ->
  pic_hit_seam_positions r' = concat (seam_of cfg <$> enumerate pairs) ->
  n = len (concat (forwarded cfg <$> enumerate pairs)) ->
  planned_req s (set_extend_input_len n r').
Proof.
  intros Hok Hal Ht Hne pairs Hm Hor Hsg Hhit Hmiss Hent Hseam ->.
  assert (Hfst : pairs.*1 = segs_of r) by (apply fst_zip; rewrite length_matched; lia).
  assert (Hid : forall i, i ∈ omap id (matched cfg r s) -> exists seg, (seg, Some i) ∈ pairs).
  { intros i (o & Ho & Hi)%list_elem_of_omap. cbn in Hi. subst o.
    assert (Esnd : pairs.*2 = matched cfg r s) by (apply snd_zip; rewrite length_matched; lia).
    rewrite <- Esnd in Ho. apply list_elem_of_fmap in Ho as ([seg o] & E & Hin). cbn in E. subst o. by exists seg. }
  destruct (entries_dict (fun i => seg_hash (deref s i)) (omap id (matched cfg r s))) as (_ & Hget & Helem).
  { intros i j [? Hi]%Hid [? Hj]%Hid Eh. destruct (matched_entry T _ _ _ _ Hok Hal Ht Hi) as [Hi' _].
    destruct (matched_entry T _ _ _ _ Hok Hal Ht Hj) as [Hj' _]. rewrite Eh in Hi'.
    apply dict_elem_get in Hi'; [|apply Hok]. apply dict_elem_get in Hj'; [|apply Hok]. congruence. }
  destruct (plan_pos r s Ht) as (Hnd & Hperm & Hplain). destruct (seams_ok r s Ht) as (Hkeys & HF & Hoff).
  split; cbn [set_extend_input_len origin_input_ids pic_hit_segments pic_miss_segments pic_segment_entries
    pic_hit_seam_positions pic_miss_token_positions extend_input_len].
  - change (tiles 0 (len (origin_input_ids r')) (segs_of r')). by rewrite Hor, Hsg.
  - change (segs_of r' ≡ₚ (pic_hit_segments r').*1 ++ pic_miss_segments r'). rewrite Hsg, Hhit, Hmiss, <- Hfst. apply hits_misses_split.
  - intros seg Hl. change (last (segs_of r') = Some seg) in Hl. rewrite Hsg in Hl. apply last_Some in Hl as (segs & Es).
    destruct (matched_last cfg r s segs seg Es) as (os & Eos & Hlen). rewrite Hmiss. unfold pairs. rewrite Es, Eos. by apply misses_last.
  - intros h Hh. rewrite Hhit in Hh. apply list_elem_of_omap in Hh as ([seg [i|]] & Hin & E); [|done]. cbn in E. injection E as <-.
    destruct (matched_entry T _ _ _ _ Hok Hal Ht Hin) as (He & Hlen & _). exists i. split; [|done]. rewrite Hent. apply Hget.
    apply list_elem_of_omap. exists (Some i). split; [by eapply elem_of_zip_r|done].
  - intros i Hi. rewrite Hent in Hi. apply Helem in Hi as [seg Hin]%Hid. destruct (matched_entry T _ _ _ _ Hok Hal Ht Hin) as (He & _).
    by apply (list_elem_of_fmap_2 snd) in He.
  - rewrite Hseam, Hhit. exact HF.
  - rewrite Hseam. exact Hkeys.
  - exists (concat (forwarded cfg <$> enumerate pairs)). rewrite Hm, Hmiss, Hseam. done.
  - rewrite Hseam. exact Hoff.
Qed.

Lemma init_next_round_planned T r s :
  index_ok T s -> kv_aligned s -> seam_sink_ok cfg -> disable cfg = false -> fresh_req r ->
  wp (init_next_round_input cfg monotonic r)
     (fun r' s' => same_but_recency s s' /\ planned_req s' r' /\ origin_input_ids r' = origin_input_ids r /\
        output_ids r' = [] /\ mamba_pool_idx r' = mamba_pool_idx r /\ len (prefix_indices r') + extend_input_len r' = len (origin_input_ids r))
     (fun _ _ => False) s.
Proof.
  intros Hok Hal Hk Hd [Ht Hne Ho Hh]. unfold init_next_round_input. rewrite Ho, app_nil_r.
  apply wp_bind. eapply wp_mono; [by apply match_prefix_spec| |done].
  intros res s' [-> Hs]. cbn [fst snd from_option id]. apply wp_bind, wp_get, wp_bind.
  assert (Hok' : index_ok T s') by (by rewrite <- Hs). pose proof (kv_aligned_recency _ _ Hs Hal) as Hal'.
  assert (Hre : concat (reused cfg s <$> enumerate (zip (segs_of r) (matched cfg r s))) =
    concat (reused cfg s' <$> enumerate (zip (segs_of r) (matched cfg r s)))).
  { apply f_equal, list_fmap_ext. intros. symmetry. by apply reused_recency. }
  rewrite Hre. rewrite <- (matched_recency r s s' Hs). destruct (apply_match_plan cfg r s' (matched cfg r s') 0 _ Ht Hh Hne) as
    (r' & Ha & Hp & Hm & Hor & Hsg & Hhit & Hmiss & Hent & Hseam); [by eapply forwarded_nonempty|].
  assert (Hkeep : output_ids r' = output_ids r /\ mamba_pool_idx r' = mamba_pool_idx r).
  { clear -Ha. unfold apply_match in Ha. cbn in Ha. destruct (pic_segments r); [|done]. injection Ha as <-. by destruct (plan_positions _). }
  unfold of_outcome, wp at 1. rewrite Ha. apply wp_ret. set (pairs := zip (segs_of r) (matched cfg r s')) in *.
  assert (Htot : len (concat (reused cfg s' <$> enumerate pairs)) + len (concat (forwarded cfg <$> enumerate pairs)) = len (origin_input_ids r)).
  { etrans; [apply (tiles_total _ _ _ _ 0 0 (len (origin_input_ids r))); [done| |]|lia]; [apply length_matched|].
    intros x Hx. by eapply (reused_forwarded_len cfg T r s' x 0). }
  split; [done|]. destruct Hkeep as [Hout Hmb]. split; [|split; [done|split; [by rewrite <- Ho|split; [done|cbn; lia]]]].
  eapply (planned_intro T r s'); try done. fold pairs. rewrite Hp. lia.
Qed.

(** ** What the allocations ask for *)

Lemma ordpairs_perm {A} (R : A -> A -> Prop) l k :
  (forall x y, R x y -> R y x) -> l ≡ₚ k -> ForallOrdPairs R l -> ForallOrdPairs R k.
Proof.
  intros Hsym. induction 1 as [|x l k Hp IH|x y l|l1 l2 l3 _ IH1 _ IH2]; [done|..].
  - inversion 1 as [|? ? Hall Ho]; subst. constructor; [by rewrite <- Hp|auto].
  - inversion 1 as [|? ? Hall Ho]; subst. inversion Ho as [|? ? Hall' Ho']; subst. apply Forall_cons in Hall as [Hyx Hy].
    constructor; [constructor; auto|]. by constructor.
  - auto.
Qed.

Lemma tiles_apart lo hi segs : tiles lo hi segs -> ForallOrdPairs apart segs.
Proof.
  revert lo. induction segs as [|[a b] segs IH]; intros lo; cbn [tiles]; [constructor|]. intros (-> & Hlt & Ht).
  constructor; [|by eapply IH]. apply Forall_forall. intros [c d] Hin. eapply tiles_elem in Hin; [|done]. left. cbn. lia.
Qed.

Section preconditions.
Context (s : Engine KV MB) (idx : Z) (r : Req) (row : list Z).
Context (Hr : planned_req s r) (Hrow : row_at (pool s) idx = Some row) (Hlen : len (origin_input_ids r) <= len row).

Lemma planned_bounds seg : seg ∈ (pic_hit_segments r).*1 ++ pic_miss_segments r -> 0 <= seg.1 < seg.2 /\ seg.2 <= len row.
Proof.
  rewrite <- (pq_split _ _ Hr). intros Hin. destruct seg as [a b]. eapply tiles_elem in Hin; [|apply (pq_tiles _ _ Hr)]. cbn. lia.
Qed.

Lemma planned_apart : ForallOrdPairs apart ((pic_hit_segments r).*1 ++ pic_miss_segments r).
Proof.
  eapply ordpairs_perm; [|apply (pq_split _ _ Hr)|eapply tiles_apart, (pq_tiles _ _ Hr)]. unfold apart. intros x y. lia.
Qed.

Lemma planned_hit_entry h : h ∈ pic_hit_segments r -> is_Some (dict_get h.2 (pic_segment_entries r)) /\
  len (full_kv_slots (deref s (PicAllocFacts.hit_entry r h.2))) = h.1.2 - h.1.1.
Proof.
  intros Hh. destruct (pq_hit _ _ Hr h Hh) as (i & Hi & _ & Hl). unfold PicAllocFacts.hit_entry. rewrite Hi. split; [by eexists|done].
Qed.

Lemma planned_plan_ok : plan_ok s idx r.
Proof.
  split.
  - exists row. split; [done|]. split; [|intros seg Hin; apply planned_bounds; set_solver].
    intros w (h & -> & Hh)%list_elem_of_fmap. destruct (planned_hit_entry h Hh) as [_ Hl].
    destruct (planned_bounds h.1) as [? ?]; [rewrite elem_of_app; left; by apply list_elem_of_fmap_2|]. unfold fits. cbn [fst snd]. lia.
  - intros h Hh. by apply planned_hit_entry.
  - apply planned_apart.
Qed.

Lemma planned_rope_plan_ok : rope_plan_ok cfg s idx r.
Proof.
  pose proof (pq_seam _ _ Hr) as HF. rewrite Forall_forall in HF. split; [exists row; split; [done|apply planned_bounds]|..|apply planned_apart|].
  - intros h Hh. destruct (planned_hit_entry h Hh) as [? ?]. split; [done|]. split; [done|]. intros ap Hap. unfold sinks_of in Hap.
    destruct (dict_get h.1 (pic_hit_seam_positions r)) as [sink|] eqn:E; cbn in Hap; [|by apply not_elem_of_nil in Hap].
    apply dict_get_elem in E. destruct (HF _ E) as [_ HFs]. rewrite Forall_forall in HFs. by apply HFs.
  - destruct (pq_pos _ _ Hr) as (pos & Hpos & _ & Hperm & Hplain & _). exists pos. split; [done|].
    destruct (recompute (policy cfg)) eqn:Hrc; [|apply Hplain, (pq_plain _ _ Hr Hrc)].
    intros p Hp. rewrite Hperm in Hp. unfold computable. rewrite elem_of_app. apply elem_of_app in Hp as [Hp|Hp]; [by right|left].
    apply elem_of_concat_map. apply (elem_of_concat_map snd) in Hp as ([seg sk] & Hin & Hp).
    destruct (HF _ Hin) as [Hseg _]. exists seg. split; [done|]. unfold sinks_of.
    by rewrite (dict_elem_get seg sk) by (done || apply (pq_seam_keys _ _ Hr)).
Qed.

Lemma planned_planned : planned r.
Proof.
  pose proof (pq_seam _ _ Hr) as HF. split.
  - apply (pq_tiles _ _ Hr).
  - apply (pq_split _ _ Hr).
  - intros seg Hg. apply (pq_last _ _ Hr). unfold global_seg in Hg. by case_if.
  - eapply Forall_impl; [exact HF|]. intros [[a b] sink] [Hh HFs]. cbn [fst snd] in *.
    assert (Hnd : NoDup (segs_of r)) by (eapply tiles_NoDup, (pq_tiles _ _ Hr)). rewrite (pq_split _ _ Hr) in Hnd.
    split; [rewrite (pq_split _ _ Hr), elem_of_app; by left|]. split; [|done].
    apply NoDup_app in Hnd as (_ & Hd & _). by apply Hd.
  - destruct (pq_pos _ _ Hr) as (pos & _ & Hnd & Hperm & _). rewrite Hperm in Hnd. by apply NoDup_app in Hnd as (_ & _ & ?).
Qed.

End preconditions.
End planned.
