(* ===== verification/PrefillAdder.v ===== *)
(** * Building a prefill batch

    [PrefillAdder] of srt/managers/schedule_policy.py decides which waiting
    requests join the next prefill batch, against a budget of KV tokens, and
    [build_batch] is the loop of [Scheduler._get_new_batch_prefill_raw] that plans
    each waiting request and offers it to the adder.  The adder is the one of
    a PIC server: no sliding window, no diffusion decoding, no host tier, so
    that a matched request has no host hit.  LoRA adapters and preemption by
    priority are left out, and so is the group window of the Mamba allocator
    around the loop, within which PIC planning allocates no Mamba slot.

    Token budgets that the source scales by the new-token ratio, a float, are
    rationals. *)

From Stdlib Require Import QArith.
From S2P Require Import Prelude PyDict Allocator Policy Segmenter Engine ReqPool PICache.
From S2P Require Import NextRound.

#[local] Open Scope Z_scope.

(** [int(x)]: truncation towards zero. *)
Definition int_of (q : Q) : Z := Z.quot (Qnum q) (Z.pos (Qden q)).

Definition CLIP_MAX_NEW_TOKENS : Z := 4096.
Definition IGNORE_EOS_RESERVE_TOKENS : Z := 1.

(** A waiting or running request: its engine state and what the scheduler
    reads of it.  [wr_rid] is the identity of the object. *)
Record WReq := mkWReq {
  wr_rid : Z;
  wr_req : Req;
  wr_max_new_tokens : Z;
  wr_ignore_eos : bool;
  wr_retracted_stain : bool;
  wr_session : bool;
  wr_fill_len : Z;
}.

Definition set_wr_req (r : Req) (q : WReq) : WReq :=
  mkWReq (wr_rid q) r (wr_max_new_tokens q) (wr_ignore_eos q) (wr_retracted_stain q) (wr_session q) (wr_fill_len q).
Definition set_wr_fill_len (n : Z) (q : WReq) : WReq :=
  mkWReq (wr_rid q) (wr_req q) (wr_max_new_tokens q) (wr_ignore_eos q) (wr_retracted_stain q) (wr_session q) n.

Definition full_untruncated_fill_ids (q : WReq) : list Z := origin_input_ids (wr_req q) ++ output_ids (wr_req q).
Definition wr_extend (q : WReq) : Z := extend_input_len (wr_req q).
Definition wr_prefix_len (q : WReq) : Z := len (prefix_indices (wr_req q)).

Inductive AddReqResult := CONTINUE | NO_TOKEN | OTHER.

#[global] Instance AddReqResult_eq_dec : EqDecision AddReqResult.
Proof. solve_decision. Defined.

Record PrefillAdder := mkAdder {
  page_size : Z;
  new_token_ratio : Q;
  rem_input_tokens : Z;
  rem_chunk_tokens : option Z;
  rem_total_token_offset : Q;
  cur_rem_token_offset : Z;
  req_states : option (list (Q * Z));
  can_run_list : list WReq;
  new_chunked_req : option WReq;
  log_hit_tokens : Z;
  log_input_tokens : Z;
  reprocessed_log_hit_tokens : Z;
  reprocessed_log_input_tokens : Z;
  running_reqs : option (list WReq);
  prefill_max_requests : option Z;
  dsa_prefill_cp_in_seq_split : bool;
}.

Definition running_total_token_offset (new_token_ratio : Q) (q : WReq) : Q :=
  (inject_Z (Z.min (wr_max_new_tokens q - len (output_ids (wr_req q))) CLIP_MAX_NEW_TOKENS) * new_token_ratio)%Q.

Definition qsum (l : list Q) : Q := foldr Qplus 0%Q l.

(** [__init__]. *)
Definition adder_init (page : Z) (running : option (list WReq)) (ratio : Q) (rem_input : Z) (rem_chunk : option Z)
    (num_mixed_decode_tokens : Z) (max_requests : option Z) (dsa : bool) : PrefillAdder :=
  mkAdder page ratio (rem_input - num_mixed_decode_tokens)
    ((fun n => n - num_mixed_decode_tokens) <$> rem_chunk)
    (inject_Z num_mixed_decode_tokens + match running with
       | None => 0%Q
       | Some reqs => qsum (running_total_token_offset ratio <$> reqs)
       end)%Q
    num_mixed_decode_tokens None [] None 0 0 0 0 running max_requests dsa.

Definition ceil_paged_tokens (a : PrefillAdder) (tokens : Z) : Z := - (- tokens / page_size a) * page_size a.

Definition add_can_run (q : WReq) (a : PrefillAdder) : PrefillAdder :=
  mkAdder (page_size a) (new_token_ratio a) (rem_input_tokens a) (rem_chunk_tokens a) (rem_total_token_offset a)
    (cur_rem_token_offset a) (req_states a) (can_run_list a ++ [q]) (new_chunked_req a) (log_hit_tokens a)
    (log_input_tokens a) (reprocessed_log_hit_tokens a) (reprocessed_log_input_tokens a) (running_reqs a)
    (prefill_max_requests a) (dsa_prefill_cp_in_seq_split a).
Definition set_new_chunked_req (q : WReq) (a : PrefillAdder) : PrefillAdder :=
  mkAdder (page_size a) (new_token_ratio a) (rem_input_tokens a) (rem_chunk_tokens a) (rem_total_token_offset a)
    (cur_rem_token_offset a) (req_states a) (can_run_list a) (Some q) (log_hit_tokens a) (log_input_tokens a)
    (reprocessed_log_hit_tokens a) (reprocessed_log_input_tokens a) (running_reqs a) (prefill_max_requests a)
    (dsa_prefill_cp_in_seq_split a).
Definition set_req_states (st : list (Q * Z)) (a : PrefillAdder) : PrefillAdder :=
  mkAdder (page_size a) (new_token_ratio a) (rem_input_tokens a) (rem_chunk_tokens a) (rem_total_token_offset a)
    (cur_rem_token_offset a) (Some st) (can_run_list a) (new_chunked_req a) (log_hit_tokens a) (log_input_tokens a)
    (reprocessed_log_hit_tokens a) (reprocessed_log_input_tokens a) (running_reqs a) (prefill_max_requests a)
    (dsa_prefill_cp_in_seq_split a).

Definition update_prefill_budget (prefix_len extend_input_len max_new_tokens : Z) (retracted_stain : bool)
    (a : PrefillAdder) : PrefillAdder :=
  let extend_input_len := ceil_paged_tokens a extend_input_len in
  let page_overhead := page_size a in
  mkAdder (page_size a) (new_token_ratio a)
    (rem_input_tokens a - extend_input_len)
    ((fun n => n - extend_input_len) <$> rem_chunk_tokens a)
    (rem_total_token_offset a + inject_Z (extend_input_len + max_new_tokens + page_overhead))%Q
    (cur_rem_token_offset a + (extend_input_len + page_overhead))
    (req_states a) (can_run_list a) (new_chunked_req a)
    (log_hit_tokens a + prefix_len) (log_input_tokens a + extend_input_len)
    (reprocessed_log_hit_tokens a + (if retracted_stain then prefix_len else 0))
    (reprocessed_log_input_tokens a + (if retracted_stain then extend_input_len else 0))
    (running_reqs a) (prefill_max_requests a) (dsa_prefill_cp_in_seq_split a).

(** ** Estimates for requests that ignore the end-of-sequence token *)

(** [(tokens_left, tokens_occupied)], [None] when nothing is left. *)
Definition req_state (a : PrefillAdder) (q : WReq) : option (Q * Z) :=
  let ratio := if wr_ignore_eos q then 1%Q else new_token_ratio a in
  let tokens_left := (inject_Z (wr_max_new_tokens q) * ratio - inject_Z (len (output_ids (wr_req q))))%Q in
  let tokens_occupied := len (origin_input_ids (wr_req q)) + len (output_ids (wr_req q)) in
  if Qle_bool tokens_left 0 then None else Some (tokens_left, tokens_occupied).

(** The index that the scan stops at: the first state with at least
    [tokens_left], and the index of the last one when there is none. *)
Fixpoint insert_index (tokens_left : Q) (i : nat) (st : list (Q * Z)) : nat :=
  match st with
  | [] => i
  | [x] => i
  | x :: st' => if Qle_bool tokens_left x.1 then i else insert_index tokens_left (S i) st'
  end.

Definition insert_state (x : Q * Z) (st : list (Q * Z)) : list (Q * Z) :=
  let i := insert_index x.1 0 st in take i st ++ x :: drop i st.

(** [sort(key=lambda x: x[0])], stable. *)
Definition sort_states : list (Q * Z) -> list (Q * Z) := sort_by (fun x y => Qle_bool x.1 y.1).

Definition add_req_states (a : PrefillAdder) (q : WReq) : list (Q * Z) :=
  match req_states a with
  | None => sort_states (omap (req_state a) (q :: default [] (running_reqs a) ++ can_run_list a))
  | Some st => match req_state a q with None => st | Some x => insert_state x st end
  end.

(** Whether every request still has room when the ones before it are done. *)
Fixpoint states_fit (cur_rem : Z) (tokens_freed : Z) (st : list (Q * Z)) : bool :=
  match st with
  | [] => true
  | (tokens_left, tokens_occupied) :: st' =>
      let bs := len st in
      let min_free_tokens := (inject_Z (cur_rem + tokens_freed) - tokens_left * inject_Z bs)%Q in
      if Qle_bool min_free_tokens (inject_Z (IGNORE_EOS_RESERVE_TOKENS * bs)) then false
      else states_fit cur_rem (tokens_freed + tokens_occupied) st'
  end.

Section adder.
Context {KV MB : Type} `{AllocatorOps KV} `{AllocatorOps MB}.
Variable cfg : PICConfig.
Variable monotonic : nat -> Z.
#[local] Abbreviation E := (Engine KV MB).

(** [available_size() + full_evictable_size()], which is [evictable_size()]. *)
Definition available_and_evictable (s : E) : Z := available_size (kv s) + evictable_size s.
Definition rem_total_tokens (a : PrefillAdder) (s : E) : Q :=
  (inject_Z (available_and_evictable s) - rem_total_token_offset a)%Q.
Definition cur_rem_tokens (a : PrefillAdder) (s : E) : Z := available_and_evictable s - cur_rem_token_offset a.

Definition budget_state (a : PrefillAdder) (s : E) : AddReqResult :=
  if Qle_bool (rem_total_tokens a s) 0 || (cur_rem_tokens a s <=? 0) then NO_TOKEN
  else if rem_input_tokens a <=? 0 then OTHER
  else match rem_chunk_tokens a with
       | Some n => if n <=? 0 then OTHER else CONTINUE
       | None => CONTINUE
       end.

(** [_req_inc_lock_ref] on a PIC cache. *)
Definition req_inc_lock_ref (q : WReq) : M E unit := _ ← lift (inc_lock_ref (wr_req q)); mret tt.

Definition result (res : AddReqResult) (a : PrefillAdder) (q : WReq) : M E (AddReqResult * PrefillAdder * WReq) :=
  mret (res, a, q).
Definition with_budget (a : PrefillAdder) (q : WReq) : M E (AddReqResult * PrefillAdder * WReq) :=
  s ← get; mret (budget_state a s, a, q).

(** [add_one_req_ignore_eos]; [allow] is the answer of the prefill delayer,
    [None] without one. *)
Definition add_one_req_ignore_eos (allow : option bool) (a : PrefillAdder) (q : WReq)
    : M E (AddReqResult * PrefillAdder * WReq) :=
  s ← get;
  let paged_input := ceil_paged_tokens a (wr_extend q) in
  if negb (Qle_bool (inject_Z paged_input) (rem_total_tokens a s)) || (cur_rem_tokens a s <? paged_input) then
    result NO_TOKEN a q
  else
    let a := set_req_states (add_req_states a q) a in
    if negb (states_fit (cur_rem_tokens a s - paged_input) 0 (default [] (req_states a))) then result NO_TOKEN a q
    else if bool_decide (allow = Some false) then result OTHER a q
    else
      let whole :=
        let q := set_wr_fill_len (len (full_untruncated_fill_ids q)) q in
        assert_ (wr_fill_len q =? wr_prefix_len q + wr_extend q);;
        with_budget (update_prefill_budget 0 (wr_extend q) (Z.min (wr_max_new_tokens q) CLIP_MAX_NEW_TOKENS)
                       (wr_retracted_stain q) (add_can_run q a)) q in
      match rem_chunk_tokens a with
      | None => whole
      | Some chunk =>
          if wr_extend q <=? chunk then whole
          else if chunk <=? 0 then result OTHER a q
          else
            let q := set_wr_req (set_extend_input_len chunk (wr_req q)) q in
            assert_ (wr_prefix_len q =? 0);;
            let q := set_wr_fill_len (wr_prefix_len q + chunk) q in
            with_budget (update_prefill_budget 0 chunk 0 (wr_retracted_stain q)
                           (set_new_chunked_req q (add_can_run q a))) q
      end.

Definition estimated_new_tokens (q : WReq) : Z :=
  Z.min (Z.max (wr_max_new_tokens q - len (output_ids (wr_req q))) 0) CLIP_MAX_NEW_TOKENS.

(** The length of the next chunk of a request that does not fit one, [None]
    when no page of it does. *)
Definition chunk_len (a : PrefillAdder) (q : WReq) (chunk : Z) (truncation_align_size : option Z) : option Z :=
  let trunc_len := chunk / page_size a * page_size a in
  if trunc_len <=? 0 then None
  else
    let aligned := match truncation_align_size with
      | None => Some trunc_len
      | Some align => if trunc_len <? align then None else Some (align * (trunc_len / align))
      end in
    match aligned with
    | None => None
    | Some trunc_len =>
        let now_input_len := (trunc_len + wr_prefix_len q) / page_size a * page_size a in
        let trunc_len := now_input_len - wr_prefix_len q in
        if trunc_len <=? 0 then None else Some trunc_len
    end.

(** [add_one_req] on a PIC cache: [_lock_node] takes no lock, and the second
    tests of the budget read what the first ones read. *)
Definition add_one_req (allow : option bool) (truncation_align_size : option Z) (a : PrefillAdder) (q : WReq)
    : M E (AddReqResult * PrefillAdder * WReq) :=
  if bool_decide (allow = Some false) then result OTHER a q
  else if dsa_prefill_cp_in_seq_split a && (1 <=? len (can_run_list a)) then result OTHER a q
  else if match prefill_max_requests a with Some x => x <=? len (can_run_list a) | None => false end then result OTHER a q
  else if wr_ignore_eos q && disable cfg then add_one_req_ignore_eos allow a q
  else
    s ← get;
    let total_tokens := wr_extend q + estimated_new_tokens q + page_size a in
    let input_tokens := ceil_paged_tokens a (wr_extend q) in
    let prefix_len := wr_prefix_len q in
    if Qle_bool (rem_total_tokens a s) (inject_Z total_tokens) then result NO_TOKEN a q
    else if negb (bool_decide (is_Some (rem_chunk_tokens a))) && negb (len (can_run_list a) =? 0)
              && (rem_input_tokens a <=? input_tokens) then result OTHER a q
    else
      let whole :=
        let q := set_wr_fill_len (len (full_untruncated_fill_ids q)) q in
        assert_ (wr_fill_len q =? wr_prefix_len q + wr_extend q);;
        req_inc_lock_ref q;;
        with_budget (update_prefill_budget prefix_len input_tokens (Z.min (wr_max_new_tokens q) CLIP_MAX_NEW_TOKENS)
                       (wr_retracted_stain q) (add_can_run q a)) q in
      match rem_chunk_tokens a with
      | None => whole
      | Some chunk =>
          if input_tokens <=? chunk then whole
          else match chunk_len a q chunk truncation_align_size with
               | None => result OTHER a q
               | Some trunc_len =>
                   let q := set_wr_req (set_extend_input_len trunc_len (wr_req q)) q in
                   let q := set_wr_fill_len (wr_prefix_len q + trunc_len) q in
                   req_inc_lock_ref q;;
                   with_budget (update_prefill_budget prefix_len trunc_len 0 (wr_retracted_stain q)
                                  (set_new_chunked_req q (add_can_run q a))) q
               end
      end.

(** [add_chunked_req]: the request, and whether it stays unfinished. *)
Definition add_chunked_req (a : PrefillAdder) (q : WReq) : M E (option WReq * PrefillAdder * WReq) :=
  s ← get;
  chunk ← of_option TypeError (rem_chunk_tokens a);
  let rem_tokens := Z.min chunk (int_of (rem_total_tokens a s)) in
  let rem_tokens := if rem_tokens <=? 0 then chunk else rem_tokens in
  let truncated := rem_tokens <? wr_extend q in
  let q := set_wr_req (set_extend_input_len (Z.min (wr_extend q) rem_tokens) (wr_req q)) q in
  let q := set_wr_fill_len (wr_prefix_len q + wr_extend q) q in
  let a := update_prefill_budget 0 (wr_extend q)
             (if truncated then 0 else Z.min (wr_max_new_tokens q) CLIP_MAX_NEW_TOKENS) (wr_retracted_stain q)
             (add_can_run q a) in
  mret (if truncated then Some q else None, a, q).

(** ** The loop over the waiting queue

    [max_bs] is [pp_max_micro_batch_size], [running_bs] the size of the
    running batch, [pd_prefill] whether this is a PD-prefill worker. *)

Definition num_allocatable_reqs (max_bs running_bs : Z) (s : E) : Z :=
  Z.min (max_bs - running_bs) (pool_available_size (pool s)).

Definition rid_is (q : WReq) (l : list WReq) : bool :=
  match last l with Some x => wr_rid x =? wr_rid q | None => false end.

(** A request that was planned but not added gives back the Mamba slot it
    had got, unless its session holds it. *)
Definition revert_mamba (added : bool) (q : WReq) : M E WReq :=
  match mamba_pool_idx (wr_req q) with
  | Some m =>
      if negb added && negb (wr_session q) then
        mamba_free_m [m];; mret (set_wr_req (set_mamba_pool_idx None (wr_req q)) q)
      else mret q
  | None => mret q
  end.

(** The result: the queue, whose requests are updated in place, the adder and
    [batch_is_full]. *)
Fixpoint build_batch (allow : option bool) (align : option Z) (max_bs running_bs : Z) (pd_prefill : bool)
    (queue : list WReq) (a : PrefillAdder) (full : bool) : M E (list WReq * PrefillAdder * bool) :=
  match queue with
  | [] => mret ([], a, full)
  | q :: queue' =>
      s ← get;
      let full := full || (num_allocatable_reqs max_bs running_bs s <=? len (can_run_list a))
                  || (pd_prefill && (pool_available_size (pool s) <=? len (can_run_list a))) in
      if full then mret (queue, a, full)
      else
        r ← init_next_round_input cfg monotonic (wr_req q);
        res ← add_one_req allow align a (set_wr_req r q);
        let '(code, a, q) := res in
        if bool_decide (code = CONTINUE) then
          rest ← build_batch allow align max_bs running_bs pd_prefill queue' a full;
          mret (q :: rest.1.1, rest.1.2, rest.2)
        else
          let full := full || bool_decide (code = NO_TOKEN) in
          q ← revert_mamba (rid_is q (can_run_list a)) q;
          mret (q :: queue', a, full)
  end.

(** The waiting queue without the requests of the new batch. *)
Definition remaining (queue : list WReq) (a : PrefillAdder) : list WReq :=
  filter (fun q => wr_rid q ∉ wr_rid <$> can_run_list a) queue.

End adder.
