(* ===== verification/PrefillAdderFacts.v ===== *)
(** * The prefill budget

    A batch that the adder admits fits the KV cache, up to the cached tokens
    that its last request locks: these are counted as evictable when the
    request is tested, because [_lock_node] takes no lock on a PIC cache
    ([admitted_batch_allocates]).  Two executions show that both gaps are
    real: the allocation of an admitted batch can run out of slots
    ([hits_overadmitted], [rope_overadmitted]). *)

From stdpp Require Import strings.
From Stdlib Require Import QArith Lqa.
From S2P Require Import Prelude PyDict Policy Allocator Segmenter Engine ReqPool ReqPoolFacts.
From S2P Require Import PICache PICacheFacts PICacheMatch PICacheEvict PICacheReg PICacheRelease CacheCommon NextRound.
From S2P Require Import PicAlloc PicAllocFacts PlanFacts PrefillAdder.
From S2P Require Import TokenAllocator MambaAllocator Scenario.

#[local] Open Scope Z_scope.

(** ** Planning and locking only move recency and locks up *)

Section evolves.
Context {KV MB : Type} `{AllocatorOps KV} `{AllocatorOps MB}.
Implicit Types s : Engine KV MB.

Record evolves s s' : Prop := {
  ev_kv : kv s' = kv s;
  ev_mamba : mamba s' = mamba s;
  ev_pool : pool s' = pool s;
  ev_index : entries s' = entries s;
  ev_length : length (heap s') = length (heap s);
  ev_hash i : seg_hash (deref s' i) = seg_hash (deref s i);
  ev_tokens i : token_ids (deref s' i) = token_ids (deref s i);
  ev_slots i : full_kv_slots (deref s' i) = full_kv_slots (deref s i);
  ev_lock i : lock_ref (deref s i) <= lock_ref (deref s' i);
}.

#[global] Instance evolves_preorder : PreOrder evolves.
Proof.
  split; [by intros s; split|]. intros s1 s2 s3 [] []. split; intros; etrans; eauto.
Qed.

Lemma recency_evolves s s' : same_but_recency s s' -> evolves s s'.
Proof.
  intros Hs. split; intros; try apply Hs.
  - by apply sbr_heap_length.
  - by apply sbr_hash.
  - by apply sbr_token_ids.
  - by apply sbr_kv_slots.
  - by rewrite (sbr_lock _ _ _ Hs).
Qed.

Lemma lock_evolves r s : evolves s (inc_lock_ref r s).2.
Proof.
  unfold inc_lock_ref. cbn [snd]. generalize ((pic_segment_entries r).*2). intros ids. revert s.
  induction ids as [|i ids IH]; intros s; [done|]. rewrite lock_all_cons. etrans; [|apply IH]. split; try done.
  - apply length_alter.
  - intros j. by apply (deref_update_field seg_hash).
  - intros j. by apply (deref_update_field token_ids).
  - intros j. by apply (deref_update_field full_kv_slots).
  - intros j. apply (lock_all_ge [i] s j).
Qed.

Lemma evolves_ok T s s' : evolves s s' -> index_ok T s -> index_ok T s'.
Proof.
  intros Hev [Hd Hw]. split; [by rewrite (ev_index _ _ Hev)|]. intros h i Hin. rewrite (ev_index _ _ Hev) in Hin.
  destruct (Hw h i Hin) as (Hl & Hh & Hs & Ht & Hlock). rewrite (ev_length _ _ Hev). split; [done|]. unfold entry_ok.
  rewrite (ev_hash _ _ Hev), (ev_tokens _ _ Hev). pose proof (ev_lock _ _ Hev i). split_and!; try done. lia.
Qed.

Lemma evolves_aligned s s' : evolves s s' -> kv_aligned s -> kv_aligned s'.
Proof.
  intros Hev Hal h i Hin. rewrite (ev_index _ _ Hev) in Hin. rewrite (ev_slots _ _ Hev), (ev_tokens _ _ Hev). by apply (Hal h).
Qed.

Lemma evolves_planned cfg s s' r : evolves s s' -> planned_req cfg s r -> planned_req cfg s' r.
Proof.
  intros Hev []. split; try done; rewrite (ev_index _ _ Hev); [|done]. intros h Hh.
  destruct (pq_hit h Hh) as (i & ? & ? & ?). exists i. by rewrite (ev_slots _ _ Hev).
Qed.

(** Tokens of the cached segments that a request reuses. *)
Definition hit_tokens s (r : Req) : Z := zsum ((fun i => entry_tokens (deref s i)) <$> (pic_segment_entries r).*2).

Definition weight s (i : nat) : Z := if bool_decide (lock_ref (deref s i) = 0) then entry_tokens (deref s i) else 0.

Lemma evictable_weight s : evictable_size s = zsum (weight s <$> (entries s).*2).
Proof.
  unfold evictable_size, cached_entries, entry_of. induction (entries s) as [|[h i] l IH]; [done|].
  rewrite !fmap_cons, zsum_cons, filter_cons. cbn [snd]. unfold weight at 1. destruct (decide (lock_ref (deref s i) = 0)) as [E|E].
  - rewrite bool_decide_true, fmap_cons, zsum_cons, IH by done. done.
  - rewrite bool_decide_false, IH by done. lia.
Qed.

Lemma zsum_one_drop {A} `{EqDecision A} (f g : A -> Z) l x c : NoDup l -> 0 <= c ->
  (forall y, y ∈ l -> y <> x -> f y <= g y) -> f x <= g x + c -> zsum (f <$> l) <= zsum (g <$> l) + c.
Proof.
  intros Hnd Hc. induction Hnd as [|y l Hy _ IH]; intros Hle Hx; [cbn; lia|]. rewrite !fmap_cons, !zsum_cons.
  destruct (decide (y = x)) as [->|Hne].
  - assert (zsum (f <$> l) <= zsum (g <$> l)); [|lia]. clear IH.
    assert (Hl : forall z, z ∈ l -> f z <= g z) by (intros z Hz; apply Hle; [by right|by intros ->]).
    clear -Hl. induction l as [|z l IH]; [done|]. rewrite !fmap_cons, !zsum_cons.
    pose proof (Hl z ltac:(left)). pose proof (IH (fun z Hz => Hl z (list_elem_of_further _ _ _ Hz))). lia.
  - pose proof (Hle y ltac:(left) Hne). assert (zsum (f <$> l) <= zsum (g <$> l) + c); [|lia]. apply IH; [|done].
    intros z Hz. apply Hle. by right.
Qed.

Lemma lock_evictable ids s : index_wf s ->
  evictable_size s <= evictable_size (lock_all (add_lock 1) ids s) + zsum ((fun i => entry_tokens (deref s i)) <$> ids).
Proof.
  revert s. induction ids as [|i ids IH]; intros s Hw; [cbn; lia|]. rewrite lock_all_cons, fmap_cons, zsum_cons.
  set (s1 := update_entry i (add_lock 1) s). assert (Hw1 : index_wf s1) by (apply (lock_all_wf [i] s Hw)).
  pose proof (IH s1 Hw1) as IH1.
  assert (Htok : forall j, entry_tokens (deref s1 j) = entry_tokens (deref s j)).
  { intros j. unfold entry_tokens. unfold s1. by rewrite (deref_update_field full_kv_slots). }
  rewrite (zsum_ext_in _ (fun j => entry_tokens (deref s j)) ids) in IH1 by (intros; apply Htok).
  assert (evictable_size s <= evictable_size s1 + entry_tokens (deref s i)); [|lia].
  rewrite !evictable_weight. change (entries s1) with (entries s). apply (zsum_one_drop _ _ _ i).
  - by apply index_wf_objects.
  - apply len_nonneg.
  - intros j _ Hne. unfold weight. rewrite Htok. unfold s1. by rewrite deref_update_ne.
  - unfold weight. rewrite Htok. pose proof (len_nonneg (full_kv_slots (deref s i))). unfold entry_tokens. repeat case_bool_decide; lia.
Qed.

Lemma hit_tokens_evolves s s' r : evolves s s' -> hit_tokens s' r = hit_tokens s r.
Proof. intros Hev. apply zsum_ext_in. intros i _. unfold entry_tokens. by rewrite (ev_slots _ _ Hev). Qed.

End evolves.


(** ** Admission *)

Section admission.
Context {KV MB : Type} `{AllocatorOps KV} `{AllocatorOps MB}.
Context (cfg : PICConfig) (monotonic : nat -> Z).
Implicit Types s : Engine KV MB.

(** A waiting request that has not run. *)
Record waiting_ok (q : WReq) : Prop := {
  wo_fresh : fresh_req cfg (wr_req q);
  wo_mamba : mamba_pool_idx (wr_req q) = None;
  wo_max_new : 0 <= wr_max_new_tokens q;
}.

(** The adder of a PIC server: no chunks. *)
Definition pic_adder (a : PrefillAdder) : Prop := rem_chunk_tokens a = None /\ 0 < page_size a.

Lemma ceil_paged_ge a n : 0 < page_size a -> n <= ceil_paged_tokens a n.
Proof.
  intros Hp. unfold ceil_paged_tokens. pose proof (Z.mul_div_le (- n) (page_size a) Hp). lia.
Qed.

Lemma inject_le x y : x <= y -> (inject_Z x <= inject_Z y)%Q.
Proof. by rewrite <- Zle_Qle. Qed.

(** What an accepted request does to the adder. *)
Record accepted (a : PrefillAdder) s (q : WReq) (a' : PrefillAdder) (q' : WReq) : Prop := {
  ac_list : can_run_list a' = can_run_list a ++ [q'];
  ac_req : wr_req q' = wr_req q;
  ac_rid : wr_rid q' = wr_rid q;
  ac_new : estimated_new_tokens q' = estimated_new_tokens q;
  ac_pic : pic_adder a';
  ac_page : page_size a' = page_size a;
  ac_offset : (rem_total_token_offset a + inject_Z (wr_extend q) <= rem_total_token_offset a')%Q;
  ac_room : (rem_total_token_offset a + inject_Z (wr_extend q + estimated_new_tokens q + page_size a) <
             inject_Z (available_and_evictable s))%Q;
}.

Lemma add_one_req_spec allow align a q s :
  pic_adder a -> disable cfg = false -> 0 <= wr_max_new_tokens q ->
  wr_prefix_len q + wr_extend q = len (full_untruncated_fill_ids q) ->
  wp (add_one_req cfg allow align a q)
     (fun res s' => let '(code, a', q') := res in
        (code <> CONTINUE /\ a' = a /\ q' = q /\ s' = s) \/
        (accepted a s q a' q' /\ s' = (inc_lock_ref (wr_req q) s).2))
     (fun _ _ => False) s.
Proof.
  intros [Hch Hpg] Hdis Hmn Hlen. unfold add_one_req, result. rewrite Hdis, andb_false_r, Hch.
  case_if; [apply wp_ret; left; split_and!; done|]. case_if; [apply wp_ret; left; split_and!; done|].
  case_if; [apply wp_ret; left; split_and!; done|]. apply wp_bind, wp_get.
  destruct (Qle_bool (rem_total_tokens a s) _) eqn:Hroom; [apply wp_ret; left; split_and!; done|].
  case_if; [apply wp_ret; left; split_and!; done|]. apply wp_bind. unfold assert_, wp at 1.
  change (wr_fill_len (set_wr_fill_len _ q)) with (len (full_untruncated_fill_ids q)).
  change (wr_prefix_len (set_wr_fill_len _ q)) with (wr_prefix_len q). change (wr_extend (set_wr_fill_len _ q)) with (wr_extend q).
  rewrite (proj2 (Z.eqb_eq _ _)) by lia. apply wp_bind. unfold req_inc_lock_ref. apply wp_bind, wp_lift, wp_ret.
  unfold with_budget. apply wp_bind, wp_get, wp_ret. right. split; [|done].
  split; try done; [by split; cbn; rewrite ?Hch|..].
  - cbn [rem_total_token_offset update_prefill_budget add_can_run]. apply Qplus_le_r, inject_le.
    pose proof (ceil_paged_ge a (wr_extend q) Hpg). pose proof (ceil_paged_ge a (ceil_paged_tokens a (wr_extend q)) Hpg).
    change (ceil_paged_tokens (add_can_run _ a)) with (ceil_paged_tokens a). cbn [page_size wr_max_new_tokens set_wr_fill_len].
    change (page_size (add_can_run _ a)) with (page_size a). unfold CLIP_MAX_NEW_TOKENS. lia.
  - apply not_true_iff_false in Hroom. rewrite Qle_bool_iff in Hroom. apply Qnot_le_lt in Hroom. unfold rem_total_tokens in Hroom. lra.
Qed.

Definition extend_total (l : list WReq) : Z := zsum (wr_extend <$> l).

(** The requests [new] joined the batch: they are planned and hold locks on
    their hits, and they fit, up to what the last one locked. *)
Record admitted (a : PrefillAdder) s (a' : PrefillAdder) s' (new : list WReq) : Prop := {
  ad_evolves : evolves s s';
  ad_list : can_run_list a' = can_run_list a ++ new;
  ad_planned q : q ∈ new -> planned_req cfg s' (wr_req q);
  ad_locked q i : q ∈ new -> i ∈ (pic_segment_entries (wr_req q)).*2 -> 0 < lock_ref (deref s' i);
  ad_none : new = [] -> available_and_evictable s' = available_and_evictable s;
  ad_fits q : last new = Some q ->
    (rem_total_token_offset a + inject_Z (extend_total new + estimated_new_tokens q + page_size a) <
     inject_Z (available_and_evictable s' + hit_tokens s' (wr_req q)))%Q;
}.

Lemma admitted_none a s s' : same_but_recency s s' -> admitted a s a s' [].
Proof.
  intros Hs. split; [by apply recency_evolves|by rewrite app_nil_r|by intros q ?%not_elem_of_nil|by intros q i ?%not_elem_of_nil| |done].
  intros _. unfold available_and_evictable. rewrite (sbr_kv _ _ Hs). f_equal. symmetry. by apply evictable_size_proper.
Qed.

(** One request admitted in a state where it is planned. *)
Lemma admitted_one T a s0 s q a' q' : index_ok T s -> same_but_recency s0 s -> planned_req cfg s (wr_req q) -> accepted a s q a' q' ->
  admitted a s0 a' (inc_lock_ref (wr_req q) s).2 [q'].
Proof.
  intros Hok Hs Hpl [Hl Hr _ Hnew Hpic Hpage Hoff Hroom]. pose proof (lock_evolves (wr_req q) s) as Hev. split.
  - etrans; [by apply recency_evolves|done].
  - done.
  - intros x ->%list_elem_of_singleton. rewrite Hr. by eapply evolves_planned.
  - intros x i ->%list_elem_of_singleton Hi. rewrite Hr in Hi. apply (pq_entries _ _ _ Hpl) in Hi as Hin.
    apply list_elem_of_fmap in Hin as ([h j] & -> & Hin). destruct (proj2 Hok _ _ Hin) as [Hlen (_ & _ & _ & Hlk)]. cbn [snd] in *.
    pose proof (lock_all_locked _ s j Hi Hlen) as Hlt. unfold inc_lock_ref. cbn [snd]. lia.
  - done.
  - intros x [= <-]. rewrite (hit_tokens_evolves _ _ _ Hev), Hr, Hnew.
    eapply Qlt_le_trans; [|apply inject_le; unfold available_and_evictable; rewrite (ev_kv _ _ Hev);
      pose proof (lock_evictable (pic_segment_entries (wr_req q)).*2 s (index_ok_wf _ _ Hok)) as Hle;
      unfold hit_tokens, inc_lock_ref; cbn [snd]; rewrite <- Z.add_assoc; apply Zplus_le_compat_l, Hle].
    unfold extend_total. rewrite list_fmap_singleton. cbn [zsum foldr]. unfold wr_extend at 1. rewrite Hr, Z.add_0_r. exact Hroom.
Qed.

Lemma admitted_trans a s a1 s1 q a' s' new : admitted a s a1 s1 [q] ->
  (rem_total_token_offset a + inject_Z (wr_extend q) <= rem_total_token_offset a1)%Q -> page_size a1 = page_size a ->
  admitted a1 s1 a' s' new -> admitted a s a' s' (q :: new).
Proof.
  intros [Hev1 Hl1 Hp1 Hk1 _ Hf1] Hoff Hpage [Hev Hl Hp Hk Hn Hf]. split.
  - by etrans.
  - by rewrite Hl, Hl1, <- app_assoc.
  - intros x [->|Hx]%elem_of_cons; [|by apply Hp]. eapply evolves_planned; [exact Hev|]. apply Hp1. left.
  - intros x i [->|Hx]%elem_of_cons Hi; [|by eapply Hk]. pose proof (Hk1 q i ltac:(left) Hi). pose proof (ev_lock _ _ Hev i). lia.
  - done.
  - intros x Hx. destruct (decide (new = [])) as [->|Hne].
    + injection Hx as <-. rewrite (Hn eq_refl), (hit_tokens_evolves _ _ _ Hev). by apply Hf1.
    + assert (Hlast : last new = Some x) by (destruct new; [done|exact Hx]). specialize (Hf x Hlast). rewrite Hpage in Hf.
      unfold extend_total in *. rewrite fmap_cons, zsum_cons. rewrite !inject_Z_plus in *. lra.
Qed.

Lemma admit_spec T allow align max_bs running_bs pd queue : disable cfg = false -> seam_sink_ok cfg ->
  forall a full s, pic_adder a -> index_ok T s -> kv_aligned s -> Forall waiting_ok queue ->
  wp (build_batch cfg monotonic allow align max_bs running_bs pd queue a full)
     (fun res s' => exists new, admitted a s res.1.2 s' new /\
        wr_rid <$> res.1.1 = wr_rid <$> queue /\ (wr_rid <$> new) `prefix_of` (wr_rid <$> queue))
     (fun _ _ => False) s.
Proof.
  intros Hdis Hk. induction queue as [|q queue IH]; intros a full s Hpic Hok Hal HF.
  { apply wp_ret. exists []. split; [by apply admitted_none|done]. }
  apply Forall_cons in HF as [[Hfr Hmb Hmn] HF]. cbn [build_batch]. apply wp_bind, wp_get. cbv zeta.
  case_if; [apply wp_ret; exists []; split; [by apply admitted_none|]; split; [done|apply prefix_nil]|].
  apply wp_bind. eapply wp_mono; [by eapply (init_next_round_planned cfg monotonic T)| |done].
  intros r s1 (Hs1 & Hpl & Hids & Hout & Hmb1 & Hlen).
  assert (Hok1 : index_ok T s1) by (by rewrite <- Hs1). pose proof (kv_aligned_recency _ _ Hs1 Hal) as Hal1.
  apply wp_bind. eapply wp_mono; [apply (add_one_req_spec allow align a (set_wr_req r q) s1 Hpic Hdis)| |done]; [done| |].
  { unfold full_untruncated_fill_ids, wr_prefix_len, wr_extend. cbn [wr_req set_wr_req]. rewrite Hids, Hout, app_nil_r. done. }
  intros [[code a1] q1] s2 [(Hne & -> & -> & ->)|[Hacc ->]].
  - rewrite bool_decide_false by done. apply wp_bind. unfold revert_mamba. cbn [wr_req set_wr_req]. rewrite Hmb1, Hmb.
    apply wp_ret, wp_ret. exists []. split; [by apply admitted_none|]. split; [done|apply prefix_nil].
  - pose proof (admitted_one T a s s1 (set_wr_req r q) a1 q1 Hok1 Hs1 Hpl Hacc) as Had.
    pose proof (lock_evolves (wr_req (set_wr_req r q)) s1) as Hev. pose proof (ac_rid _ _ _ _ _ Hacc) as Hrid. cbn [wr_rid set_wr_req] in Hrid.
    case_bool_decide.
    + apply wp_bind. eapply wp_mono; [apply (IH a1)| |done];
        [apply (ac_pic _ _ _ _ _ Hacc)|by eapply evolves_ok|by eapply evolves_aligned|done|].
      intros [[queue' a2] full'] s3 (new & Hnew & Hrids & Hpre). apply wp_ret. exists (q1 :: new). cbn [fst snd] in *.
      split; [eapply admitted_trans; [exact Had| |apply (ac_page _ _ _ _ _ Hacc)|exact Hnew]|].
      { pose proof (ac_offset _ _ _ _ _ Hacc) as Ho. unfold wr_extend in *. by rewrite (ac_req _ _ _ _ _ Hacc). }
      rewrite !fmap_cons, Hrid, Hrids. split; [done|]. by apply prefix_cons.
    + apply wp_bind. unfold revert_mamba. rewrite (ac_req _ _ _ _ _ Hacc). cbn [wr_req set_wr_req]. rewrite Hmb1, Hmb.
      apply wp_ret, wp_ret. exists [q1]. split; [done|]. cbn [fst snd]. rewrite !fmap_cons, Hrid. split; [done|]. apply prefix_cons, prefix_nil.
Qed.

End admission.

Section allocation.
Context {KV MB : Type} `{Allocator KV} `{Allocator MB}.
Context (cfg : PICConfig) (monotonic : nat -> Z).
Implicit Types s : Engine KV MB.

Lemma planned_extend s r : recompute (policy cfg) = false -> planned_req cfg s r ->
  extend_input_len r = seg_total (pic_miss_segments r).
Proof.
  intros Hrc Hpl. destruct (pq_pos _ _ _ Hpl) as (pos & _ & _ & _ & Hplain & ->). rewrite (Hplain (pq_plain _ _ _ Hpl Hrc)).
  assert (Hb : forall seg, seg ∈ pic_miss_segments r -> seg.1 <= seg.2).
  { intros [a b] Hin. assert (Hin' : (a, b) ∈ segs_of r) by (rewrite (pq_split _ _ _ Hpl), elem_of_app; by right).
    eapply tiles_elem in Hin'; [|apply (pq_tiles _ _ _ Hpl)]. cbn. lia. }
  clear Hplain. induction (pic_miss_segments r) as [|seg segs IH]; [done|]. rewrite fmap_cons, seg_total_cons. cbn [concat].
  rewrite len_app, len_pyrange, IH by (intros; apply Hb; by right). pose proof (Hb seg ltac:(left)). lia.
Qed.

Lemma batch_miss_extend s batch : recompute (policy cfg) = false -> (forall q, q ∈ batch -> planned_req cfg s (wr_req q)) ->
  batch_miss (wr_req <$> batch) = extend_total batch.
Proof.
  intros Hrc Hpl. unfold batch_miss, extend_total. rewrite <- list_fmap_compose. apply zsum_ext_in.
  intros q Hq. symmetry. apply (planned_extend s); auto.
Qed.

(** The row [idx] has room for the prompt of [q]. *)
Definition row_for s (idx : Z) (q : WReq) : Prop :=
  exists row, row_at (pool s) idx = Some row /\ len (origin_input_ids (wr_req q)) <= len row.

Lemma rows_plan_ok s rows batch : (forall q, q ∈ batch -> planned_req cfg s (wr_req q)) -> Forall2 (row_for s) rows batch ->
  Forall2 (plan_ok s) rows (wr_req <$> batch).
Proof.
  intros Hpl Hrows. apply Forall2_fmap_r. induction Hrows as [|idx q rows batch (row & Hrow & Hlen) _ IH]; constructor.
  - eapply planned_plan_ok; [apply Hpl; left|done|done].
  - apply IH. intros x Hx. apply Hpl. by right.
Qed.

(** C14. A batch that the prefill adder admits (modes without re-rotation)
    keeps to the order of the queue and fits the KV cache up to the cached
    tokens that its last request locks: together with what is reserved for
    running requests and for the output of the last request, the tokens to
    compute are fewer than the free and evictable slots plus those tokens.
    So when the last request reuses no more tokens than are reserved for its
    output, the allocation of the batch does not run out of KV slots. *)
Theorem admitted_batch_allocates T allow align max_bs running_bs pd queue a full s :
  disable cfg = false -> seam_sink_ok cfg -> recompute (policy cfg) = false ->
  pic_adder a -> can_run_list a = [] -> (0 <= rem_total_token_offset a)%Q ->
  index_ok T s -> kv_aligned s -> alloc_ready (kv s) -> alloc_ready (mamba s) -> Forall (waiting_ok cfg) queue ->
  wp (build_batch cfg monotonic allow align max_bs running_bs pd queue a full)
     (fun res s' => let batch := can_run_list res.1.2 in
        (wr_rid <$> batch) `prefix_of` (wr_rid <$> queue) /\
        forall q, last batch = Some q ->
          (rem_total_token_offset a + inject_Z (extend_total batch + estimated_new_tokens q + page_size a) <
           inject_Z (capacity s' + hit_tokens s' (wr_req q)))%Q /\
          (hit_tokens s' (wr_req q) <= estimated_new_tokens q + page_size a ->
           forall rows, NoDup rows -> Forall2 (row_for s') rows batch -> batch_mamba cfg (wr_req <$> batch) <= mcap s' ->
           wp (std_fill cfg rows (wr_req <$> batch))
              (fun r s'' => std_filled cfg rows (wr_req <$> batch) s' r.1 r.2 s'') (fun _ _ => False) s'))
     (fun _ _ => False) s.
Proof.
  intros Hdis Hk Hrc Hpic Hnil Hoff Hok Hal Hkv Hmb HF. eapply wp_mono; [by apply (admit_spec cfg monotonic T)| |done].
  intros [[queue' a'] full'] s' (new & [Hev Hl Hpl _ _ Hf] & _ & Hpre). cbn [fst snd] in *. cbv zeta. rewrite Hl, Hnil. cbn [app].
  split; [done|]. intros q Hq. specialize (Hf q Hq). split; [exact Hf|]. intros Hhit rows Hnd Hrows Hm.
  apply std_fill_spec; [| | |done|by apply rows_plan_ok| |done].
  - eapply index_ok_wf, evolves_ok; done.
  - by rewrite (ev_kv _ _ Hev).
  - by rewrite (ev_mamba _ _ Hev).
  - rewrite (batch_miss_extend s') by done. assert (Hlt : (inject_Z (extend_total new + estimated_new_tokens q + page_size a) <
      inject_Z (capacity s' + hit_tokens s' (wr_req q)))%Q).
    { change (available_and_evictable s') with (capacity s') in Hf. lra. }
    rewrite <- Zlt_Qlt in Hlt. lia.
Qed.

End allocation.

(** ** The order of the estimates *)

(** The scan for the place of a new estimate stops at the last element even
    when that is smaller, so the largest estimate is inserted before it and
    the list is no longer sorted by the tokens left. *)
Theorem insert_state_unsorted st y x :
  Forall (fun z => z.1 < x.1)%Q (st ++ [y]) -> insert_state x (st ++ [y]) = st ++ [x; y] /\ (y.1 < x.1)%Q.
Proof.
  intros HF. split; [|apply Forall_app in HF as [_ HF]; by apply Forall_inv in HF].
  assert (E : forall i, insert_index x.1 i (st ++ [y]) = (i + length st)%nat).
  { induction st as [|z st IH]; intros i; cbn [app insert_index length]; [lia|]. apply Forall_cons in HF as [Hz HF].
    specialize (IH HF (S i)). destruct (st ++ [y]) as [|w l] eqn:El; [by destruct st|].
    destruct (Qle_bool x.1 z.1) eqn:Eb; [apply Qle_bool_iff in Eb; lra|]. rewrite IH. lia. }
  unfold insert_state. rewrite E. cbn [Nat.add]. by rewrite take_app_length, drop_app_length.
Qed.

Lemma insert_state_unsorted_witness : insert_state ((9 # 1)%Q, 4) [((3 # 1)%Q, 1); ((5 # 1)%Q, 2)] = [((3 # 1)%Q, 1); ((9 # 1)%Q, 4); ((5 # 1)%Q, 2)].
Proof. apply (insert_state_unsorted [((3 # 1)%Q, 1)] ((5 # 1)%Q, 2)). repeat constructor; reflexivity. Defined.

(** ** Executions *)

Definition demo_adder : PrefillAdder := adder_init 1 (Some []) (7 # 10) 16384 None 0 None false.
Definition demo_waiting (rid max_new : Z) (r : Req) : WReq := mkWReq rid r max_new false false false 0.
(** An engine with [n] KV slots. *)
Definition small_engine (n : Z) : demo_engine :=
  mkEngine (token_alloc_init n false) (mamba_alloc_init 8) (pool_init 4 32 false false 0) [] [] 0 0 0.

Lemma admitted_batch_allocates_witness :
  let cfg := demo_cfg "transition" (-1) in
  wp (build_batch cfg demo_clock None None 4 0 false [demo_waiting 1 16 next_round_req] demo_adder false)
     (fun res s' => let batch := can_run_list res.1.2 in
        (wr_rid <$> batch) `prefix_of` [1] /\
        forall q, last batch = Some q ->
          (0 + inject_Z (extend_total batch + estimated_new_tokens q + 1) <
           inject_Z (capacity s' + hit_tokens s' (wr_req q)))%Q /\
          (hit_tokens s' (wr_req q) <= estimated_new_tokens q + 1 ->
           forall rows, NoDup rows -> Forall2 (row_for s') rows batch -> batch_mamba cfg (wr_req <$> batch) <= mcap s' ->
           wp (std_fill cfg rows (wr_req <$> batch))
              (fun r s'' => std_filled cfg rows (wr_req <$> batch) s' r.1 r.2 s'') (fun _ _ => False) s'))
     (fun _ _ => False) next_round_demo /\
  exists queue a full s out reqs' s', build_batch cfg demo_clock None None 4 0 false [demo_waiting 1 16 next_round_req] demo_adder false
      next_round_demo = (Ret (queue, a, full), s) /\
    std_fill cfg [1] (wr_req <$> can_run_list a) s = (Ret (out, reqs'), s') /\ len out = 3.
Proof.
  intros cfg. split; [|do 7 eexists; split; [vm_compute; reflexivity|]; split; [vm_compute; reflexivity|reflexivity]].
  apply (admitted_batch_allocates cfg demo_clock [[7; 8; 9]] None None 4 0 false [demo_waiting 1 16 next_round_req] demo_adder false next_round_demo).
  - reflexivity.
  - apply seam_sink_default_ok.
  - reflexivity.
  - split; [reflexivity|reflexivity].
  - reflexivity.
  - apply Qle_refl.
  - eval_decide.
  - eval_decide.
  - vm_compute. split; [reflexivity|intros _; reflexivity].
  - vm_compute. reflexivity.
  - constructor; [|constructor]. split; [|reflexivity|vm_compute; discriminate].
    split; [vm_compute; repeat split|discriminate|reflexivity|reflexivity].
Defined.

(** All 8 slots hold one cached segment, which the prompt reuses. *)
Definition full_engine : demo_engine := demo_cache [1; 2; 3; 4; 5; 6; 7; 8] (small_engine 8).
Definition reuse_req : Req := demo_req [1; 2; 3; 4; 5; 6; 7; 8; 20; 21] [(0, 8); (8, 10)].


(** In the re-rotation modes the adder counts the tokens to compute once,
    while the allocation takes private and public slots for them (and
    private slots for reused tokens): here 8 slots are reserved for 6 tokens
    and their output, 10 are needed, 9 exist, and the allocation of the
    admitted batch raises [RuntimeError]. *)
Theorem rope_overadmitted :
  let cfg := demo_cfg "transition_rope" (-1) in
  let r := demo_req [1; 2; 3; 4; 20; 21] [(0, 4); (4, 6)] in
  exists queue a full s, build_batch cfg demo_clock None None 4 0 false [demo_waiting 1 1 r] demo_adder false (small_engine 9) =
      (Ret (queue, a, full), s) /\
    wr_rid <$> can_run_list a = [1] /\
    (rope_fill cfg [1] (wr_req <$> can_run_list a) s).1 = Raise RuntimeError.
Proof. intros cfg r. do 4 eexists. split; [vm_compute; reflexivity|]. vm_compute. done. Qed.
