(* ===== verification/PrefillChain.v ===== *)
(** * From the waiting queue to the layers

    The composition of scheduling, planning, locking, allocation and the
    construction of the forward batch in the re-rotation modes: the layers
    get what their theorems ask for ([RopeForwardFacts]). *)

From stdpp Require Import strings.
From Stdlib Require Import QArith.
From S2P Require Import Prelude PyDict Policy Allocator Segmenter Engine ReqPool ReqPoolFacts.
From S2P Require Import PICache PICacheFacts PICacheMatch PICacheEvict PICacheReg PICacheRelease CacheCommon NextRound.
From S2P Require Import PicAlloc PicAllocFacts RopeAllocFacts.
From S2P Require Import RopeKV RopeForward RopePlanFacts RopeForwardFacts ForwardBatch ForwardBatchFacts.
From S2P Require Import PlanFacts PrefillAdder PrefillAdderFacts TokenAllocator MambaAllocator Scenario.

#[local] Open Scope Z_scope.

Section chain.
Context {KV MB : Type} `{Allocator KV} `{Allocator MB}.
Context (cfg : PICConfig) (monotonic : nat -> Z).
Implicit Types s : Engine KV MB.
Local Abbreviation rc := (recompute (policy cfg)).

(** What the full-attention layers need of an allocated batch: the metadata
    [metas] can be built and is well formed, no slot that the batch writes
    is shared, free or indexed, and the slots it reuses are indexed. *)
Record layers_ready (reqs' : list Req) (metas : list RopeMeta) s : Prop := {
  lr_metas : omapM (rope_meta_of rc) reqs' = Ret metas;
  lr_typed : Forall (preq_ok rc) (zip_with preq_of reqs' metas);
  lr_owned : NoDup (owned rc (zip_with preq_of reqs' metas) ++ pool_slots (kv s) ++ entries_kv s);
  lr_reused r' x d : r' ∈ reqs' -> x ∈ pic_rope_hit_private_slots r' -> d ∈ x.2.2 -> d ∈ entries_kv s;
}.

Lemma batch_rope_plan_ok s rows batch : (forall q, q ∈ batch -> planned_req cfg s (wr_req q)) -> Forall2 (row_for s) rows batch ->
  Forall2 (rope_plan_ok cfg s) rows (wr_req <$> batch).
Proof.
  intros Hpl Hrows. apply Forall2_fmap_r. induction Hrows as [|idx q rows batch (row & Hrow & Hlen) _ IH]; constructor.
  - eapply planned_rope_plan_ok; [apply Hpl; left|done|done].
  - apply IH. intros x Hx. apply Hpl. by right.
Qed.

(** C13. From the waiting queue to the layers, in the re-rotation modes: the
    requests that the scheduler plans, admits and locks can be allocated
    whenever their slots fit the capacity; building the metadata of the
    allocated batch then raises nothing; the metadata of every request is
    well formed -- its computed, reused and last segments tile the prompt,
    carry the private and public slots of their positions, and contain the
    sinks; the slots that the layers write are pairwise distinct and neither
    free nor indexed; and the slots of the reused segments are still in the
    index, so that the allocation has evicted none of them. *)
Theorem scheduled_batch_typed T allow align max_bs running_bs pd queue a full s :
  disable cfg = false -> seam_sink_ok cfg -> pic_adder a -> can_run_list a = [] ->
  index_ok T s -> kv_aligned s -> alloc_ready (kv s) -> alloc_ready (mamba s) -> Forall (waiting_ok cfg) queue ->
  NoDup (pool_slots (kv s) ++ entries_kv s) ->
  wp (build_batch cfg monotonic allow align max_bs running_bs pd queue a full)
     (fun res s' => let batch := can_run_list res.1.2 in let reqs := wr_req <$> batch in
        forall rows, NoDup rows -> Forall2 (row_for s') rows batch ->
          total_miss reqs + total_pub reqs + total_hit reqs <= capacity s' -> total_mamba reqs <= mcap s' ->
          wp (rope_fill cfg rows reqs)
             (fun r s'' => exists metas, length metas = length reqs /\ layers_ready r.2 metas s'') (fun _ _ => False) s')
     (fun _ _ => False) s.
Proof.
  intros Hdis Hk Hpic Hnil Hok Hal Hkv Hmb HF Hdist. eapply wp_mono; [by apply (admit_spec cfg monotonic T)| |done].
  intros [[queue' a'] full'] s' (new & [Hev Hl Hpl Hlk _ _] & _ & _). cbn [fst snd] in *. cbv zeta. rewrite Hl, Hnil. cbn [app].
  intros rows Hnd Hrows Hc Hm. eapply wp_mono; [apply (rope_fill_typed cfg rows)| |done].
  - eapply index_ok_wf, evolves_ok; done.
  - by rewrite (ev_kv _ _ Hev).
  - by rewrite (ev_mamba _ _ Hev).
  - done.
  - by apply batch_rope_plan_ok.
  - apply Forall_fmap, Forall_forall. intros q Hq. by eapply planned_planned, Hpl.
  - intros r h (q & -> & Hq)%list_elem_of_fmap Hh. destruct (pq_hit _ _ _ (Hpl q Hq) h Hh) as (i & Hi & Hin & _). exists i.
    split; [done|]. split; [done|]. apply dict_get_elem, (list_elem_of_fmap_2 snd) in Hi. pose proof (Hlk q i Hq Hi). lia.
  - done.
  - done.
  - rewrite (ev_kv _ _ Hev). assert (E : entries_kv s' = entries_kv s); [|by rewrite E].
    unfold entries_kv, entry_of, compose. rewrite (ev_index _ _ Hev). apply f_equal, list_fmap_ext. intros j x _. apply (ev_slots _ _ Hev).
  - intros [out reqs'] s'' (metas & E & Hlen & Ht & Ho & Hr). exists metas. by split.
Qed.

End chain.

Lemma scheduled_batch_typed_witness :
  let cfg := demo_cfg "transition_rope_recompute" (-1) in
  wp (build_batch cfg demo_clock None None 4 0 false [demo_waiting 1 16 next_round_req] demo_adder false)
     (fun res s' => let batch := can_run_list res.1.2 in let reqs := wr_req <$> batch in
        forall rows, NoDup rows -> Forall2 (row_for s') rows batch ->
          total_miss reqs + total_pub reqs + total_hit reqs <= capacity s' -> total_mamba reqs <= mcap s' ->
          wp (rope_fill cfg rows reqs)
             (fun r s'' => exists metas, length metas = length reqs /\ layers_ready cfg r.2 metas s'') (fun _ _ => False) s')
     (fun _ _ => False) next_round_demo /\
  exists queue a full s out reqs' s', build_batch cfg demo_clock None None 4 0 false [demo_waiting 1 16 next_round_req] demo_adder false
      next_round_demo = (Ret (queue, a, full), s) /\
    rope_fill cfg [1] (wr_req <$> can_run_list a) s = (Ret (out, reqs'), s') /\ len out = 5.
Proof.
  intros cfg. split; [|do 7 eexists; split; [vm_compute; reflexivity|]; split; [vm_compute; reflexivity|reflexivity]].
  apply (scheduled_batch_typed cfg demo_clock [[7; 8; 9]] None None 4 0 false [demo_waiting 1 16 next_round_req] demo_adder false next_round_demo).
  - reflexivity.
  - apply seam_sink_default_ok.
  - split; reflexivity.
  - reflexivity.
  - eval_decide.
  - eval_decide.
  - vm_compute. split; [reflexivity|intros _; reflexivity].
  - vm_compute. reflexivity.
  - constructor; [|constructor]. split; [|reflexivity|vm_compute; discriminate].
    split; [vm_compute; repeat split|discriminate|reflexivity|reflexivity].
  - eval_decide.
Defined.
