(* ===== verification/ServerArgs.v ===== *)
(** * The configuration of a PIC server

    [ServerArgs.check_pic_constraints] (srt/server_args.py) and the chunk size
    that the scheduler derives ([Scheduler.init_chunked_prefill]).  A server
    that starts with PIC prefills without chunks, which is what the theorems
    on the prefill adder assume. *)

From stdpp Require Import strings.
From Stdlib Require Import QArith.
From S2P Require Import Prelude PyDict Policy PrefillAdder PrefillAdderFacts.

#[local] Open Scope Z_scope.

Record ServerArgs := mkServerArgs {
  pic_enable : bool;
  pic_mode : string;
  linear_attn_prefill_backend : option string;
  linear_attn_decode_backend : option string;
  sa_chunked_prefill_size : option Z;
  sa_page_size : option Z;
  mamba_scheduler_strategy : string;
  hicache_storage_backend : option string;
}.

Definition set_backends (v : option string) (a : ServerArgs) : ServerArgs :=
  mkServerArgs (pic_enable a) (pic_mode a) v v (sa_chunked_prefill_size a) (sa_page_size a)
    (mamba_scheduler_strategy a) (hicache_storage_backend a).
Definition set_strategy (v : string) (a : ServerArgs) : ServerArgs :=
  mkServerArgs (pic_enable a) (pic_mode a) (linear_attn_prefill_backend a) (linear_attn_decode_backend a)
    (sa_chunked_prefill_size a) (sa_page_size a) v (hicache_storage_backend a).

(** The assertions and overrides; warnings are left out. *)
Definition check_pic_constraints (a : ServerArgs) : outcome ServerArgs :=
  if negb (pic_enable a) then Ret a
  else
    match dict_get (pic_mode a) POLICIES with
    | None => Raise AssertionError
    | Some p =>
        let a := if bool_decide (compose p = TRANSITION) then set_backends (Some "triton"%string) a else a in
        if negb (bool_decide (sa_chunked_prefill_size a = Some (-1))) then Raise AssertionError
        else if negb (bool_decide (sa_page_size a = None \/ sa_page_size a = Some 1)) then Raise AssertionError
        else
          let a := if bool_decide (mamba_scheduler_strategy a = "no_buffer"%string) then a
                   else set_strategy "no_buffer"%string a in
          if bool_decide (is_Some (hicache_storage_backend a)) then Raise AssertionError else Ret a
    end.

(** [init_chunked_prefill]: a size that is not positive disables chunks, and
    so does a multimodal model on the Transformers backend. *)
Definition init_chunked_prefill (multimodal_transformers : bool) (a : ServerArgs) : option Z :=
  match sa_chunked_prefill_size a with
  | Some n => if (0 <? n) && multimodal_transformers then None else if n <=? 0 then None else Some n
  | None => None
  end.

(** A server that passes the check runs a known mode without chunks on pages
    of one token and without a storage tier, with both linear-attention
    backends on Triton in the transition modes; checking again changes
    nothing; and the prefill adder it builds is the one of a PIC server. *)
Theorem pic_server_config a a' mm running ratio rem_input mixed max_requests dsa :
  pic_enable a = true -> check_pic_constraints a = Ret a' ->
  check_pic_constraints a' = Ret a' /\ is_Some (dict_get (pic_mode a') POLICIES) /\
  init_chunked_prefill mm a' = None /\ (sa_page_size a' = None \/ sa_page_size a' = Some 1) /\
  hicache_storage_backend a' = None /\
  (forall p, dict_get (pic_mode a') POLICIES = Some p -> compose p = TRANSITION ->
     linear_attn_prefill_backend a' = Some "triton"%string /\ linear_attn_decode_backend a' = Some "triton"%string) /\
  pic_adder (adder_init 1 running ratio rem_input (init_chunked_prefill mm a') mixed max_requests dsa).
Proof.
  intros Hen. unfold check_pic_constraints. rewrite Hen. cbn [negb]. destruct (dict_get (pic_mode a) POLICIES) as [p|] eqn:Ep; [|done].
  set (a1 := if bool_decide (compose p = TRANSITION) then _ else a).
  assert (E1 : pic_enable a1 = true /\ pic_mode a1 = pic_mode a) by (unfold a1; destruct (bool_decide _); split; done).
  destruct E1 as [E1 Em].
  case_bool_decide as Hc; [|done]. case_bool_decide as Hp; [|done]. cbn [negb].
  set (a2 := if bool_decide (mamba_scheduler_strategy a1 = _) then _ else _).
  assert (E2 : pic_enable a2 = true /\ pic_mode a2 = pic_mode a /\ sa_chunked_prefill_size a2 = Some (-1) /\
    sa_page_size a2 = sa_page_size a1 /\ hicache_storage_backend a2 = hicache_storage_backend a1 /\
    mamba_scheduler_strategy a2 = "no_buffer"%string /\ linear_attn_prefill_backend a2 = linear_attn_prefill_backend a1 /\
    linear_attn_decode_backend a2 = linear_attn_decode_backend a1).
  { unfold a2. clearbody a1. case_bool_decide; destruct a1; cbn in *; subst; split_and!; reflexivity. }
  destruct E2 as (H1 & H2 & H3 & H4 & H5 & H6 & H7 & H8). case_bool_decide as Hh; [done|]. intros [= <-].
  assert (Htr : compose p = TRANSITION -> set_backends (Some "triton"%string) a2 = a2).
  { intros Ht. assert (Hb : linear_attn_prefill_backend a2 = Some "triton"%string /\ linear_attn_decode_backend a2 = Some "triton"%string).
    { rewrite H7, H8. unfold a1. by rewrite bool_decide_true. }
    destruct a2; cbn in *. destruct Hb as [-> ->]. done. }
  assert (Hchunk : init_chunked_prefill mm a2 = None) by (unfold init_chunked_prefill; by rewrite H3).
  rewrite H1, H2, Ep. cbn [negb]. split_and!; try done.
  - replace (if bool_decide (compose p = TRANSITION) then _ else a2) with a2 by (case_bool_decide; [by rewrite Htr|done]).
    rewrite H3, bool_decide_true by done. rewrite bool_decide_true by (by rewrite H4). cbn [negb].
    rewrite (bool_decide_true _ H6). rewrite (bool_decide_false _ Hh). done.
  - by rewrite H4.
  - destruct (hicache_storage_backend a2); [|done]. destruct Hh. by eexists.
  - intros p' [= <-] Ht. specialize (Htr Ht). split; by rewrite <- Htr.
  - rewrite Hchunk. split; [done|reflexivity].
Qed.

Lemma pic_server_config_witness :
  let a := mkServerArgs true "transition" None (Some "flashinfer"%string) (Some (-1)) None "extra_buffer" None in
  exists a', check_pic_constraints a = Ret a' /\ linear_attn_decode_backend a' = Some "triton"%string /\
    mamba_scheduler_strategy a' = "no_buffer"%string /\ init_chunked_prefill false a' = None.
Proof.
  intros a. eexists. split; [reflexivity|]. split; [reflexivity|]. split; [reflexivity|].
  apply (pic_server_config a _ false None 0%Q 0 0 None false eq_refl eq_refl).
Defined.
