(* ===== verification/GdnAdditionFacts.v ===== *)
(** * Linear-attention layers in addition mode

    The first computed row of a request starts from the sum of its cached
    states, every other row from zero; each row's final state is what the
    pool keeps for the segment, and the last row's what the request keeps. *)

From S2P Require Import Prelude PyDict ConvTails ConvTailsFacts GdnMeta GdnMetaFacts GdnForward GdnFacts.

(** ** Metadata *)

(** The pairs of row and slot that the miss segments of a request persist. *)
Definition persisted (md : list (Z * Z * Z)) (cursor : Z) (ms : list (Z * Z)) : list (Z * Z) :=
  omap (fun x => (fun slot => (cursor + x.1, slot)) <$> dict_get x.2 md) (enumerate ms).

Lemma plan_miss_trans md dst cursor n nr l p :
  let p' := foldl (plan_miss md dst cursor n nr) p l in
  sp_trans_persist p' = sp_trans_persist p ++ omap (fun x => (fun slot => (cursor + x.1, slot)) <$> dict_get x.2 md) l /\
  sp_seg_offsets p' = sp_seg_offsets p.
Proof.
  revert p. induction l as [|[i se] l IH]; intros p; cbn [foldl].
  - by rewrite app_nil_r.
  - destruct (IH (plan_miss md dst cursor n nr p (i, se))) as [-> ->]. unfold plan_miss. cbn.
    destruct (dict_get se md), (_ || _); cbn; by rewrite <- ?app_assoc.
Qed.

(** The plan after [k] requests: the row cursor, the offsets of the requests
    and the persisted rows. *)
Record AddInv (b : PicBatch) (k : nat) (cursor : Z) (offsets : list Z) (persist : list (Z * Z)) : Prop := {
  ai_cursor : cursor = row_base b k;
  ai_offsets : offsets = row_base b <$> seq 0 (S k);
  ai_rows : forall row slot, (row, slot) ∈ persist -> 0 <= row < row_base b k;
  ai_persist : forall i md, (i < k)%nat -> batch_get [] (pb_miss_mamba_slots b) (Z.of_nat i) = Ret md ->
    persisted md (row_base b i) (req_misses b (Z.of_nat i)) ⊆ persist;
  ai_req : forall i, (i < k)%nat -> is_Some (pyget (pb_miss_segments b) (Z.of_nat i));
}.

Lemma AddInv_0 b : AddInv b 0 0 [0] [].
Proof. constructor; cbn; try done; try (intros; lia). intros ? ? H. by inversion H. Qed.

Lemma AddInv_S b k cursor offsets persist ms md :
  AddInv b k cursor offsets persist -> pyget (pb_miss_segments b) (Z.of_nat k) = Some ms ->
  batch_get [] (pb_miss_mamba_slots b) (Z.of_nat k) = Ret md ->
  AddInv b (S k) (cursor + len ms) (offsets ++ [cursor + len ms]) (persist ++ persisted md cursor ms).
Proof.
  intros [-> -> Hr Hp Hq] Ems Emd.
  assert (Em : req_misses b (Z.of_nat k) = ms) by (unfold req_misses; by rewrite Ems).
  pose proof (row_base_nonneg b k). pose proof (len_nonneg ms).
  assert (HS : row_base b (S k) = row_base b k + len ms) by (by rewrite row_base_S, Em). constructor.
  - done.
  - by rewrite (seq_S (S k)), fmap_app, fmap_cons, Nat.add_0_l, HS.
  - intros row slot. rewrite HS. intros [Hin%Hr|Hin]%elem_of_app; [lia|].
    apply list_elem_of_omap in Hin as ([i se] & Hin & Hx). cbn in Hx. destruct (dict_get se md); [|done].
    injection Hx as <- <-. assert (Hi : i ∈ (enumerate ms).*1) by (apply list_elem_of_fmap; by exists (i, se)).
    rewrite fst_enumerate in Hi. apply elem_of_pyrange in Hi. lia.
  - intros i md' Hi Emd'. destruct (decide (i = k)) as [->|].
    + rewrite Emd in Emd'. injection Emd' as <-. rewrite Em. set_solver.
    + specialize (Hp i md' ltac:(lia) Emd'). set_solver.
  - intros i Hi. destruct (decide (i = k)) as [->|]; [by eauto|apply Hq; lia].
Qed.

Lemma plan_req_AddInv b k p p' :
  AddInv b k (sp_cursor p) (sp_seg_offsets p) (sp_trans_persist p) -> plan_req true b p (Z.of_nat k) = Ret p' ->
  AddInv b (S k) (sp_cursor p') (sp_seg_offsets p') (sp_trans_persist p') /\
  is_Some (pyget (pb_req_cache_indices b) (Z.of_nat k)).
Proof.
  intros HI E. unfold plan_req in E. do 6 ounfold E. injection E3 as <-. injection E4 as <-. injection E as <-.
  match goal with |- context [foldl ?f ?x ?l] =>
    destruct (plan_miss_trans a1 a4 (sp_cursor p) (len a0) (len (A := Z * Z * list Z) []) l x) as [Et Es] end.
  cbn in Et, Es |- *. rewrite Et, Es. split; [by apply AddInv_S|by eauto].
Qed.

Record addition_ok (b : PicBatch) (m : SegMeta) : Prop := {
  ao_num : sm_num_segments m = row_base b (Z.to_nat (pb_batch_size b));
  ao_indices : sm_seg_indices m = pyrange 0 (sm_num_segments m);
  ao_dst : length (sm_req_dst m) = Z.to_nat (pb_batch_size b);
  ao_payload : sm_last_miss_payload m = (fun k => row_base b (S k) - 1) <$> seq 0 (Z.to_nat (pb_batch_size b));
  ao_plan : exists cursor offsets, AddInv b (Z.to_nat (pb_batch_size b)) cursor offsets (sm_trans_persist m);
}.

Lemma length_pyrange0 n : 0 <= n -> length (pyrange 0 n) = Z.to_nat n.
Proof. intros. unfold pyrange. rewrite length_seqZ. lia. Qed.

Lemma num_rows b : 0 <= pb_batch_size b ->
  len ((fun se : Z * Z => se.2 - se.1) <$> concat (req_misses b <$> pyrange 0 (pb_batch_size b))) =
  row_base b (Z.to_nat (pb_batch_size b)).
Proof. intros. rewrite len_map. unfold row_base, pyrange. by rewrite Z.sub_0_r, Z2Nat.id. Qed.

Lemma payload_rows b k cursor offsets persist : AddInv b k cursor offsets persist ->
  (fun o => o - 1) <$> drop 1 offsets = (fun i => row_base b (S i) - 1) <$> seq 0 k.
Proof.
  intros HI. rewrite (ai_offsets _ _ _ _ _ HI). cbn [seq fmap list_fmap drop]. rewrite <- fmap_S_seq.
  rewrite <- list_fmap_compose, drop_0. by rewrite <- list_fmap_compose.
Qed.

Lemma init_addition_ok b m : 0 <= pb_batch_size b -> init_pic_metadata true b = Ret m -> addition_ok b m.
Proof.
  intros Hb E. unfold init_pic_metadata in E. do 3 ounfold E. injection E as <-.
  apply batch_seg_lengths_inv in E0 as [-> _]; [|done].
  set (I := fun k p => AddInv b k (sp_cursor p) (sp_seg_offsets p) (sp_trans_persist p) /\
    forall i, (i < k)%nat -> is_Some (pyget (pb_req_cache_indices b) (Z.of_nat i))).
  assert (HI : I (length (pyrange 0 (pb_batch_size b))) a0).
  { apply (ofold_inv I _ _ _ _ E1); [split; [apply AddInv_0|lia]|].
    intros i x p p' [-> _]%lookup_pyrange [HI Hd] Ep. destruct (plan_req_AddInv _ _ _ _ HI Ep) as [HI' Hi].
    split; [done|]. intros j Hj. destruct (decide (j = i)) as [->|]; [done|apply Hd; lia]. }
  rewrite length_pyrange0 in HI by done. destruct HI as [HI Hd].
  constructor; cbn; rewrite ?num_rows; try done; [| |by eauto].
  - by apply slice_to_full.
  - by eapply payload_rows.
Qed.

Section addition.
Context {V Tok St Tr AB Out : Type} (zero : V).
Context `{DeltaAlg St Tr} `{!DeltaAlgLaws St Tr} `{DeltaKernel Tok St Tr (list V) AB Out}.
Context `{!DeltaKernelSpec (V := V) (Tok := Tok) (St := St) (Tr := Tr) (AB := AB) (Out := Out)}.
Local Notation run := (run (V := V) (Tok := Tok) (St := St) (Tr := Tr) (AB := AB) (Out := Out)).

(** ** Seeds *)

(** The sum of the cached states of a request. *)
Definition hit_sum (b : PicBatch) (ssm : list St) (k : nat) : St :=
  match batch_get [] (pb_hit_mamba_slots b) (Z.of_nat k) with
  | Ret hd => foldr st_add st_zero ((fun slot => default st_zero (ssm !! Z.to_nat slot)) <$> hd.*2)
  | Raise _ => st_zero
  end.

(** The state a row starts from: the sum for the first row of a request. *)
Definition row_seed (b : PicBatch) (ssm : list St) (k j : nat) : St :=
  if decide (j = 0%nat) then hit_sum b ssm k else st_zero.

(** The tokens of the [j]-th computed segment of request [k]. *)
Definition miss_toks (b : PicBatch) (m : SegMeta) (toks : list Tok) (k j : nat) : list Tok :=
  row_toks toks (sm_cu_seqlens m) (Z.to_nat (row_base b k + Z.of_nat j)).

Definition seeds_ok (b : PicBatch) (ssm : list St) (k : nat) (seeds : list St) : Prop :=
  forall i j, (i < k)%nat -> Z.of_nat j < len (req_misses b (Z.of_nat i)) ->
    seeds !! Z.to_nat (row_base b i + Z.of_nat j) = Some (row_seed b ssm i j).

Lemma row_base_mono b i k : (i <= k)%nat -> row_base b i <= row_base b k.
Proof.
  induction 1 as [|k Hle IH]; [done|]. rewrite row_base_S.
  pose proof (len_nonneg (req_misses b (Z.of_nat k))). lia.
Qed.

Definition SeedInv (b : PicBatch) (ssm : list St) (n k : nat) (acc : list St * Z) : Prop :=
  acc.2 = row_base b k /\ length acc.1 = n /\ seeds_ok b ssm k acc.1 /\
  forall r, row_base b k <= Z.of_nat r -> (r < n)%nat -> acc.1 !! r = Some st_zero.

Lemma seed_addition_step b ssm n k acc hd :
  SeedInv b ssm n k acc -> row_base b (S k) <= Z.of_nat n ->
  is_Some (pyget (pb_miss_segments b) (Z.of_nat k)) ->
  batch_get [] (pb_hit_mamba_slots b) (Z.of_nat k) = Ret hd ->
  Forall (fun slot => 0 <= slot < len ssm) hd.*2 ->
  exists acc', seed_addition b ssm acc (Z.of_nat k) = Ret acc' /\ SeedInv b ssm n (S k) acc'.
Proof.
  destruct acc as [seeds cur]. intros (Hc & Hl & Hs & Hz) Hn [ms Ems] Ehd Hslots. cbn in Hc, Hl, Hs, Hz. subst cur.
  assert (Em : req_misses b (Z.of_nat k) = ms) by (unfold req_misses; by rewrite Ems).
  pose proof (row_base_nonneg b k) as Hk0. pose proof (row_base_S b k) as HS. rewrite Em in HS.
  set (h := hit_sum b ssm k). set (r := Z.to_nat (row_base b k)).
  assert (Hseeds' : exists seeds',
    (if (0 <? len ms) && negb (len hd =? 0) then
       obind (omapM (index_select ssm) hd.*2) (fun hs => index_put seeds (row_base b k) (foldr st_add st_zero hs))
     else Ret seeds) = Ret seeds' /\ length seeds' = n /\
    (0 < len ms -> seeds' !! r = Some h) /\ forall i, i <> r -> seeds' !! i = seeds !! i).
  { destruct (Z.ltb_spec 0 (len ms)); cbn [andb]; [|by exists seeds; split_and!; try done; lia].
    destruct (Z.eqb_spec (len hd) 0) as [E0|E0]; cbn [negb].
    - exists seeds. split_and!; try done. intros _. rewrite Hz by (unfold r; lia). unfold h, hit_sum. rewrite Ehd.
      destruct hd; [done|unfold len in E0; cbn in E0; lia].
    - rewrite (omapM_Ret _ (fun slot => default st_zero (ssm !! Z.to_nat slot))).
      2: { intros slot Hin. rewrite Forall_forall in Hslots. specialize (Hslots slot Hin). unfold index_select.
           destruct (Z.ltb_spec slot 0); [lia|].
           destruct (lookup_lt_is_Some_2 ssm (Z.to_nat slot)) as [x ->]; [unfold len in Hslots; lia|done]. }
      cbn [obind]. unfold index_put, len. destruct (Z.ltb_spec (row_base b k) 0); [lia|].
      rewrite Hl. destruct (Z.leb_spec 0 (row_base b k)); [|lia]. destruct (Z.ltb_spec (row_base b k) (Z.of_nat n)); [|lia].
      cbn [andb]. eexists. split; [done|]. rewrite length_insert. split; [done|]. split.
      + intros _. unfold h, hit_sum. rewrite Ehd. apply list_lookup_insert_eq. lia.
      + intros i Hi. by apply list_lookup_insert_ne. }
  destruct Hseeds' as (seeds' & E & Hl' & Hr & Hf). exists (seeds', row_base b k + len ms). split.
  { unfold seed_addition. rewrite Ehd. cbn [obind]. rewrite Ems. cbn [or_raise obind]. by rewrite E. }
  split_and!; cbn; try done.
  - intros i j Hi Hj. destruct (decide (i = k)) as [->|].
    + rewrite Em in Hj. unfold row_seed. case_decide as Ej; [subst j|].
      * rewrite Z.add_0_r. apply Hr. lia.
      * rewrite Hf by (unfold r; lia). apply Hz; lia.
    + pose proof (row_base_S b i). pose proof (row_base_mono b (S i) k ltac:(lia)). pose proof (row_base_nonneg b i).
      rewrite Hf by (unfold r; lia). apply Hs; [lia|done].
  - intros i Hi Hin. pose proof (len_nonneg ms). destruct (decide (len ms = 0)) as [E0|].
    + destruct (decide (i = r)) as [->|]; [|rewrite Hf by done; apply Hz; lia].
      revert E. rewrite E0. intros [= <-]. apply Hz; lia.
    + rewrite Hf by (unfold r; lia). apply Hz; lia.
Qed.

(** The slots of the cached segments of every request are in the pool. *)
Definition hit_slots_ok (b : PicBatch) (ssm : list St) : Prop :=
  forall k, (k < Z.to_nat (pb_batch_size b))%nat -> exists hd,
    batch_get [] (pb_hit_mamba_slots b) (Z.of_nat k) = Ret hd /\ Forall (fun slot => 0 <= slot < len ssm) hd.*2.

Lemma seed_all b m cursor offsets persist ssm :
  0 <= pb_batch_size b -> sm_num_segments m = row_base b (Z.to_nat (pb_batch_size b)) ->
  AddInv b (Z.to_nat (pb_batch_size b)) cursor offsets persist -> hit_slots_ok b ssm ->
  let n := Z.to_nat (sm_num_segments m) in
  exists acc, ofold (seed_addition b ssm) (replicate n st_zero, 0) (pyrange 0 (pb_batch_size b)) = Ret acc /\
    SeedInv b ssm n (Z.to_nat (pb_batch_size b)) acc.
Proof.
  intros Hb Hnum HI Hhits n. unfold pyrange.
  replace (seqZ 0 (pb_batch_size b - 0)) with (seqZ 0 (Z.of_nat (Z.to_nat (pb_batch_size b)))) by (f_equal; lia).
  assert (Hgo : forall k, (k <= Z.to_nat (pb_batch_size b))%nat ->
    exists acc, ofold (seed_addition b ssm) (replicate n st_zero, 0) (seqZ 0 (Z.of_nat k)) = Ret acc /\ SeedInv b ssm n k acc);
    [|by apply Hgo].
  induction k as [|k IH]; intros Hk.
  - eexists. split; [done|]. split_and!; cbn; [done|by rewrite length_replicate|intros ? ?; lia|].
    intros r _ Hr. by apply lookup_replicate_2.
  - destruct IH as (acc & E & Hinv); [lia|]. pose proof (ai_req _ _ _ _ _ HI k ltac:(lia)) as Hms.
    destruct (Hhits k) as (hd & Ehd & Hslots); [lia|].
    destruct (seed_addition_step b ssm n k acc hd Hinv) as (acc' & E' & Hinv'); try done.
    { pose proof (row_base_mono b (S k) (Z.to_nat (pb_batch_size b)) ltac:(lia)). unfold n. rewrite Hnum.
      pose proof (row_base_nonneg b (Z.to_nat (pb_batch_size b))). lia. }
    exists acc'. split; [|done]. replace (Z.of_nat (S k)) with (Z.of_nat k + 1) by lia. rewrite seqZ_app by lia.
    rewrite ofold_app, E. cbn [obind]. rewrite seqZ_cons by lia. cbn [ofold]. rewrite Z.add_0_l, E'. by rewrite seqZ_nil by lia.
Qed.

(** The last row of a request that has one is the row before the next
    request's first. *)
Definition last_row_ok (b : PicBatch) (n k : nat) : Prop :=
  let j := pred (length (req_misses b (Z.of_nat k))) in
  row_base b (S k) - 1 = row_base b k + Z.of_nat j /\ 0 <= row_base b k /\ row_base b (S k) <= row_base b n /\ Z.of_nat j < len (req_misses b (Z.of_nat k)).

Lemma last_row b n k : (k < n)%nat -> req_misses b (Z.of_nat k) <> [] -> last_row_ok b n k.
Proof.
  intros Hk Hm. pose proof (row_base_mono b (S k) n ltac:(lia)) as Hmono. unfold last_row_ok. cbv zeta.
  rewrite row_base_S in Hmono |- *. pose proof (row_base_nonneg b k). unfold len in *.
  destruct (req_misses b (Z.of_nat k)); [done|]. cbn [length pred] in *. lia.
Qed.

Lemma seeded_row b m toks seeds ssm n k j :
  sm_seg_indices m = pyrange 0 (sm_num_segments m) -> sm_num_segments m = row_base b n ->
  seeds_ok b ssm n seeds -> (k < n)%nat -> Z.of_nat j < len (req_misses b (Z.of_nat k)) ->
  let r := Z.to_nat (row_base b k + Z.of_nat j) in
  fwd_h toks (sm_cu_seqlens m) (sm_seg_indices m) seeds !! r =
    Some (run (row_toks toks (sm_cu_seqlens m) r) (row_seed b ssm k j)).
Proof.
  intros Hidx Hnum Hseeds Hk Hj r. pose proof (row_base_mono b (S k) n ltac:(lia)) as Hmono.
  rewrite row_base_S in Hmono. pose proof (row_base_nonneg b k).
  apply fwd_h_row; [rewrite Hidx; apply NoDup_seqZ| |by apply Hseeds].
  rewrite Hidx, Hnum. unfold pyrange. rewrite lookup_seqZ_lt by lia. f_equal.
Qed.

(** ** The layer *)

(** What the layer leaves in the pool. *)
Record addition_done (b : PicBatch) (m : SegMeta) (ssm : list St) (toks : list Tok) (seeds ssm' : list St) : Prop := {
  ad_seeds : seeds_ok b ssm (Z.to_nat (pb_batch_size b)) seeds;
  ad_request : forall k d, sm_req_dst m !! k = Some d ->
    let j := pred (length (req_misses b (Z.of_nat k))) in
    ssm' !! Z.to_nat d = Some (run (miss_toks b m toks k j) (row_seed b ssm k j));
  ad_splice : forall k d, sm_req_dst m !! k = Some d -> length (req_misses b (Z.of_nat k)) = 1%nat ->
    ssm' !! Z.to_nat d =
      Some (st_add (bmm (hit_sum b ssm k) (transition_of (V := V) (AB := AB) (Out := Out) (miss_toks b m toks k 0)))
              (run (miss_toks b m toks k 0) st_zero));
  ad_segments : forall k j se md slot, (k < Z.to_nat (pb_batch_size b))%nat ->
    req_misses b (Z.of_nat k) !! j = Some se -> batch_get [] (pb_miss_mamba_slots b) (Z.of_nat k) = Ret md ->
    dict_get se md = Some slot ->
    ssm' !! Z.to_nat slot = Some (run (miss_toks b m toks k j) (row_seed b ssm k j));
}.

Lemma addition_core conv b m (s s1 : LayerCache (V := V) (St := St) (Tr := Tr)) toks :
  0 <= pb_batch_size b -> addition_ok b m -> slots_ok m (length (lc_temporal s)) ->
  hit_slots_ok b (lc_temporal s) ->
  (forall k, (k < Z.to_nat (pb_batch_size b))%nat -> req_misses b (Z.of_nat k) <> []) ->
  conv s = (Ret toks, s1) -> lc_temporal s1 = lc_temporal s ->
  exists s2 seeds, addition_with conv b m s = (Ret (fwd_o toks (sm_cu_seqlens m) (sm_seg_indices m) seeds), s2) /\
    addition_done b m (lc_temporal s) toks seeds (lc_temporal s2).
Proof.
  intros Hb [Hnum Hidx Hdl Hpay (cur' & offs & HI)] [Hn Hlt Hdn Hdlt Hdp _] Hhits Hmiss Econv Et1.
  set (ssm := lc_temporal s) in *. set (row := miss_toks b m toks).
  destruct (seed_all b m cur' offs _ ssm Hb Hnum HI Hhits) as ([seeds cur] & Eseed & _ & Hsl & Hseeds & _). cbn in Hsl, Hseeds.
  set (n := Z.to_nat (pb_batch_size b)) in *. set (cu := sm_cu_seqlens m) in *. set (idx := sm_seg_indices m) in *.
  set (temp := fwd_h toks cu idx seeds).
  assert (Hlast : forall k, (k < n)%nat -> last_row_ok b n k) by (intros; apply last_row; auto).
  assert (Htemp : forall k j, (k < n)%nat -> Z.of_nat j < len (req_misses b (Z.of_nat k)) ->
    temp !! Z.to_nat (row_base b k + Z.of_nat j) = Some (run (row k j) (row_seed b ssm k j)))
    by (intros; by eapply seeded_row).
  assert (Htl : len temp = row_base b n) by (unfold temp, len; rewrite fwd_h_length, Hsl, Hnum; pose proof (row_base_nonneg b n); lia).
  destruct (scatter_spec temp ssm (sm_trans_persist m)) as (ssm1 & E1 & L1 & W1 & F1); [done| |].
  { apply Forall_forall. intros [r d] Hin. cbn. split.
    - rewrite Htl. by apply (ai_rows _ _ _ _ _ HI r d).
    - rewrite Forall_forall in Hlt. apply (Hlt d), list_elem_of_fmap. by exists (r, d). }
  set (pairs := zip (sm_last_miss_payload m) (sm_req_dst m)).
  assert (Hsnd : pairs.*2 = sm_req_dst m) by (apply snd_zip; rewrite Hpay, length_fmap, length_seq; lia).
  assert (Hpair : forall r d, (r, d) ∈ pairs -> exists k, (k < n)%nat /\ r = row_base b (S k) - 1 /\ d ∈ sm_req_dst m).
  { intros r d Hin. pose proof (elem_of_zip_r _ _ _ _ Hin). apply elem_of_zip_l in Hin. rewrite Hpay in Hin.
    apply list_elem_of_fmap in Hin as (k & -> & Hk%elem_of_seq). exists k. split; [lia|done]. }
  destruct (scatter_spec temp ssm1 pairs) as (ssm2 & E2 & _ & W2 & F2); [by rewrite Hsnd| |].
  { apply Forall_forall. intros [r d] Hin. destruct (Hpair _ _ Hin) as (k & Hk & -> & Hd). cbn. rewrite Htl.
    destruct (Hlast k Hk) as (? & ? & ? & ?). rewrite Forall_forall in Hdlt. specialize (Hdlt d Hd).
    unfold len. rewrite L1. fold ssm in Hdlt. lia. }
  assert (Hdst : forall k d, sm_req_dst m !! k = Some d ->
    let j := pred (length (req_misses b (Z.of_nat k))) in
    ssm2 !! Z.to_nat d = Some (run (row k j) (row_seed b ssm k j))).
  { intros k d Ed j. assert (Hk : (k < n)%nat) by (apply lookup_lt_Some in Ed; lia).
    destruct (Hlast k Hk) as (E & ? & ? & Hj). rewrite (W2 (row_base b (S k) - 1)); [rewrite E; by apply Htemp|].
    apply list_elem_of_lookup. exists k. unfold pairs. rewrite lookup_zip_with, Ed, Hpay, list_lookup_fmap.
    by rewrite lookup_seq_lt. }
  exists (set_lc_temporal ssm2 (set_lc_temporal ssm1 s1)), seeds. split; [|constructor].
  - unfold addition_with. munfold. fold ssm. rewrite Eseed, Econv. cbn [fst snd]. fold cu idx temp.
    rewrite Et1. fold ssm. rewrite E1. cbn beta iota. fold pairs. by rewrite E2.
  - done.
  - exact Hdst.
  - intros k d Ed E1m. specialize (Hdst k d Ed). cbv zeta in Hdst. rewrite E1m in Hdst. cbn [pred] in Hdst.
    cbn [lc_temporal set_lc_temporal]. rewrite Hdst. unfold row_seed. rewrite decide_True by done. by rewrite run_affine.
  - intros k j se md slot Hk Hj Emd Eslot. cbn [lc_temporal set_lc_temporal].
    assert (Hin : (row_base b k + Z.of_nat j, slot) ∈ sm_trans_persist m).
    { apply (ai_persist _ _ _ _ _ HI k md Hk Emd). apply list_elem_of_omap. exists (Z.of_nat j, se).
      split; [by eapply list_elem_of_lookup_2, lookup_enumerate|]. cbn. by rewrite Eslot. }
    assert (Hp2 : slot ∈ (sm_trans_persist m).*2) by (apply list_elem_of_fmap; by eexists (_, slot)).
    rewrite F2, (W1 _ _ Hin); [apply Htemp; [done|]| |].
    + apply lookup_lt_Some in Hj. unfold len. lia.
    + rewrite Forall_forall in Hlt. specialize (Hlt slot Hp2). lia.
    + rewrite Hsnd. intros Hd. by apply (Hdp _ Hd).
Qed.

(** C34. In addition mode a prefill layer seeds the first computed row of every
    request with the sum of the request's cached states and the others with
    zero; the pool then holds, for every computed segment with a slot, and for
    the request itself (its last row), the state of the recurrence from that
    seed.  A request with one computed segment thus ends in the splice
    [Σ @ T + S] of the sum with the segment's own pair. *)
Theorem addition_forward_correct b m mixed ab s s1 toks :
  0 <= pb_batch_size b -> init_pic_metadata true b = Ret m ->
  slots_ok m (length (lc_temporal s)) -> hit_slots_ok b (lc_temporal s) ->
  (forall k, (k < Z.to_nat (pb_batch_size b))%nat -> req_misses b (Z.of_nat k) <> []) ->
  seg_conv_stage (Tok := Tok) (Out := Out) zero m mixed ab s = (Ret toks, s1) ->
  exists s2 seeds,
    forward_extend_pic_addition zero b m mixed ab s =
      (Ret (fwd_o toks (sm_cu_seqlens m) (sm_seg_indices m) seeds), s2) /\
    addition_done b m (lc_temporal s) toks seeds (lc_temporal s2).
Proof.
  intros Hb Hinit Hs Hhits Hmiss Econv. eapply addition_core; try done; [by apply init_addition_ok|].
  by destruct (conv_stage_frame _ _ _ _ _ _ _ _ _ _ _ _ _ Econv).
Qed.

End addition.

(** The witness: one request whose tokens [0, 2) are cached in slot 1 and
    whose tokens [2, 4) are computed. *)
Lemma addition_forward_correct_witness :
  exists m s2 (out : list Mat2.St),
    init_pic_metadata true Mat2.batch = Ret m /\
    forward_extend_pic_addition (Tok := Mat2.Tok) (Tr := Mat2.Tr) 0 Mat2.batch m Mat2.mixed tt Mat2.cache = (Ret out, s2) /\
    lc_temporal s2 !! 3%nat = Some (run (V := Z) (Tok := Mat2.Tok) (St := Mat2.St) (Tr := Mat2.Tr) (AB := unit)
      (Out := list Mat2.St) (Mat2.tok_of_row <$> Mat2.mixed) (hit_sum Mat2.batch (lc_temporal Mat2.cache) 0)).
Proof.
  assert (Hinit : exists m, init_pic_metadata true Mat2.batch = Ret m) by (eexists; vm_compute; reflexivity).
  destruct Hinit as [m Hinit]. vm_compute in Hinit. injection Hinit as <-.
  destruct (addition_forward_correct (V := Z) (Tok := Mat2.Tok) (St := Mat2.St) (Tr := Mat2.Tr) (Out := list Mat2.St) 0
    Mat2.batch _ Mat2.mixed tt Mat2.cache Mat2.cache (Mat2.tok_of_row <$> Mat2.mixed)
    ltac:(vm_compute; discriminate) eq_refl) as (s2 & seeds & E & Hd).
  - split; vm_compute.
    + repeat constructor; set_solver.
    + repeat constructor; discriminate.
    + repeat constructor; set_solver.
    + repeat constructor; discriminate.
    + intros d Hd. set_solver.
    + intros d Hd. set_solver.
  - intros [|k] Hk; [|vm_compute in Hk; lia]. eexists. split; [reflexivity|]. repeat constructor; vm_compute; done.
  - intros [|k] Hk; [done|vm_compute in Hk; lia].
  - reflexivity.
  - eexists _, s2, seeds. split; [reflexivity|]. split; [exact E|]. exact (ad_request _ _ _ _ _ _ Hd 0%nat 3 eq_refl).
Defined.

(** ** What addition mode caches *)

Module Contaminated.

(** The same segment, tokens [2, 4) kept in slot 2, computed before the
    request's last segment: at the head of a request, and behind a cached
    segment in slot 1. *)
Definition behind : PicBatch :=
  mkPicBatch 1 (Some [[(0, 2, [7])]]) (Some [[([7], 1)]]) [[(2, 4); (4, 5)]] (Some [[((2, 4), 2)]]) [3].
Definition alone : PicBatch :=
  mkPicBatch 1 (Some [[]]) (Some [[]]) [[(2, 4); (4, 5)]] (Some [[((2, 4), 2)]]) [3].
Definition mixed : list (list Z) := Mat2.mixed ++ [[1; 0; 0; 1; 1; 1]].

(** The states of the pool after the layer. *)
Definition after (b : PicBatch) : outcome (list Mat2.St) :=
  obind (init_pic_metadata true b) (fun m =>
  match forward_extend_pic_addition (Tok := Mat2.Tok) (Tr := Mat2.Tr) (Out := list Mat2.St) 0 b m mixed tt Mat2.cache with
  | (Ret _, s) => Ret (lc_temporal s)
  | (Raise e, _) => Raise e
  end).

End Contaminated.

