(* ===== verification/KdaForward.v ===== *)
(** * The KDA linear-attention layers of a PIC prefill

    srt/layers/attention/linear/kda_backend.py: [init_pic_metadata],
    [forward_extend_pic_addition] and [forward_extend_pic_transition] of the
    KDA backend, over the same interfaces as the GDN layers ([GdnForward]).
    [causal_conv1d_fn] stands for the three calls on the channels of q, k and
    v, [fwd_o] and [fwd_h] for the output and the states of [chunk_kda], and
    of [chunk_gated_delta_rule_fwd_h] followed by [chunk_gla_fwd_o_gk]. *)

From S2P Require Import Prelude PyDict ConvTails GdnMeta GdnForward.

(** ** Metadata *)

Record KdaPlan := mkKdaPlan {
  kp_seg_offsets : list Z;
  kp_persist : list (Z * Z);
  kp_trans_persist : list (Z * Z);
  kp_conv_slots : list Z;
  kp_dst : list Z;
  kp_cursor : Z;
}.

(** One miss segment; unlike the GDN layers, the only segment of a request
    leaves no tail. *)
Definition kda_plan_miss (miss_slots : list (Z * Z * Z)) (req_dst_slot seg_cursor req_seg_count : Z)
    (p : KdaPlan) (seg : Z * (Z * Z)) : KdaPlan :=
  let '(local_i, se) := seg in
  let persist_slot_any := dict_get se miss_slots in
  let trans := match persist_slot_any with
               | Some slot => kp_trans_persist p ++ [(seg_cursor + local_i, slot)]
               | None => kp_trans_persist p
               end in
  if local_i <? req_seg_count - 1 then
    match persist_slot_any with
    | Some slot => mkKdaPlan (kp_seg_offsets p) (kp_persist p ++ [(seg_cursor + local_i, slot)]) trans
                     (kp_conv_slots p ++ [slot]) (kp_dst p) (kp_cursor p)
    | None => mkKdaPlan (kp_seg_offsets p) (kp_persist p) trans (kp_conv_slots p ++ [req_dst_slot]) (kp_dst p)
                (kp_cursor p)
    end
  else mkKdaPlan (kp_seg_offsets p) (kp_persist p) trans (kp_conv_slots p ++ [req_dst_slot]) (kp_dst p)
         (kp_cursor p).

Definition kda_plan_req (b : PicBatch) (p : KdaPlan) (req_idx : Z) : outcome KdaPlan :=
  obind (or_raise IndexError (pyget (pb_miss_segments b) req_idx)) (fun miss_segs =>
  obind (batch_get [] (pb_miss_mamba_slots b) req_idx) (fun miss_slots =>
  obind (or_raise IndexError (pyget (pb_req_cache_indices b) req_idx)) (fun req_dst_slot =>
  let n := len miss_segs in
  let p1 := mkKdaPlan (kp_seg_offsets p ++ [kp_cursor p + n]) (kp_persist p) (kp_trans_persist p)
              (kp_conv_slots p) (kp_dst p) (kp_cursor p) in
  let p2 := foldl (kda_plan_miss miss_slots req_dst_slot (kp_cursor p) n) p1 (enumerate miss_segs) in
  Ret (mkKdaPlan (kp_seg_offsets p2) (kp_persist p2) (kp_trans_persist p2) (kp_conv_slots p2)
         (kp_dst p2 ++ [req_dst_slot]) (kp_cursor p + n))))).

(** There is no compose order: the transition layer builds it itself. *)
Definition kda_init_pic_metadata (b : PicBatch) : outcome SegMeta :=
  obind (batch_seg_lengths b) (fun seg_lengths =>
  obind (ofold (kda_plan_req b) (mkKdaPlan [0] [] [] [] [] 0) (pyrange 0 (pb_batch_size b))) (fun p =>
  obind (build_prev_tail_slots (pb_batch_size b) (pb_hit_segments b) (pb_hit_mamba_slots b)
           (pb_miss_segments b) (pb_miss_mamba_slots b)) (fun prev_tail_slots =>
  Ret (mkSegMeta
    (kp_dst p) (kp_persist p) (kp_trans_persist p)
    ((fun o => o - 1) <$> drop 1 (kp_seg_offsets p))
    []
    (cu_seqlens seg_lengths)
    (pyrange 0 (len seg_lengths))
    (kp_conv_slots p)
    prev_tail_slots
    ((fun s => 0 <=? s) <$> prev_tail_slots)
    (len seg_lengths))))).

Section forward.
Context {V Tok St Tr AB Out : Type} (zero : V).
Context `{DeltaAlg St Tr} `{DeltaKernel Tok St Tr (list V) AB Out}.

(** [lc_conv] holds the transposed view of the convolution states. *)
Definition kda_conv_stage (m : SegMeta) : list (list V) -> AB -> M (LayerCache (V := V) (St := St) (Tr := Tr)) (list Tok) :=
  conv_stage_layout zero KDA (sm_cu_seqlens m) (sm_persist m) None (sm_conv_indices m) (sm_prev_tail m)
    (sm_has_initial m) (sm_cu_seqlens m).

(** ** Addition *)

Definition kda_forward_extend_pic_addition (b : PicBatch) (m : SegMeta) (mixed_qkv : list (list V)) (ab : AB)
    : M (LayerCache (V := V) (St := St) (Tr := Tr)) Out := addition_with (kda_conv_stage m mixed_qkv ab) b m.

(** ** Transition *)

(** One segment: only the row [last_miss_payload] is seeded. *)
Definition kda_compose_step (last_miss_payload : Z) (transitions : list Tr) (ssm : list St)
    (acc : St * list St) (seg : Z * option Z) : outcome (St * list St) :=
  let '(h_accum, kernel_h0) := acc in
  let '(slot, miss_payload) := seg in
  obind (if bool_decide (miss_payload = Some last_miss_payload)
         then index_put kernel_h0 last_miss_payload h_accum else Ret kernel_h0) (fun kernel_h0' =>
  obind (tensor_get transitions slot) (fun T =>
  obind (tensor_get ssm slot) (fun S_ =>
  Ret (st_add (bmm h_accum T) S_, kernel_h0')))).

(** One request; [req_order] sorts its segments by start. *)
Definition kda_compose_req (b : PicBatch) (transitions : list Tr) (ssm : list St)
    (acc : list St * list St * Z) (req_idx : Z) : outcome (list St * list St * Z) :=
  let '(h_accum_buf, kernel_h0, seg_cursor) := acc in
  obind (batch_get [] (pb_hit_mamba_slots b) req_idx) (fun hit_slots =>
  obind (batch_get [] (pb_hit_segments b) req_idx) (fun hit_segs =>
  obind (or_raise IndexError (pyget (pb_miss_segments b) req_idx)) (fun miss_segs =>
  obind (batch_get [] (pb_miss_mamba_slots b) req_idx) (fun miss_slots =>
  let last_miss_payload := match miss_segs with [] => -1 | _ => seg_cursor + len miss_segs - 1 end in
  obind (req_order hit_segs hit_slots miss_segs miss_slots seg_cursor) (fun order =>
  obind (ofold (kda_compose_step last_miss_payload transitions ssm) (st_zero, kernel_h0) order)
    (fun '(h, kernel_h0') => Ret (h_accum_buf ++ [h], kernel_h0', seg_cursor + len miss_segs))))))).

(** The body, given what the name [num_segments] is bound to. *)
Definition kda_transition_body (num_segments : option Z) (b : PicBatch) (m : SegMeta)
    (mixed_qkv : list (list V)) (ab : AB) : M (LayerCache (V := V) (St := St) (Tr := Tr)) Out :=
  s ← get;
  transitions ← of_option AssertionError (lc_transition s);
  toks ← kda_conv_stage m mixed_qkv ab;
  let cu := sm_cu_seqlens m in
  let idx := sm_seg_indices m in
  let temp_states := fwd_h toks cu idx (replicate (Z.to_nat (sm_num_segments m)) st_zero) in
  n ← of_option NameError (Z.to_nat <$> num_segments);
  let temp_transitions := fwd_h_zero_u toks cu idx (replicate n tr_one) in
  s ← get;
  ssm ← of_outcome (scatter temp_states (sm_trans_persist m) (lc_temporal s));
  modify (set_lc_temporal ssm);;
  transitions' ← of_outcome (scatter temp_transitions (sm_trans_persist m) transitions);
  modify (set_lc_transition (Some transitions'));;
  composed ← of_outcome (ofold (kda_compose_req b transitions' ssm) ([], replicate n st_zero, 0)
               (pyrange 0 (pb_batch_size b)));
  ssm' ← of_outcome (index_puts ssm (zip (sm_req_dst m) composed.1.1));
  modify (set_lc_temporal ssm');;
  mret (fwd_o toks cu idx composed.1.2).

(** [num_segments] is a local of [init_pic_metadata]; neither this function
    nor the module binds it. *)
Definition kda_forward_extend_pic_transition : PicBatch -> SegMeta -> list (list V) -> AB ->
    M (LayerCache (V := V) (St := St) (Tr := Tr)) Out := kda_transition_body None.

End forward.
