(* ===== verification/KdaFacts.v ===== *)
(** * KDA layers: what they compute

    The metadata of the KDA layers agrees with that of the GDN layers on what
    the states depend on; addition behaves as in the GDN layers; the
    transition layer, were its unbound name bound, would compose the same
    states but seed only the last computed row of each request. *)

From S2P Require Import Prelude PyDict ConvTails ConvTailsFacts GdnMeta GdnMetaFacts GdnForward GdnFacts.
From S2P Require Import GdnAdditionFacts KdaForward.

(** ** Metadata *)

Lemma kda_plan_miss_fold md dst cursor n l p :
  let p' := foldl (kda_plan_miss md dst cursor n) p l in
  kp_trans_persist p' = kp_trans_persist p ++ omap (fun x => (fun slot => (cursor + x.1, slot)) <$> dict_get x.2 md) l /\
  kp_seg_offsets p' = kp_seg_offsets p /\ kp_dst p' = kp_dst p.
Proof.
  revert p. induction l as [|[i se] l IH]; intros p; cbn [foldl].
  - by rewrite app_nil_r.
  - destruct (IH (kda_plan_miss md dst cursor n p (i, se))) as (-> & -> & ->). unfold kda_plan_miss. cbn.
    destruct (dict_get se md), (_ <? _); cbn; by rewrite <- ?app_assoc.
Qed.

Lemma kda_plan_req_Ret b p i ms md dst :
  pyget (pb_miss_segments b) i = Some ms -> batch_get [] (pb_miss_mamba_slots b) i = Ret md ->
  pyget (pb_req_cache_indices b) i = Some dst ->
  exists p', kda_plan_req b p i = Ret p' /\ kp_cursor p' = kp_cursor p + len ms /\
    kp_seg_offsets p' = kp_seg_offsets p ++ [kp_cursor p + len ms] /\
    kp_trans_persist p' = kp_trans_persist p ++ persisted md (kp_cursor p) ms /\ kp_dst p' = kp_dst p ++ [dst].
Proof.
  intros Ems Emd Ed. unfold kda_plan_req. rewrite Ems. cbn [or_raise obind]. rewrite Emd. cbn [obind]. rewrite Ed.
  cbn [or_raise obind]. eexists. split; [done|]. cbn.
  match goal with |- context [foldl ?f ?x ?l] =>
    destruct (kda_plan_miss_fold md dst (kp_cursor p) (len ms) l x) as (-> & -> & ->) end. done.
Qed.

Lemma kda_plan_req_inv b p i p' : kda_plan_req b p i = Ret p' ->
  exists ms md dst, pyget (pb_miss_segments b) i = Some ms /\ batch_get [] (pb_miss_mamba_slots b) i = Ret md /\
    pyget (pb_req_cache_indices b) i = Some dst.
Proof. intros E. unfold kda_plan_req in E. do 3 ounfold E. eauto 10. Qed.

Lemma take_pyget {A} (l : list A) k x : pyget l (Z.of_nat k) = Some x -> take (S k) l = take k l ++ [x].
Proof. rewrite pyget_nonneg, Nat2Z.id by lia. apply take_S_r. Qed.

(** The plan of the KDA layers satisfies the invariant of the addition plan. *)
Lemma kda_init_addition_ok b m : 0 <= pb_batch_size b -> kda_init_pic_metadata b = Ret m -> addition_ok b m.
Proof.
  intros Hb E. unfold kda_init_pic_metadata in E. do 3 ounfold E. injection E as <-.
  apply batch_seg_lengths_inv in E0 as [-> _]; [|done].
  set (I := fun k p => AddInv b k (kp_cursor p) (kp_seg_offsets p) (kp_trans_persist p) /\ length (kp_dst p) = k).
  assert (HI : I (length (pyrange 0 (pb_batch_size b))) a0).
  { apply (ofold_inv I _ _ _ _ E1); [split; [apply AddInv_0|done]|].
    intros i x p p' [-> _]%lookup_pyrange [HI Hd] Ep. destruct (kda_plan_req_inv _ _ _ _ Ep) as (ms & md & dst & H1 & H2 & H3).
    destruct (kda_plan_req_Ret b p _ _ _ _ H1 H2 H3) as (p2 & E' & H4 & H5 & H6 & H7). rewrite Ep in E'. injection E' as <-.
    split; [rewrite H4, H5, H6; by apply AddInv_S|]. rewrite H7, length_app, Hd. cbn. lia. }
  rewrite length_pyrange0 in HI by done. destruct HI as [HI Hd].
  constructor; cbn; rewrite ?num_rows; try done; [|by eauto]. by eapply payload_rows.
Qed.

(** The fields on which the recurrent states depend. *)
Record meta_agree (m mg : SegMeta) : Prop := {
  ma_num : sm_num_segments m = sm_num_segments mg;
  ma_cu : sm_cu_seqlens m = sm_cu_seqlens mg;
  ma_idx : sm_seg_indices m = sm_seg_indices mg;
  ma_persist : sm_trans_persist m = sm_trans_persist mg;
  ma_dst : sm_req_dst m = sm_req_dst mg;
}.

Lemma persisted_entries md cursor ms : Forall (fun se => is_Some (dict_get se md)) ms ->
  persisted md cursor ms = persist_entry md cursor <$> enumerate ms.
Proof.
  intros HF. unfold persisted. assert (HF' : Forall (fun x => is_Some (dict_get x.2 md)) (enumerate ms)).
  { apply Forall_forall. intros [i se] Hin. rewrite Forall_forall in HF. apply HF. rewrite <- (snd_enumerate ms).
    apply list_elem_of_fmap. by exists (i, se). }
  induction HF' as [|[i se] l [slot Es] _ IH]; [done|]. cbn in *. rewrite Es. cbn. rewrite IH.
  unfold persist_entry. cbn. by rewrite Es.
Qed.

(** A batch for which the GDN layers have a plan has one for the KDA layers. *)
Lemma kda_meta_agrees b mg : 0 <= pb_batch_size b -> init_pic_metadata false b = Ret mg ->
  exists m, kda_init_pic_metadata b = Ret m /\ meta_agree m mg.
Proof.
  intros Hb E. unfold init_pic_metadata in E. ounfold E. ounfold E. ounfold E. injection E as <-.
  set (I := fun k (p : SegPlan) => exists pk,
    ofold (kda_plan_req b) (mkKdaPlan [0] [] [] [] [] 0) (pyrange 0 (Z.of_nat k)) = Ret pk /\
    kp_cursor pk = sp_cursor p /\ kp_trans_persist pk = sp_trans_persist p /\ kp_dst pk = take k (pb_req_cache_indices b)).
  assert (HI : I (length (pyrange 0 (pb_batch_size b))) a0).
  { apply (ofold_inv I _ _ _ _ E1); [by eexists|].
    intros k x p p' [-> _]%lookup_pyrange (pk & Epk & H1 & H2 & H3) Ep.
    destruct (plan_req_inv _ _ _ _ Ep) as (hs & hd & md & o & [_ _ Hmd] & Eo & [dst Ed] & _ & Etr & Ecur).
    unfold plan_req in Ep. ounfold Ep. ounfold Ep. clear Ep.
    assert (Em : req_misses b (Z.of_nat k) = a3) by (unfold req_misses; by rewrite E3). rewrite Em in *.
    destruct (kda_plan_req_Ret b pk (Z.of_nat k) a3 md dst) as (pk' & Epk' & H4 & _ & H6 & H7); try done.
    exists pk'. split; [|split; [lia|split]].
    - replace (Z.of_nat (S k)) with (Z.of_nat k + 1) by lia. rewrite (pyrange_app 0 (Z.of_nat k)) by lia.
      rewrite ofold_app, Epk. cbn [obind]. unfold pyrange. rewrite seqZ_cons by lia. cbn [ofold].
      rewrite Epk'. cbn [obind]. by rewrite seqZ_nil by lia.
    - destruct (req_order_spec _ _ _ _ _ _ Eo) as (_ & _ & _ & _ & _ & HM).
      by rewrite H6, Etr, H1, H2, persisted_entries.
    - rewrite H7, H3. symmetry. by apply take_pyget. }
  destruct HI as (pk & Epk & H1 & H2 & H3). rewrite length_pyrange0 in Epk, H3 by done. rewrite Z2Nat.id in Epk by done.
  unfold kda_init_pic_metadata. rewrite E0. cbn [obind]. rewrite Epk. cbn [obind]. rewrite E2. cbn [obind].
  eexists. split; [done|]. constructor; cbn; try done. rewrite H3. unfold slice_to, pyidx.
  destruct (Z.ltb_spec (pb_batch_size b) 0); [lia|]. unfold len.
  destruct (Z.le_gt_cases (pb_batch_size b) (Z.of_nat (length (pb_req_cache_indices b)))).
  - f_equal. lia.
  - rewrite !take_ge by lia. done.
Qed.

(** The last computed rows of the requests. *)
Definition last_rows (b : PicBatch) : list Z :=
  (fun k => row_base b (S k) - 1) <$> seq 0 (Z.to_nat (pb_batch_size b)).

Definition row_last (b : PicBatch) (x : Z * option Z) : option Z :=
  match x.2 with Some r => if bool_decide (r ∈ last_rows b) then Some r else None | None => None end.

(** Among the rows of request [k], only its last one is a last row. *)
Lemma last_rows_own b k r :
  (k < Z.to_nat (pb_batch_size b))%nat -> row_base b k <= r < row_base b (S k) ->
  r ∈ last_rows b <-> r = row_base b (S k) - 1.
Proof.
  intros Hk Hr. unfold last_rows. rewrite list_elem_of_fmap. split.
  - intros (j & -> & Hj%elem_of_seq). destruct (Nat.lt_trichotomy j k) as [Hlt|[->|Hlt]]; [|done|].
    + pose proof (row_base_mono b (S j) k ltac:(lia)). lia.
    + pose proof (row_base_mono b (S k) (S j) ltac:(lia)). lia.
  - intros ->. exists k. split; [done|]. apply elem_of_seq. lia.
Qed.

Lemma gdn_orders b mg k o : 0 <= pb_batch_size b -> init_pic_metadata false b = Ret mg ->
  sm_compose_order mg !! k = Some o ->
  (k < Z.to_nat (pb_batch_size b))%nat /\ is_Some (pyget (pb_miss_segments b) (Z.of_nat k)) /\ exists hs hd md,
    req_data b (Z.of_nat k) hs hd md /\ req_order hs hd (req_misses b (Z.of_nat k)) md (row_base b k) = Ret o.
Proof.
  intros Hb E Ho. unfold init_pic_metadata in E. do 3 ounfold E. injection E as <-. cbn in Ho.
  pose proof (plan_PlanInv _ _ Hb E1) as [Hl _ _ _ _ Hq _]. apply lookup_lt_Some in Ho as Hk. rewrite Hl in Hk.
  split; [done|]. split; [|by apply Hq]. unfold batch_seg_lengths in E0.
  assert (HI : forall i, (i < length (pyrange 0 (pb_batch_size b)))%nat -> is_Some (pyget (pb_miss_segments b) (Z.of_nat i))).
  { apply (ofold_inv (fun n _ => forall i, (i < n)%nat -> is_Some (pyget (pb_miss_segments b) (Z.of_nat i))) _ _ _ _ E0); [lia|].
    intros j x acc acc' [-> _]%lookup_pyrange IH Es. ounfold Es.
    intros i Hi. destruct (decide (i = j)) as [->|]; [by eauto|apply IH; lia]. }
  apply HI. by rewrite length_pyrange0.
Qed.

Lemma ofold_ext_in {A B} (f g : B -> A -> outcome B) acc l :
  (forall a x, x ∈ l -> f a x = g a x) -> ofold f acc l = ofold g acc l.
Proof.
  revert acc. induction l as [|x l IH]; intros acc Hfg; cbn [ofold]; [done|].
  rewrite Hfg by left. destruct (g acc x); cbn; [|done]. apply IH. intros. apply Hfg. by right.
Qed.

Section kda.
Context {V Tok St Tr AB Out : Type} (zero : V).
Context `{DeltaAlg St Tr} `{!DeltaAlgLaws St Tr} `{DeltaKernel Tok St Tr (list V) AB Out}.
Context `{!DeltaKernelSpec (V := V) (Tok := Tok) (St := St) (Tr := Tr) (AB := AB) (Out := Out)}.
Local Notation run := (run (V := V) (Tok := Tok) (St := St) (Tr := Tr) (AB := AB) (Out := Out)).

(** ** Addition *)

(** Addition computes what it computes in the GDN layers. *)
Theorem kda_addition_forward_correct b m mixed ab s s1 toks :
  0 <= pb_batch_size b -> kda_init_pic_metadata b = Ret m ->
  slots_ok m (length (lc_temporal s)) -> hit_slots_ok b (lc_temporal s) ->
  (forall k, (k < Z.to_nat (pb_batch_size b))%nat -> req_misses b (Z.of_nat k) <> []) ->
  kda_conv_stage (Tok := Tok) (Out := Out) zero m mixed ab s = (Ret toks, s1) ->
  exists s2 seeds,
    kda_forward_extend_pic_addition zero b m mixed ab s =
      (Ret (fwd_o toks (sm_cu_seqlens m) (sm_seg_indices m) seeds), s2) /\
    addition_done (V := V) (Tok := Tok) (AB := AB) (Out := Out) b m (lc_temporal s) toks seeds (lc_temporal s2).
Proof.
  intros Hb Hinit Hs Hhits Hmiss Econv. eapply addition_core; try done; [by apply kda_init_addition_ok|].
  by destruct (conv_layout_frame _ _ _ _ _ _ _ _ _ _ _ _ _ _ Econv).
Qed.

(** ** Transition *)

Lemma kda_step_last b (trans : list Tr) (ssm : list St) k acc (x : Z * option Z) (ms : list (Z * Z)) :
  (k < Z.to_nat (pb_batch_size b))%nat -> row_base b (S k) = row_base b k + len ms ->
  (forall r, x.2 = Some r -> row_base b k <= r < row_base b (S k)) ->
  kda_compose_step (match ms with [] => -1 | _ => row_base b k + len ms - 1 end) trans ssm acc x =
  step (row_last b) (fun x => slot_pair trans ssm x.1) acc x.
Proof.
  intros Hk HS Hr. destruct acc as [h kh], x as [slot pay]. unfold kda_compose_step, step, row_last, slot_pair. cbn in *.
  destruct pay as [r|]; [|cbn; destruct (tensor_get trans slot); cbn; [|done]; by destruct (tensor_get ssm slot)].
  specialize (Hr r eq_refl). pose proof (last_rows_own b k r Hk Hr) as Hl.
  destruct ms as [|se ms]; [unfold len in HS; cbn in HS; lia|].
  assert (Hdec : bool_decide (Some r = Some (row_base b k + len (se :: ms) - 1)) = bool_decide (r ∈ last_rows b)).
  { apply bool_decide_ext. rewrite Hl, HS. split; [by intros [= ->]|by intros ->]. }
  rewrite Hdec. clear Hdec. case_bool_decide as Hin.
  - apply Hl in Hin. replace (row_base b k + len (se :: ms) - 1) with r by lia.
    destruct (index_put kh r h); cbn; [|done]. destruct (tensor_get trans slot); cbn; [|done]. by destruct (tensor_get ssm slot).
  - cbn. destruct (tensor_get trans slot); cbn; [|done]. by destruct (tensor_get ssm slot).
Qed.

Lemma kda_compose_steps b mg (trans : list Tr) (ssm kh0 : list St) :
  0 <= pb_batch_size b -> init_pic_metadata false b = Ret mg -> length (sm_compose_order mg) = Z.to_nat (pb_batch_size b) ->
  ofold (kda_compose_req b trans ssm) ([], kh0, 0) (pyrange 0 (pb_batch_size b)) =
  obind (ofold (steps_req (row_last b) (fun x => slot_pair trans ssm x.1)) ([], kh0) (sm_compose_order mg))
    (fun '(hbuf, kh) => Ret (hbuf, kh, row_base b (Z.to_nat (pb_batch_size b)))).
Proof.
  intros Hb Hinit Hlen.
  assert (Hgo : forall k, (k <= Z.to_nat (pb_batch_size b))%nat ->
    ofold (kda_compose_req b trans ssm) ([], kh0, 0) (pyrange 0 (Z.of_nat k)) =
    obind (ofold (steps_req (row_last b) (fun x => slot_pair trans ssm x.1)) ([], kh0) (take k (sm_compose_order mg)))
      (fun '(hbuf, kh) => Ret (hbuf, kh, row_base b k))).
  2: { specialize (Hgo _ (le_n _)). by rewrite Z2Nat.id, take_ge in Hgo by lia. }
  induction k as [|k IH]; intros Hk; [done|].
  destruct (lookup_lt_is_Some_2 (sm_compose_order mg) k) as [o Eo]; [lia|].
  rewrite (take_S_r _ _ _ Eo), ofold_app. replace (Z.of_nat (S k)) with (Z.of_nat k + 1) by lia.
  rewrite (pyrange_app 0 (Z.of_nat k)) by lia. rewrite ofold_app, IH by lia.
  destruct (ofold _ _ (take k _)) as [[hbuf kh]|]; [cbn [obind]|done].
  unfold pyrange. rewrite seqZ_cons, seqZ_nil by lia. cbn [ofold].
  destruct (gdn_orders _ _ _ _ Hb Hinit Eo) as (Hk' & [ms Ems] & hs & hd & md & [E1 E2 E3] & Eord).
  assert (Em : req_misses b (Z.of_nat k) = ms) by (unfold req_misses; by rewrite Ems).
  assert (HS : row_base b (S k) = row_base b k + len ms) by (by rewrite row_base_S, Em).
  unfold kda_compose_req. rewrite E1, E2, Ems. cbn [or_raise obind]. rewrite E3. cbn [obind]. rewrite Em in Eord. rewrite Eord. cbn [obind].
  rewrite (ofold_ext_in _ (step (row_last b) (fun x => slot_pair trans ssm x.1))).
  - unfold steps_req. destruct (ofold _ (st_zero, kh) o) as [[h kh']|]; cbn; by rewrite ?HS.
  - intros acc x Hx. apply kda_step_last; [done|done|]. intros r Er. rewrite HS.
    pose proof (req_order_rows _ _ _ _ _ _ Eord) as HP. apply elem_of_pyrange. rewrite <- HP. apply list_elem_of_omap. by exists x.
Qed.

Lemma row_last_rows b (l : list (Z * option Z)) : omap (row_last b) l = filter (fun r => r ∈ last_rows b) (omap snd l).
Proof.
  induction l as [|[slot [r|]] l IH]; [done| |exact IH]. cbn [omap list_omap]. unfold row_last at 1. cbn [snd].
  rewrite filter_cons. case_bool_decide; case_decide; try done; by rewrite IH.
Qed.

(** C38. The transition layer of the KDA backend never returns: it reads a name
    that nothing binds, after it has updated the convolution states.  Bound to
    the number of rows, its body would leave in the pool the states that the
    GDN layer leaves (the recurrence over all tokens of each request, and the
    pairs of the persisted segments), but would re-run only the last computed
    row of a request from the state before it: every other row would start
    from zero, whatever precedes it. *)
Theorem kda_transition_forward b mg m mixed ab s s1 toks trans content :
  0 <= pb_batch_size b -> init_pic_metadata false b = Ret mg -> kda_init_pic_metadata b = Ret m ->
  slots_ok mg (length (lc_temporal s)) ->
  lc_transition s = Some trans -> length trans = length (lc_temporal s) ->
  kda_conv_stage (Tok := Tok) (Out := Out) zero m mixed ab s = (Ret toks, s1) ->
  (forall slot, (slot, None) ∈ concat (sm_compose_order mg) ->
     holds (V := V) (AB := AB) (Out := Out) (lc_temporal s) trans slot (content slot)) ->
  let tk := seg_toks content toks (sm_cu_seqlens m) in
  kda_forward_extend_pic_transition (Out := Out) zero b m mixed ab s = (Raise NameError, s1) /\
  exists s2 seeds,
    kda_transition_body zero (Some (sm_num_segments m)) b m mixed ab s =
      (Ret (fwd_o toks (sm_cu_seqlens m) (sm_seg_indices m) seeds), s2) /\
    (forall k o d, sm_compose_order mg !! k = Some o -> sm_req_dst m !! k = Some d ->
       lc_temporal s2 !! Z.to_nat d = Some (run (concat (tk <$> o)) st_zero) /\
       seeded (V := V) (AB := AB) (Out := Out) (row_last b) tk st_zero o seeds) /\
    (forall j, Z.of_nat j < sm_num_segments m -> Z.of_nat j ∉ last_rows b -> seeds !! j = Some st_zero) /\
    (forall row slot, (row, slot) ∈ sm_trans_persist m ->
       delta_pool (AB := AB) (Out := Out) s2 slot (row_toks toks (sm_cu_seqlens m) (Z.to_nat row))).
Proof.
  intros Hb Hg Hinit Hs Etr Hlen Econv Hhit tk.
  pose proof (init_pic_metadata_ok _ _ Hb Hg) as Hmg.
  destruct (kda_meta_agrees _ _ Hb Hg) as (m' & Hinit' & [En Ecu Eidx Ep Ed]). rewrite Hinit in Hinit'. injection Hinit' as <-.
  destruct (conv_layout_frame _ _ _ _ _ _ _ _ _ _ _ _ _ _ Econv) as [Et1 Etr1]. split.
  { unfold kda_forward_extend_pic_transition, kda_transition_body. munfold. by rewrite Etr, Econv. }
  destruct (computed_rows_ok b mg Hmg) as [Hnd Hrng].
  destruct (transition_core b mg (row_last b) (lc_temporal s) trans toks content)
    as (ssm & trans' & hs & seeds & ssm' & E1 & E2 & E3 & E4 & Hreq & Huns & Hpers); try done.
  { split; rewrite row_last_rows; [by apply NoDup_filter|]. apply Forall_forall. intros r [_ Hr]%list_elem_of_filter.
    rewrite Forall_forall in Hrng. by apply Hrng. }
  pose proof (kda_compose_steps b mg trans' ssm (replicate (Z.to_nat (sm_num_segments mg)) st_zero) Hb Hg (mo_orders _ _ Hmg)) as E5.
  rewrite E3 in E5. cbn [obind] in E5.
  exists (set_lc_temporal ssm' (set_lc_transition (Some trans') (set_lc_temporal ssm s1))), seeds.
  subst tk. rewrite Ecu, Eidx, En, Ep, Ed. split; [|split; [done|split]].
  - unfold kda_transition_body. munfold. rewrite Etr, Econv. cbn [fmap option_fmap option_map].
    rewrite Ecu, Eidx, En, Ep, Ed, Et1, E1. cbn beta iota. rewrite E2, E5. cbn [fst snd]. by rewrite E4.
  - intros j Hj Hnl. apply Huns; [lia|]. rewrite row_last_rows. intros [Hin _]%list_elem_of_filter. done.
  - intros row slot Hin. exists trans'. split; [done|]. by apply Hpers.
Qed.

End kda.

(** The witness: tokens [0, 2) cached in slot 1, [2, 4) computed. *)
Lemma kda_transition_forward_witness :
  exists m s2 (out : list Mat2.St),
    kda_init_pic_metadata Mat2.batch = Ret m /\
    kda_transition_body (Tok := Mat2.Tok) (Tr := Mat2.Tr) 0 (Some 1) Mat2.batch m Mat2.mixed tt Mat2.cache = (Ret out, s2) /\
    lc_temporal s2 !! 3%nat =
      Some (run (V := Z) (Tok := Mat2.Tok) (St := Mat2.St) (Tr := Mat2.Tr) (AB := unit) (Out := list Mat2.St)
              (Mat2.cached ++ (Mat2.tok_of_row <$> Mat2.mixed)) st_zero).
Proof.
  assert (Hg : exists mg, init_pic_metadata false Mat2.batch = Ret mg) by (eexists; vm_compute; reflexivity).
  destruct Hg as [mg Hg]. vm_compute in Hg. injection Hg as <-.
  assert (Hinit : exists m, kda_init_pic_metadata Mat2.batch = Ret m) by (eexists; vm_compute; reflexivity).
  destruct Hinit as [m Hinit]. vm_compute in Hinit. injection Hinit as <-.
  destruct (kda_transition_forward (V := Z) (Tok := Mat2.Tok) (St := Mat2.St) (Tr := Mat2.Tr) (Out := list Mat2.St) 0
    Mat2.batch _ _ Mat2.mixed tt Mat2.cache Mat2.cache
    (Mat2.tok_of_row <$> Mat2.mixed) (default [] (lc_transition Mat2.cache)) (fun _ => Mat2.cached)
    ltac:(vm_compute; discriminate) eq_refl eq_refl) as (_ & s2 & seeds & E & Hreq & _).
  - split; vm_compute.
    + repeat constructor; set_solver.
    + repeat constructor; discriminate.
    + repeat constructor; set_solver.
    + repeat constructor; discriminate.
    + intros d Hd. set_solver.
    + intros d Hd. set_solver.
  - reflexivity.
  - reflexivity.
  - reflexivity.
  - intros slot Hin. vm_compute in Hin.
    assert (slot = 1) as -> by set_solver. split; [lia|]. split; reflexivity.
  - eexists _, s2, seeds. split; [reflexivity|]. split; [exact E|].
    exact (proj1 (Hreq 0%nat [(1, None); (2, Some 0)] 3 eq_refl eq_refl)).
Defined.
