(* ===== verification/LightningPlan.v ===== *)
(** * The plan of the SegLA layers

    [_pic_get_or_build_plan] of srt/layers/attention/linear/lightning_backend.py:
    per request the segments in position order, each computed segment with its
    window of query rows and the slot it is cached in, and for the recompute
    mode the rows of the kernel calls and the program that composes the
    states.  The plan is kept per batch; positions kept for dumps are left
    out. *)

From S2P Require Import Prelude PyDict ConvTails GdnMeta RopeKV.

(** The fields of the forward batch that the plan reads. *)
Record LBatch := mkLBatch {
  lb_batch : PicBatch;
  lb_rope_meta : option (list RopeMeta);
}.


(** A step of a request's composition. *)
Inductive Step :=
  | HitStep (start end_ length : Z) (seg_hash : list Z) (hit_slots : list (list Z * Z)) (seam : option (list Z))
  | MissStep (start end_ length miss_id : Z).

Record MissRec := mkMissRec {
  mr_req_idx : Z;
  mr_start : Z;
  mr_end : Z;
  mr_length : Z;
  mr_q_start : Z;
  mr_q_end : Z;
  mr_miss_slot : option Z;
  mr_cache_segment : bool;
}.

(** [xs[i] if i < len(xs) else d]. *)
Definition item_or {A} (d : A) (xs : list A) (i : Z) : A := default d (pyget xs i).

(** The query row of every position of a request in the recompute mode. *)
Definition abs_to_q_index (req_q_start : Z) (miss_segments : list (Z * Z)) (hit_seam : list (Z * Z * list Z))
    : list (Z * Z) :=
  let req_positions := sort_Z (concat ((fun '(s, e) => pyrange s e) <$> miss_segments) ++ concat hit_seam.*2) in
  foldl (fun d '(i, pos) => dict_set pos (req_q_start + i) d) [] (enumerate req_positions).

(** A segment of a request in position order: [Some h] for a cached one. *)
Definition ordered_segs (hit_segments : list (Z * Z * list Z)) (miss_segments : list (Z * Z))
    : list (Z * Z * option (list Z)) :=
  sort_key (fun x => x.1.1) (((fun '(s, e, h) => (s, e, Some h)) <$> hit_segments) ++
                             ((fun '(s, e) => (s, e, None)) <$> miss_segments)).

(** The accumulator: the steps of the request, all records and the cursor. *)
Definition plan_step (is_recompute : bool) (req_idx : Z) (hit_seam : list (Z * Z * list Z)) (a2q : option (list (Z * Z)))
    (hit_slots : list (list Z * Z)) (miss_slots : list (Z * Z * Z)) (last_segment : option (Z * Z))
    (acc : list Step * list MissRec * Z) (seg : Z * Z * option (list Z)) : outcome (list Step * list MissRec * Z) :=
  let '(steps, miss_records, q_cursor) := acc in
  let '(start, end_, kind) := seg in
  let length := end_ - start in
  if length <=? 0 then Ret acc
  else match kind with
  | Some seg_hash =>
      let seam := if is_recompute then dict_get (start, end_) hit_seam else None in
      Ret (steps ++ [HitStep start end_ length seg_hash hit_slots seam], miss_records, q_cursor)
  | None =>
      let miss_id := len miss_records in
      obind (match a2q with
             | Some d =>
                 obind (or_raise KeyError (dict_get start d)) (fun q_start =>
                 obind (or_raise KeyError (dict_get (end_ - 1) d)) (fun q_last =>
                 if q_last + 1 - q_start =? length then Ret (q_start, q_last + 1, q_cursor) else Raise RuntimeError))
             | None => Ret (q_cursor, q_cursor + length, q_cursor + length)
             end) (fun '(q_start, q_end, q_cursor') =>
      let miss_slot := dict_get (start, end_) miss_slots in
      let cache_segment := bool_decide (is_Some miss_slot) && negb (bool_decide (Some (start, end_) = last_segment)) in
      Ret (steps ++ [MissStep start end_ length miss_id],
           miss_records ++ [mkMissRec req_idx start end_ length q_start q_end miss_slot cache_segment], q_cursor'))
  end.

Record LPlan := mkLPlan {
  lp_req_plans : list (list Step);
  lp_miss_records : list MissRec;
  lp_a2q : list (option (list (Z * Z)));
  lp_q_cursor : Z;
}.

Definition plan_request_l (is_recompute : bool) (b : LBatch) (p : LPlan) (req_idx : Z) : outcome LPlan :=
  let pb := lb_batch b in
  let hit_segments := item_or [] (default [] (pb_hit_segments pb)) req_idx in
  let miss_segments := item_or [] (pb_miss_segments pb) req_idx in
  let hit_slots := item_or [] (default [] (pb_hit_mamba_slots pb)) req_idx in
  let miss_slots := item_or [] (default [] (pb_miss_mamba_slots pb)) req_idx in
  let meta := if is_recompute then match lb_rope_meta b with Some l => pyget l req_idx | None => None end else None in
  let hit_seam := match meta with Some m => default [] (ro_hit_seam m) | None => [] end in
  let a2q := (fun _ => abs_to_q_index (lp_q_cursor p) miss_segments hit_seam) <$> meta in
  let ordered := ordered_segs hit_segments miss_segments in
  let last_segment := fst <$> last ordered in
  obind (ofold (plan_step is_recompute req_idx hit_seam a2q hit_slots miss_slots last_segment)
           ([], lp_miss_records p, lp_q_cursor p) ordered) (fun '(steps, miss_records, q_cursor) =>
  Ret (mkLPlan (lp_req_plans p ++ [steps]) miss_records (lp_a2q p ++ [a2q])
         (match a2q with Some d => lp_q_cursor p + len d | None => q_cursor end))).

(** ** The recompute mode: kernel rows and the program

    The fields [seg_id], [slot] and [pool_write] of a row are never read. *)

Record PassRow := mkPassRow {
  pr_sink : bool;          (* "hit_sink" or "miss" *)
  pr_req_id : Z;
  pr_q_idx : list Z;
  pr_length : Z;
}.

Inductive Op :=
  | SeedLocal (row : Z)
  | SeedPoolThenLocal (sink_row last_row slot start length : Z)
  | HitPoolOnly (slot rid length start : Z)
  | Writeback (rid : Z).

Definition emit_step (a2q : option (list (Z * Z))) (miss_records : list MissRec) (req_idx : Z)
    (acc : list PassRow * list Op) (st : Step) : outcome (list PassRow * list Op) :=
  let '(rows, prog) := acc in
  match st with
  | MissStep _ _ _ miss_id =>
      obind (or_raise IndexError (pyget miss_records miss_id)) (fun rec =>
      Ret (rows ++ [mkPassRow false req_idx (pyrange (mr_q_start rec) (mr_q_start rec + mr_length rec)) (mr_length rec)],
           prog ++ [SeedLocal (len rows)]))
  | HitStep start _ length seg_hash hit_slots seam =>
      obind (or_raise KeyError (dict_get seg_hash hit_slots)) (fun slot =>
      obind (match a2q, seam with
             | Some d, Some sink_pos => omapM (fun p => or_raise KeyError (dict_get p d)) sink_pos
             | _, _ => Ret []
             end) (fun sink_q_idx =>
      match sink_q_idx with
      | [] => Ret (rows, prog ++ [HitPoolOnly slot req_idx length start])
      | _ => Ret (rows ++ [mkPassRow true req_idx sink_q_idx (len sink_q_idx)],
                  prog ++ [SeedPoolThenLocal (len rows) (len rows) slot start length])
      end))
  end.

Definition emit_request (p : LPlan) (acc : list PassRow * list Op) (rq : Z * list Step) : outcome (list PassRow * list Op) :=
  let '(req_idx, steps) := rq in
  obind (or_raise IndexError (pyget (lp_a2q p) req_idx)) (fun a2q =>
  obind (ofold (emit_step a2q (lp_miss_records p) req_idx) acc steps) (fun '(rows, prog) =>
  Ret (rows, prog ++ [Writeback req_idx]))).

(** [row_q_offsets_cpu] starts with 0. *)
Definition row_offsets (rows : list PassRow) : list Z := cu_seqlens (pr_length <$> rows).

Definition get_or_build_plan (is_recompute : bool) (b : LBatch) (q_total : Z)
    : outcome (LPlan * (list PassRow * list Op)) :=
  obind (ofold (plan_request_l is_recompute b) (mkLPlan [] [] [] 0) (pyrange 0 (pb_batch_size (lb_batch b)))) (fun p =>
  if negb (lp_q_cursor p =? q_total) then Raise AssertionError
  else if is_recompute then
    obind (ofold (emit_request p) ([], []) (enumerate (lp_req_plans p))) (fun rp => Ret (p, rp))
  else Ret (p, ([], []))).
