(* ===== verification/LightningForward.v ===== *)
(** * The SegLA linear-attention layers of a PIC prefill

    [_forward_extend_pic_v2] and [_forward_extend_pic_recompute_3pass] of
    srt/layers/attention/linear/lightning_backend.py.  The state of a head is
    a sum of key-value products that decays exponentially with the distance;
    keys carry their rotary position, so a cached state is kept as if its
    segment began at position 0 and rotated to where it is reused.  The
    algebra of the states is an interface (its tensors are in [SegLaTensor]);
    the kernel [seg_la_fwd] is an argument.  Dumps are left out. *)

From stdpp Require Import strings.
From S2P Require Import Prelude PyDict Policy ConvTails GdnMeta GdnForward LightningPlan.

(** ** States *)

Class SegAlg (St : Type) := {
  sl_zero : St;
  sl_add : St -> St -> St;
  (** [state * exp(-slope * length)] *)
  sl_decay : Z -> St -> St;
  (** The key axis rotated by [delta], for [|delta|] within the cos/sin cache. *)
  sl_turn : Z -> St -> St;
}.

(** [RopeArgs], and the facts of shape the rotation tests: whether a cache is
    given and the rotated dimensions fit the key axis. *)
Record RopeArgs := mkRopeArgs {
  ra_needs_rope : bool;
  ra_cache_len : Z;
  ra_fits : bool;
}.

Section states.
Context {St : Type} `{SegAlg St}.

Definition pic_rotate_state_key_axis (ra : RopeArgs) (state : St) (delta : Z) : outcome St :=
  if (delta =? 0) || negb (ra_fits ra) then Ret state
  else if ra_cache_len ra <=? Z.abs delta then Raise ValueError
  else Ret (sl_turn delta state).

Definition pic_rotate_for_replay (ra : RopeArgs) (state : St) (start : Z) : outcome St :=
  if negb (ra_needs_rope ra) || (start =? 0) then Ret state
  else pic_rotate_state_key_axis ra state start.

Definition pic_derotate_to_canonical (ra : RopeArgs) (state : St) (start : Z) : outcome St :=
  if negb (ra_needs_rope ra) || (start =? 0) then Ret state
  else pic_rotate_state_key_axis ra state (- start).

End states.

(** [seg_la_fwd] on the tokens of a window: the rows' offsets, lengths, seed
    flags and initial states; outputs by token, and the final states. *)
Class SegLaKernel (Tok St O : Type) := {
  seg_la_fwd : list Tok -> list Z -> list Z -> list Z -> list St -> list O * list St;
}.

(** A layer's share of the pool and the fp32 mirror of cached states. *)
Record LightState (St : Type) := mkLight {
  li_ssm : list St;
  li_mirror : list (Z * St);
}.
Arguments mkLight {St}.
Arguments li_ssm {St}.
Arguments li_mirror {St}.

Section forward.
Context {Tok St O : Type} `{SegAlg St} `{SegLaKernel Tok St O}.
(** What [torch.empty] holds, and the arguments of the rotation. *)
Context (o_uninit : O) (st_uninit : St) (ra : RopeArgs).
#[local] Abbreviation L := (LightState St).

Definition put_ssm (slot : Z) (x : St) : M L unit :=
  s ← get;
  ssm ← of_outcome (index_put (li_ssm s) slot x);
  modify (fun s => mkLight ssm (li_mirror s)).
Definition put_mirror (slot : Z) (x : St) : M L unit :=
  modify (fun s => mkLight (li_ssm s) (dict_set slot x (li_mirror s))).

Definition pic_run_segla_batch (toks : list Tok) (init_states : list St) (q_offsets q_lengths s_scales : list Z)
    (group_size : Z) : outcome (list O * list St) :=
  if len s_scales =? group_size then Ret (seg_la_fwd toks q_offsets q_lengths s_scales init_states)
  else Raise AssertionError.

(** [_pic_load_hit_state], and the lookup of the other modes: the mirror
    first, then the pool. *)
Definition pic_load_hit_state (slot start : Z) (s : L) : outcome St :=
  obind (match dict_get slot (li_mirror s) with
         | Some x => Ret x
         | None => tensor_get (li_ssm s) slot
         end) (fun state => pic_rotate_for_replay ra state start).

(** ** Modes without recomputation *)

(** [range(0, n, step)]. *)
Definition group_starts (n step : Z) : list Z := (fun i => i * step) <$> pyrange 0 ((n + step - 1) / step).

(** The window of a group and its rows. *)
Definition group_rows (group : list MissRec) : outcome (Z * Z * list Z * list Z) :=
  obind (or_raise IndexError (head group)) (fun first_ =>
  obind (or_raise IndexError (last group)) (fun last_ =>
  let q_base := mr_q_start first_ in
  let q_limit := mr_q_end last_ in
  Ret (q_base, q_limit, ((fun r => mr_q_start r - q_base) <$> group) ++ [q_limit - q_base], mr_length <$> group))).

Definition cache_fresh (rf : MissRec * St) : M L unit :=
  let '(rec, fresh) := rf in
  if mr_cache_segment rec then
    canonical ← of_outcome (pic_derotate_to_canonical ra fresh (mr_start rec));
    mslot ← of_option TypeError (mr_miss_slot rec);
    put_ssm mslot canonical;;
    put_mirror mslot canonical
  else mret tt.

(** A group of the first pass: its states from zero, cached canonically. *)
Definition pass1_group (max_segments : Z) (toks : list Tok) (recs : list MissRec) (fresh : list St) (group_start : Z)
    : M L (list St) :=
  let group := pyslice recs group_start (group_start + max_segments) in
  w ← of_outcome (group_rows group);
  let '(q_base, q_limit, q_offsets, q_lengths) := w in
  r ← of_outcome (pic_run_segla_batch (pyslice toks q_base q_limit) (replicate (length group) sl_zero)
                    q_offsets q_lengths (replicate (length group) 1) (len group));
  mfold (fun _ rf => cache_fresh rf) tt (zip group r.2);;
  mret (fresh ++ r.2).

(** A step of the second pass; [addition] is whether the mode adds. *)
Definition compose_l (addition : bool) (fresh : list St) (acc : St * list St) (st : Step) : M L (St * list St) :=
  let '(accum, init_states) := acc in
  match st with
  | HitStep start _ length seg_hash hit_slots _ =>
      slot ← of_option KeyError (dict_get seg_hash hit_slots);
      s ← get;
      contrib ← of_outcome (pic_load_hit_state slot start s);
      mret (sl_add (if addition then accum else sl_decay length accum) contrib, init_states)
  | MissStep _ _ length miss_id =>
      init' ← of_outcome (index_put init_states miss_id accum);
      contrib ← of_option KeyError (fresh !! Z.to_nat miss_id);
      mret (sl_add (if addition then accum else sl_decay length accum) contrib, init')
  end.

Definition finish_req (req_cache_indices : list Z) (req_idx : Z) (accum : St) : M L unit :=
  match pyget req_cache_indices req_idx with
  | Some dst => if 0 <=? dst then put_ssm dst accum else mret tt
  | None => mret tt
  end.

Definition compose_request (addition : bool) (req_cache_indices : list Z) (fresh : list St)
    (init_states : list St) (rq : Z * list Step) : M L (list St) :=
  r ← mfold (compose_l addition fresh) (sl_zero, init_states) rq.2;
  finish_req req_cache_indices rq.1 r.1;;
  mret r.2.

(** A group of the third pass: its outputs from the composed states. *)
Definition pass3_group (max_segments : Z) (toks : list Tok) (recs : list MissRec) (init_states : list St)
    (out : list O) (group_start : Z) : outcome (list O) :=
  let group := pyslice recs group_start (group_start + max_segments) in
  obind (group_rows group) (fun '(q_base, q_limit, q_offsets, q_lengths) =>
  obind (pic_run_segla_batch (pyslice toks q_base q_limit) (pyslice init_states group_start (group_start + len group))
           q_offsets q_lengths (replicate (length group) 1) (len group)) (fun r =>
  if len r.1 =? q_limit - q_base then Ret (slice_to out q_base ++ r.1 ++ slice_from out q_limit) else Raise RuntimeError)).

Definition forward_extend_pic_v2 (addition : bool) (max_segments : Z) (b : LBatch) (req_cache_indices : list Z)
    (toks : list Tok) : M L (list O) :=
  plan ← of_outcome (get_or_build_plan false b (len toks));
  let recs := lp_miss_records plan.1 in
  let num_miss := len recs in
  let groups := group_starts num_miss max_segments in
  fresh ← mfold (pass1_group max_segments toks recs) [] groups;
  init_states ← mfold (compose_request addition req_cache_indices fresh) (replicate (length recs) st_uninit)
                  (enumerate (lp_req_plans plan.1));
  of_outcome (ofold (pass3_group max_segments toks recs init_states) (replicate (length toks) o_uninit) groups).

(** ** The recompute mode *)

(** The rows that cached misses are read from: the row of the record when the
    walk over the plan meets it ([_miss_row_map]). *)
Definition miss_row_step (rows : list PassRow) (recs : list MissRec) (acc : list (Z * (Z * Z)) * Z * Z) (st : Step)
    : outcome (list (Z * (Z * Z)) * Z * Z) :=
  let '(map_, row_i, miss_id) := acc in
  let row_sink := pr_sink <$> (if row_i <? len rows then pyget rows row_i else None) in
  match st with
  | MissStep _ _ _ _ =>
      obind (or_raise IndexError (pyget recs miss_id)) (fun rec =>
      match row_sink with
      | Some false =>
          let map_' := match mr_miss_slot rec with
                       | Some slot => if mr_cache_segment rec then dict_set slot (row_i, miss_id) map_ else map_
                       | None => map_
                       end in
          Ret (map_', row_i + 1, miss_id + 1)
      | _ => Ret (map_, row_i, miss_id + 1)
      end)
  | HitStep _ _ _ _ _ seam =>
      match seam, row_sink with
      | Some _, Some true => Ret (map_, row_i + 1, miss_id)
      | _, _ => Ret (map_, row_i, miss_id)
      end
  end.

Definition cache_row (state_buf : list St) (recs : list MissRec) (e : Z * (Z * Z)) : M L unit :=
  let '(mslot, (row, mid)) := e in
  full_cold ← of_outcome (tensor_get state_buf row);
  rec ← of_option IndexError (pyget recs mid);
  seg ← of_outcome (pic_derotate_to_canonical ra full_cold (mr_start rec));
  put_ssm mslot seg;;
  put_mirror mslot seg.

(** The state of request [rid] so far: at first, what its slot holds. *)
Definition h_accum (req_cache_indices : list Z) (h : list (Z * St)) (rid : Z) (s : L) : outcome St :=
  match dict_get rid h with
  | Some x => Ret x
  | None => obind (or_raise IndexError (pyget req_cache_indices rid)) (fun ps => tensor_get (li_ssm s) ps)
  end.

Definition run_op (req_cache_indices : list Z) (rows : list PassRow) (state_buf : list St)
    (acc : list (Z * St) * list St) (op : Op) : M L (list (Z * St) * list St) :=
  let '(h_by_req, kernel_h0) := acc in
  s ← get;
  match op with
  | SeedLocal row_idx =>
      row ← of_option IndexError (pyget rows row_idx);
      h ← of_outcome (h_accum req_cache_indices h_by_req (pr_req_id row) s);
      kernel_h0' ← of_outcome (index_put kernel_h0 row_idx h);
      row_S ← of_outcome (tensor_get state_buf row_idx);
      mret (dict_set (pr_req_id row) (sl_add (sl_decay (pr_length row) h) row_S) h_by_req, kernel_h0')
  | SeedPoolThenLocal sink_row _ slot start length =>
      row ← of_option IndexError (pyget rows sink_row);
      h ← of_outcome (h_accum req_cache_indices h_by_req (pr_req_id row) s);
      kernel_h0' ← of_outcome (index_put kernel_h0 sink_row h);
      full_state ← of_outcome (pic_load_hit_state slot start s);
      mret (dict_set (pr_req_id row) (sl_add (sl_decay length h) full_state) h_by_req, kernel_h0')
  | HitPoolOnly slot rid length start =>
      h ← of_outcome (h_accum req_cache_indices h_by_req rid s);
      full_state ← of_outcome (pic_load_hit_state slot start s);
      mret (dict_set rid (sl_add (sl_decay length h) full_state) h_by_req, kernel_h0)
  | Writeback rid =>
      match dict_get rid h_by_req with
      | Some h => ps ← of_option IndexError (pyget req_cache_indices rid); put_ssm ps h;; mret acc
      | None => mret acc
      end
  end.

Definition forward_extend_pic_recompute_3pass (b : LBatch) (req_cache_indices : list Z) (toks : list Tok) : M L (list O) :=
  plan ← of_outcome (get_or_build_plan true b (len toks));
  let '(p, (rows, prog)) := plan in
  let out := replicate (length toks) o_uninit in
  if len rows =? 0 then mret out
  else
    let all_q_idx := concat (pr_q_idx <$> rows) in
    packed ← of_outcome (omapM (index_select toks) all_q_idx);
    r1 ← of_outcome (pic_run_segla_batch packed (replicate (length rows) sl_zero) (row_offsets rows) (pr_length <$> rows)
                       (replicate (length rows) 0) (len rows));
    let state_buf := r1.2 in
    mrm ← of_outcome (ofold (miss_row_step rows (lp_miss_records p)) ([], 0, 0) (concat (lp_req_plans p)));
    mfold (fun _ e => cache_row state_buf (lp_miss_records p) e) tt mrm.1.1;;
    acc ← mfold (run_op req_cache_indices rows state_buf) ([], replicate (length rows) sl_zero) prog;
    r3 ← of_outcome (pic_run_segla_batch packed acc.2 (row_offsets rows) (pr_length <$> rows)
                       (replicate (length rows) 1) (len rows));
    of_outcome (index_puts out (zip all_q_idx r3.1)).

(** ** Dispatch

    [_forward_extend_pic] and its two entries; [env_segments] is what
    [PIC_LIGHTNING_BATCH_MISS_MAX_SEGMENTS] says. *)
Definition forward_extend_pic_segla (mode linear_backend pic_mode : string) (env_segments : Z) (b : LBatch)
    (req_cache_indices : list Z) (toks : list Tok) : M L (list O) :=
  if negb (String.eqb linear_backend "seg_la") then raise NotImplementedError
  else if negb (String.eqb pic_mode "transition_rope_recompute") then
    policy ← of_option KeyError (dict_get mode POLICIES);
    forward_extend_pic_v2 (bool_decide (compose policy = ADDITION)) (Z.max 1 env_segments) b req_cache_indices toks
  else forward_extend_pic_recompute_3pass b req_cache_indices toks.

Definition segla_forward_extend_pic_addition := forward_extend_pic_segla "addition".
Definition segla_forward_extend_pic_transition := forward_extend_pic_segla "transition".

End forward.
