(* ===== verification/LightningFacts.v ===== *)
(** * SegLA layers: correctness of the modes without recomputation

    The plan gives every request its segments in position order and every
    computed segment its own window of query rows; the layer leaves, for every
    request, the state of the token-by-token recurrence over all its tokens,
    and runs every computed segment from the state before it. *)

From stdpp Require Import strings.
From S2P Require Import Prelude PyDict ConvTails ConvTailsFacts GdnMeta GdnMetaFacts GdnForward GdnFacts RopeKV.
From S2P Require Import LightningPlan LightningForward.

(** ** The plan *)

(** The windows of the records follow each other from [c] to [c']. *)
Fixpoint windows (c : Z) (recs : list MissRec) (c' : Z) : Prop :=
  match recs with
  | [] => c = c'
  | r :: recs' => mr_q_start r = c /\ 0 < mr_length r /\ mr_q_end r = c + mr_length r /\ windows (mr_q_end r) recs' c'
  end.

Lemma windows_app c l1 l2 c' : windows c (l1 ++ l2) c' <-> exists m, windows c l1 m /\ windows m l2 c'.
Proof.
  revert c. induction l1 as [|r l1 IH]; intros c; cbn.
  - split; [eauto|]. by intros (m & -> & H).
  - rewrite IH. split.
    + intros (? & ? & ? & m & ? & ?). eauto 10.
    + intros (m & (? & ? & ? & ?) & ?). eauto 10.
Qed.

Lemma windows_le c l c' : windows c l c' -> c <= c'.
Proof. revert c. induction l as [|r l IH]; intros c; cbn; [lia|]. intros (? & ? & ? & H%IH). lia. Qed.

Lemma windows_inj c l m n : windows c l m -> windows c l n -> m = n.
Proof.
  revert c. induction l as [|y l IH]; intros c; cbn; [congruence|]. intros (? & ? & ? & A) (? & ? & ? & B). by eapply IH.
Qed.

Lemma windows_elem c l c' r : windows c l c' -> r ∈ l ->
  c <= mr_q_start r /\ mr_q_end r <= c' /\ mr_q_end r = mr_q_start r + mr_length r /\ 0 < mr_length r.
Proof.
  revert c. induction l as [|x l IH]; intros c; [by inversion 2|]. cbn. intros (E1 & H1 & E2 & Hw) Hr.
  apply elem_of_cons in Hr as [->|Hr].
  - pose proof (windows_le _ _ _ Hw). lia.
  - destruct (IH _ Hw Hr) as (? & ? & ? & ?). lia.
Qed.

Definition miss_id_of (st : Step) : option Z := match st with MissStep _ _ _ mid => Some mid | _ => None end.
Definition step_seg (st : Step) : Z * Z * option (list Z) :=
  match st with HitStep s e _ h _ _ => (s, e, Some h) | MissStep s e _ _ => (s, e, None) end.
Definition step_len (st : Step) : Z := match st with HitStep _ _ n _ _ _ | MissStep _ _ n _ => n end.

(** A step agrees with the records and with the slots of its request. *)
Definition step_ok (recs : list MissRec) (st : Step) : Prop :=
  0 < step_len st /\
  match st with
  | HitStep s e n _ _ _ => n = e - s
  | MissStep s e n mid => n = e - s /\ exists rec, recs !! Z.to_nat mid = Some rec /\
      mr_start rec = s /\ mr_end rec = e /\ mr_length rec = n
  end.

(** The segments of a request with a positive length, in position order. *)
Definition request_segs (b : LBatch) (i : Z) : list (Z * Z * option (list Z)) :=
  filter (fun x => x.1.1 < x.1.2)
    (ordered_segs (item_or [] (default [] (pb_hit_segments (lb_batch b))) i) (item_or [] (pb_miss_segments (lb_batch b)) i)).

Definition request_slots (b : LBatch) (i : Z) : list (list Z * Z) := item_or [] (default [] (pb_hit_mamba_slots (lb_batch b))) i.

(** The plan so far: the steps of the finished requests and of the current
    one, the records and the cursor. *)
Record PlanL (steps : list Step) (recs : list MissRec) (cur : Z) : Prop := {
  pl_windows : windows 0 recs cur;
  pl_ids : omap miss_id_of steps = pyrange 0 (len recs);
  pl_steps : Forall (step_ok recs) steps;
}.

Lemma step_ok_app recs recs' st : step_ok recs st -> step_ok (recs ++ recs') st.
Proof.
  intros [Hl H]. split; [done|]. destruct st; [done|]. destruct H as (En & rec & E & ?). split; [done|].
  exists rec. split; [by apply lookup_app_l_Some|done].
Qed.

Definition hit_slots_of (slots : list (list Z * Z)) (st : Step) : Prop :=
  match st with HitStep _ _ _ _ hs _ => hs = slots | _ => True end.

Lemma plan_step_inv req_idx hit_slots miss_slots last_segment pre steps recs cur seg steps' recs' cur' :
  plan_step false req_idx [] None hit_slots miss_slots last_segment (steps, recs, cur) seg = Ret (steps', recs', cur') ->
  PlanL (pre ++ steps) recs cur ->
  PlanL (pre ++ steps') recs' cur' /\ recs `prefix_of` recs' /\
  exists new, steps' = steps ++ new /\ Forall (hit_slots_of hit_slots) new /\
    step_seg <$> new = filter (fun x => x.1.1 < x.1.2) [seg].
Proof.
  destruct seg as [[s e] [h|]]; cbn [plan_step]; destruct (Z.leb_spec (e - s) 0) as [Hle|Hgt]; intros E [Hw Hi Hs].
  - injection E as <- <- <-. split; [done|]. split; [done|]. exists []. split; [by rewrite app_nil_r|]. split; [done|]. by rewrite filter_cons, decide_False by (cbn; lia).
  - injection E as <- <- <-. rewrite app_assoc. split; [split; [done| |]|split; [done|]].
    + by rewrite omap_app, app_nil_r.
    + apply Forall_app. split; [done|]. by repeat constructor.
    + eexists. split; [done|]. split; [by repeat constructor|]. by rewrite filter_cons, decide_True by (cbn; lia).
  - injection E as <- <- <-. split; [done|]. split; [done|]. exists []. split; [by rewrite app_nil_r|]. split; [done|]. by rewrite filter_cons, decide_False by (cbn; lia).
  - cbn [obind] in E. injection E as <- <- <-. rewrite app_assoc. split; [split|split; [by eexists|]].
    + apply windows_app. exists cur. split; [done|]. cbn. split_and!; (done || lia).
    + rewrite omap_app, Hi, len_app. change (len [_]) with 1. by rewrite pyrange_snoc by apply len_nonneg.
    + apply Forall_app. split; [by eapply Forall_impl; [exact Hs|]; intros; apply step_ok_app|].
      apply Forall_singleton. split; [cbn; lia|]. split; [done|]. eexists. split.
      { unfold len. rewrite Nat2Z.id, lookup_app_r, Nat.sub_diag by lia. reflexivity. }
      by split_and!.
    + eexists. split; [done|]. split; [by repeat constructor|]. by rewrite filter_cons, decide_True by (cbn; lia).
Qed.

Lemma plan_steps_inv req_idx hit_slots miss_slots last_segment pre segs recs cur steps' recs' cur' :
  ofold (plan_step false req_idx [] None hit_slots miss_slots last_segment) ([], recs, cur) segs = Ret (steps', recs', cur') ->
  PlanL pre recs cur ->
  PlanL (pre ++ steps') recs' cur' /\ recs `prefix_of` recs' /\ Forall (hit_slots_of hit_slots) steps' /\
  step_seg <$> steps' = filter (fun x => x.1.1 < x.1.2) segs.
Proof.
  intros E Hpre.
  set (I := fun k (acc : list Step * list MissRec * Z) => PlanL (pre ++ acc.1.1) acc.1.2 acc.2 /\ recs `prefix_of` acc.1.2 /\
    Forall (hit_slots_of hit_slots) acc.1.1 /\ step_seg <$> acc.1.1 = filter (fun x => x.1.1 < x.1.2) (take k segs)).
  assert (HI : I (length segs) (steps', recs', cur')).
  { apply (ofold_inv I _ _ _ _ E).
    - unfold I. cbn. rewrite app_nil_r. done.
    - intros k seg [[steps r] c] [[steps1 r1] c1] Hk (H1 & H2 & H3 & H4) Es. cbn in *.
      destruct (plan_step_inv _ _ _ _ _ _ _ _ _ _ _ _ Es H1) as (G1 & G2 & new & -> & G3 & G4). unfold I. cbn.
      split; [done|]. split; [by etrans|]. split; [by apply Forall_app|].
      by rewrite fmap_app, G4, H4, (take_S_r _ _ _ Hk), filter_app. }
  destruct HI as (H1 & H2 & H3 & H4). cbn in *. rewrite take_ge in H4 by done. done.
Qed.

(** What the plan of a batch gives. *)
Record plan_ok (b : LBatch) (p : LPlan) : Prop := {
  po_plan : PlanL (concat (lp_req_plans p)) (lp_miss_records p) (lp_q_cursor p);
  po_len : length (lp_req_plans p) = Z.to_nat (pb_batch_size (lb_batch b));
  po_req : forall i steps, lp_req_plans p !! i = Some steps ->
    step_seg <$> steps = request_segs b (Z.of_nat i) /\ Forall (hit_slots_of (request_slots b (Z.of_nat i))) steps;
}.

Lemma get_or_build_plan_ok b q_total p rp :
  0 <= pb_batch_size (lb_batch b) -> get_or_build_plan false b q_total = Ret (p, rp) ->
  plan_ok b p /\ lp_q_cursor p = q_total.
Proof.
  intros Hb E. unfold get_or_build_plan in E. ounfold E. destruct (Z.eqb_spec (lp_q_cursor a) q_total) as [Hq|]; [|done].
  cbn [negb] in E. injection E as -> _. split; [|done].
  set (I := fun k p => PlanL (concat (lp_req_plans p)) (lp_miss_records p) (lp_q_cursor p) /\ length (lp_req_plans p) = k /\
    forall i steps, lp_req_plans p !! i = Some steps ->
      step_seg <$> steps = request_segs b (Z.of_nat i) /\ Forall (hit_slots_of (request_slots b (Z.of_nat i))) steps).
  assert (HI : I (length (pyrange 0 (pb_batch_size (lb_batch b)))) p).
  { apply (ofold_inv I _ _ _ _ E0); [by split_and!|]. intros k x q q' [-> _]%lookup_pyrange (H1 & H2 & H3) Ep.
    unfold plan_request_l in Ep. cbn [fmap option_fmap option_map] in Ep. ounfold Ep.
    destruct a as [[steps recs] cur]. injection Ep as <-. unfold I. cbn.
    destruct (plan_steps_inv _ _ _ _ _ _ _ _ _ _ _ E H1) as (G1 & _ & G3 & G4).
    rewrite concat_app, length_app, H2. cbn. rewrite app_nil_r. split; [done|]. split; [lia|].
    intros i st [Hi|[Hi Ei]]%lookup_app_Some; [by apply H3|].
    apply list_lookup_singleton_Some in Ei as [Ei <-]. assert (i = k) as -> by lia. done. }
  destruct HI as (H1 & H2 & H3). split; [done| |done]. rewrite H2. unfold pyrange. rewrite length_seqZ. lia.
Qed.

(** ** The recurrence *)

(** States form a module on which decay and rotation act linearly; a rotation
    within the cos/sin cache has the opposite one as inverse. *)
Class SegAlgLaws (St : Type) `{SegAlg St} (cache_len : Z) : Prop := {
  sl_add_assoc : forall a b c : St, sl_add a (sl_add b c) = sl_add (sl_add a b) c;
  sl_add_0_l : forall a : St, sl_add sl_zero a = a;
  sl_add_0_r : forall a : St, sl_add a sl_zero = a;
  sl_decay_0 : forall a : St, sl_decay 0 a = a;
  sl_decay_plus : forall m n (a : St), 0 <= m -> 0 <= n -> sl_decay n (sl_decay m a) = sl_decay (m + n) a;
  sl_decay_zero : forall n, sl_decay n sl_zero = sl_zero;
  sl_decay_add : forall n (a b : St), sl_decay n (sl_add a b) = sl_add (sl_decay n a) (sl_decay n b);
  sl_turn_zero : forall d, sl_turn d sl_zero = sl_zero;
  sl_turn_add : forall d (a b : St), sl_turn d (sl_add a b) = sl_add (sl_turn d a) (sl_turn d b);
  sl_turn_decay : forall d n (a : St), sl_turn d (sl_decay n a) = sl_decay n (sl_turn d a);
  sl_turn_inv : forall d (a : St), 0 < d < cache_len -> sl_turn (- d) (sl_turn d a) = a;
}.

(** The state after tokens with the key-value products [kvs]. *)
Definition kv_run {St} `{SegAlg St} (kvs : list St) (h : St) : St :=
  foldl (fun h x => sl_add (sl_decay 1 h) x) h kvs.

(** The kernel's contract: every row runs over its tokens, from its initial
    state when its flag is set and from zero otherwise. *)
Class SegLaSpec (Tok St O : Type) `{SegAlg St} `{SegLaKernel Tok St O} (kv_of : Tok -> St) : Prop := {
  seg_la_length : forall toks offs lens flags init, length (seg_la_fwd toks offs lens flags init).2 = length init;
  seg_la_out : forall toks offs lens flags init, length (seg_la_fwd toks offs lens flags init).1 = length toks;
  seg_la_row : forall toks offs lens flags init i o n c h,
    offs !! i = Some o -> lens !! i = Some n -> flags !! i = Some c -> init !! i = Some h ->
    (seg_la_fwd toks offs lens flags init).2 !! i =
      Some (kv_run (kv_of <$> take (Z.to_nat n) (drop (Z.to_nat o) toks)) (if 0 <? c then h else sl_zero));
}.

(** Ids that differ across a list of lists. *)
Lemma ids_disjoint {A} (f : A -> option Z) (plans : list (list A)) i k si sk mid :
  NoDup (omap f (concat plans)) -> (i < k)%nat -> plans !! i = Some si -> plans !! k = Some sk ->
  mid ∈ omap f si -> mid ∉ omap f sk.
Proof.
  intros Hn Hik Hi Hk Hm. rewrite <- (take_drop_middle plans k sk Hk) in Hn. rewrite concat_app, omap_app in Hn.
  apply NoDup_app in Hn as (_ & Hd & _). intros Hm'. apply (Hd mid).
  - apply list_elem_of_omap in Hm as (st & Hst & Em). apply list_elem_of_omap. exists st. split; [|done].
    apply elem_of_concat. exists si. split; [|done]. apply list_elem_of_lookup. exists i. by rewrite lookup_take_lt.
  - cbn. rewrite omap_app. set_solver.
Qed.

Section facts.
Context {Tok St O : Type} `{SegAlg St} `{SegLaKernel Tok St O}.
Context (o_uninit : O) (st_uninit : St) (ra : RopeArgs) `{!SegAlgLaws St (ra_cache_len ra)}.
Context (kv_of : Tok -> St) `{!SegLaSpec Tok St O kv_of}.

Lemma kv_run_app a b (h : St) : kv_run (a ++ b) h = kv_run b (kv_run a h).
Proof. apply foldl_app. Qed.

Lemma kv_run_affine kvs (h : St) : kv_run kvs h = sl_add (sl_decay (len kvs) h) (kv_run kvs sl_zero).
Proof.
  induction kvs as [|x kvs IH] using rev_ind.
  - cbn. by rewrite sl_decay_0, sl_add_0_r.
  - rewrite !kv_run_app, IH, len_app. cbn. pose proof (len_nonneg kvs). change (len [x]) with 1.
    rewrite sl_decay_add, sl_decay_plus by lia. by rewrite <- sl_add_assoc.
Qed.

Lemma kv_run_turn d kvs : sl_turn d (kv_run kvs sl_zero) = kv_run (sl_turn d <$> kvs) (sl_zero (St := St)).
Proof.
  induction kvs as [|x kvs IH] using rev_ind; [apply sl_turn_zero|].
  rewrite fmap_app, !kv_run_app. cbn. by rewrite sl_turn_add, sl_turn_decay, IH.
Qed.

(** Whether the layer rotates states, and the rotation it applies. *)
Definition rotates : bool := ra_needs_rope ra && ra_fits ra.
Definition turned (start : Z) (kvs : list St) : list St :=
  if rotates && negb (start =? 0) then sl_turn start <$> kvs else kvs.

(** The positions a rotation can reach. *)
Definition start_ok (start : Z) : Prop := rotates = true -> 0 <= start < ra_cache_len ra.

Lemma len_turned start kvs : len (turned start kvs) = len kvs.
Proof. unfold turned. destruct (_ && _); [apply len_map|done]. Qed.

Lemma replay_run start kvs : start_ok start ->
  pic_rotate_for_replay ra (kv_run kvs sl_zero) start = Ret (kv_run (turned start kvs) sl_zero).
Proof.
  intros Hs. unfold pic_rotate_for_replay, pic_rotate_state_key_axis, turned, rotates, start_ok, rotates in *.
  destruct (ra_needs_rope ra), (ra_fits ra); cbn [negb andb orb] in *; rewrite ?orb_true_r; destruct (Z.eqb_spec start 0); cbn [negb andb orb]; try done.
  specialize (Hs eq_refl). destruct (Z.leb_spec (ra_cache_len ra) (Z.abs start)); [lia|]. by rewrite kv_run_turn.
Qed.

(** The products of a segment that begins at [start], as if it began at 0. *)
Definition canon (start : Z) (kvs : list St) : list St :=
  if rotates && negb (start =? 0) then sl_turn (- start) <$> kvs else kvs.

Lemma canon_turned start kvs : start_ok start -> canon start (turned start kvs) = kvs.
Proof.
  unfold canon, turned, start_ok. destruct rotates; cbn [andb]; [|done]. intros Hs. specialize (Hs eq_refl).
  destruct (Z.eqb_spec start 0); cbn [negb]; [done|]. rewrite <- list_fmap_compose.
  rewrite <- (list_fmap_id kvs) at 2. apply list_fmap_ext. intros ? x _. cbn. by rewrite sl_turn_inv by lia.
Qed.

Lemma derotate_run start kvs : start_ok start ->
  pic_derotate_to_canonical ra (kv_run kvs sl_zero) start = Ret (kv_run (canon start kvs) sl_zero).
Proof.
  intros Hs. unfold pic_derotate_to_canonical, pic_rotate_state_key_axis, canon, rotates, start_ok, rotates in *.
  destruct (ra_needs_rope ra), (ra_fits ra); cbn [negb andb orb] in *; rewrite ?orb_true_r; destruct (Z.eqb_spec start 0); cbn [negb andb orb]; try done.
  specialize (Hs eq_refl). destruct (Z.eqb_spec (- start) 0); [lia|]. cbn [orb].
  destruct (Z.leb_spec (ra_cache_len ra) (Z.abs (- start))); [lia|]. by rewrite kv_run_turn.
Qed.

(** ** The first pass *)

(** The products of a record's tokens, its state from zero and the state it
    is cached as. *)
Definition rec_kvs (toks : list Tok) (r : MissRec) : list St := kv_of <$> pyslice toks (mr_q_start r) (mr_q_end r).
Definition fresh_of (toks : list Tok) (r : MissRec) : St := kv_run (rec_kvs toks r) sl_zero.
Definition cached_as (toks : list Tok) (r : MissRec) : St := kv_run (canon (mr_start r) (rec_kvs toks r)) sl_zero.

Definition cache_slot (r : MissRec) : option Z := if mr_cache_segment r then mr_miss_slot r else None.

(** Caching the records [done] turns [s] into [s']. *)
Record cached (toks : list Tok) (done : list MissRec) (s s' : LightState St) : Prop := {
  ca_len : length (li_ssm s') = length (li_ssm s);
  ca_in : forall r slot, r ∈ done -> cache_slot r = Some slot ->
    li_ssm s' !! Z.to_nat slot = Some (cached_as toks r) /\ dict_get slot (li_mirror s') = Some (cached_as toks r);
  ca_out : forall slot, 0 <= slot -> slot ∉ omap cache_slot done ->
    li_ssm s' !! Z.to_nat slot = li_ssm s !! Z.to_nat slot /\ dict_get slot (li_mirror s') = dict_get slot (li_mirror s);
}.

Lemma cached_nil toks s : cached toks [] s s.
Proof. split; [done| |done]. intros ? ? Hr. by inversion Hr. Qed.

(** The records can be cached: their slots exist and differ. *)
Record cacheable (recs : list MissRec) (n : nat) : Prop := {
  cb_nodup : NoDup (omap cache_slot recs);
  cb_range : Forall (fun slot => 0 <= slot < Z.of_nat n) (omap cache_slot recs);
  cb_slot : Forall (fun r => mr_cache_segment r = true -> is_Some (mr_miss_slot r)) recs;
  cb_start : Forall (fun r => start_ok (mr_start r)) recs;
}.

Lemma index_put_in {A} (l : list A) i x : 0 <= i < len l -> index_put l i x = Ret (<[Z.to_nat i := x]> l).
Proof.
  intros Hi. unfold index_put. destruct (Z.ltb_spec i 0); [lia|]. destruct (Z.leb_spec 0 i); [|lia].
  destruct (Z.ltb_spec i (len l)); [done|lia].
Qed.

Lemma cache_fresh_spec toks done r rest s s' E :
  cacheable (done ++ r :: rest) (length (li_ssm s)) -> cached toks done s s' ->
  wp (cache_fresh ra (r, fresh_of toks r)) (fun _ s'' => cached toks (done ++ [r]) s s'') E s'.
Proof.
  intros [Hn Hr Hs Hst] [Hl Hin Hout]. rewrite omap_app in Hn, Hr. apply Forall_app in Hr as [HrD Hr].
  apply Forall_app in Hs as [_ Hs%Forall_inv]. apply Forall_app in Hst as [_ Hst%Forall_inv].
  unfold cache_fresh. destruct (mr_cache_segment r) eqn:Ec.
  - destruct (Hs eq_refl) as [slot Eslot]. assert (Es : cache_slot r = Some slot) by (unfold cache_slot; by rewrite Ec).
    cbn [omap list_omap] in Hn, Hr. rewrite Es in Hn, Hr. apply Forall_cons in Hr as [Hr _].
    apply NoDup_app in Hn as (_ & Hd & _). unfold wp, mbind, M_bind, of_outcome, of_option. unfold fresh_of.
    rewrite derotate_run by done. rewrite Eslot. unfold put_ssm, put_mirror, get, modify, mbind, M_bind, of_outcome, mret, M_ret.
    rewrite index_put_in by (unfold len; lia). fold (cached_as toks r). constructor; cbn.
    + by rewrite length_insert.
    + intros r' slot' [Hr'|Hr']%elem_of_app Es'.
      * assert (Hne : slot' <> slot). { intros ->. apply (Hd slot); [|left]. apply list_elem_of_omap. by exists r'. }
        destruct (Hin r' slot' Hr' Es') as [H1 H2]. rewrite dict_get_set_ne by done. split; [|done].
        rewrite Forall_forall in HrD. assert (0 <= slot') by (apply HrD, list_elem_of_omap; by exists r').
        rewrite list_lookup_insert_ne by lia. done.
      * apply list_elem_of_singleton in Hr' as ->. rewrite Es in Es'. injection Es' as <-.
        split; [apply list_lookup_insert_eq; lia|apply dict_get_set_eq].
    + intros slot' H0' Hnot. rewrite omap_app, not_elem_of_app in Hnot. cbn in Hnot. rewrite Es in Hnot.
      destruct Hnot as [Hn1 [Hne _]%not_elem_of_cons]. destruct (Hout slot' H0' Hn1). rewrite dict_get_set_ne by done.
      split; [|done]. rewrite list_lookup_insert_ne; [done|lia].
  - constructor; cbn.
    + done.
    + intros r' slot' [Hr'|Hr'%list_elem_of_singleton]%elem_of_app Es'; [by apply Hin|]. subst r'. unfold cache_slot in Es'. by rewrite Ec in Es'.
    + intros slot' H0' Hnot. apply Hout; [done|]. rewrite omap_app, not_elem_of_app in Hnot. by destruct Hnot.
Qed.

Lemma pyslice_sub {A} (l : list A) c a b c' :
  0 <= c -> c <= a -> a <= b -> b <= c' -> c' <= len l ->
  take (Z.to_nat (b - a)) (drop (Z.to_nat (a - c)) (pyslice l c c')) = pyslice l a b.
Proof.
  intros. rewrite !pyslice_in_range by lia. rewrite skipn_firstn_comm, drop_drop, take_take.
  f_equal; [lia|]. f_equal. lia.
Qed.

Lemma windows_bounds c g c' r : windows c (r :: g) c' ->
  mr_q_start r = c /\ exists x, last (r :: g) = Some x /\ mr_q_end x = c'.
Proof.
  revert c r. induction g as [|y g IH]; intros c r Hw.
  - cbn in Hw. destruct Hw as (? & ? & ? & ?). split; [done|]. by exists r.
  - destruct Hw as (? & ? & ? & Hw). split; [done|]. destruct (IH _ _ Hw) as (_ & x & ? & ?). by exists x.
Qed.

(** A kernel call on a group of records: every row runs over its window. *)
Lemma group_run toks c g c' init : g <> [] -> windows c g c' -> 0 <= c -> c' <= len toks -> length init = length g ->
  exists offs, group_rows g = Ret (c, c', offs, mr_length <$> g) /\
    let r := seg_la_fwd (pyslice toks c c') offs (mr_length <$> g) (replicate (length g) 1) init in
    pic_run_segla_batch (O := O) (pyslice toks c c') init offs (mr_length <$> g) (replicate (length g) 1) (len g) = Ret r /\
    len r.1 = c' - c /\ r.2 = zip_with (fun rec h => kv_run (rec_kvs toks rec) h) g init.
Proof.
  intros Hne Hw Hc Hc' Hl. destruct g as [|r0 g0]; [done|]. destruct (windows_bounds _ _ _ _ Hw) as (E0 & x & Ex & Ex').
  set (g := r0 :: g0) in *. exists (((fun r => mr_q_start r - c) <$> g) ++ [c' - c]). split.
  { unfold group_rows. change (head g) with (Some r0). rewrite Ex. cbn [or_raise obind]. by rewrite E0, Ex'. }
  cbv zeta. clearbody g. split.
  { unfold pic_run_segla_batch, len at 1. rewrite length_replicate. unfold len. by rewrite Z.eqb_refl. }
  pose proof (windows_le _ _ _ Hw). split.
  { unfold len. rewrite seg_la_out. change (Z.of_nat (length (pyslice toks c c'))) with (len (pyslice toks c c')).
    apply len_pyslice; lia. }
  apply list_eq. intros i. destruct (decide (i < length g)%nat) as [Hi|Hi].
  - destruct (lookup_lt_is_Some_2 g i Hi) as [r Er]. destruct (lookup_lt_is_Some_2 init i) as [h Eh]; [lia|].
    destruct (windows_elem _ _ _ r Hw) as (B1 & B2 & B3 & B4); [by eapply list_elem_of_lookup_2|].
    rewrite lookup_zip_with, Er, Eh. cbn. erewrite seg_la_row; [| | | |exact Eh].
    2: { apply lookup_app_l_Some. by rewrite list_lookup_fmap, Er. }
    2: { by rewrite list_lookup_fmap, Er. }
    2: { by apply lookup_replicate_2. }
    cbn. do 2 f_equal. unfold rec_kvs. f_equal.
    rewrite <- (pyslice_sub toks c (mr_q_start r) (mr_q_end r) c') by lia.
    by replace (mr_q_end r - mr_q_start r) with (mr_length r) by lia.
  - rewrite (lookup_ge_None_2 (zip_with _ _ _)) by (rewrite length_zip_with; lia).
    apply lookup_ge_None_2. rewrite seg_la_length. lia.
Qed.

Lemma zip_with_replicate {A B C} (f : A -> B -> C) l x : zip_with f l (replicate (length l) x) = (fun a => f a x) <$> l.
Proof. induction l; cbn; by f_equal. Qed.

(** The groups of a loop over the records: [take] and [drop] by the size. *)
Lemma group_starts_lookup n step done_ x rest : 0 < step -> 0 <= n -> group_starts n step = done_ ++ x :: rest ->
  x = len done_ * step /\ x < n.
Proof.
  intros Hs Hn E. assert (Hx : group_starts n step !! length done_ = Some x) by (by rewrite E, lookup_app_r, Nat.sub_diag by lia).
  unfold group_starts in Hx. rewrite list_lookup_fmap in Hx. destruct (pyrange _ _ !! _) as [i|] eqn:Ei; [|done].
  injection Hx as <-. apply lookup_pyrange in Ei as [-> Hi]. unfold len. split; [done|].
  pose proof (Z.mul_div_le (n + step - 1) step Hs). nia.
Qed.

Lemma group_starts_all n step : 0 < step -> 0 <= n -> n <= len (group_starts n step) * step.
Proof.
  intros Hs Hn. unfold group_starts. rewrite len_map. unfold len, pyrange. rewrite length_seqZ, Z.sub_0_r.
  pose proof (Z.div_pos (n + step - 1) step ltac:(lia) Hs). rewrite Z2Nat.id by lia.
  pose proof (Z.mul_succ_div_gt (n + step - 1) step Hs). nia.
Qed.

Lemma pyslice_group {A} (l : list A) x step : 0 <= x -> x <= len l -> 0 < step ->
  pyslice l x (x + step) = take (Z.to_nat step) (drop (Z.to_nat x) l).
Proof.
  intros. unfold pyslice, pyidx. destruct (Z.ltb_spec x 0), (Z.ltb_spec (x + step) 0); try lia.
  rewrite (Z.min_l x) by lia. destruct (Z.le_gt_cases (x + step) (len l)).
  - rewrite Z.min_l by lia. f_equal. lia.
  - rewrite Z.min_r by lia. rewrite !take_ge; [done| |]; rewrite length_drop; unfold len in *; lia.
Qed.

(** The records of group [x], split off a list with consecutive windows. *)
Lemma group_split recs total step x : windows 0 recs total -> 0 < step -> 0 <= x < len recs ->
  let g := pyslice recs x (x + step) in
  let pre := take (Z.to_nat x) recs in
  exists c c' post, recs = pre ++ g ++ post /\ g <> [] /\ windows 0 pre c /\ windows c g c' /\ 0 <= c /\ c' <= total /\
    take (Z.to_nat (x + step)) recs = pre ++ g.
Proof.
  intros Hw Hs Hx g pre. assert (Eg : g = take (Z.to_nat step) (drop (Z.to_nat x) recs)) by (unfold g; rewrite pyslice_group by lia; done).
  assert (Esp : recs = pre ++ g ++ drop (Z.to_nat step) (drop (Z.to_nat x) recs)).
  { rewrite Eg, take_drop. unfold pre. by rewrite take_drop. }
  pose proof Hw as Hw'. rewrite Esp in Hw'. apply windows_app in Hw' as (c & H1 & H2). apply windows_app in H2 as (c' & H2 & H3).
  exists c, c', (drop (Z.to_nat step) (drop (Z.to_nat x) recs)). split; [done|]. split.
  { rewrite Eg. intros En. apply (f_equal length) in En. rewrite length_take, length_drop in En. unfold len in Hx. cbn in En. lia. }
  split; [done|]. split; [done|]. apply windows_le in H1, H3. split; [done|]. split; [done|].
  unfold pre. rewrite Eg, Z2Nat.inj_add, <- take_take_drop by lia. done.
Qed.

Lemma pass1_spec toks recs step s E : 0 < step -> windows 0 recs (len toks) -> cacheable recs (length (li_ssm s)) ->
  wp (mfold (pass1_group (O := O) ra step toks recs) [] (group_starts (len recs) step))
     (fun fresh s' => fresh = fresh_of toks <$> recs /\ cached toks recs s s') E s.
Proof.
  intros Hs Hw Hc. pose proof (len_nonneg recs) as Hn.
  apply wp_mfold with (I := fun done_ fresh s' => let k := Z.to_nat (len done_ * step) in
    fresh = fresh_of toks <$> take k recs /\ cached toks (take k recs) s s').
  - cbn. split; [done|apply cached_nil].
  - intros done_ x rest fresh s' El [-> Hca].
    destruct (group_starts_lookup _ _ _ _ _ Hs Hn El) as [Ex Hx]. rewrite <- Ex in *.
    pose proof (len_nonneg done_). destruct (group_split recs (len toks) step x Hw Hs) as (c & c' & post & Esp & Hne & _ & Hwg & H0c & Hct & Etk); [nia|].
    set (g := pyslice recs x (x + step)) in *. set (pre := take (Z.to_nat x) recs) in *.
    destruct (group_run toks c g c' (replicate (length g) sl_zero)) as (offs & Egr & Er & _ & Est); try done; [by rewrite length_replicate|].
    unfold pass1_group. fold g. unfold wp, mbind, M_bind, of_outcome. rewrite Egr, Er.
    apply (wp_bind (mfold _ _ _)). rewrite Est, zip_with_replicate.
    replace (len (done_ ++ [x]) * step) with (x + step) by (rewrite len_app; change (len [x]) with 1; lia).
    rewrite Etk.
    apply wp_mfold with (I := fun d _ s'' => cached toks (pre ++ d.*1) s s'').
    + by rewrite app_nil_r.
    + intros d rf rest' [] s'' Ed Hcd. destruct rf as [r st].
      assert (Erf : st = fresh_of toks r).
      { assert (Hin : (r, st) ∈ zip g ((fun a => kv_run (rec_kvs toks a) sl_zero) <$> g)) by (rewrite Ed; set_solver).
        rewrite zip_with_fmap_r in Hin. apply list_elem_of_lookup in Hin as [i Hi].
        rewrite lookup_zip_with in Hi. destruct (g !! i); [|done]. cbn in Hi. by injection Hi as -> <-. }
      subst st. rewrite fmap_app. cbn. rewrite app_assoc. apply cache_fresh_spec with (rest := rest'.*1 ++ post); [|done].
      replace ((pre ++ d.*1) ++ r :: rest'.*1 ++ post) with recs; [done|].
      rewrite Esp at 1. rewrite <- (fst_zip g ((fun a => kv_run (rec_kvs toks a) sl_zero) <$> g)) at 1 by (by rewrite length_fmap).
      rewrite Ed, fmap_app. cbn. by rewrite <- !app_assoc.
    + intros [] s'' Hcd. apply wp_ret. split.
      * rewrite fmap_app. do 2 f_equal.
      * rewrite fst_zip in Hcd by (by rewrite length_fmap). done.
  - intros fresh s' [-> Hca]. pose proof (group_starts_all (len recs) step Hs Hn) as Hall.
    rewrite take_ge in Hca |- * by (unfold len in *; lia). done.
Qed.

(** ** The second pass *)

(** A cached segment with the products [kvs] (as if at 0) is what a load of
    [slot] finds: in the mirror if it is there, otherwise in the pool. *)
Definition loads (s : LightState St) (slot : Z) (kvs : list St) : Prop :=
  match dict_get slot (li_mirror s) with
  | Some x => x = kv_run kvs sl_zero
  | None => 0 <= slot /\ li_ssm s !! Z.to_nat slot = Some (kv_run kvs sl_zero)
  end.

Lemma loads_frame s s' slot kvs : 0 <= slot ->
  li_ssm s' !! Z.to_nat slot = li_ssm s !! Z.to_nat slot -> dict_get slot (li_mirror s') = dict_get slot (li_mirror s) ->
  loads s slot kvs -> loads s' slot kvs.
Proof. intros H0' E1 E2. unfold loads. rewrite E1, E2. done. Qed.

Section compose.
Context (toks : list Tok) (recs : list MissRec) (content : Z -> list St).

Definition hit_slot_of (st : Step) : option Z := match st with HitStep _ _ _ h hs _ => dict_get h hs | _ => None end.

(** The products of a step's tokens at their positions. *)
Definition step_kvs (st : Step) : list St :=
  match st with
  | HitStep start _ _ h hs _ => match dict_get h hs with Some slot => turned start (content slot) | None => [] end
  | MissStep _ _ _ mid => match recs !! Z.to_nat mid with Some r => rec_kvs toks r | None => [] end
  end.

(** A cached segment of the plan can be loaded. *)
Definition hit_ok (s : LightState St) (st : Step) : Prop :=
  match st with
  | HitStep start _ n h hs _ => exists slot, dict_get h hs = Some slot /\ 0 <= slot /\ start_ok start /\
      loads s slot (content slot) /\ len (content slot) = n
  | MissStep _ _ _ _ => True
  end.

Lemma hit_ok_frame s s' st :
  (forall slot, 0 <= slot -> hit_slot_of st = Some slot ->
     li_ssm s' !! Z.to_nat slot = li_ssm s !! Z.to_nat slot /\ dict_get slot (li_mirror s') = dict_get slot (li_mirror s)) ->
  hit_ok s st -> hit_ok s' st.
Proof.
  intros Hf Hh. destruct st as [start e n h hs seam|]; [|done]. destruct Hh as (slot & Es & H0s & Hok & Hl & Hn).
  exists slot. split_and!; try done. destruct (Hf slot H0s Es). by eapply loads_frame.
Qed.

(** The seeds of the computed segments of [steps], which begin in [h]. *)
Definition seeds_of (h : St) (steps : list Step) (inits : list St) : Prop :=
  forall pre st post mid, steps = pre ++ st :: post -> miss_id_of st = Some mid ->
    inits !! Z.to_nat mid = Some (kv_run (concat (step_kvs <$> pre)) h).

Lemma compose_l_spec h inits st s E : windows 0 recs (len toks) ->
  step_ok recs st -> hit_ok s st -> (forall mid, miss_id_of st = Some mid -> 0 <= mid < len inits) ->
  wp (compose_l ra false (fresh_of toks <$> recs) (h, inits) st)
     (fun r s' => s' = s /\ r.1 = kv_run (step_kvs st) h /\
        r.2 = match miss_id_of st with Some mid => <[Z.to_nat mid := h]> inits | None => inits end) E s.
Proof.
  intros Hw Hok Hhit Hmid. destruct st as [start e n hash hs seam|start e n mid]; cbn [compose_l].
  - destruct Hhit as (slot & Es & H0s & Hst & Hload & Hlen). unfold wp, mbind, M_bind, of_option, of_outcome, get, mret, M_ret.
    rewrite Es. unfold pic_load_hit_state. assert (El : (match dict_get slot (li_mirror s) with Some x => Ret x | None => tensor_get (li_ssm s) slot end)
      = Ret (kv_run (content slot) sl_zero)).
    { unfold loads in Hload. destruct (dict_get slot (li_mirror s)); [by rewrite Hload|]. destruct Hload. by apply tensor_get_Ret. }
    rewrite El. cbn [obind]. rewrite replay_run by done. split; [done|].
    cbn [fst snd step_kvs miss_id_of]. rewrite Es. split; [|done].
    by rewrite (kv_run_affine (turned start (content slot)) h), len_turned, Hlen.
  - specialize (Hmid mid eq_refl). destruct Hok as [_ (En & r & Er & H1 & H2 & H3)].
    unfold wp, mbind, M_bind, of_option, of_outcome, mret, M_ret. rewrite index_put_in by done.
    rewrite list_lookup_fmap, Er. cbn [fmap option_fmap option_map]. split; [done|].
    cbn [fst snd step_kvs miss_id_of]. rewrite Er. split; [|done].
    rewrite (kv_run_affine (rec_kvs toks r) h). destruct (windows_elem _ _ _ r Hw) as (? & ? & ? & ?); [by eapply list_elem_of_lookup_2|].
    unfold rec_kvs at 1. rewrite len_map, len_pyslice by lia. unfold fresh_of. do 2 f_equal. lia.
Qed.

Lemma compose_steps_spec steps h inits s E : windows 0 recs (len toks) ->
  Forall (step_ok recs) steps -> Forall (hit_ok s) steps -> NoDup (omap miss_id_of steps) ->
  Forall (fun mid => 0 <= mid < len inits) (omap miss_id_of steps) ->
  wp (mfold (compose_l ra false (fresh_of toks <$> recs)) (h, inits) steps)
     (fun r s' => s' = s /\ r.1 = kv_run (concat (step_kvs <$> steps)) h /\ length r.2 = length inits /\
        seeds_of h steps r.2 /\ forall j, Z.of_nat j ∉ omap miss_id_of steps -> r.2 !! j = inits !! j) E s.
Proof.
  intros Hw Hok Hhit. revert h inits. induction steps as [|st steps IH]; intros h inits Hn Hr.
  - apply wp_ret. cbn. split_and!; try done. intros [|] ? ? ? [=].
  - apply Forall_cons in Hok as [Hok1 Hok]. apply Forall_cons in Hhit as [Hh1 Hhit]. cbn [mfold]. apply wp_bind.
    eapply wp_mono; [apply compose_l_spec; try done| |done].
    { intros mid Em. cbn [omap list_omap] in Hr. rewrite Em in Hr. by apply Forall_cons in Hr as [? _]. }
    intros [h1 inits1] s' (-> & E1 & E2). cbn in E1, E2. subst h1.
    assert (Hl1 : length inits1 = length inits) by (subst inits1; destruct (miss_id_of st); by rewrite ?length_insert).
    eapply wp_mono; [apply IH; try done| |done].
    { cbn [omap list_omap] in Hn. destruct (miss_id_of st); [by apply NoDup_cons in Hn as [_ ?]|done]. }
    { unfold len in *. rewrite Hl1. cbn [omap list_omap] in Hr. destruct (miss_id_of st); [by apply Forall_cons in Hr as [_ ?]|done]. }
    intros [h2 inits2] s' (-> & G1 & G2 & G3 & G4). cbn [fst snd omap list_omap fmap list_fmap concat] in *.
    split; [done|]. split; [by rewrite G1, kv_run_app|]. split; [lia|]. split.
    + intros [|y pre] x post mid [= ? ?] Ex; subst.
      * rewrite Ex in *. apply NoDup_cons in Hn as [Hni _]. apply Forall_cons in Hr as [Hr _].
        rewrite G4 by (by rewrite Z2Nat.id by lia). apply list_lookup_insert_eq. unfold len in Hr. lia.
      * rewrite fmap_cons. cbn [concat]. rewrite kv_run_app. by eapply G3.
    + intros j Hj. destruct (miss_id_of st) as [mid|]; subst inits1; [|by apply G4].
      apply not_elem_of_cons in Hj as [Hne Hj]. rewrite G4 by done. apply list_lookup_insert_ne. apply Forall_cons in Hr as [Hr _]. lia.
Qed.

End compose.

(** The requests' slots: as many as requests, in the pool, different. *)
Record dsts_ok (dsts : list Z) (plans : list (list Step)) (n : nat) : Prop := {
  do_len : length dsts = length plans;
  do_nodup : NoDup dsts;
  do_range : Forall (fun d => 0 <= d < Z.of_nat n) dsts;
}.

(** The second pass has composed the first [k] requests. *)
Record composed (toks : list Tok) (recs : list MissRec) (content : Z -> list St) (dsts : list Z)
    (plans : list (list Step)) (k : nat) (inits : list St) (s s' : LightState St) : Prop := {
  co_inits : length inits = length recs;
  co_ssm : length (li_ssm s') = length (li_ssm s);
  co_mirror : li_mirror s' = li_mirror s;
  co_final : forall i steps dst, (i < k)%nat -> plans !! i = Some steps -> dsts !! i = Some dst ->
    li_ssm s' !! Z.to_nat dst = Some (kv_run (concat (step_kvs toks recs content <$> steps)) sl_zero);
  co_frame : forall slot, 0 <= slot -> slot ∉ take k dsts -> li_ssm s' !! Z.to_nat slot = li_ssm s !! Z.to_nat slot;
  co_seeds : forall i steps, (i < k)%nat -> plans !! i = Some steps -> seeds_of toks recs content sl_zero steps inits;
}.

Lemma seeds_frame toks recs content h steps inits inits' :
  (forall mid, mid ∈ omap miss_id_of steps -> inits' !! Z.to_nat mid = inits !! Z.to_nat mid) ->
  seeds_of toks recs content h steps inits -> seeds_of toks recs content h steps inits'.
Proof.
  intros Hf Hs pre st post mid -> Em. rewrite Hf; [by eapply Hs|]. apply list_elem_of_omap. exists st. split; [set_solver|done].
Qed.

(** Storing the state of request [k]. *)
Lemma composed_S toks recs content dsts plans k steps dst inits inits' s s' :
  PlanL (concat plans) recs (len toks) -> dsts_ok dsts plans (length (li_ssm s)) ->
  plans !! k = Some steps -> dsts !! k = Some dst -> composed toks recs content dsts plans k inits s s' ->
  length inits' = length inits -> seeds_of toks recs content sl_zero steps inits' ->
  (forall j, Z.of_nat j ∉ omap miss_id_of steps -> inits' !! j = inits !! j) ->
  composed toks recs content dsts plans (S k) inits' s
    (mkLight (<[Z.to_nat dst := kv_run (concat (step_kvs toks recs content <$> steps)) sl_zero]> (li_ssm s')) (li_mirror s')).
Proof.
  intros [_ Hids _] [Hdl Hdn Hdr] Hk Ed [Hil Hsl Hmir Hfin Hfr Hsd] E2 E3 E4.
  rewrite Forall_forall in Hdr. pose proof (Hdr dst (list_elem_of_lookup_2 _ _ _ Ed)) as Hd.
  constructor; cbn [li_ssm li_mirror]; try done.
  - lia.
  - by rewrite length_insert.
  - intros i st d Hi Ei Edi. destruct (decide (i = k)) as [->|].
    + rewrite Ed in Edi. injection Edi as <-. rewrite Hk in Ei. injection Ei as <-. apply list_lookup_insert_eq. lia.
    + rewrite list_lookup_insert_ne; [by apply (Hfin i); [lia|..]|].
      pose proof (Hdr d (list_elem_of_lookup_2 _ _ _ Edi)). intros Eq. assert (d = dst) as -> by lia.
      pose proof (NoDup_lookup _ _ _ _ Hdn Ed Edi). lia.
  - intros slot H0s Hs. rewrite (take_S_r _ _ _ Ed), not_elem_of_app in Hs. destruct Hs as [Hs1 Hs2].
    rewrite list_lookup_insert_ne; [by apply Hfr|]. intros Eq. apply Hs2. apply list_elem_of_singleton. lia.
  - intros i st Hi Ei. destruct (decide (i = k)) as [->|]; [rewrite Hk in Ei; by injection Ei as <-|].
    eapply seeds_frame; [|by apply (Hsd i); [lia|]]. intros mid Hm. apply E4.
    assert (Hmid : mid ∈ pyrange 0 (len recs)).
    { rewrite <- Hids. apply list_elem_of_omap in Hm as (x & Hx & Em). apply list_elem_of_omap. exists x. split; [|done].
      apply elem_of_concat. exists st. split; [by eapply list_elem_of_lookup_2|done]. }
    apply elem_of_pyrange in Hmid. rewrite Z2Nat.id by lia. eapply (ids_disjoint miss_id_of plans i k); [|lia|done..].
    rewrite Hids. apply NoDup_seqZ.
Qed.

Lemma compose_request_step toks recs content dsts plans k steps inits s s' E :
  windows 0 recs (len toks) -> PlanL (concat plans) recs (len toks) -> dsts_ok dsts plans (length (li_ssm s)) ->
  Forall (hit_ok content s) (concat plans) ->
  (forall st slot, st ∈ concat plans -> hit_slot_of st = Some slot -> slot ∉ dsts) ->
  plans !! k = Some steps -> composed toks recs content dsts plans k inits s s' ->
  wp (compose_request ra false dsts (fresh_of toks <$> recs) inits (Z.of_nat k, steps))
     (fun inits' s'' => composed toks recs content dsts plans (S k) inits' s s'') E s'.
Proof.
  intros Hw Hpl Hdo Hhit Hfree Hk Hco. destruct (Hpl) as [_ Hids Hok]. destruct (Hco) as [Hil _ Hmir _ Hfr _].
  assert (Hin : forall st, st ∈ steps -> st ∈ concat plans).
  { intros st Hst. apply elem_of_concat. exists steps. split; [by eapply list_elem_of_lookup_2|done]. }
  assert (Hnd : NoDup (omap miss_id_of (concat plans))) by (rewrite Hids; apply NoDup_seqZ).
  assert (Hsub : omap miss_id_of steps ⊆ pyrange 0 (len recs)).
  { rewrite <- Hids. intros mid (st & Hst & Em)%list_elem_of_omap. apply list_elem_of_omap. exists st. split; [by apply Hin|done]. }
  unfold compose_request. apply wp_bind. eapply wp_mono; [apply (compose_steps_spec toks recs content)| |done]; cbn [snd].
  - done.
  - apply Forall_forall. intros st Hst. rewrite Forall_forall in Hok. by apply Hok, Hin.
  - apply Forall_forall. intros st Hst. rewrite Forall_forall in Hhit. eapply hit_ok_frame; [|by apply Hhit, Hin].
    intros slot H0s Es. rewrite Hmir. split; [|done]. apply Hfr; [done|].
    intros Hd. eapply (Hfree _ slot (Hin _ Hst)); [done|]. by eapply (subseteq_take k).
  - rewrite <- (take_drop_middle plans k steps Hk), concat_app in Hnd. cbn in Hnd. rewrite !omap_app in Hnd.
    apply NoDup_app in Hnd as (_ & _ & Hnd). by apply NoDup_app in Hnd as (? & _).
  - apply Forall_forall. intros mid Hm%Hsub%elem_of_pyrange. unfold len. rewrite Hil. exact Hm.
  - intros [h inits'] s'' (-> & E1 & E2 & E3 & E4). cbn [fst snd] in *. subst h.
    destruct (lookup_lt_is_Some_2 dsts k) as [dst Ed]; [apply lookup_lt_Some in Hk; destruct Hdo; lia|].
    pose proof (do_range _ _ _ Hdo) as Hdr. rewrite Forall_forall in Hdr. specialize (Hdr dst (list_elem_of_lookup_2 _ _ _ Ed)).
    apply wp_bind. unfold finish_req. rewrite pyget_nonneg, Nat2Z.id, Ed by lia. destruct (Z.leb_spec 0 dst); [|lia].
    unfold wp, put_ssm, get, modify, mbind, M_bind, of_outcome, mret, M_ret.
    rewrite index_put_in by (pose proof (co_ssm _ _ _ _ _ _ _ _ _ Hco); unfold len; lia). by eapply composed_S.
Qed.

Lemma pass2_spec toks recs content dsts plans s E :
  PlanL (concat plans) recs (len toks) -> dsts_ok dsts plans (length (li_ssm s)) ->
  Forall (hit_ok content s) (concat plans) ->
  (forall st slot, st ∈ concat plans -> hit_slot_of st = Some slot -> slot ∉ dsts) ->
  wp (mfold (compose_request ra false dsts (fresh_of toks <$> recs)) (replicate (length recs) st_uninit) (enumerate plans))
     (fun inits s' => composed toks recs content dsts plans (length plans) inits s s') E s.
Proof.
  intros Hpl Hd Hhit Hfree.
  apply wp_mfold with (I := fun done_ inits s' => composed toks recs content dsts plans (length done_) inits s s').
  - constructor; try done; try (cbn; intros; lia). apply length_replicate.
  - intros done_ [i steps] rest inits s' El Hco.
    assert (Hx : enumerate plans !! length done_ = Some (i, steps)) by (by rewrite El, lookup_app_r, Nat.sub_diag by lia).
    assert (Hs : plans !! length done_ = Some steps).
    { rewrite <- (snd_enumerate plans), list_lookup_fmap, Hx. done. }
    rewrite (lookup_enumerate _ _ _ Hs) in Hx. injection Hx as <-. rewrite length_app, Nat.add_1_r.
    apply compose_request_step; try done. apply (pl_windows _ _ _ Hpl).
  - intros inits s' Hco. assert (El : length (enumerate plans) = length plans)
      by (rewrite <- (snd_enumerate plans) at 2; by rewrite length_fmap). by rewrite El in Hco.
Qed.

(** ** The third pass *)

(** The outputs of a group, run from the seeds. *)
Definition group_out (step : Z) (toks : list Tok) (recs : list MissRec) (inits : list St) (x : Z) : list O :=
  let g := pyslice recs x (x + step) in
  match group_rows g with
  | Ret (q_base, q_limit, offs, lens) =>
      (seg_la_fwd (pyslice toks q_base q_limit) offs lens (replicate (length g) 1) (pyslice inits x (x + len g))).1
  | Raise _ => []
  end.

Lemma pass3_group_spec step toks recs inits out x pre c0 :
  0 < step -> windows 0 recs (len toks) -> 0 <= x < len recs -> length inits = length recs ->
  windows 0 (take (Z.to_nat x) recs) c0 -> len pre = c0 -> length (pre ++ out) = length toks ->
  exists c1, windows 0 (take (Z.to_nat (x + step)) recs) c1 /\ len (group_out step toks recs inits x) = c1 - c0 /\
    pass3_group step toks recs inits (pre ++ out) x =
      Ret (pre ++ group_out step toks recs inits x ++ drop (Z.to_nat (c1 - c0)) out).
Proof.
  intros Hs Hw Hx Hil Hw0 Hpre Hout.
  destruct (group_split recs (len toks) step x Hw Hs Hx) as (c & c' & post & Esp & Hne & Hwp & Hwg & H0c & Hct & Etk).
  set (g := pyslice recs x (x + step)) in *.
  assert (c = c0) as -> by (by eapply windows_inj).
  exists c'. split; [rewrite Etk; apply windows_app; by exists c0|].
  assert (Hgl : length (pyslice inits x (x + len g)) = length g).
  { assert (Hlg : len g <= len recs - x). { unfold g. rewrite pyslice_group by lia. unfold len in *. rewrite length_take, length_drop. lia. }
    pose proof (len_pyslice inits x (x + len g)) as Hl. unfold len in *. lia. }
  destruct (group_run toks c0 g c' _ Hne Hwg H0c Hct Hgl) as (offs & Egr & Er & Elen & _).
  pose proof (windows_le _ _ _ Hwg).
  assert (Ego : group_out step toks recs inits x = (seg_la_fwd (pyslice toks c0 c') offs (mr_length <$> g) (replicate (length g) 1)
    (pyslice inits x (x + len g))).1) by (unfold group_out; fold g; by rewrite Egr).
  split; [by rewrite Ego|]. unfold pass3_group. fold g. rewrite Egr. cbn [obind]. rewrite Er. cbn [obind]. rewrite Elen, Z.eqb_refl.
  rewrite <- Ego. f_equal. rewrite length_app in Hout. unfold slice_to, slice_from, pyidx.
  destruct (Z.ltb_spec c0 0), (Z.ltb_spec c' 0); try lia. unfold len in *. rewrite length_app.
  replace (Z.to_nat (Z.min c0 (Z.of_nat (length pre + length out)))) with (length pre) by lia. rewrite take_app_length. f_equal. f_equal.
  replace (Z.to_nat (Z.min c' (Z.of_nat (length pre + length out)))) with (length pre + Z.to_nat (c' - c0))%nat by lia.
  by rewrite <- drop_drop, drop_app_length.
Qed.

Lemma pass3_spec step toks recs inits :
  0 < step -> windows 0 recs (len toks) -> length inits = length recs ->
  let groups := group_starts (len recs) step in
  ofold (pass3_group step toks recs inits) (replicate (length toks) o_uninit) groups =
    Ret (concat (group_out step toks recs inits <$> groups)).
Proof.
  intros Hs Hw Hil groups. set (junk := replicate (length toks) o_uninit).
  assert (Hn : 0 <= len recs) by apply len_nonneg.
  assert (Hgo : forall k, (k <= length groups)%nat -> exists c,
    windows 0 (take (Z.to_nat (Z.of_nat k * step)) recs) c /\ len (concat (group_out step toks recs inits <$> take k groups)) = c /\
    ofold (pass3_group step toks recs inits) junk (take k groups) =
      Ret (concat (group_out step toks recs inits <$> take k groups) ++ drop (Z.to_nat c) junk)).
  { induction k as [|k IH]; intros Hk.
    - exists 0. cbn. by rewrite drop_0.
    - destruct IH as (c & Hwc & Hc & E); [lia|]. destruct (lookup_lt_is_Some_2 groups k) as [x Ex]; [lia|].
      rewrite (take_S_r _ _ _ Ex), fmap_app, concat_app, ofold_app, E. cbn [obind ofold fmap list_fmap concat]. rewrite app_nil_r.
      destruct (group_starts_lookup (len recs) step (take k groups) x (drop (S k) groups)) as [Hx1 Hx2]; try done.
      { fold groups. by rewrite take_drop_middle. }
      unfold len in Hx1. rewrite length_take, Nat.min_l in Hx1 by lia. rewrite <- Hx1 in Hwc.
      assert (Hcl : c <= len toks). { rewrite <- (take_drop (Z.to_nat x) recs) in Hw. apply windows_app in Hw as (m & H1 & H2%windows_le).
        pose proof (windows_inj _ _ _ _ Hwc H1). lia. }
      destruct (pass3_group_spec step toks recs inits (drop (Z.to_nat c) junk) x
        (concat (group_out step toks recs inits <$> take k groups)) c Hs Hw) as (c1 & Hw1 & Hl1 & E1); try done; [nia| |].
      { rewrite length_app, length_drop. unfold junk. rewrite length_replicate. unfold len in *. lia. }
      exists c1. replace (Z.of_nat (S k) * step) with (x + step) by lia. split; [done|]. split; [rewrite len_app; lia|].
      rewrite E1. cbn [obind]. rewrite drop_drop, <- app_assoc.
      pose proof (len_nonneg (group_out step toks recs inits x)). pose proof (windows_le _ _ _ Hwc).
      by replace (Z.to_nat c + Z.to_nat (c1 - c))%nat with (Z.to_nat c1) by lia. }
  destruct (Hgo (length groups) (le_n _)) as (c & Hwc & _ & E). rewrite take_ge in E by done. rewrite E. f_equal.
  pose proof (group_starts_all (len recs) step Hs Hn) as Hall. fold groups in Hall. rewrite take_ge in Hwc by (unfold len in *; lia).
  rewrite (windows_inj _ _ _ _ Hwc Hw). rewrite drop_ge, app_nil_r; [done|]. unfold junk, len. rewrite length_replicate. lia.
Qed.

(** ** The layer *)

(** What the layer needs of the pool: the cached segments can be loaded and
    keep their slots, and the slots that it writes are different. *)
Record light_ready (p : LPlan) (dsts : list Z) (content : Z -> list St) (s : LightState St) : Prop := {
  lr_cache : cacheable (lp_miss_records p) (length (li_ssm s));
  lr_dsts : dsts_ok dsts (lp_req_plans p) (length (li_ssm s));
  lr_hits : Forall (hit_ok content s) (concat (lp_req_plans p));
  lr_keep : forall st slot, st ∈ concat (lp_req_plans p) -> hit_slot_of st = Some slot ->
    slot ∉ dsts /\ slot ∉ omap cache_slot (lp_miss_records p);
  lr_apart : forall slot, slot ∈ omap cache_slot (lp_miss_records p) -> slot ∉ dsts;
}.

(** What it leaves: for every request, whose steps are its segments in
    position order, the state of the recurrence over all its tokens, cached
    and computed, and seeds from which every computed segment is run; and for
    every cached record the state of the segment as if it began at 0, in the
    pool and in the mirror. *)
Record light_done (b : LBatch) (p : LPlan) (toks : list Tok) (dsts : list Z) (content : Z -> list St)
    (inits : list St) (s' : LightState St) : Prop := {
  ld_request : forall i dst, dsts !! i = Some dst -> exists steps,
    lp_req_plans p !! i = Some steps /\ step_seg <$> steps = request_segs b (Z.of_nat i) /\
    li_ssm s' !! Z.to_nat dst =
      Some (kv_run (concat (step_kvs toks (lp_miss_records p) content <$> steps)) sl_zero) /\
    seeds_of toks (lp_miss_records p) content sl_zero steps inits;
  ld_cached : forall r slot raw, r ∈ lp_miss_records p -> cache_slot r = Some slot ->
    rec_kvs toks r = turned (mr_start r) raw ->
    li_ssm s' !! Z.to_nat slot = Some (kv_run raw sl_zero) /\ loads s' slot raw;
}.

(** C3. In the transition modes without recomputation a SegLA layer leaves for
    every request the state that the recurrence [h := decay h + k v] reaches
    over all its tokens in position order, with the keys of cached segments
    rotated to where the request has them; every computed segment is re-run
    from the state before it; and a segment that is cached is kept as if it
    began at position 0, whatever its position, so that a later request loads
    the same state. *)
Theorem lightning_forward_correct pic_mode env b toks dsts content p rp s :
  pic_mode <> "transition_rope_recompute"%string -> 0 <= pb_batch_size (lb_batch b) -> get_or_build_plan false b (len toks) = Ret (p, rp) ->
  light_ready p dsts content s ->
  let step := Z.max 1 env in
  wp (segla_forward_extend_pic_transition o_uninit st_uninit ra "seg_la" pic_mode env b dsts toks)
     (fun out s' => exists inits,
        out = concat (group_out step toks (lp_miss_records p) inits <$> group_starts (len (lp_miss_records p)) step) /\
        light_done b p toks dsts content inits s')
     (fun _ _ => False) s.
Proof.
  intros Hmode Hb Hplan [Hca Hd Hh Hk Ha] step. assert (Hs : 0 < step) by (unfold step; lia).
  unfold segla_forward_extend_pic_transition, forward_extend_pic_segla. rewrite (proj2 (String.eqb_neq _ _) Hmode). cbn [negb String.eqb Ascii.eqb Bool.eqb].
  match goal with |- wp _ ?Q ?E s => change (wp (forward_extend_pic_v2 o_uninit st_uninit ra false step b dsts toks) Q E s) end.
  destruct (get_or_build_plan_ok _ _ _ _ Hb Hplan) as [[Hpl Hlen Hreq] Hq].
  rewrite Hq in Hpl. pose proof (pl_windows _ _ _ Hpl) as Hw. unfold forward_extend_pic_v2.
  apply wp_bind. unfold of_outcome at 1. rewrite Hplan. unfold wp at 1. cbn [fst].
  apply wp_bind. eapply wp_mono with (E := fun _ _ => False); [by apply pass1_spec| |done]. intros fresh s1 [-> Hc1].
  apply wp_bind. eapply wp_mono with (E := fun _ _ => False); [apply (pass2_spec toks (lp_miss_records p) content); try done| |done].
  { by rewrite (ca_len _ _ _ _ Hc1). }
  { apply Forall_forall. intros st Hst. rewrite Forall_forall in Hh. eapply hit_ok_frame; [|by apply Hh].
    intros slot H0s Es. apply (ca_out _ _ _ _ Hc1 slot H0s). by eapply (Hk _ slot Hst). }
  { intros st slot Hst Es. by apply (Hk st slot Hst Es). }
  intros inits s2 [Hil Hsl Hmir Hfin Hfr Hsd]. unfold wp, of_outcome. rewrite pass3_spec by done. exists inits. split; [done|].
  destruct Hd as [Hdl _ _]. constructor.
  - intros i dst Ed. destruct (lookup_lt_is_Some_2 (lp_req_plans p) i) as [steps Est]; [apply lookup_lt_Some in Ed; lia|].
    assert (Hi : (i < length (lp_req_plans p))%nat) by (by eapply lookup_lt_Some). exists steps.
    split; [done|]. split; [by apply Hreq|]. split; [by eapply Hfin|by eapply Hsd].
  - intros r slot raw Hr Es Eraw. destruct (ca_in _ _ _ _ Hc1 r slot Hr Es) as [E1 E2].
    assert (Hin : slot ∈ omap cache_slot (lp_miss_records p)) by (apply list_elem_of_omap; by exists r).
    assert (Hcan : cached_as toks r = kv_run raw sl_zero).
    { unfold cached_as. rewrite Eraw, canon_turned; [done|]. destruct Hca as [_ _ _ Hst]. rewrite Forall_forall in Hst. by apply Hst. }
    assert (0 <= slot). { destruct Hca as [_ Hrg _ _]. rewrite Forall_forall in Hrg. by apply Hrg in Hin as [? _]. }
    split; [|unfold loads; by rewrite Hmir, E2]. rewrite Hfr, E1; [by rewrite Hcan|done|].
    intros Hd. apply (Ha slot Hin). by eapply (subseteq_take (length (lp_req_plans p))).
Qed.

End facts.
