(* ===== verification/LightningReFacts.v ===== *)
(** * SegLA layers: correctness of the recompute mode

    The rows of the kernel calls are the computed segments and the sinks of
    the cached ones, in the order of the plan; the program composes every
    request's state from its segments in position order, each of them once,
    and seeds every row with the state before its segment. *)

From stdpp Require Import strings.
From S2P Require Import Prelude PyDict ConvTails ConvTailsFacts GdnMeta GdnMetaFacts GdnForward GdnFacts RopeKV.
From S2P Require Import LightningPlan LightningForward LightningFacts.

(** ** The plan *)

(** The positions of a request that the batch computes. *)
Definition req_positions (b : LBatch) (metas : list RopeMeta) (i : Z) : list Z :=
  let seam := match pyget metas i with Some m => default [] (ro_hit_seam m) | None => [] end in
  sort_Z (concat ((fun '(s, e) => pyrange s e) <$> item_or [] (pb_miss_segments (lb_batch b)) i) ++ concat seam.*2).

(** The rows of the requests before [k]. *)
Definition pos_base (b : LBatch) (metas : list RopeMeta) (k : nat) : Z :=
  len (concat (req_positions b metas <$> seqZ 0 (Z.of_nat k))).

Lemma pos_base_S b metas k : pos_base b metas (S k) = pos_base b metas k + len (req_positions b metas (Z.of_nat k)).
Proof.
  unfold pos_base. replace (Z.of_nat (S k)) with (Z.of_nat k + 1) by lia.
  rewrite seqZ_app by lia. rewrite fmap_app, concat_app, len_app. f_equal.
  rewrite seqZ_cons by lia. cbn. by rewrite app_nil_r.
Qed.

Lemma pos_base_mono b metas i k : (i <= k)%nat -> pos_base b metas i <= pos_base b metas k.
Proof.
  induction 1 as [|k Hle IH]; [done|]. rewrite pos_base_S. pose proof (len_nonneg (req_positions b metas (Z.of_nat k))). lia.
Qed.

(** Numbering distinct positions: a dictionary with one entry each. *)
Lemma number_positions start (l : list Z) : NoDup l ->
  foldl (fun d '(i, pos) => dict_set pos (start + i) d) [] (enumerate l) = (fun '(i, pos) => (pos, start + i)) <$> enumerate l.
Proof.
  intros Hn. induction l as [|x l IH] using rev_ind; [done|]. apply NoDup_app in Hn as (Hn & Hd & _).
  assert (E : enumerate (l ++ [x]) = enumerate l ++ [(len l, x)]).
  { unfold enumerate. rewrite len_app. change (len [x]) with 1. pose proof (len_nonneg l).
    rewrite seqZ_app by lia. rewrite zip_with_app by (rewrite length_seqZ; unfold len; lia).
    done. }
  rewrite E, foldl_app, fmap_app, IH by done. cbn. apply dict_set_fresh, dict_get_None.
  rewrite <- list_fmap_compose. intros Hx. apply list_elem_of_fmap in Hx as ([i y] & Ei & Hin). cbn in Ei. subst x.
  apply (Hd y); [|by left]. rewrite <- (snd_enumerate l). apply list_elem_of_fmap. by exists (i, y).
Qed.

(** The query rows of a request's positions. *)
Definition a2q_ok (lo hi : Z) (d : list (Z * Z)) : Prop := forall p v, dict_get p d = Some v -> lo <= v < hi.

Lemma abs_to_q_index_ok start ms seam : NoDup (sort_Z (concat ((fun '(s, e) => pyrange s e) <$> ms) ++ concat seam.*2)) ->
  let d := abs_to_q_index start ms seam in
  len d = len (sort_Z (concat ((fun '(s, e) => pyrange s e) <$> ms) ++ concat seam.*2)) /\ a2q_ok start (start + len d) d.
Proof.
  intros Hn d. unfold d, abs_to_q_index. set (l := sort_Z _) in *. rewrite number_positions by done.
  assert (El : len ((fun '(i, pos) => (pos, start + i)) <$> enumerate l) = len l).
  { rewrite len_map. unfold enumerate, len. rewrite length_zip_with, length_seqZ. unfold len. lia. }
  split; [done|]. rewrite El. intros p v Hp%dict_get_elem. apply list_elem_of_fmap in Hp as ([i y] & [= -> ->] & Hin).
  assert (Hi : i ∈ (enumerate l).*1) by (apply list_elem_of_fmap; by exists (i, y)).
  rewrite fst_enumerate in Hi. apply elem_of_pyrange in Hi. lia.
Qed.

(** A record's window of query rows. *)
Definition window_ok (hi : Z) (r : MissRec) : Prop :=
  0 <= mr_q_start r /\ mr_q_end r = mr_q_start r + mr_length r /\ mr_q_end r <= hi /\ 0 < mr_length r.

Record PlanC (steps : list Step) (recs : list MissRec) (hi : Z) : Prop := {
  pc_windows : Forall (window_ok hi) recs;
  pc_ids : omap miss_id_of steps = pyrange 0 (len recs);
  pc_steps : Forall (step_ok recs) steps;
}.

Lemma plan_step_rec req_idx seams lo hi d hit_slots miss_slots last_segment pre steps recs cur seg steps' recs' cur' :
  plan_step true req_idx seams (Some d) hit_slots miss_slots last_segment (steps, recs, cur) seg = Ret (steps', recs', cur') ->
  0 <= lo -> a2q_ok lo hi d -> PlanC (pre ++ steps) recs hi ->
  PlanC (pre ++ steps') recs' hi /\
  exists new, steps' = steps ++ new /\ step_seg <$> new = filter (fun x => x.1.1 < x.1.2) [seg].
Proof.
  destruct seg as [[s e] [h|]]; cbn [plan_step]; destruct (Z.leb_spec (e - s) 0) as [Hle|Hgt]; intros E Hlo Hd [Hw Hi Hs].
  - injection E as <- <- <-. split; [done|]. exists []. split; [by rewrite app_nil_r|]. by rewrite filter_cons, decide_False by (cbn; lia).
  - injection E as <- <- <-. rewrite app_assoc. split; [split; [done| |]|].
    + by rewrite omap_app, app_nil_r.
    + apply Forall_app. split; [done|]. by repeat constructor.
    + eexists. split; [done|]. by rewrite filter_cons, decide_True by (cbn; lia).
  - injection E as <- <- <-. split; [done|]. exists []. split; [by rewrite app_nil_r|]. by rewrite filter_cons, decide_False by (cbn; lia).
  - ounfold E. ounfold E0. ounfold E0. destruct (Z.eqb_spec (a1 + 1 - a0) (e - s)) as [El|]; [|done]. injection E0 as <-.
    injection E as <- <- <-. rewrite app_assoc. pose proof (Hd _ _ E1). pose proof (Hd _ _ E2). split; [split|].
    + apply Forall_app. split; [done|]. apply Forall_singleton. unfold window_ok. cbn. lia.
    + rewrite omap_app, Hi, len_app. change (len [_]) with 1. by rewrite pyrange_snoc by apply len_nonneg.
    + apply Forall_app. split; [by eapply Forall_impl; [exact Hs|]; intros; apply step_ok_app|].
      apply Forall_singleton. split; [cbn; lia|]. split; [done|]. eexists. split.
      { unfold len. rewrite Nat2Z.id, lookup_app_r, Nat.sub_diag by lia. reflexivity. }
      by split_and!.
    + eexists. split; [done|]. by rewrite filter_cons, decide_True by (cbn; lia).
Qed.

Lemma window_ok_mono hi hi' r : hi <= hi' -> window_ok hi r -> window_ok hi' r.
Proof. unfold window_ok. lia. Qed.

Lemma plan_steps_rec req_idx seams lo hi d hit_slots miss_slots last_segment pre segs recs cur steps' recs' cur' :
  ofold (plan_step true req_idx seams (Some d) hit_slots miss_slots last_segment) ([], recs, cur) segs = Ret (steps', recs', cur') ->
  0 <= lo -> a2q_ok lo hi d -> PlanC pre recs hi ->
  PlanC (pre ++ steps') recs' hi /\ step_seg <$> steps' = filter (fun x => x.1.1 < x.1.2) segs.
Proof.
  intros E Hlo Hd Hpre.
  set (I := fun k (acc : list Step * list MissRec * Z) => PlanC (pre ++ acc.1.1) acc.1.2 hi /\
    step_seg <$> acc.1.1 = filter (fun x => x.1.1 < x.1.2) (take k segs)).
  assert (HI : I (length segs) (steps', recs', cur')).
  { apply (ofold_inv I _ _ _ _ E).
    - unfold I. cbn. by rewrite app_nil_r.
    - intros k seg [[steps r] c] [[steps1 r1] c1] Hk (H1 & H4) Es. cbn in *.
      destruct (plan_step_rec _ _ _ _ _ _ _ _ _ _ _ _ _ _ _ _ Es Hlo Hd H1) as (G1 & new & -> & G4). unfold I. cbn.
      split; [done|]. by rewrite fmap_app, G4, H4, (take_S_r _ _ _ Hk), filter_app. }
  destruct HI as (H1 & H4). cbn in *. rewrite take_ge in H4 by done. done.
Qed.

(** What the plan gives in the recompute mode. *)
Record plan_rec_ok (b : LBatch) (p : LPlan) : Prop := {
  pr_plan : PlanC (concat (lp_req_plans p)) (lp_miss_records p) (lp_q_cursor p);
  pr_len : length (lp_req_plans p) = Z.to_nat (pb_batch_size (lb_batch b));
  pr_req : forall i steps, lp_req_plans p !! i = Some steps -> step_seg <$> steps = request_segs b (Z.of_nat i);
  pr_a2q : Forall (fun o => forall d q v, o = Some d -> dict_get q d = Some v -> 0 <= v < lp_q_cursor p) (lp_a2q p);
  pr_a2q_len : length (lp_a2q p) = length (lp_req_plans p);
}.

(** Every request comes with its metadata, and computes distinct positions. *)
Definition metas_ok (b : LBatch) (metas : list RopeMeta) : Prop :=
  lb_rope_meta b = Some metas /\ forall i, (i < Z.to_nat (pb_batch_size (lb_batch b)))%nat ->
    is_Some (pyget metas (Z.of_nat i)) /\ NoDup (req_positions b metas (Z.of_nat i)).

Lemma plan_recompute_ok b metas p :
  0 <= pb_batch_size (lb_batch b) -> metas_ok b metas ->
  ofold (plan_request_l true b) (mkLPlan [] [] [] 0) (pyrange 0 (pb_batch_size (lb_batch b))) = Ret p -> plan_rec_ok b p.
Proof.
  intros Hb [Em Hm] E.
  set (I := fun k p => lp_q_cursor p = pos_base b metas k /\ PlanC (concat (lp_req_plans p)) (lp_miss_records p) (lp_q_cursor p) /\
    length (lp_req_plans p) = k /\ (forall i steps, lp_req_plans p !! i = Some steps -> step_seg <$> steps = request_segs b (Z.of_nat i)) /\
    Forall (fun o => forall d q v, o = Some d -> dict_get q d = Some v -> 0 <= v < lp_q_cursor p) (lp_a2q p) /\
    length (lp_a2q p) = k).
  assert (HI : I (length (pyrange 0 (pb_batch_size (lb_batch b)))) p).
  { apply (ofold_inv I _ _ _ _ E); [split_and!; try done; by repeat constructor|].
    intros k x q q' [-> Hk]%lookup_pyrange (H1 & H2 & H3 & H4 & H5 & H6) Ep.
    destruct (Hm k) as [[meta Emeta] Hnd]; [lia|]. unfold plan_request_l in Ep. rewrite Em, Emeta in Ep.
    cbn [fmap option_fmap option_map] in Ep. ounfold Ep. destruct a as [[steps recs] cur]. injection Ep as <-.
    unfold req_positions in Hnd. rewrite Emeta in Hnd.
    destruct (abs_to_q_index_ok (lp_q_cursor q) _ _ Hnd) as [Hdl Hhi]. set (d := abs_to_q_index _ _ _) in *.
    assert (Hl : lp_q_cursor q + len d = pos_base b metas (S k)) by (rewrite Hdl, H1, pos_base_S; unfold req_positions; by rewrite Emeta).
    assert (H0 : 0 <= lp_q_cursor q) by (rewrite H1; apply len_nonneg). pose proof (len_nonneg d).
    assert (Hpre : PlanC (concat (lp_req_plans q)) (lp_miss_records q) (lp_q_cursor q + len d)).
    { destruct H2 as [W1 W2 W3]. split; [|done|done]. eapply Forall_impl; [exact W1|]. intros r. apply window_ok_mono. lia. }
    destruct (plan_steps_rec _ _ _ _ _ _ _ _ _ _ _ _ _ _ _ E0 H0 Hhi Hpre) as (G1 & G4). unfold I. cbn.
    rewrite concat_app, !length_app, H3, H6. cbn. rewrite app_nil_r. split; [done|]. split; [done|]. split; [lia|]. split; [|split; [|lia]].
    - intros i st [Hi|[Hi Ei]]%lookup_app_Some; [by apply H4|].
      apply list_lookup_singleton_Some in Ei as [Ei <-]. assert (i = k) as -> by lia. done.
    - apply Forall_app. split; [|apply Forall_singleton].
      + eapply Forall_impl; [exact H5|]. intros o Ho d' qq v Eo Hv. specialize (Ho d' qq v Eo Hv). lia.
      + intros d' qq v [= <-] Hv. apply Hhi in Hv. lia. }
  destruct HI as (H1 & H2 & H3 & H4 & H5 & H6). split; try done; [|lia]. rewrite H3. unfold pyrange. rewrite length_seqZ. lia.
Qed.

(** ** Rows and program *)

Definition op_row (op : Op) : option Z :=
  match op with SeedLocal r | SeedPoolThenLocal r _ _ _ _ => Some r | _ => None end.

Definition miss_row (i : Z) (rec : MissRec) : PassRow :=
  mkPassRow false i (pyrange (mr_q_start rec) (mr_q_start rec + mr_length rec)) (mr_length rec).

(** The instruction of a step of request [i]. *)
Definition step_op (recs : list MissRec) (rows : list PassRow) (i : Z) (st : Step) (op : Op) : Prop :=
  match st, op with
  | MissStep _ _ _ mid, SeedLocal r => 0 <= r /\ exists rec, recs !! Z.to_nat mid = Some rec /\
      rows !! Z.to_nat r = Some (miss_row i rec)
  | HitStep start _ n h hs seam, SeedPoolThenLocal r _ slot start' n' => 0 <= r /\ dict_get h hs = Some slot /\
      start' = start /\ n' = n /\ is_Some seam /\ exists q, rows !! Z.to_nat r = Some (mkPassRow true i q (len q))
  | HitStep start _ n h hs _, HitPoolOnly slot rid n' start' => dict_get h hs = Some slot /\ rid = i /\ start' = start /\ n' = n
  | _, _ => False
  end.

Lemma step_op_app recs rows rows' i st op : step_op recs rows i st op -> step_op recs (rows ++ rows') i st op.
Proof.
  destruct st, op; cbn; try done.
  - intros (? & ? & ? & ? & ? & q & ?). split_and!; try done. exists q. by apply lookup_app_l_Some.
  - intros (? & rec & ? & ?). split; [done|]. exists rec. split; [done|]. by apply lookup_app_l_Some.
Qed.

(** A row selects query rows of the batch. *)
Definition row_in (hi : Z) (row : PassRow) : Prop :=
  pr_length row = len (pr_q_idx row) /\ Forall (fun q => 0 <= q < hi) (pr_q_idx row).

Record Emit (recs : list MissRec) (hi i : Z) (pre : list Op) (steps : list Step) (ops : list Op) (rows : list PassRow) : Prop := {
  em_ops : Forall2 (step_op recs rows i) steps ops;
  em_rows : omap op_row (pre ++ ops) = pyrange 0 (len rows);
  em_in : Forall (row_in hi) rows;
}.

Lemma miss_row_in hi i rec : window_ok hi rec -> row_in hi (miss_row i rec).
Proof.
  intros (H1 & H2 & H3 & H4). split; cbn.
  - unfold len, pyrange. rewrite length_seqZ. lia.
  - apply Forall_forall. intros q Hq%elem_of_pyrange. lia.
Qed.

Lemma emit_step_inv a2q recs hi i pre steps ops rows prog st rows' prog' :
  emit_step a2q recs i (rows, prog) st = Ret (rows', prog') ->
  Forall (window_ok hi) recs -> (forall d q v, a2q = Some d -> dict_get q d = Some v -> 0 <= v < hi) ->
  (forall mid, miss_id_of st = Some mid -> 0 <= mid) ->
  Emit recs hi i pre steps ops rows ->
  (exists ext, rows' = rows ++ ext) /\ exists op, prog' = prog ++ [op] /\ Emit recs hi i pre (steps ++ [st]) (ops ++ [op]) rows'.
Proof.
  intros E Hw Ha Hmid [H1 H2 H3]. pose proof (len_nonneg rows). destruct st as [start e n h hs seam|start e n mid]; cbn [emit_step] in E.
  - ounfold E. ounfold E. destruct a0 as [|q0 qs].
    + injection E as <- <-. split; [exists []; by rewrite app_nil_r|]. eexists. split; [done|]. split; [|by rewrite app_assoc, omap_app, H2, app_nil_r|done].
      apply Forall2_app; [done|]. by repeat constructor.
    + injection E as <- <-. split; [by eexists|]. eexists. split; [done|]. split.
      * apply Forall2_app; [by eapply Forall2_impl; [exact H1|]; intros; apply step_op_app|]. constructor; [|constructor].
        split; [done|]. split; [done|]. split; [done|]. split; [done|].
        split; [destruct a2q; [|done]; destruct seam; [by eexists|done]|].
        exists (q0 :: qs). rewrite lookup_app_r by (unfold len; lia). unfold len at 1. by rewrite Nat2Z.id, Nat.sub_diag.
      * rewrite app_assoc, omap_app, H2, len_app. change (len [_]) with 1. by rewrite pyrange_snoc.
      * apply Forall_app. split; [done|]. apply Forall_singleton. split; [done|].
        destruct a2q as [d|]; [|done]. destruct seam as [sp|]; [|done]. apply omapM_inv in E1.
        apply Forall_forall. cbn [pr_q_idx]. intros q Hq. apply list_elem_of_lookup in Hq as [j Hj].
        destruct (Forall2_lookup_r _ _ _ _ _ E1 Hj) as (y & _ & Hy). apply or_raise_inv in Hy. by eapply Ha.
  - ounfold E. injection E as <- <-. specialize (Hmid mid eq_refl). rewrite pyget_nonneg in E0 by done. split; [by eexists|].
    eexists. split; [done|]. split.
    + apply Forall2_app; [by eapply Forall2_impl; [exact H1|]; intros; apply step_op_app|]. constructor; [|constructor].
      split; [done|]. exists a. split; [done|]. rewrite lookup_app_r by (unfold len; lia). unfold len. by rewrite Nat2Z.id, Nat.sub_diag.
    + rewrite app_assoc, omap_app, H2, len_app. change (len [_]) with 1. by rewrite pyrange_snoc.
    + apply Forall_app. split; [done|]. apply Forall_singleton. apply (miss_row_in hi i a). rewrite Forall_forall in Hw. by eapply Hw, list_elem_of_lookup_2.
Qed.

Lemma emit_steps_inv a2q recs hi i pre steps rows prog rows' prog' :
  ofold (emit_step a2q recs i) (rows, prog) steps = Ret (rows', prog') ->
  Forall (window_ok hi) recs -> (forall d q v, a2q = Some d -> dict_get q d = Some v -> 0 <= v < hi) ->
  Forall (fun st => forall mid, miss_id_of st = Some mid -> 0 <= mid) steps ->
  omap op_row pre = pyrange 0 (len rows) -> Forall (row_in hi) rows ->
  (exists ext, rows' = rows ++ ext) /\ exists ops, prog' = prog ++ ops /\ Emit recs hi i pre steps ops rows'.
Proof.
  intros E Hw Ha Hmid Hpre Hrows.
  set (I := fun k (acc : list PassRow * list Op) => (exists ext, acc.1 = rows ++ ext) /\
    exists ops, acc.2 = prog ++ ops /\ Emit recs hi i pre (take k steps) ops acc.1).
  assert (HI : I (length steps) (rows', prog')).
  { apply (ofold_inv I _ _ _ _ E).
    - split; [exists []; by rewrite app_nil_r|]. exists []. rewrite app_nil_r. split; [done|]. split; [constructor|by rewrite app_nil_r|done].
    - intros k st [r1 p1] [r2 p2] Hk ((ext & E1) & ops & E2 & HE) Es. cbn in *.
      destruct (emit_step_inv _ _ _ _ _ _ _ _ _ _ _ _ Es Hw Ha ltac:(rewrite Forall_forall in Hmid; by eapply Hmid, list_elem_of_lookup_2) HE)
        as ((ext' & ->) & op & -> & HE').
      split; [exists (ext ++ ext'); cbn; by rewrite E1, app_assoc|]. exists (ops ++ [op]). cbn. split; [by rewrite E2, app_assoc|].
      by rewrite (take_S_r _ _ _ Hk). }
  destruct HI as [Hext (ops & E2 & HE)]. cbn in *. rewrite take_ge in HE by done. eauto.
Qed.

Definition request_prog (i : nat) (ops : list Op) : list Op := ops ++ [Writeback (Z.of_nat i)].

(** The program of the first requests: the instructions of their steps. *)
Record Program (recs : list MissRec) (hi : Z) (plans : list (list Step)) (opss : list (list Op)) (rows : list PassRow)
    (prog : list Op) : Prop := {
  pg_prog : prog = concat (imap request_prog opss);
  pg_len : length opss = length plans;
  pg_ops : forall i steps ops, plans !! i = Some steps -> opss !! i = Some ops ->
    Forall2 (step_op recs rows (Z.of_nat i)) steps ops;
  pg_rows : omap op_row (concat opss) = pyrange 0 (len rows);
  pg_in : Forall (row_in hi) rows;
}.

Lemma emit_program b p rows prog :
  plan_rec_ok b p -> ofold (emit_request p) ([], []) (enumerate (lp_req_plans p)) = Ret (rows, prog) ->
  exists opss, Program (lp_miss_records p) (lp_q_cursor p) (lp_req_plans p) opss rows prog.
Proof.
  intros [[Hw Hids _] _ _ Ha Hal] E.
  set (I := fun k (acc : list PassRow * list Op) => exists opss,
    Program (lp_miss_records p) (lp_q_cursor p) (take k (lp_req_plans p)) opss acc.1 acc.2).
  assert (El : length (enumerate (lp_req_plans p)) = length (lp_req_plans p))
    by (rewrite <- (snd_enumerate (lp_req_plans p)) at 2; by rewrite length_fmap).
  assert (HI : I (length (enumerate (lp_req_plans p))) (rows, prog)).
  { apply (ofold_inv I _ _ _ _ E).
    - exists []. by split; try done.
    - intros k [i steps] [r1 p1] [r2 p2] Hk (opss & [G1 G2 G3 G4 G5]) Es. cbn in G1, G4, G5, G3.
      assert (Hs : lp_req_plans p !! k = Some steps) by (rewrite <- (snd_enumerate (lp_req_plans p)), list_lookup_fmap, Hk; done).
      rewrite (lookup_enumerate _ _ _ Hs) in Hk. injection Hk as <-.
      unfold emit_request in Es. ounfold Es. ounfold Es. destruct a0 as [r3 p3]. injection Es as <- <-.
      rewrite pyget_nonneg, Nat2Z.id in E0 by lia.
      destruct (emit_steps_inv _ _ (lp_q_cursor p) _ (concat opss) _ _ _ _ _ E1 Hw) as ((ext & ->) & ops & -> & [F1 F2 F3]).
      { rewrite Forall_forall in Ha. intros d q v Ed. by eapply Ha; [eapply list_elem_of_lookup_2|]. }
      { apply Forall_forall. intros st Hst mid Hm. assert (Hin : mid ∈ pyrange 0 (len (lp_miss_records p))); [|apply elem_of_pyrange in Hin; lia].
        rewrite <- Hids. apply list_elem_of_omap. exists st. split; [|done]. apply elem_of_concat. exists steps. split; [by eapply list_elem_of_lookup_2|done]. }
      { done. }
      { done. }
      assert (Hlk : length (take k (lp_req_plans p)) = k) by (apply lookup_lt_Some in Hs; rewrite length_take; lia).
      exists (opss ++ [ops]). cbn [fst snd]. rewrite (take_S_r _ _ _ Hs). split.
      + rewrite imap_app, concat_app. cbn. rewrite app_nil_r, G1. unfold request_prog. rewrite <- app_assoc.
        by rewrite G2, Hlk, Nat.add_0_r.
      + rewrite !length_app. cbn. lia.
      + intros j st os [Hj|[Hj Ej]]%lookup_app_Some Ho.
        * eapply Forall2_impl; [|intros ? ? Hst; by apply step_op_app]. apply (G3 j); [done|].
          apply lookup_lt_Some in Hj. by rewrite lookup_app_l in Ho by lia.
        * apply list_lookup_singleton_Some in Ej as [Ej <-]. rewrite lookup_app_r in Ho by lia.
          replace (j - length opss)%nat with 0%nat in Ho by lia. injection Ho as <-. by replace j with k by lia.
      + rewrite concat_app. cbn [concat]. by rewrite app_nil_r.
      + done. }
  destruct HI as [opss HP]. exists opss. cbn in HP. by rewrite El, take_ge in HP by done.
Qed.

Lemma Forall2_concat {A B} (P : A -> B -> Prop) ls ks : Forall2 (Forall2 P) ls ks -> Forall2 P (concat ls) (concat ks).
Proof. induction 1; cbn; [constructor|]. by apply Forall2_app. Qed.

Lemma program_steps recs hi plans opss rows prog : Program recs hi plans opss rows prog ->
  Forall2 (fun st op => exists i, step_op recs rows i st op) (concat plans) (concat opss).
Proof.
  intros HP. apply Forall2_concat, Forall2_same_length_lookup_2; [by rewrite (pg_len _ _ _ _ _ _ HP)|]. intros i steps ops Hi Ho.
  eapply Forall2_impl; [by eapply (pg_ops _ _ _ _ _ _ HP)|]. by eexists.
Qed.

(** ** The rows of the cached segments *)

Lemma omap_index {A} (f : A -> option Z) l n k x r :
  omap f l = pyrange 0 n -> l !! k = Some x -> f x = Some r -> r = len (omap f (take k l)).
Proof.
  intros E Hk Hf. rewrite <- (take_drop_middle l k x Hk), omap_app in E. cbn in E. rewrite Hf in E.
  assert (Hl : pyrange 0 n !! length (omap f (take k l)) = Some r) by (by rewrite <- E, lookup_app_r, Nat.sub_diag by lia).
  apply lookup_pyrange in Hl as [-> _]. done.
Qed.

(** A part of a list whose ids are [0 .. n-1]. *)
Lemma omap_part {A} (f : A -> option Z) (ls : list (list A)) k l n :
  omap f (concat ls) = pyrange 0 n -> ls !! k = Some l -> NoDup (omap f l) /\ Forall (fun r => 0 <= r < n) (omap f l).
Proof.
  intros E Hk. rewrite <- (take_drop_middle ls k l Hk), concat_app, omap_app in E. cbn [concat] in E. rewrite omap_app in E.
  assert (Hnd : NoDup (pyrange 0 n)) by apply NoDup_seqZ. rewrite <- E in Hnd.
  apply NoDup_app in Hnd as (_ & _ & Hnd). split; [by apply NoDup_app in Hnd as (? & _)|].
  apply Forall_forall. intros r Hr. apply elem_of_pyrange. rewrite <- E, !elem_of_app. auto.
Qed.

(** The records that are cached. *)
Definition crecs (recs : list MissRec) : list MissRec := filter (fun r => is_Some (cache_slot r)) recs.

Lemma crecs_slots recs : omap cache_slot (crecs recs) = omap cache_slot recs.
Proof.
  unfold crecs. induction recs as [|r recs IH]; [done|]. rewrite filter_cons. case_decide as Hd.
  - cbn. by destruct (cache_slot r); rewrite ?IH.
  - cbn. destruct (cache_slot r) eqn:E; [|done]. destruct Hd. by eexists.
Qed.

(** An entry of the row map names its record and the record's row. *)
Definition row_entry (recs : list MissRec) (rows : list PassRow) (rec : MissRec) (e : Z * (Z * Z)) : Prop :=
  cache_slot rec = Some e.1 /\ 0 <= e.2.2 /\ recs !! Z.to_nat e.2.2 = Some rec /\ 0 <= e.2.1 /\
  exists i, rows !! Z.to_nat e.2.1 = Some (miss_row i rec).

Lemma row_entry_keys recs rows l m : Forall2 (row_entry recs rows) l m -> m.*1 = omap cache_slot l.
Proof. induction 1 as [|rec e l m (Hs & _) _ IH]; [done|]. cbn. rewrite Hs. by rewrite IH. Qed.

(** The walk over the plan, after [cnt] rows and [mid] misses: rows that it has
    counted too many are sinks. *)
Record Walk (recs : list MissRec) (rows : list PassRow) (cnt mid row_i : Z) (m : list (Z * (Z * Z))) : Prop := {
  wk_le : cnt <= row_i;
  wk_sinks : forall j, cnt <= j < row_i -> exists row, rows !! Z.to_nat j = Some row /\ pr_sink row = true;
  wk_map : Forall2 (row_entry recs rows) (crecs (take (Z.to_nat mid) recs)) m;
}.

(** What the walk reads at [row_i]. *)
Lemma row_sink_at rows row_i : 0 <= row_i ->
  pr_sink <$> (if row_i <? len rows then pyget rows row_i else None) = pr_sink <$> rows !! Z.to_nat row_i.
Proof.
  intros H0. rewrite pyget_nonneg by done. destruct (Z.ltb_spec row_i (len rows)) as [|Hge]; [done|].
  rewrite lookup_ge_None_2; [done|]. unfold len in Hge. lia.
Qed.

Lemma walk_hit recs rows cnt mid row_i m start e n h hs seam op i :
  0 <= cnt -> Walk recs rows cnt mid row_i m -> step_op recs rows i (HitStep start e n h hs seam) op ->
  (forall r, op_row op = Some r -> r = cnt) ->
  exists row_i', miss_row_step rows recs (m, row_i, mid) (HitStep start e n h hs seam) = Ret (m, row_i', mid) /\
    Walk recs rows (cnt + len (option_list (op_row op))) mid row_i' m.
Proof.
  intros H0 [Hc Hs HR] Hop Hr. cbn [miss_row_step]. rewrite row_sink_at by lia.
  assert (Hgrow : forall row, rows !! Z.to_nat row_i = Some row -> pr_sink row = true -> forall c, cnt <= c -> c <= row_i + 1 ->
    Walk recs rows c mid (row_i + 1) m).
  { intros row E1 E2 c Hcc Hci. split; [done| |done]. intros j Hj. destruct (decide (j = row_i)) as [->|]; [by exists row|apply Hs; lia]. }
  destruct op as [|sr lr slot st' n'|slot rid n' st'|]; try done; cbn [op_row option_list].
  - specialize (Hr sr eq_refl). subst sr. change (len (option_list (Some cnt))) with 1. destruct Hop as (_ & _ & _ & _ & [sp ->] & q & Hq).
    destruct (rows !! Z.to_nat row_i) as [row|] eqn:Erow; cbn [fmap option_fmap option_map]; [destruct (pr_sink row) eqn:Esk|].
    + exists (row_i + 1). split; [done|]. apply (Hgrow row); (done || lia).
    + exists row_i. split; [done|]. split; [|intros j Hj; apply Hs; lia|done].
      destruct (decide (row_i = cnt)) as [->|]; [|lia]. rewrite Hq in Erow. by injection Erow as <-.
    + exists row_i. split; [done|]. split; [|intros j Hj; apply Hs; lia|done].
      destruct (decide (row_i = cnt)) as [->|]; [congruence|lia].
  - change (len (option_list (@None Z))) with 0. rewrite Z.add_0_r.
    destruct seam, (rows !! Z.to_nat row_i) as [row|] eqn:Erow; cbn [fmap option_fmap option_map]; try (by exists row_i).
    destruct (pr_sink row) eqn:Esk; [|by exists row_i]. exists (row_i + 1). split; [done|]. apply (Hgrow row); (done || lia).
Qed.

Lemma walk_miss recs rows cnt mid row_i m start e n op i :
  0 <= cnt -> 0 <= mid -> Walk recs rows cnt mid row_i m -> step_op recs rows i (MissStep start e n mid) op ->
  (forall r, op_row op = Some r -> r = cnt) -> NoDup (omap cache_slot recs) ->
  exists m', miss_row_step rows recs (m, row_i, mid) (MissStep start e n mid) = Ret (m', cnt + 1, mid + 1) /\
    op_row op = Some cnt /\ Walk recs rows (cnt + 1) (mid + 1) (cnt + 1) m'.
Proof.
  intros H0 H0m [Hc Hs HR] Hop Hr Hnd. destruct op as [r| | |]; try done. specialize (Hr r eq_refl). subst r.
  destruct Hop as (_ & rec & Erec & Erow).
  assert (row_i = cnt) as ->.
  { destruct (decide (row_i = cnt)); [done|]. destruct (Hs cnt ltac:(lia)) as (row & E1 & E2). rewrite Erow in E1. by injection E1 as <-. }
  cbn [miss_row_step]. rewrite (pyget_nonneg recs), Erec by done. cbn [or_raise obind]. rewrite row_sink_at, Erow by done.
  cbn [fmap option_fmap option_map pr_sink miss_row].
  assert (Etake : take (Z.to_nat (mid + 1)) recs = take (Z.to_nat mid) recs ++ [rec])
    by (rewrite Z2Nat.inj_add, Nat.add_1_r by lia; by apply take_S_r).
  assert (Hwalk : forall m', Forall2 (row_entry recs rows) (crecs (take (Z.to_nat (mid + 1)) recs)) m' ->
    Walk recs rows (cnt + 1) (mid + 1) (cnt + 1) m') by (intros; split; [done|lia|done]).
  unfold crecs in *. rewrite Etake, filter_app, filter_cons in Hwalk.
  destruct (cache_slot rec) as [slot|] eqn:Es.
  - rewrite decide_True in Hwalk by done. exists (m ++ [(slot, (cnt, mid))]). split; [|split; [done|]].
    + assert (Hf : mr_miss_slot rec = Some slot /\ mr_cache_segment rec = true)
        by (unfold cache_slot in Es; by destruct (mr_cache_segment rec)).
      destruct Hf as [-> ->]. rewrite dict_set_fresh; [done|].
      apply dict_get_None. rewrite (row_entry_keys _ _ _ _ HR). change (filter _ (take _ recs)) with (crecs (take (Z.to_nat mid) recs)).
      rewrite crecs_slots. intros Hin. rewrite <- (take_drop_middle recs _ _ Erec), omap_app in Hnd. cbn in Hnd.
      rewrite Es in Hnd. apply NoDup_app in Hnd as (_ & Hd & _). apply (Hd slot Hin). left.
    + apply Hwalk. apply Forall2_app; [done|]. repeat constructor; cbn; try done. by exists i.
  - rewrite decide_False, app_nil_r in Hwalk by (by intros []). exists m. split; [|split; [done|by apply Hwalk]].
    unfold cache_slot in Es. destruct (mr_miss_slot rec); [|done]. by destruct (mr_cache_segment rec).
Qed.

Lemma miss_rows_spec recs rows steps ops :
  Forall2 (fun st op => exists i, step_op recs rows i st op) steps ops ->
  omap op_row ops = pyrange 0 (len rows) -> omap miss_id_of steps = pyrange 0 (len recs) ->
  NoDup (omap cache_slot recs) ->
  exists m row_i mid, ofold (miss_row_step rows recs) ([], 0, 0) steps = Ret (m, row_i, mid) /\
    Forall2 (row_entry recs rows) (crecs recs) m.
Proof.
  intros HF Hrows Hids Hnd. pose proof (Forall2_length _ _ _ HF) as Hlen.
  assert (Hgo : forall k, (k <= length steps)%nat -> exists m row_i,
    let cnt := len (omap op_row (take k ops)) in let mid := len (omap miss_id_of (take k steps)) in
    ofold (miss_row_step rows recs) ([], 0, 0) (take k steps) = Ret (m, row_i, mid) /\ Walk recs rows cnt mid row_i m).
  { induction k as [|k IH]; intros Hk; [exists [], 0; split; [done|]; split; [done|intros j Hj; change (0 <= j < 0) in Hj; lia|constructor]|].
    destruct IH as (m & row_i & E & HW); [lia|].
    destruct (lookup_lt_is_Some_2 steps k) as [st Est]; [lia|]. destruct (lookup_lt_is_Some_2 ops k) as [op Eop]; [lia|].
    destruct (Forall2_lookup_lr _ _ _ _ _ _ HF Est Eop) as [i Hop].
    rewrite (take_S_r _ _ _ Est), (take_S_r _ _ _ Eop), !omap_app, !len_app, ofold_app, E. cbn [obind ofold].
    pose proof (len_nonneg (omap op_row (take k ops))) as Hc0. pose proof (len_nonneg (omap miss_id_of (take k steps))) as Hm0.
    assert (Hr : forall r, op_row op = Some r -> r = len (omap op_row (take k ops))) by (intros r Er; by eapply omap_index).
    destruct st as [start e n h hs seam|start e n mid'].
    - destruct (walk_hit _ _ _ _ _ _ _ _ _ _ _ _ _ _ Hc0 HW Hop Hr) as (row_i' & E' & HW').
      exists m, row_i'. rewrite E'. cbn [obind omap list_omap miss_id_of]. change (len []) with 0. rewrite Z.add_0_r. split; [done|].
      by destruct (op_row op).
    - assert (Hm : mid' = len (omap miss_id_of (take k steps))) by (by eapply omap_index). subst mid'.
      destruct (walk_miss _ _ _ _ _ _ _ _ _ _ _ Hc0 Hm0 HW Hop Hr Hnd) as (m' & E' & Er & HW'). eexists m', _. rewrite E'.
      cbn [obind omap list_omap miss_id_of]. rewrite Er. split; [done|]. exact HW'. }
  destruct (Hgo (length steps) (le_n _)) as (m & row_i & E & [_ _ HR]). rewrite take_ge in E, HR by done.
  exists m, row_i, (len (omap miss_id_of steps)). split; [done|]. rewrite Hids in HR.
  rewrite take_ge in HR; [done|]. unfold len, pyrange. rewrite length_seqZ. lia.
Qed.

(** ** Kernel rows *)

Lemma cumsum_concat {A} (ls : list (list A)) acc k : (k <= length ls)%nat ->
  cumsum_from acc (len <$> ls) !! k = Some (acc + len (concat (take k ls))).
Proof.
  revert acc k. induction ls as [|l ls IH]; intros acc k Hk.
  - assert (k = 0)%nat as -> by (cbn in Hk; lia). cbn. f_equal. change (len []) with 0. lia.
  - destruct k as [|k]; cbn; [f_equal; change (len []) with 0; lia|]. cbn in Hk. rewrite IH by lia. rewrite len_app. f_equal. lia.
Qed.

Lemma concat_row {A} (ls : list (list A)) k l : ls !! k = Some l ->
  take (length l) (drop (length (concat (take k ls))) (concat ls)) = l.
Proof.
  intros Hk. rewrite <- (take_drop_middle ls k l Hk) at 2. rewrite concat_app, drop_app_length. cbn. by rewrite take_app_length.
Qed.

(** The tokens that a row selects. *)
Definition row_sel {A} (toks : list A) (row : PassRow) : list A := omap (fun q => toks !! Z.to_nat q) (pr_q_idx row).

Lemma omap_in_range {A} (toks : list A) (l : list Z) : Forall (fun q => 0 <= q < len toks) l ->
  omapM (index_select toks) l = Ret (omap (fun q => toks !! Z.to_nat q) l) /\
  length (omap (fun q => toks !! Z.to_nat q) l) = length l.
Proof.
  induction 1 as [|q l Hq _ [IH1 IH2]]; [done|]. cbn [omapM omap list_omap]. unfold index_select at 1.
  destruct (Z.ltb_spec q 0); [lia|]. destruct (lookup_lt_is_Some_2 toks (Z.to_nat q)) as [x Ex]; [unfold len in Hq; lia|].
  rewrite Ex. cbn [obind]. rewrite IH1. cbn [obind]. split; [done|]. cbn. by rewrite IH2.
Qed.

Lemma sel_miss_row {A} (toks : list A) i rec : window_ok (len toks) rec ->
  row_sel toks (miss_row i rec) = pyslice toks (mr_q_start rec) (mr_q_end rec).
Proof.
  intros (H1 & H2 & H3 & H4). rewrite pyslice_in_range by lia. unfold row_sel, miss_row. cbn [pr_q_idx].
  replace (mr_q_end rec - mr_q_start rec) with (mr_length rec) by lia.
  assert (Hgo : forall n s, 0 <= s -> s + Z.of_nat n <= len toks ->
    omap (fun q => toks !! Z.to_nat q) (pyrange s (s + Z.of_nat n)) = take n (drop (Z.to_nat s) toks)).
  { induction n as [|n IH]; intros s Hs Hn; [by rewrite pyrange_empty by lia|].
    unfold pyrange. rewrite seqZ_cons by lia. cbn [omap list_omap].
    destruct (lookup_lt_is_Some_2 toks (Z.to_nat s)) as [x Ex]; [unfold len in Hn; lia|]. rewrite Ex, (drop_S _ _ _ Ex). cbn. f_equal.
    specialize (IH (s + 1) ltac:(lia) ltac:(lia)). unfold pyrange in IH. rewrite Z2Nat.inj_add, Nat.add_1_r in IH by lia. rewrite <- IH.
    f_equal. f_equal; lia. }
  rewrite <- (Z2Nat.id (mr_length rec)) at 1 by lia. apply Hgo; lia.
Qed.

(** ** Loops over a list of lists *)

Lemma wp_mfold_app {S A B} (body : B -> A -> M S B) l1 l2 acc Q (E : exn -> S -> Prop) s :
  wp (mfold body acc l1) (fun acc' s' => wp (mfold body acc' l2) Q E s') E s -> wp (mfold body acc (l1 ++ l2)) Q E s.
Proof.
  revert acc s. induction l1 as [|x l1 IH]; intros acc s; cbn [mfold app]; [done|].
  unfold wp, mbind, M_bind. destruct (body acc x s) as [[a|e] s']; [apply IH|done].
Qed.

Lemma wp_mfold_concat {S A B} (body : B -> A -> M S B) (I : nat -> B -> S -> Prop) ls acc (Q : B -> S -> Prop)
    (E : exn -> S -> Prop) s :
  I 0%nat acc s -> (forall k l acc s, ls !! k = Some l -> I k acc s -> wp (mfold body acc l) (I (k + 1)%nat) E s) ->
  (forall acc s, I (length ls) acc s -> Q acc s) -> wp (mfold body acc (concat ls)) Q E s.
Proof.
  revert I acc s. induction ls as [|l ls IH]; intros I acc s HI HS HQ; cbn [concat].
  - by apply wp_ret, HQ.
  - apply wp_mfold_app. eapply wp_mono; [by apply (HS 0%nat)| |done]. intros acc' s' H1.
    apply (IH (fun k => I (k + 1)%nat)); [done| |].
    + intros k l' a t Hl Hk. apply (HS (k + 1)%nat); [|done]. by rewrite Nat.add_1_r.
    + intros a t Ht. apply HQ. cbn [length]. by rewrite <- Nat.add_1_r.
Qed.

Lemma index_puts_in {A} (t : list A) ws : Forall (fun w : Z * A => 0 <= w.1 < len t) ws ->
  exists t', index_puts t ws = Ret t' /\ length t' = length t.
Proof.
  revert t. induction ws as [|[i x] ws IH]; intros t Hw; [by exists t|]. apply Forall_cons in Hw as [Hi Hw].
  cbn [index_puts]. rewrite index_put_in by done. destruct (IH (<[Z.to_nat i := x]> t)) as (t' & E & El).
  - unfold len. by rewrite length_insert.
  - exists t'. split; [done|]. by rewrite El, length_insert.
Qed.

Section recompute.
Context {Tok St O : Type} `{SegAlg St} `{SegLaKernel Tok St O}.
Context (o_uninit : O) (ra : RopeArgs) `{!SegAlgLaws St (ra_cache_len ra)}.
Context (kv_of : Tok -> St) `{!SegLaSpec Tok St O kv_of}.

Definition row_kvs (toks : list Tok) (row : PassRow) : list St := kv_of <$> row_sel toks row.

(** A kernel call over the rows: every row runs over the tokens it selects. *)
Lemma rows_run toks rows flag init : Forall (row_in (len toks)) rows -> length init = length rows ->
  let packed := concat (row_sel toks <$> rows) in
  let r := seg_la_fwd packed (row_offsets rows) (pr_length <$> rows) (replicate (length rows) flag) init in
  omapM (index_select toks) (concat (pr_q_idx <$> rows)) = Ret packed /\
  pic_run_segla_batch packed init (row_offsets rows) (pr_length <$> rows) (replicate (length rows) flag) (len rows) = Ret r /\
  length r.1 = length (concat (pr_q_idx <$> rows)) /\
  r.2 = zip_with (fun row h => kv_run (row_kvs toks row) (if 0 <? flag then h else sl_zero)) rows init.
Proof.
  intros Hin Hl packed r.
  assert (Hall : Forall (fun q => 0 <= q < len toks) (concat (pr_q_idx <$> rows))).
  { apply Forall_concat, Forall_fmap. eapply Forall_impl; [exact Hin|]. by intros row [_ ?]. }
  assert (Epk : packed = omap (fun q => toks !! Z.to_nat q) (concat (pr_q_idx <$> rows))).
  { unfold packed. clear. induction rows as [|row rows IH]; [done|]. cbn. by rewrite omap_app, IH. }
  destruct (omap_in_range toks _ Hall) as [E1 E2]. split; [by rewrite Epk|]. split.
  { unfold pic_run_segla_batch, len. rewrite length_replicate, Z.eqb_refl. done. }
  split; [unfold r; by rewrite seg_la_out, Epk|].
  assert (Elens : pr_length <$> rows = len <$> (row_sel toks <$> rows)).
  { rewrite <- list_fmap_compose. apply list_fmap_ext. intros i row Hi. rewrite Forall_forall in Hin.
    destruct (Hin row) as [El Hr]; [by eapply list_elem_of_lookup_2|]. cbn. unfold row_sel. rewrite El. unfold len. f_equal.
    symmetry. by destruct (omap_in_range toks (pr_q_idx row) Hr). }
  apply list_eq. intros i. destruct (decide (i < length rows)%nat) as [Hi|Hi].
  - destruct (lookup_lt_is_Some_2 rows i Hi) as [row Er]. destruct (lookup_lt_is_Some_2 init i) as [h Eh]; [lia|].
    rewrite lookup_zip_with, Er, Eh. cbn [mbind option_bind fmap option_fmap option_map].
    unfold r. rewrite Elens. unfold row_offsets, cu_seqlens. rewrite Elens.
    erewrite seg_la_row; [| | | |exact Eh].
    2: { apply cumsum_concat. rewrite length_fmap. lia. }
    2: { rewrite !list_lookup_fmap, Er. reflexivity. }
    2: { by apply lookup_replicate_2. }
    unfold row_kvs. do 3 f_equal. rewrite Z.add_0_l. unfold len. rewrite !Nat2Z.id.
    apply (concat_row (row_sel toks <$> rows)). by rewrite list_lookup_fmap, Er.
  - rewrite (lookup_ge_None_2 (zip_with _ _ _)) by (rewrite length_zip_with; lia).
    apply lookup_ge_None_2. unfold r. rewrite seg_la_length. lia.
Qed.

(** ** Caching *)

Lemma cacheable_crecs recs n : cacheable ra recs n -> cacheable ra (crecs recs) n.
Proof.
  intros [H1 H2 H3 H4]. split; rewrite ?crecs_slots; try done; apply Forall_forall; intros r [_ Hr]%list_elem_of_filter.
  - rewrite Forall_forall in H3. by apply H3.
  - rewrite Forall_forall in H4. by apply H4.
Qed.

Lemma cache_rows_spec toks recs rows m s :
  Forall (window_ok (len toks)) recs -> cacheable ra recs (length (li_ssm s)) ->
  Forall2 (row_entry recs rows) (crecs recs) m ->
  wp (mfold (fun _ e => cache_row ra ((fun row => kv_run (row_kvs toks row) sl_zero) <$> rows) recs e) tt m)
     (fun _ s' => cached ra kv_of toks (crecs recs) s s') (fun _ _ => False) s.
Proof.
  intros Hw Hc HF. apply cacheable_crecs in Hc.
  apply wp_mfold with (I := fun d _ s' => cached ra kv_of toks (take (length d) (crecs recs)) s s').
  - apply cached_nil.
  - intros d e rest [] s' Em Hca. rewrite Em in HF. apply Forall2_app_inv_r in HF as (l1 & l2 & H1 & H2 & E).
    apply Forall2_cons_inv_r in H2 as (rec & l3 & Hre & _ & ->). pose proof (Forall2_length _ _ _ H1) as Hl1.
    rewrite E in Hc, Hca |- *. rewrite length_app. cbn [length]. rewrite <- Hl1 in *.
    rewrite take_app_length in Hca.
    replace (take (length l1 + 1) (l1 ++ rec :: l3)) with (l1 ++ [rec]) by (by rewrite take_app_add).
    destruct e as [slot [r mid]]. destruct Hre as (Es & H0m & Erec & H0r & i & Erow). cbn in *.
    assert (Hf : mr_miss_slot rec = Some slot /\ mr_cache_segment rec = true)
      by (unfold cache_slot in Es; by destruct (mr_cache_segment rec)).
    pose proof (cache_fresh_spec ra kv_of toks l1 rec l3 s s' (fun _ _ => False) Hc Hca) as Hstep.
    unfold cache_fresh in Hstep. destruct Hf as [E1 E2]. rewrite E2, E1 in Hstep.
    unfold cache_row. unfold wp, mbind, M_bind, of_outcome, of_option in *.
    rewrite (tensor_get_Ret _ _ (fresh_of kv_of toks rec)).
    + rewrite pyget_nonneg, Erec by done. exact Hstep.
    + done.
    + rewrite list_lookup_fmap, Erow. cbn [fmap option_fmap option_map]. unfold fresh_of, row_kvs, rec_kvs. rewrite sel_miss_row; [done|].
      rewrite Forall_forall in Hw. by eapply Hw, list_elem_of_lookup_2.
  - intros [] s' Hca. by rewrite <- (Forall2_length _ _ _ HF), take_ge in Hca by done.
Qed.

(** ** The program *)

Section run.
Context (toks : list Tok) (recs : list MissRec) (rows : list PassRow) (content : Z -> list St) (dsts : list Z).
#[local] Abbreviation state_buf := ((fun row => kv_run (row_kvs toks row) sl_zero) <$> rows).
#[local] Abbreviation kvs := (step_kvs ra kv_of toks recs content).

Definition op_put (op : Op) (h : St) (h0 : list St) : list St :=
  match op_row op with Some r => <[Z.to_nat r := h]> h0 | None => h0 end.

Lemma load_hit s slot start kv : loads s slot kv -> start_ok ra start ->
  pic_load_hit_state ra slot start s = Ret (kv_run (turned ra start kv) sl_zero).
Proof.
  intros Hl Hs. unfold pic_load_hit_state. replace (match dict_get slot (li_mirror s) with Some x => Ret x | None => tensor_get (li_ssm s) slot end)
    with (Ret (kv_run kv sl_zero)); [by apply replay_run|].
  unfold loads in Hl. destruct (dict_get slot (li_mirror s)); [by rewrite Hl|]. destruct Hl. symmetry. by apply tensor_get_Ret.
Qed.

(** An instruction of request [i]: the row it names is seeded with the state
    so far, which then runs over the tokens of the step. *)
Lemma run_op_spec i st op hb h0 h s E :
  Forall (window_ok (len toks)) recs -> step_ok recs st -> hit_ok ra content s st -> step_op recs rows i st op ->
  h_accum dsts hb i s = Ret h -> length h0 = length rows ->
  wp (run_op ra dsts rows state_buf (hb, h0) op)
     (fun r s' => s' = s /\ r = (dict_set i (kv_run (kvs st) h) hb, op_put op h h0)) E s.
Proof.
  intros Hw Hok Hhit Hop Hh Hl0. unfold run_op. apply wp_bind. unfold wp at 1, get.
  assert (Hput : forall r row, 0 <= r -> rows !! Z.to_nat r = Some row -> index_put h0 r h = Ret (<[Z.to_nat r := h]> h0)).
  { intros r row H0r Er. apply index_put_in. apply lookup_lt_Some in Er. unfold len. lia. }
  unfold op_put, wp, mbind, M_bind, of_option, of_outcome, mret, M_ret.
  destruct st as [start e n hash hs seam|start e n mid], op as [r|r lr slot st' n'|slot rid n' st'|]; try done; cbn [op_row].
  - destruct Hop as (H0r & Es & -> & -> & _ & q & Er). destruct Hhit as (slot' & Es' & H0s & Hst & Hload & Hlen).
    rewrite Es in Es'. injection Es' as <-. rewrite pyget_nonneg, Er by done. cbn [pr_req_id]. rewrite Hh, (Hput _ _ H0r Er).
    rewrite (load_hit _ _ _ _ Hload Hst). split; [done|]. cbn [step_kvs]. rewrite Es. f_equal. f_equal.
    by rewrite (kv_run_affine ra (turned ra start (content slot)) h), len_turned, Hlen.
  - destruct Hop as (Es & -> & -> & ->). destruct Hhit as (slot' & Es' & H0s & Hst & Hload & Hlen).
    rewrite Es in Es'. injection Es' as <-. rewrite Hh, (load_hit _ _ _ _ Hload Hst). split; [done|]. cbn [step_kvs]. rewrite Es. f_equal. f_equal.
    by rewrite (kv_run_affine ra (turned ra start (content slot)) h), len_turned, Hlen.
  - destruct Hop as (H0r & rec & Erec & Er). rewrite pyget_nonneg, Er by done. cbn [pr_req_id miss_row pr_length].
    rewrite Hh, (Hput _ _ H0r Er). rewrite (tensor_get_Ret _ _ (fresh_of kv_of toks rec)).
    + split; [done|]. cbn [step_kvs]. rewrite Erec. f_equal. f_equal. rewrite (kv_run_affine ra (rec_kvs kv_of toks rec) h).
      assert (Hrw : window_ok (len toks) rec) by (rewrite Forall_forall in Hw; by eapply Hw, list_elem_of_lookup_2).
      destruct Hrw as (? & ? & ? & ?). unfold rec_kvs at 1. rewrite len_map, len_pyslice by lia. unfold fresh_of. do 2 f_equal. lia.
    + done.
    + rewrite list_lookup_fmap, Er. cbn [fmap option_fmap option_map]. unfold fresh_of, row_kvs, rec_kvs. rewrite sel_miss_row; [done|].
      rewrite Forall_forall in Hw. by eapply Hw, list_elem_of_lookup_2.
Qed.

(** Every row of [ops] is seeded with the state before its segment, when the
    request begins in [h]. *)
Definition row_seeds (h : St) (steps : list Step) (ops : list Op) (h0 : list St) : Prop :=
  forall j op r, ops !! j = Some op -> op_row op = Some r ->
    h0 !! Z.to_nat r = Some (kv_run (concat (kvs <$> take j steps)) h).

(** The state of a request after [steps]: kept in the dictionary once there is
    a step. *)
Definition holds (hb hb' : list (Z * St)) (i : Z) (steps : list Step) (h : St) : Prop :=
  match steps with
  | [] => hb' = hb
  | _ => dict_get i hb' = Some (kv_run (concat (kvs <$> steps)) h)
  end.

Lemma run_ops_spec i steps ops hb h0 h s E :
  Forall (window_ok (len toks)) recs -> Forall2 (step_op recs rows i) steps ops ->
  Forall (step_ok recs) steps -> Forall (hit_ok ra content s) steps ->
  h_accum dsts hb i s = Ret h -> length h0 = length rows ->
  NoDup (omap op_row ops) -> Forall (fun r => 0 <= r < len rows) (omap op_row ops) ->
  wp (mfold (run_op ra dsts rows state_buf) (hb, h0) ops)
     (fun r s' => s' = s /\ holds hb r.1 i steps h /\ (forall j, j <> i -> dict_get j r.1 = dict_get j hb) /\
        length r.2 = length rows /\ row_seeds h steps ops r.2 /\
        forall j, Z.of_nat j ∉ omap op_row ops -> r.2 !! j = h0 !! j) E s.
Proof.
  intros Hw HF. revert hb h0 h. induction HF as [|st op steps ops Hop HF IH]; intros hb h0 h Hok Hhit Hh Hl0 Hn Hr.
  - apply wp_ret. split_and!; done.
  - apply Forall_cons in Hok as [Hok1 Hok]. apply Forall_cons in Hhit as [Hh1 Hhit]. cbn [mfold]. apply wp_bind.
    eapply wp_mono; [by eapply run_op_spec| |done]. intros acc s' [-> ->]. set (h1 := kv_run (kvs st) h).
    cbn [omap list_omap] in Hn, Hr.
    assert (Hn' : NoDup (omap op_row ops)) by (destruct (op_row op); [by apply NoDup_cons in Hn as [_ ?]|done]).
    assert (Hr' : Forall (fun r => 0 <= r < len rows) (omap op_row ops)) by (destruct (op_row op); [by apply Forall_cons in Hr as [_ ?]|done]).
    eapply wp_mono; [apply (IH _ _ h1); try done| |done].
    { unfold h_accum. by rewrite dict_get_set_eq. }
    { unfold op_put. destruct (op_row op); by rewrite ?length_insert. }
    intros [hb2 h2] s' (-> & G1 & G2 & G3 & G4 & G5). cbn [fst snd omap list_omap] in *. split; [done|]. split.
    { unfold holds in *. rewrite fmap_cons. cbn [concat]. rewrite kv_run_app. fold h1.
      destruct steps; [rewrite G1; apply dict_get_set_eq|done]. }
    split; [intros j Hj; rewrite G2 by done; by apply dict_get_set_ne|]. split; [done|]. split.
    + intros [|j] o r Eo Er; cbn in Eo.
      * injection Eo as <-. rewrite Er in *. apply NoDup_cons in Hn as [Hni _]. apply Forall_cons in Hr as [Hr _].
        rewrite G5 by (by rewrite Z2Nat.id by lia). unfold op_put. rewrite Er. apply list_lookup_insert_eq. unfold len in Hr. lia.
      * cbn [take]. rewrite fmap_cons. cbn [concat]. rewrite kv_run_app. by eapply G4.
    + intros j Hj. unfold op_put in G5. destruct (op_row op) as [r|]; [|by apply G5].
      apply not_elem_of_cons in Hj as [Hne Hj]. rewrite G5 by done. apply list_lookup_insert_ne. apply Forall_cons in Hr as [Hr _]. lia.
Qed.

(** The program has run for the first [k] requests. *)
Record ran (plans : list (list Step)) (opss : list (list Op)) (k : nat) (acc : list (Z * St) * list St)
    (s s' : LightState St) : Prop := {
  rn_h0 : length acc.2 = length rows;
  rn_ssm : length (li_ssm s') = length (li_ssm s);
  rn_mirror : li_mirror s' = li_mirror s;
  rn_new : forall j, (k <= j)%nat -> dict_get (Z.of_nat j) acc.1 = None;
  rn_final : forall i steps dst, (i < k)%nat -> plans !! i = Some steps -> dsts !! i = Some dst ->
    li_ssm s' !! Z.to_nat dst = Some (kv_run (concat (kvs <$> steps)) sl_zero);
  rn_frame : forall slot, 0 <= slot -> slot ∉ take k dsts -> li_ssm s' !! Z.to_nat slot = li_ssm s !! Z.to_nat slot;
  rn_seeds : forall i steps ops, (i < k)%nat -> plans !! i = Some steps -> opss !! i = Some ops ->
    row_seeds sl_zero steps ops acc.2;
}.

Lemma row_seeds_frame h steps ops h0 h0' :
  (forall r, r ∈ omap op_row ops -> h0' !! Z.to_nat r = h0 !! Z.to_nat r) ->
  row_seeds h steps ops h0 -> row_seeds h steps ops h0'.
Proof.
  intros Hf Hs j op r Eo Er. rewrite Hf; [by eapply Hs|]. apply list_elem_of_omap. exists op. split; [by eapply list_elem_of_lookup_2|done].
Qed.

(** Storing the state of request [k]. *)
Lemma ran_S plans opss k steps ops dst acc hb' h0' s s' :
  omap op_row (concat opss) = pyrange 0 (len rows) -> dsts_ok dsts plans (length (li_ssm s)) ->
  plans !! k = Some steps -> opss !! k = Some ops -> dsts !! k = Some dst -> ran plans opss k acc s s' ->
  length h0' = length rows -> row_seeds sl_zero steps ops h0' ->
  (forall j, j <> Z.of_nat k -> dict_get j hb' = dict_get j acc.1) ->
  (forall j, Z.of_nat j ∉ omap op_row ops -> h0' !! j = acc.2 !! j) ->
  ran plans opss (S k) (hb', h0') s
    (mkLight (<[Z.to_nat dst := kv_run (concat (kvs <$> steps)) sl_zero]> (li_ssm s')) (li_mirror s')).
Proof.
  intros Hrows [Hdl Hdn Hdr] Hk Ho Ed [Hil Hsl Hmir Hnew Hfin Hfr Hsd] E1 E2 E3 E4.
  rewrite Forall_forall in Hdr. pose proof (Hdr dst (list_elem_of_lookup_2 _ _ _ Ed)) as Hd.
  constructor; cbn [li_ssm li_mirror fst snd]; try done.
  - by rewrite length_insert.
  - intros j Hj. rewrite E3 by lia. apply Hnew. lia.
  - intros i st d Hi Ei Edi. destruct (decide (i = k)) as [->|].
    + rewrite Ed in Edi. injection Edi as <-. rewrite Hk in Ei. injection Ei as <-. apply list_lookup_insert_eq. lia.
    + rewrite list_lookup_insert_ne; [by apply (Hfin i); [lia|..]|].
      pose proof (Hdr d (list_elem_of_lookup_2 _ _ _ Edi)). intros Eq. assert (d = dst) as -> by lia.
      pose proof (NoDup_lookup _ _ _ _ Hdn Ed Edi). lia.
  - intros slot H0s Hs. rewrite (take_S_r _ _ _ Ed), not_elem_of_app in Hs. destruct Hs as [Hs1 Hs2].
    rewrite list_lookup_insert_ne; [by apply Hfr|]. intros Eq. apply Hs2. apply list_elem_of_singleton. lia.
  - intros i st os Hi Ei Eo. destruct (decide (i = k)) as [->|].
    { rewrite Hk in Ei. injection Ei as <-. rewrite Ho in Eo. by injection Eo as <-. }
    eapply row_seeds_frame; [|by eapply (Hsd i); [lia|done|]]. intros r Hr. apply E4.
    assert (Hrr : r ∈ pyrange 0 (len rows)).
    { rewrite <- Hrows. apply list_elem_of_omap in Hr as (x & Hx & Em). apply list_elem_of_omap. exists x. split; [|done].
      apply elem_of_concat. exists os. split; [by eapply list_elem_of_lookup_2|done]. }
    apply elem_of_pyrange in Hrr. rewrite Z2Nat.id by lia. eapply (ids_disjoint op_row opss i k); [|lia|done..].
    rewrite Hrows. apply NoDup_seqZ.
Qed.

Lemma run_request plans opss prog k steps ops acc s s' E :
  Program recs (len toks) plans opss rows prog -> Forall (window_ok (len toks)) recs -> Forall (step_ok recs) (concat plans) ->
  dsts_ok dsts plans (length (li_ssm s)) -> Forall (hit_ok ra content s) (concat plans) ->
  (forall st slot, st ∈ concat plans -> hit_slot_of st = Some slot -> slot ∉ dsts) ->
  Forall (fun d => li_ssm s !! Z.to_nat d = Some sl_zero) dsts ->
  plans !! k = Some steps -> opss !! k = Some ops -> ran plans opss k acc s s' ->
  wp (mfold (run_op ra dsts rows state_buf) acc (request_prog k ops)) (fun acc' s'' => ran plans opss (S k) acc' s s'') E s'.
Proof.
  intros [_ Hol Hops Hrows _] Hw Hok Hdo Hhit Hfree Hz Hk Ho Hran. destruct (Hran) as [Hil Hsl Hmir Hnew _ Hfr _].
  assert (Hin : forall st, st ∈ steps -> st ∈ concat plans).
  { intros st Hst. apply elem_of_concat. exists steps. split; [by eapply list_elem_of_lookup_2|done]. }
  destruct (lookup_lt_is_Some_2 dsts k) as [dst Ed]; [apply lookup_lt_Some in Hk; destruct Hdo; lia|].
  pose proof (do_range _ _ _ Hdo) as Hdr. rewrite Forall_forall in Hdr. specialize (Hdr dst (list_elem_of_lookup_2 _ _ _ Ed)).
  assert (Hdz : li_ssm s' !! Z.to_nat dst = Some sl_zero).
  { rewrite Hfr; [|lia|]. { rewrite Forall_forall in Hz. by eapply Hz, list_elem_of_lookup_2. }
    pose proof (do_nodup _ _ _ Hdo) as Hnd. rewrite <- (take_drop_middle dsts k dst Ed) in Hnd.
    apply NoDup_app in Hnd as (_ & Hd & _). intros Hx. apply (Hd dst Hx). left. }
  destruct acc as [hb h0]. cbn [fst snd] in *.
  pose proof (omap_part op_row opss k ops _ Hrows Ho) as [Hnd Hrr]. unfold request_prog. apply wp_mfold_app.
  eapply wp_mono; [apply (run_ops_spec (Z.of_nat k) steps ops hb h0 sl_zero s' E); try done| |done].
  - by apply (Hops k).
  - apply Forall_forall. intros st Hst. rewrite Forall_forall in Hok. by apply Hok, Hin.
  - apply Forall_forall. intros st Hst. rewrite Forall_forall in Hhit. eapply hit_ok_frame; [|by apply Hhit, Hin].
    intros slot H0s Es. rewrite Hmir. split; [|done]. apply Hfr; [done|].
    intros Hd. eapply (Hfree _ slot (Hin _ Hst)); [done|]. by eapply (subseteq_take k).
  - unfold h_accum. rewrite Hnew by lia. rewrite pyget_nonneg, Nat2Z.id, Ed by lia. cbn [or_raise obind].
    apply tensor_get_Ret; [lia|done].
  - intros [hb' h0'] s'' (-> & G1 & G2 & G3 & G4 & G5). cbn [fst snd mfold] in *. apply wp_bind. unfold run_op. apply wp_bind.
    unfold wp at 1, get. unfold holds in G1. destruct steps as [|st steps].
    + subst hb'. rewrite Hnew by lia. apply wp_ret, wp_ret.
      replace s' with (mkLight (<[Z.to_nat dst := kv_run (concat (kvs <$> [])) sl_zero]> (li_ssm s')) (li_mirror s')).
      { by eapply ran_S. }
      destruct s' as [ssm mir]. cbn in *. by rewrite list_insert_id.
    + rewrite G1. unfold wp, put_ssm, get, modify, mbind, M_bind, of_outcome, of_option, mret, M_ret.
      rewrite pyget_nonneg, Nat2Z.id, Ed by lia. rewrite index_put_in by (unfold len; lia). by eapply ran_S.
Qed.

Lemma run_program plans opss prog s E :
  Program recs (len toks) plans opss rows prog -> Forall (window_ok (len toks)) recs -> Forall (step_ok recs) (concat plans) ->
  dsts_ok dsts plans (length (li_ssm s)) -> Forall (hit_ok ra content s) (concat plans) ->
  (forall st slot, st ∈ concat plans -> hit_slot_of st = Some slot -> slot ∉ dsts) ->
  Forall (fun d => li_ssm s !! Z.to_nat d = Some sl_zero) dsts ->
  wp (mfold (run_op ra dsts rows state_buf) ([], replicate (length rows) sl_zero) prog)
     (fun acc s' => ran plans opss (length plans) acc s s') E s.
Proof.
  intros HP Hw Hok Hdo Hhit Hfree Hz. rewrite (pg_prog _ _ _ _ _ _ HP).
  apply (wp_mfold_concat _ (fun k acc s' => ran plans opss k acc s s')).
  - constructor; try done; try (intros; lia). apply length_replicate.
  - intros k l acc s' Hl Hran. rewrite list_lookup_imap in Hl. destruct (opss !! k) as [ops|] eqn:Ho; [|done].
    injection Hl as <-. destruct (lookup_lt_is_Some_2 plans k) as [steps Hk].
    { rewrite <- (pg_len _ _ _ _ _ _ HP). by eapply lookup_lt_Some. }
    rewrite Nat.add_1_r. by eapply run_request.
  - intros acc s' Hran. by rewrite length_imap, (pg_len _ _ _ _ _ _ HP) in Hran.
Qed.

End run.

(** ** The layer *)

(** What the layer leaves: for every request, whose steps are its segments in
    position order, the state of the recurrence over all its tokens, and for
    every row of the last kernel call, a computed segment or the sinks of a
    cached one, the state before the row's segment; every cached record holds
    its segment as if it began at 0. *)
Record light_re_done (b : LBatch) (p : LPlan) (rows : list PassRow) (toks : list Tok) (dsts : list Z) (content : Z -> list St)
    (opss : list (list Op)) (h0 : list St) (s' : LightState St) : Prop := {
  lx_request : forall i dst, dsts !! i = Some dst -> exists steps ops,
    lp_req_plans p !! i = Some steps /\ opss !! i = Some ops /\ step_seg <$> steps = request_segs b (Z.of_nat i) /\
    Forall2 (step_op (lp_miss_records p) rows (Z.of_nat i)) steps ops /\
    li_ssm s' !! Z.to_nat dst = Some (kv_run (concat (step_kvs ra kv_of toks (lp_miss_records p) content <$> steps)) sl_zero) /\
    row_seeds toks (lp_miss_records p) content sl_zero steps ops h0;
  lx_rows : omap op_row (concat opss) = pyrange 0 (len rows);
  lx_cached : forall r slot raw, r ∈ lp_miss_records p -> cache_slot r = Some slot ->
    rec_kvs kv_of toks r = turned ra (mr_start r) raw ->
    li_ssm s' !! Z.to_nat slot = Some (kv_run raw sl_zero) /\ loads s' slot raw;
}.

(** The last kernel call, scattered to the rows of the query. *)
Definition re_out (rows : list PassRow) (toks : list Tok) (h0 : list St) : list (Z * O) :=
  zip (concat (pr_q_idx <$> rows))
    (seg_la_fwd (concat (row_sel toks <$> rows)) (row_offsets rows) (pr_length <$> rows) (replicate (length rows) 1) h0).1.

Lemma re_out_puts rows toks h0 : Forall (row_in (len toks)) rows ->
  exists out, index_puts (replicate (length toks) o_uninit) (re_out rows toks h0) = Ret out.
Proof.
  intros Hin. destruct (index_puts_in (replicate (length toks) o_uninit) (re_out rows toks h0)) as (out & E & _); [|by exists out].
  apply Forall_forall. intros [q x] Hq. unfold re_out in Hq. apply elem_of_zip_l in Hq. cbn. unfold len at 1. rewrite length_replicate.
  apply elem_of_concat in Hq as (l & Hl & Hq). apply list_elem_of_fmap in Hl as (row & -> & Hrow).
  rewrite Forall_forall in Hin. destruct (Hin row Hrow) as [_ Hall]. rewrite Forall_forall in Hall. by apply Hall.
Qed.

Lemma plan_of_recompute b metas q_total p rows prog :
  0 <= pb_batch_size (lb_batch b) -> metas_ok b metas -> get_or_build_plan true b q_total = Ret (p, (rows, prog)) ->
  plan_rec_ok b p /\ lp_q_cursor p = q_total /\ exists opss, Program (lp_miss_records p) q_total (lp_req_plans p) opss rows prog.
Proof.
  intros Hb Hm E. unfold get_or_build_plan in E. ounfold E. destruct (Z.eqb_spec (lp_q_cursor a) q_total) as [Hq|]; [|done].
  cbn [negb] in E. ounfold E. injection E as -> ->. assert (Hp : plan_rec_ok b p) by (by eapply plan_recompute_ok).
  split; [done|]. split; [done|]. rewrite <- Hq. by eapply emit_program.
Qed.

(** The cached state survives the program. *)
Lemma cached_survive toks recs s s1 s2 dsts k r slot raw :
  cacheable ra recs (length (li_ssm s)) -> cached ra kv_of toks (crecs recs) s s1 -> li_mirror s2 = li_mirror s1 ->
  (forall slot, 0 <= slot -> slot ∉ take k dsts -> li_ssm s2 !! Z.to_nat slot = li_ssm s1 !! Z.to_nat slot) ->
  slot ∉ dsts -> r ∈ recs -> cache_slot r = Some slot -> rec_kvs kv_of toks r = turned ra (mr_start r) raw ->
  li_ssm s2 !! Z.to_nat slot = Some (kv_run raw sl_zero) /\ loads s2 slot raw.
Proof.
  intros [_ Hrg _ Hst] Hc Hmir Hfr Hn Hr Es Eraw. rewrite Forall_forall in Hst. rewrite Forall_forall in Hrg.
  destruct (ca_in _ _ _ _ _ _ Hc r slot) as [E1 E2]; [apply list_elem_of_filter; split; [by eexists|done]|done|].
  assert (Hcan : cached_as ra kv_of toks r = kv_run raw sl_zero).
  { unfold cached_as. rewrite Eraw, (canon_turned ra (mr_start r) raw); [done|by apply Hst]. }
  assert (0 <= slot). { assert (Hin : slot ∈ omap cache_slot recs) by (apply list_elem_of_omap; by exists r). by apply Hrg in Hin as [? _]. }
  split; [|unfold loads; by rewrite Hmir, E2]. rewrite Hfr, E1; [by rewrite Hcan|done|].
  intros Hd. apply Hn. by eapply (subseteq_take k).
Qed.

(** C4. In the recompute mode a SegLA layer leaves for every request, whose
    slot it finds zeroed, the state that the recurrence reaches over all its
    tokens in position order, each cached segment once although its first
    tokens are recomputed; every row of the last kernel call, a computed
    segment or the recomputed tokens of a cached one, runs from the state
    before its segment and is written to the query rows of its positions; and
    computed segments are cached as if they began at position 0. *)
Theorem lightning_recompute_correct (st_uninit : St) env b metas toks dsts content p rows prog s :
  0 <= pb_batch_size (lb_batch b) -> metas_ok b metas -> get_or_build_plan true b (len toks) = Ret (p, (rows, prog)) ->
  rows <> [] -> light_ready ra p dsts content s -> Forall (fun d => li_ssm s !! Z.to_nat d = Some sl_zero) dsts ->
  wp (segla_forward_extend_pic_transition o_uninit st_uninit ra "seg_la" "transition_rope_recompute" env b dsts toks)
     (fun out s' => exists opss h0, index_puts (replicate (length toks) o_uninit) (re_out rows toks h0) = Ret out /\
        light_re_done b p rows toks dsts content opss h0 s')
     (fun _ _ => False) s.
Proof.
  intros Hb Hm Hplan Hne [Hca Hd Hh Hk Ha] Hz.
  destruct (plan_of_recompute _ _ _ _ _ _ Hb Hm Hplan) as (Hp & Hq & opss & HP). destruct (Hp) as [[Hw Hids Hok] _ Hreq _ _]. rewrite Hq in Hw.
  destruct (miss_rows_spec _ _ _ _ (program_steps _ _ _ _ _ _ HP) (pg_rows _ _ _ _ _ _ HP) Hids (cb_nodup _ _ _ Hca)) as (m & row_i & mid & Em & Hm2).
  match goal with |- wp _ ?Q ?E s => change (wp (forward_extend_pic_recompute_3pass o_uninit ra b dsts toks) Q E s) end.
  unfold forward_extend_pic_recompute_3pass. apply wp_bind. unfold of_outcome at 1. rewrite Hplan. unfold wp at 1.
  destruct (Z.eqb_spec (len rows) 0) as [E0|_]; [destruct rows; [done|unfold len in E0; cbn in E0; lia]|].
  destruct (rows_run toks rows 0 (replicate (length rows) sl_zero) (pg_in _ _ _ _ _ _ HP)) as (E1 & E2 & _ & E3); [apply length_replicate|].
  apply wp_bind. unfold of_outcome at 1. rewrite E1. unfold wp at 1. apply wp_bind. unfold of_outcome at 1. rewrite E2. unfold wp at 1.
  rewrite E3, zip_with_replicate. apply wp_bind. unfold of_outcome at 1. rewrite Em. unfold wp at 1. cbn [fst].
  apply wp_bind. eapply wp_mono with (E := fun _ _ => False); [by apply cache_rows_spec| |done]. intros u s1 Hc1.
  assert (Hfr1 : forall slot, 0 <= slot -> slot ∉ omap cache_slot (lp_miss_records p) ->
    li_ssm s1 !! Z.to_nat slot = li_ssm s !! Z.to_nat slot /\ dict_get slot (li_mirror s1) = dict_get slot (li_mirror s)).
  { intros slot H0s Hs. apply (ca_out _ _ _ _ _ _ Hc1 slot H0s). by rewrite crecs_slots. }
  apply wp_bind. eapply wp_mono with (E := fun _ _ => False); [eapply (run_program toks (lp_miss_records p) rows content dsts); try done| |done].
  { by rewrite (ca_len _ _ _ _ _ _ Hc1). }
  { apply Forall_forall. intros st Hst. rewrite Forall_forall in Hh. eapply hit_ok_frame; [|by apply Hh].
    intros slot H0s Es. apply Hfr1; [done|]. by eapply (Hk _ slot Hst). }
  { intros st slot Hst Es. by apply (Hk st slot Hst Es). }
  { apply Forall_forall. intros d Hdd. rewrite Forall_forall in Hz. destruct (Hfr1 d) as [-> _]; [|intros Hx; by apply (Ha d Hx)|by apply Hz].
    pose proof (do_range _ _ _ Hd) as Hr. rewrite Forall_forall in Hr. by apply Hr in Hdd as [? _]. }
  intros [hb h0] s2 [Hl0 Hsl Hmir _ Hfin Hfr Hsd]. cbn [fst snd] in *.
  destruct (rows_run toks rows 1 h0 (pg_in _ _ _ _ _ _ HP) Hl0) as (_ & F2 & F3 & _).
  apply wp_bind. unfold of_outcome at 1. rewrite F2. unfold wp at 1.
  destruct (re_out_puts rows toks h0 (pg_in _ _ _ _ _ _ HP)) as (out & Eout).
  unfold wp, of_outcome. unfold re_out in Eout. rewrite Eout. exists opss, h0. split; [done|]. constructor.
  - intros i dst Ed. destruct (lookup_lt_is_Some_2 (lp_req_plans p) i) as [steps Est]; [apply lookup_lt_Some in Ed; destruct Hd; lia|].
    assert (Hi : (i < length (lp_req_plans p))%nat) by (by eapply lookup_lt_Some).
    destruct (lookup_lt_is_Some_2 opss i) as [ops Eo]; [by rewrite (pg_len _ _ _ _ _ _ HP)|]. exists steps, ops.
    split_and!; try done; [by apply Hreq|by eapply (pg_ops _ _ _ _ _ _ HP)|by eapply Hfin|by eapply Hsd].
  - by apply (pg_rows _ _ _ _ _ _ HP).
  - intros r slot raw Hr Es. eapply cached_survive; try done. apply Ha, list_elem_of_omap. by exists r.
Qed.

End recompute.
