(* ===== verification/SegLaTensor.v ===== *)
(** * The states of SegLA layers as tensors

    A state [heads, key_dim, value_dim] over a commutative ring, as a function
    of its indices: the decay ([_pic_decay_for_length]) and the rotation of the
    key axis ([_pic_rotate_state_key_axis]) of
    srt/layers/attention/linear/lightning_backend.py, and the laws that the
    layer relies on. *)

From Stdlib Require Import Ring_theory Ring InitialRing FunctionalExtensionality.
From stdpp Require Import strings.
From S2P Require Import Prelude PyDict ConvTails GdnMeta RopeKV LightningPlan LightningForward LightningFacts LightningReFacts.

Section tensor.
Context {R : Type} (rO rI : R) (radd rmul rsub : R -> R -> R) (ropp : R -> R).
Context (Rth : ring_theory rO rI radd rmul rsub ropp (@eq R)).
Add Ring Rring : Rth.

Definition Tensor : Type := nat -> nat -> nat -> R.

(** [exp(-slope * n)] by head; the cos/sin cache, by position the cosines and
    then the sines. *)
Context (decay : nat -> Z -> R) (cos_sin_cache : list (list R)) (rotary_dim : nat) (is_neox : bool).

Definition cos_at (d : Z) (j : nat) : R :=
  let row := default [] (cos_sin_cache !! Z.to_nat (Z.abs d)) in default rO (take (length row / 2) row !! j).
Definition sin_at (d : Z) (j : nat) : R :=
  let row := default [] (cos_sin_cache !! Z.to_nat (Z.abs d)) in
  let s := default rO (drop (length row / 2) row !! j) in
  if d <? 0 then ropp s else s.

Definition t_zero : Tensor := fun _ _ _ => rO.
Definition t_add (a b : Tensor) : Tensor := fun h k v => radd (a h k v) (b h k v).
Definition t_decay (n : Z) (a : Tensor) : Tensor := fun h k v => rmul (a h k v) (decay h n).

Definition t_turn (d : Z) (a : Tensor) : Tensor := fun h k v =>
  if (k <? rotary_dim)%nat then
    if is_neox then
      let half := (rotary_dim / 2)%nat in
      if (k <? half)%nat then rsub (rmul (a h k v) (cos_at d k)) (rmul (a h (k + half)%nat v) (sin_at d k))
      else let j := (k - half)%nat in radd (rmul (a h k v) (cos_at d j)) (rmul (a h j v) (sin_at d j))
    else
      let j := (k / 2)%nat in
      if Nat.even k then rsub (rmul (a h k v) (cos_at d j)) (rmul (a h (k + 1)%nat v) (sin_at d j))
      else radd (rmul (a h k v) (cos_at d j)) (rmul (a h (k - 1)%nat v) (sin_at d j))
  else a h k v.

#[global] Instance tensor_alg : SegAlg Tensor :=
  {| sl_zero := t_zero; sl_add := t_add; sl_decay := t_decay; sl_turn := t_turn |}.

(** The exponential turns sums of lengths into products. *)
Record decay_ok : Prop := {
  dk_zero : forall h, decay h 0 = rI;
  dk_plus : forall h m n, 0 <= m -> 0 <= n -> decay h (m + n) = rmul (decay h m) (decay h n);
}.

(** The rows of the cache are points of the unit circle. *)
Record circle_ok : Prop := {
  ck_even : Nat.even rotary_dim = true;
  ck_unit : forall d j, 0 <= d < len cos_sin_cache -> (j < rotary_dim / 2)%nat ->
    radd (rmul (cos_at d j) (cos_at d j)) (rmul (sin_at d j) (sin_at d j)) = rI;
}.

Lemma cos_neg d j : cos_at (- d) j = cos_at d j.
Proof. unfold cos_at. by rewrite Z.abs_opp. Qed.

Lemma sin_neg d j : 0 < d -> sin_at (- d) j = ropp (sin_at d j).
Proof.
  intros Hd. unfold sin_at. rewrite Z.abs_opp. destruct (Z.ltb_spec (- d) 0), (Z.ltb_spec d 0); try lia. done.
Qed.

Lemma even_half : Nat.even rotary_dim = true -> rotary_dim = (rotary_dim / 2 + rotary_dim / 2)%nat.
Proof. intros He. apply Nat.even_spec in He as [m ->]. rewrite (Nat.mul_comm 2), Nat.div_mul by lia. lia. Qed.

(** The inverse in a plane: [c^2 + s^2 = 1]. *)
Lemma plane_fst x y c s : radd (rmul c c) (rmul s s) = rI ->
  rsub (rmul (rsub (rmul x c) (rmul y s)) c) (rmul (radd (rmul y c) (rmul x s)) (ropp s)) = x.
Proof. intros E. transitivity (rmul x (radd (rmul c c) (rmul s s))); [ring|rewrite E; ring]. Qed.
Lemma plane_snd x y c s : radd (rmul c c) (rmul s s) = rI ->
  radd (rmul (radd (rmul y c) (rmul x s)) c) (rmul (rsub (rmul x c) (rmul y s)) (ropp s)) = y.
Proof. intros E. transitivity (rmul y (radd (rmul c c) (rmul s s))); [ring|rewrite E; ring]. Qed.

Lemma t_turn_inv d a : circle_ok -> 0 < d < len cos_sin_cache -> t_turn (- d) (t_turn d a) = a.
Proof.
  intros [He Hu] Hd. extensionality h. extensionality k. extensionality v. pose proof (even_half He) as Hh.
  specialize (fun j => Hu d j ltac:(lia)). set (half := (rotary_dim / 2)%nat) in *. unfold t_turn. fold half.
  destruct (Nat.ltb_spec k rotary_dim) as [Hk|]; [|done]. destruct is_neox.
  - destruct (Nat.ltb_spec k half) as [Hkh|Hkh]; rewrite cos_neg, sin_neg by lia.
    + destruct (Nat.ltb_spec (k + half) rotary_dim); [|lia]. destruct (Nat.ltb_spec (k + half) half); [lia|].
      replace (k + half - half)%nat with k by lia. apply plane_fst. by apply Hu.
    + destruct (Nat.ltb_spec (k - half) rotary_dim); [|lia]. destruct (Nat.ltb_spec (k - half) half); [|lia].
      replace (k - half + half)%nat with k by lia. apply plane_snd. apply Hu. lia.
  - destruct (Nat.even k) eqn:Ek; rewrite cos_neg, sin_neg by lia.
    + apply Nat.even_spec in Ek as [m ->]. assert (Hm : (m < half)%nat) by lia.
      destruct (Nat.ltb_spec (2 * m + 1) rotary_dim); [|lia].
      replace (Nat.even (2 * m + 1)) with false by (rewrite Nat.add_1_r, Nat.even_succ, Nat.odd_mul; done).
      replace (2 * m + 1 - 1)%nat with (2 * m)%nat by lia.
      replace ((2 * m + 1) / 2)%nat with m by (symmetry; rewrite (Nat.mul_comm 2), Nat.div_add_l by lia; cbn; lia).
      rewrite (Nat.mul_comm 2 m), Nat.div_mul by lia. apply plane_fst. by apply Hu.
    + assert (Ho : Nat.odd k = true) by (by rewrite <- Nat.negb_even, Ek). apply Nat.odd_spec in Ho as [m ->].
      assert (Hm : (m < half)%nat) by lia. replace (2 * m + 1 - 1)%nat with (2 * m)%nat by lia.
      destruct (Nat.ltb_spec (2 * m) rotary_dim); [|lia].
      replace (Nat.even (2 * m)) with true by (by rewrite Nat.even_mul).
      replace ((2 * m + 1) / 2)%nat with m by (symmetry; rewrite (Nat.mul_comm 2), Nat.div_add_l by lia; cbn; lia).
      rewrite (Nat.mul_comm 2 m), Nat.div_mul by lia. apply plane_snd. by apply Hu.
Qed.

#[global] Instance tensor_laws : decay_ok -> circle_ok -> SegAlgLaws Tensor (len cos_sin_cache).
Proof.
  intros [Hd0 Hdp] Hc. split; cbn; intros.
  - extensionality h. extensionality k. extensionality v. unfold t_add. ring.
  - extensionality h. extensionality k. extensionality v. unfold t_add, t_zero. ring.
  - extensionality h. extensionality k. extensionality v. unfold t_add, t_zero. ring.
  - extensionality h. extensionality k. extensionality v. unfold t_decay. rewrite Hd0. ring.
  - extensionality h. extensionality k. extensionality v. unfold t_decay. rewrite Hdp by done. ring.
  - extensionality h. extensionality k. extensionality v. unfold t_decay, t_zero. ring.
  - extensionality h. extensionality k. extensionality v. unfold t_decay, t_add. ring.
  - extensionality h. extensionality k. extensionality v. unfold t_turn, t_zero. repeat case_match; ring.
  - extensionality h. extensionality k. extensionality v. unfold t_turn, t_add. repeat case_match; ring.
  - extensionality h. extensionality k. extensionality v. unfold t_turn, t_decay. repeat case_match; ring.
  - by apply t_turn_inv.
Qed.

End tensor.

(** ** An instance

    Integer states of one key pair, decay by powers of two, quarter turns; a
    token is its product, the kernel runs the recurrence. *)
Module Quarter.

Definition cache : list (list Z) := [[1; 0]; [0; 1]; [-1; 0]; [0; -1]; [1; 0]; [0; 1]].
Definition decay (_ : nat) (n : Z) : Z := 2 ^ n.
Definition St : Type := Tensor (R := Z).

#[global] Instance alg : SegAlg St := tensor_alg 0 Z.add Z.mul Z.sub Z.opp decay cache 2 true.

#[global] Instance laws : SegAlgLaws St 6.
Proof.
  apply (tensor_laws 0 1 Z.add Z.mul Z.sub Z.opp InitialRing.Zth).
  - split; [done|]. intros h m n Hm Hn. by apply Z.pow_add_r.
  - split; [done|]. intros d j Hd Hj. assert (j = 0)%nat as -> by (cbn in Hj; lia).
    assert (Hc : d = 0 \/ d = 1 \/ d = 2 \/ d = 3 \/ d = 4 \/ d = 5) by (unfold len in Hd; cbn in Hd; lia).
    by destruct Hc as [->|[->|[->|[->|[->| ->]]]]].
Qed.

#[global] Instance kernel : SegLaKernel St St unit := {|
  seg_la_fwd toks offs lens flags init :=
    (replicate (length toks) tt,
     imap (fun i h => match offs !! i, lens !! i, flags !! i with
                      | Some o, Some n, Some c =>
                          kv_run (take (Z.to_nat n) (drop (Z.to_nat o) toks)) (if 0 <? c then h else sl_zero)
                      | _, _, _ => h
                      end) init) |}.

#[global] Instance kernel_spec : SegLaSpec St St unit id.
Proof.
  split; cbn; intros; [apply length_imap|apply length_replicate|].
  rewrite list_lookup_imap, H2. cbn. by rewrite H, H0, H1, list_fmap_id.
Qed.

Definition ra : RopeArgs := mkRopeArgs true 6 true.

(** The product of a token with key [(x, y)] and value 1. *)
Definition kv (x y : Z) : St := fun _ k _ => if (k =? 0)%nat then x else y.

(** Tokens [0, 2) cached in slot 1, [2, 3) computed and cached in slot 2,
    [3, 4) computed; the request's state in slot 3. *)
Definition batch : LBatch :=
  mkLBatch (mkPicBatch 1 (Some [[(0, 2, [7])]]) (Some [[([7], 1)]]) [[(2, 3); (3, 4)]] (Some [[((2, 3), 2)]]) [3]) None.
Definition plan : LPlan :=
  mkLPlan [[HitStep 0 2 2 [7] [([7], 1)] None; MissStep 2 3 1 0; MissStep 3 4 1 1]]
    [mkMissRec 0 2 3 1 0 1 (Some 2) true; mkMissRec 0 3 4 1 1 2 None false] [None] 2.
Definition hit : list St := [kv 1 2; kv 3 4].
Definition toks : list St := [kv 5 6; kv 7 8].
Definition pool : LightState St := mkLight [kv 0 0; kv_run hit sl_zero; kv 9 9; kv 9 9] [].

(** The same request with position 0 of the cached segment recomputed. *)
Definition meta : RopeMeta := mkRopeMeta [] [] None (Some [((0, 2), [0])]).
Definition re_batch : LBatch := mkLBatch (lb_batch batch) (Some [meta]).
Definition re_plan : LPlan :=
  mkLPlan [[HitStep 0 2 2 [7] [([7], 1)] (Some [0]); MissStep 2 3 1 0; MissStep 3 4 1 1]]
    [mkMissRec 0 2 3 1 1 2 (Some 2) true; mkMissRec 0 3 4 1 2 3 None false] [Some [(0, 0); (2, 1); (3, 2)]] 3.
Definition re_rows : list PassRow := [mkPassRow true 0 [0] 1; mkPassRow false 0 [1] 1; mkPassRow false 0 [2] 1].
Definition re_prog : list Op := [SeedPoolThenLocal 0 0 1 0 2; SeedLocal 1; SeedLocal 2; Writeback 0].
Definition re_toks : list St := kv 1 2 :: toks.
Definition re_pool : LightState St := mkLight [kv 0 0; kv_run hit sl_zero; kv 9 9; sl_zero] [].

End Quarter.

(** The witness runs the layer: the request's state is that of the recurrence
    over its four tokens, and slot 2 holds its segment turned back to 0. *)
Lemma lightning_forward_correct_witness :
  exists s', snd (segla_forward_extend_pic_transition (Tok := Quarter.St) tt sl_zero Quarter.ra "seg_la" "transition_rope" 64 Quarter.batch [3] Quarter.toks Quarter.pool) = s' /\
    li_ssm s' !! 3%nat = Some (kv_run (Quarter.hit ++ Quarter.toks) sl_zero) /\
    loads s' 2 [sl_turn (-2) (Quarter.kv 5 6)].
Proof.
  pose proof (lightning_forward_correct (O := unit) tt sl_zero Quarter.ra id "transition_rope" 64 Quarter.batch Quarter.toks [3] (fun _ => Quarter.hit)
    Quarter.plan ([], []) Quarter.pool ltac:(done) ltac:(cbn; lia) eq_refl) as Hwp.
  eexists. split; [reflexivity|]. unfold wp in Hwp.
  destruct (segla_forward_extend_pic_transition tt sl_zero Quarter.ra "seg_la" "transition_rope" 64 Quarter.batch [3] Quarter.toks Quarter.pool) as [o s'].
  assert (Hr : light_ready (St := Quarter.St) Quarter.ra Quarter.plan [3] (fun _ => Quarter.hit) Quarter.pool).
  { split.
    - split; cbn; repeat constructor; try done; try set_solver; try (intros _; cbn; lia).
    - split; cbn; repeat constructor; try done; try set_solver.
    - cbn. repeat constructor. exists 1. split_and!; done.
    - cbn. intros st slot Hst Es. assert (slot = 1) as -> by (destruct st; cbn in Es; set_solver). set_solver.
    - cbn. set_solver. }
  specialize (Hwp Hr). destruct o as [out|e]; [|done]. destruct Hwp as (inits & _ & [Hreq Hca]). cbn [snd].
  destruct (Hreq 0%nat 3 eq_refl) as (steps & Est & _ & Ef & _). cbn in Est. injection Est as <-. split; [exact Ef|].
  refine (proj2 (Hca _ 2 [sl_turn (-2) (Quarter.kv 5 6)] ltac:(left) eq_refl _)).
  change ([Quarter.kv 5 6] = [sl_turn 2 (sl_turn (-2) (Quarter.kv 5 6))]). f_equal.
  extensionality h. extensionality k. extensionality v. destruct k as [|[|k]]; reflexivity.
Defined.

(** The witness runs the recompute mode: the cached segment counts once. *)
Lemma lightning_recompute_correct_witness :
  exists s', snd (segla_forward_extend_pic_transition (Tok := Quarter.St) tt sl_zero Quarter.ra "seg_la" "transition_rope_recompute" 64 Quarter.re_batch [3] Quarter.re_toks Quarter.re_pool) = s' /\
    li_ssm s' !! 3%nat = Some (kv_run (Quarter.hit ++ Quarter.toks) sl_zero).
Proof.
  pose proof (lightning_recompute_correct (O := unit) tt Quarter.ra id sl_zero 64 Quarter.re_batch [Quarter.meta] Quarter.re_toks [3]
    (fun _ => Quarter.hit) Quarter.re_plan Quarter.re_rows Quarter.re_prog Quarter.re_pool ltac:(cbn; lia)) as Hwp.
  eexists. split; [reflexivity|]. unfold wp in Hwp.
  destruct (segla_forward_extend_pic_transition tt sl_zero Quarter.ra "seg_la" "transition_rope_recompute" 64 Quarter.re_batch [3] Quarter.re_toks Quarter.re_pool) as [o s'].
  assert (Hm : metas_ok Quarter.re_batch [Quarter.meta]).
  { split; [done|]. intros i Hi. assert (i = 0)%nat as -> by (cbn in Hi; lia). split; [by eexists|]. by apply (bool_decide_unpack _). }
  assert (Hr : light_ready (St := Quarter.St) Quarter.ra Quarter.re_plan [3] (fun _ => Quarter.hit) Quarter.re_pool).
  { split.
    - split; cbn; repeat constructor; try done; try set_solver; try (intros _; cbn; lia).
    - split; cbn; repeat constructor; try done; try set_solver.
    - cbn. repeat constructor. exists 1. split_and!; done.
    - cbn. intros st slot Hst Es. assert (slot = 1) as -> by (destruct st; cbn in Es; set_solver). set_solver.
    - cbn. set_solver. }
  specialize (Hwp Hm eq_refl ltac:(done) Hr ltac:(by repeat constructor)). destruct o as [out|e]; [|done].
  destruct Hwp as (opss & h0 & _ & [Hreq _ _]). cbn [snd].
  destruct (Hreq 0%nat 3 eq_refl) as (steps & ops & Est & _ & _ & _ & Ef & _). cbn in Est. injection Est as <-. exact Ef.
Defined.
